(* ===== verification/_CoqProject ===== *)
-Q . S2P
Prelude.v
Types.v
Prng.v
RustStr.v
RustParse.v
Config.v
Crypto.v
Protocol.v
Frame.v
Traits.v
Fingerprint.v
System.v
Http.v
Process.v
ProcessSafety.v
ProcessThreads.v
ProcessSteps.v
ProcessReturn.v
ProcessLaws.v
Containerd.v
ContainerdText.v
ContainerdSafety.v
Volumes.v
Secrets.v
Worker.v
WorkerInv.v
Keeps.v
ContainerdLaws.v
Metrics.v
WorkerThreads.v
WorkerSafety.v
WorkerLiveness.v
Ownership.v
Reports.v
WorkerSpec.v
WorkerShutdown.v
RealIo.v
Connection.v
Agent.v
AgentSafety.v
AgentRetry.v
AgentOwnership.v
SimIo.v
SimRuntime.v
SimNetwork.v
SimChecker.v
SimControlPlane.v
Simulator.v
SimulatorSafety.v
SimRunner.v
Fuzz.v
FuzzSafety.v
WorkerExamples.v
LivenessExamples.v
AgentExamples.v
FuzzExamples.v
RuntimeExamples.v
OwnershipExamples.v
ReportsExamples.v
WorkerTests.v
ProtocolTests.v
SimulatorTests.v
RunnerTests.v
SimTests.v
ProcessTests.v
ContainerdTests.v
AgentTests.v
UnitTests.v
