(* ===== verification/Prelude.v ===== *)
(** * The Hivemind worker, verified

    Hivemind runs inference workloads on a fleet of GPU nodes.  A replicated control plane
    (Zig, [core/]) decides where pods run; on each node a worker (Rust, [worker/]) registers
    with the control plane over TCP, is told to start, probe and stop pods, drives a
    container runtime, forwards run requests to pods and reports what happens.  This library
    models the worker: the program that holds the node's resources and must never lose,
    leak or double-count a pod.  It covers the whole of [worker/src/], and runs its
    unit tests on the model.

    ** The parts and how they interact

    [Worker::tick] ([worker.rs]) is the centre: it drains the messages an [Io] delivers,
    handles each ([handle_start_pod], [handle_stop_pod], [handle_probe_pod],
    [handle_run_request]), drives every tracked pod through its life cycle with calls of a
    [Runtime] made on worker threads, mounts volumes, resolves secrets, sends heartbeats.
    [RealIo] implements [Io] over framed, optionally encrypted TCP; [ProcessRuntime] and
    [ContainerdRuntime] implement [Runtime].  [main.rs] connects to one replica after another,
    runs sessions, serves metrics and shuts down on a signal.  [sim/] replaces the network,
    the runtime and the control plane by deterministic ones and checks the worker while it
    injects faults; [bin/fuzz.rs] runs that for many seeds.

    ** Files

    - [Prelude]: results, panics, the state monad and its [wp], machine integers, sorting,
      slices, sums over maps.  [RustStr], [RustParse]: the methods of the Rust standard
      library the sources call (UTF-8, [lines], [trim], [parse], socket addresses).
    - [Types] ([types.rs], [message.rs], data of [runtime.rs]), [Prng] ([prng.rs]),
      [Traits] ([io.rs], [runtime.rs] as type classes; [Host], the operating system).
    - [Crypto] ([crypto.rs]), [Protocol] (the codecs of [protocol.rs]), [Frame] (its frame
      I/O), [RealIo] ([real_io.rs]); [Connection] the worker and its connection together.
    - [Volumes] ([volumes.rs]), [Secrets] ([secrets.rs]).
    - [Worker] ([worker.rs]: every handler, [drive_pods] with its phases and threads,
      retries, tombstones, shutdown); [WorkerInv] its invariant and life cycle;
      [Keeps] the rules for code that keeps an invariant; [WorkerThreads], [WorkerSafety],
      [WorkerLiveness], [Ownership], [Reports], [WorkerSpec], [WorkerShutdown] its theorems.
    - [System] (what the real runtimes ask of the operating system, with laws), [Http]
      (probes and run requests), [Process], [ProcessSafety], [ProcessThreads], [ProcessSteps],
      [ProcessReturn], [ProcessLaws] ([runtime/process.rs]), [Containerd], [ContainerdText], [ContainerdSafety],
      [ContainerdLaws] ([runtime/containerd.rs]); the two [Laws] files make them instances of
      the [Runtime] class the worker is written against.
    - [Config], [Agent], [AgentSafety], [AgentRetry], [AgentOwnership] ([main.rs]), [Fingerprint]
      ([fingerprint.rs]), [Metrics] ([metrics.rs]).
    - [SimIo], [SimRuntime], [SimNetwork], [SimChecker], [SimControlPlane], [Simulator],
      [SimulatorSafety], [SimRunner] ([sim/]); [Fuzz], [FuzzSafety] ([bin/fuzz.rs]).
    - [WorkerExamples], [LivenessExamples], [AgentExamples], [FuzzExamples], [RuntimeExamples],
      [OwnershipExamples], [ReportsExamples]: concrete runs, instances of every interface, and the
      theorems applied to them.
    - [WorkerTests], [ProtocolTests], [SimulatorTests], [RunnerTests], [SimTests], [ProcessTests],
      [ContainerdTests], [AgentTests], [UnitTests]: the unit tests of the sources with their
      doubles, as programs over the definitions above; each file ends with the lemma that
      they pass.

    ** How code becomes definitions

    A function that changes state is a term of [M S A], state passing with panics: a failed
    [assert!], [expect], index or unchecked [+] is [Panic] with its message, so a run without
    a panic is also one in which nothing overflows.  [Result] is [result].  A [uN] is a [Z]
    with its bounds in the invariants and its wrap-around written out where the source wraps.
    A [HashMap] is a [gmap]; where its iteration order could show, the source sorts and so does
    the model.  The worker threads of [drive_pods] interleave through an arbitrary schedule;
    one runtime call is one step.  Inside the process runtime, [ProcessSteps] has the
    operations as programs whose steps are single system calls and locked regions, and
    threads interleave between any two; [ProcessThreads] is what they look like from the
    process map and the port lock.  The process of [main.rs] logs its own system calls
    ([ag_calls]), so that what it connects to and how long it sleeps can be stated.

    Code outside the repository is a parameter: the AEAD and key derivation ([Aead]), the
    operating system ([Host], [System]), the node ([Node]: host name, NVML), sockets
    (scripts of events), the formatting of strings by [{:?}].  The laws assumed of them
    ([AeadLaws], [IoLaws], [SystemLaws], [ClockLaws], [CtrLaws], [credential_store], [untouched])
    are documented behaviour of those parts and each has an instance in the examples.

    Recursion that is not structural has fuel, and the theorems show it is enough: [tick]
    needs one unit more than the [Io] has messages pending ([TICK_FUEL], [QUEUE_FUEL] = 257,
    one more than a queue holds); [recv] one per event and byte of the socket's script;
    [run_threads] two steps per operation; [TERM_FUEL] and [STOP_FUEL] the polls in 30 s of
    grace, [KILL_FUEL] those in 2 s; the agent's loops one per load of the shutdown flag up
    to the signal.

    ** What the theorems show

    - The worker keeps its invariant through every tick, over every [Io], runtime, host and
      schedule; the resource counters are exactly the sums over live pods and never exceed
      the node; in a tick every slot lives one life at most ([one_life]): a pod moves along the
      life cycle and is not replaced; under a runtime and volumes that do not fail
      an accepted pod runs after three ticks; stops complete only when verified; over every
      runtime that meets [RuntimeLaws], which the simulated, the process and the containerd
      runtime do, no container is ever running that no tracked pod accounts for; admission,
      routing, retry, pruning and shutdown behave as specified on every branch.
    - The worker refines the life cycle as the control plane sees it ([pod_says] in [Reports]):
      over any number of ticks, what it sent about a pod is a trace of that specification, over
      every [Io] that keeps a log ([IoLog]; [Recorded] makes any [Io] keep one).  The last report
      on a pod is its state, except for a pod being stopped, which is not announced.  These
      histories end where shutdown begins.  Over TCP ([Connection]) the bytes on the socket
      decode to those messages, in order, all of them while the connection is up.
    - The codecs and frames round-trip, are total on arbitrary bytes, and the incremental and
      the blocking decoder agree; the TCP connection reassembles any split of the stream.
    - The runtimes answer [Ok] only on evidence, always end, never share ports, never touch
      another pod's containers, never adopt a container of another workload, leave no
      credentials on disk unless their removal itself fails; the threads of the process
      runtime neither deadlock nor panic nor lose a process, whatever their schedule.
    - The process ends once signalled, and exit code 0 means that nothing is left behind and
      nothing is left running in the runtime; it tries the replicas in turn and waits between
      attempts as long as its back-off says.  These theorems, and those on reachable workers,
      are about nodes whose capacities are below the maxima of their types.
    - The simulation is safe, its verdicts mean what they say, its network delivers in order
      within sessions; the fuzzer tests every seed and its exit status is the verdict.
    - The definitions answer as the code does where its authors pinned it down: 193 of the 205
      unit tests, the plaintext vectors of [tests/wire/contract-v6.json] among them, pass by
      computation.
    - Where the code falls short of what it means to do, a theorem says so:
      [drive_panics_without_room], [shutdown_revives_tombstone],
      [admission_overflows_at_type_maximum], [checker_false_alarm],
      [from_hex_panics_on_multibyte_key], [redaction_leaks_password_with_username],
      [workstation_cards_taken_for_datacenter_cards], [overlayfs_flag_loses_to_environment].

    ** Not modelled

    Messages on standard error and tracing spans; the Python server a process pod runs (only
    the values put into it).  Eight unit tests: two overlap calls in time, one compares
    addresses, three are about the Python server or the HTTP crate, two repeat a run and
    compare it with itself.  Four more, long simulations, are translated but evaluated only by
    hand ([long_runner_tests]); the encrypted contract vector needs the real cipher.  The control plane ([core/], Zig), the API server
    and benchmarks ([api/], [bench/], Go) and the deployment scripts are other programs.
    A container that [ctr containers create] made although it failed or timed out has no
    task, so it does not run, and is not counted as owned. *)

From Stdlib Require Export ZArith Lia String Ascii Permutation Sorted.
From stdpp Require Export base gmap list strings pretty.

#[global] Open Scope Z_scope.
#[export] Set Default Goal Selector "!".

(** ** Results, panics and the worker's state monad *)

(** Rust's [Result<A, E>]. *)
Inductive result (A E : Type) : Type :=
| Ok (a : A)
| Err (e : E).
Arguments Ok {A E} a.
Arguments Err {A E} e.

Definition result_is_ok {A E} (r : result A E) : bool :=
  match r with Ok _ => true | Err _ => false end.

Definition result_map {A B E} (f : A → B) (r : result A E) : result B E :=
  match r with Ok a => Ok (f a) | Err e => Err e end.

Definition result_map_err {A E F} (f : E → F) (r : result A E) : result A F :=
  match r with Ok a => Ok a | Err e => Err (f e) end.

(** [Option::ok_or]. *)
Definition ok_or {A E} (e : E) (o : option A) : result A E :=
  match o with Some a => Ok a | None => Err e end.

(** The [?] operator. *)
Definition result_bind {A B E} (f : A → result B E) (r : result A E) : result B E :=
  match r with Ok a => f a | Err e => Err e end.

Declare Scope rust_scope.
Delimit Scope rust_scope with rust.
#[global] Open Scope rust_scope.

Notation "'let?' x := r 'in' k" := (result_bind (λ x, k) r)
  (at level 10, x pattern, r at level 100, k at level 200) : rust_scope.

#[global] Instance result_eq_dec {A E} `{EqDecision A, EqDecision E} :
  EqDecision (result A E).
Proof. solve_decision. Defined.

(** What a call does: it returns, or it panics with a message
    ([panic!], a failed [assert!], [expect], an index out of range, an
    arithmetic overflow under overflow checks). *)
Inductive outcome (A : Type) : Type :=
| Done (a : A)
| Panic (msg : string).
Arguments Done {A} a.
Arguments Panic {A} msg.

Definition outcome_bind {A B} (f : A → outcome B) (o : outcome A) : outcome B :=
  match o with Done a => f a | Panic m => Panic m end.

Notation "'let!' x := o 'in' k" := (outcome_bind (λ x, k) o)
  (at level 10, x pattern, o at level 100, k at level 200) : rust_scope.

(** [assert!(b, msg)] outside the state monad. *)
Definition assert_or {A} (b : bool) (msg : string) (k : outcome A) : outcome A :=
  if b then k else Panic msg.

(** [returns o Q]: the call returns, with a result in [Q]; it does not panic. *)
Definition returns {A} (o : outcome A) (Q : A → Prop) : Prop :=
  match o with Done a => Q a | Panic _ => False end.

Lemma returns_bind {A B} (o : outcome A) (f : A → outcome B) Q :
  returns o (λ a, returns (f a) Q) → returns (outcome_bind f o) Q.
Proof. by destruct o. Qed.

Lemma returns_mono {A} (o : outcome A) (Q Q' : A → Prop) :
  returns o Q → (∀ a, Q a → Q' a) → returns o Q'.
Proof. destruct o; simpl; auto. Qed.

Lemma returns_Done {A} (a : A) (Q : A → Prop) : Q a → returns (Done a) Q.
Proof. done. Qed.

Lemma returns_elim {A} (o : outcome A) Q : returns o Q → ∃ a, o = Done a ∧ Q a.
Proof. destruct o; simpl; [eauto|done]. Qed.

(** Stateful code that may panic. *)
Definition M (S A : Type) : Type := S → outcome (A * S).

Section monad.
  Context {S : Type}.

Definition ret {A} (a : A) : M S A := λ s, Done (a, s).
Definition bind {A B} (m : M S A) (f : A → M S B) : M S B :=
  λ s, match m s with Done (a, s') => f a s' | Panic e => Panic e end.
Definition get : M S S := λ s, Done (s, s).
Definition put (s : S) : M S unit := λ _, Done (tt, s).
Definition modify (f : S → S) : M S unit := λ s, Done (tt, f s).
Definition panic {A} (msg : string) : M S A := λ _, Panic msg.
Definition assert (b : bool) (msg : string) : M S unit :=
  if b then ret tt else panic msg.
(** [Option::expect]. *)
Definition expect {A} (o : option A) (msg : string) : M S A :=
  match o with Some a => ret a | None => panic msg end.
Definition when (b : bool) (m : M S unit) : M S unit := if b then m else ret tt.
(** [for x in l { body(x) }] (a [continue] is an early [ret tt]). *)
Fixpoint for_each {A} (l : list A) (body : A → M S unit) : M S unit :=
  match l with
  | [] => ret tt
  | x :: l' => bind (body x) (λ _, for_each l' body)
  end.

(** A loop that pushes onto a [Vec]: what the rounds push, in order. *)
Fixpoint for_collect {A B} (l : list A) (body : A → M S (list B)) : M S (list B) :=
  match l with
  | [] => ret []
  | x :: l' => bind (body x) (λ bs, bind (for_collect l' body) (λ cs, ret (bs ++ cs)))
  end.

End monad.

Notation "'let*' x := m 'in' k" := (bind m (λ x, k))
  (at level 10, x pattern, m at level 100, k at level 200) : rust_scope.
Notation "m ;;; k" := (bind m (λ _, k))
  (at level 100, k at level 100, right associativity) : rust_scope.

(** ** Weakest preconditions

    [wp P m Q s]: run from [s], [m] either returns a value and a state that
    satisfy [Q], or it panics with a message allowed by [P].  With [P := λ _,
    False] this is total correctness: no panic. *)
Definition wp {S A} (P : string → Prop) (m : M S A) (Q : A → S → Prop) (s : S) : Prop :=
  match m s with Done (a, s') => Q a s' | Panic e => P e end.

Section wp.
  Context {S : Type} (P : string → Prop).
  Implicit Types s : S.

Lemma wp_ret {A} (a : A) Q s : Q a s → wp P (ret a) Q s.
Proof. done. Qed.

Lemma wp_bind {A B} (m : M S A) (f : A → M S B) Q s :
  wp P m (λ a, wp P (f a) Q) s → wp P (bind m f) Q s.
Proof. unfold wp, bind. destruct (m s) as [[a s']|e]; auto. Qed.

Lemma wp_mono {A} (m : M S A) (Q Q' : A → S → Prop) s :
  wp P m Q s → (∀ a s', Q a s' → Q' a s') → wp P m Q' s.
Proof. unfold wp. destruct (m s) as [[a s']|e]; auto. Qed.

Lemma wp_weaken {A} (P' : string → Prop) (m : M S A) Q s :
  wp P m Q s → (∀ e, P e → P' e) → wp P' m Q s.
Proof. unfold wp. destruct (m s) as [[a s']|e]; auto. Qed.

Lemma wp_get Q s : Q s s → wp P get Q s.
Proof. done. Qed.

Lemma wp_put t Q s : Q tt t → wp P (put t) Q s.
Proof. done. Qed.

Lemma wp_modify f Q s : Q tt (f s) → wp P (modify f) Q s.
Proof. done. Qed.

Lemma wp_assert b msg Q s : b = true → Q tt s → wp P (assert b msg) Q s.
Proof. by intros ->. Qed.

Lemma wp_expect {A} (o : option A) msg (Q : A → S → Prop) a s :
  o = Some a → Q a s → wp P (expect o msg) Q s.
Proof. by intros ->. Qed.

Lemma wp_when b (m : M S unit) Q s :
  (b = true → wp P m Q s) → (b = false → Q tt s) → wp P (when b m) Q s.
Proof. destruct b; intros H1 H2; [by apply H1 | by apply H2]. Qed.

(** Loop rule: the invariant is indexed by what is left to do. *)
Lemma wp_for_each {A} (body : A → M S unit) (I : list A → S → Prop) l s :
  I l s →
  (∀ x l' s', I (x :: l') s' → wp P (body x) (λ _, I l') s') →
  wp P (for_each l body) (λ _, I []) s.
Proof.
  intros HI Hstep. revert s HI. induction l as [|x l IH]; intros s HI; simpl; [done|].
  apply wp_bind. eapply wp_mono; [by apply Hstep|]. eauto.
Qed.

(** The same rule for a collecting loop; [R] is what is known of each pushed item. *)
Lemma wp_for_collect {A B} (body : A → M S (list B)) (I : list A → S → Prop) (R : B → Prop) l s :
  I l s →
  (∀ x l' s', I (x :: l') s' → wp P (body x) (λ bs s'', I l' s'' ∧ Forall R bs) s') →
  wp P (for_collect l body) (λ bs s', I [] s' ∧ Forall R bs) s.
Proof.
  intros HI Hstep. revert s HI. induction l as [|x l IH]; intros s HI; simpl; [by split|].
  apply wp_bind. eapply wp_mono; [by apply Hstep|]. intros bs s' [HI' Hbs].
  apply wp_bind. eapply wp_mono; [by apply IH|]. intros cs s'' [HI'' Hcs].
  apply wp_ret. split; [done|]. by apply Forall_app.
Qed.

Lemma for_collect_app {A B} (body : A → M S (list B)) l l' s :
  for_collect (l ++ l') body s =
  match for_collect l body s with
  | Done (bs, s') =>
    match for_collect l' body s' with Done (cs, s'') => Done (bs ++ cs, s'') | Panic e => Panic e end
  | Panic e => Panic e
  end.
Proof.
  revert s. induction l as [|x l IH]; intros s; cbn [app for_collect]; unfold bind, ret.
  - by destruct (for_collect l' body s) as [[]|].
  - destruct (body x s) as [[bs s1]|]; [|done]. rewrite IH. destruct (for_collect l body s1) as [[cs s2]|]; [|done].
    destruct (for_collect l' body s2) as [[ds s3]|]; [|done]. by rewrite (assoc_L (++)).
Qed.

(** A failed run is one of the allowed panics; a finished one meets [Q]. *)
Lemma wp_run {A} (m : M S A) Q s :
  wp P m Q s ↔ (∃ a s', m s = Done (a, s') ∧ Q a s') ∨ (∃ e, m s = Panic e ∧ P e).
Proof.
  unfold wp. destruct (m s) as [[a s']|e]; split.
  - intros HQ. left. by exists a, s'.
  - by intros [(? & ? & ? & ?)|(? & ? & ?)]; simplify_eq.
  - intros HP. right. by exists e.
  - by intros [(? & ? & ? & ?)|(? & ? & ?)]; simplify_eq.
Qed.

End wp.

Create HintDb wpdb.
#[export] Hint Resolve wp_ret wp_get wp_put wp_modify : wpdb.

(** One step of symbolic execution through the monad. *)
Ltac wp_step :=
  lazymatch goal with
  | |- wp _ (bind _ _) _ _ => apply wp_bind
  | |- wp _ (ret _) _ _ => apply wp_ret
  | |- wp _ get _ _ => apply wp_get
  | |- wp _ (put _) _ _ => apply wp_put
  | |- wp _ (modify _) _ _ => apply wp_modify
  end.
Ltac wp_steps := repeat (wp_step; cbn beta).

(** ** Machine integers

    A [uN] is a [Z] kept in [0 .. 2^N); the operations below are the ones the
    sources call.  An unchecked [+] that would leave the type is a panic
    ([add_overflow]), so a run without panics is also a run in which a release
    build never wraps. *)
Definition U8_MAX : Z := 255.
Definition U16_MAX : Z := 65535.
Definition U32_MAX : Z := 4294967295.
Definition U64_MAX : Z := 18446744073709551615.

Definition in_range (max x : Z) : Prop := 0 ≤ x ≤ max.
Abbreviation is_u8 := (in_range U8_MAX).
Abbreviation is_u16 := (in_range U16_MAX).
Abbreviation is_u32 := (in_range U32_MAX).
Abbreviation is_u64 := (in_range U64_MAX).
Definition is_i32 (x : Z) : Prop := -2147483648 ≤ x ≤ 2147483647.

Definition sat_add (max a b : Z) : Z := Z.min max (a + b).
Definition sat_sub (a b : Z) : Z := Z.max 0 (a - b).
Definition sat_mul (max a b : Z) : Z := Z.min max (a * b).
Definition checked_add (max a b : Z) : option Z :=
  if a + b <=? max then Some (a + b) else None.
Definition clamp (lo hi x : Z) : Z := Z.max lo (Z.min hi x).
Definition wrap64 (x : Z) : Z := x mod 2 ^ 64.

(** [a + b] and [a - b] on a type with maximum [max]. *)
Definition add_overflow {S} (max a b : Z) : M S Z :=
  if a + b <=? max then ret (a + b) else panic "attempt to add with overflow".

Lemma wp_add_overflow {S} P (max a b : Z) (Q : Z → S → Prop) s :
  a + b ≤ max → Q (a + b) s → wp P (add_overflow max a b) Q s.
Proof. intros H HQ. unfold add_overflow. by rewrite (proj2 (Z.leb_le _ _) H). Qed.

Lemma in_range_intro max x : 0 ≤ x → x ≤ max → in_range max x.
Proof. by split. Qed.

Ltac unfold_ints :=
  unfold in_range, is_i32, sat_add, sat_sub, sat_mul, clamp,
    U8_MAX, U16_MAX, U32_MAX, U64_MAX in *.
Ltac int_lia := unfold_ints; lia.

Create HintDb intdb.
#[export] Hint Extern 1 (in_range _ _) => int_lia : intdb.

(** Runs of known parts. *)
Lemma bind_done {S A B} (m : M S A) (f : A → M S B) s a s' :
  m s = Done (a, s') → bind m f s = f a s'.
Proof. unfold bind. by intros ->. Qed.

Lemma when_false {S} b (m : M S unit) s : b = false → when b m s = Done (tt, s).
Proof. by intros ->. Qed.

(** ** Indexing, and partial correctness *)

(** [v[i]]. *)
Definition index {S A} (l : list A) (i : nat) : M S A := expect (l !! i) "index out of bounds".

(** Partial correctness: panics are allowed. *)
Abbreviation any_panic := (λ _ : string, True).

Lemma index_done {S A} (l : list A) i a (s : S) : l !! i = Some a → index l i s = Done (a, s).
Proof. unfold index, expect. by intros ->. Qed.

Lemma wp_index {S A} P (l : list A) i (Q : A → S → Prop) s :
  P "index out of bounds"%string → (∀ a, l !! i = Some a → Q a s) → wp P (index l i) Q s.
Proof. intros HP HQ. unfold index, wp, expect. destruct (l !! i); [by apply HQ|done]. Qed.

Lemma wp_any_add {S} max a b (Q : Z → S → Prop) s : Q (a + b) s → wp any_panic (add_overflow max a b) Q s.
Proof. unfold wp, add_overflow. intros HQ. by destruct (a + b <=? max). Qed.

Lemma wp_any_assert {S} b msg (Q : unit → S → Prop) s : Q tt s → wp any_panic (assert b msg) Q s.
Proof. unfold wp, assert. by destruct b. Qed.

Lemma wp_any_bind {S A B} (m : M S A) (f : A → M S B) Q s :
  (∀ a s', wp any_panic (f a) Q s') → wp any_panic (bind m f) Q s.
Proof. intros Hf. apply wp_bind. unfold wp at 1. destruct (m s) as [[]|]; [apply Hf|done]. Qed.

(** What a run is known to reach if it does not panic may be added to what it reaches. *)
Lemma wp_and {S A} P (m : M S A) (Q Q' : A → S → Prop) s :
  wp P m Q s → wp any_panic m Q' s → wp P m (λ a s', Q a s' ∧ Q' a s') s.
Proof. unfold wp. by destruct (m s) as [[a s']|e]. Qed.

(** A run that may panic says something of the runs that do not. *)
Lemma wp_any_done {S A} (m : M S A) (Q : A → S → Prop) s a s' :
  wp any_panic m Q s → m s = Done (a, s') → Q a s'.
Proof. unfold wp. intros Hw E. by rewrite E in Hw. Qed.

(** ** Slices *)

(** [&l[i..j]]. *)
Definition slice {A} (i j : nat) (l : list A) : list A := take (j - i) (drop i l).

(** [l[i..i+len(xs)].copy_from_slice(xs)]; in range in every use below. *)
Definition splice {A} (i : nat) (xs l : list A) : list A :=
  take i l ++ xs ++ drop (i + length xs) l.

Lemma length_slice {A} i j (l : list A) :
  (i ≤ j)%nat → (j ≤ length l)%nat → length (slice i j l) = (j - i)%nat.
Proof. intros. unfold slice. rewrite length_take, length_drop. lia. Qed.

Lemma length_splice {A} i (xs l : list A) :
  (i + length xs ≤ length l)%nat → length (splice i xs l) = length l.
Proof.
  intros. unfold splice. rewrite !length_app, length_take, length_drop. lia.
Qed.

Lemma slice_splice_same {A} i j (xs l : list A) :
  j = (i + length xs)%nat → (j ≤ length l)%nat → slice i j (splice i xs l) = xs.
Proof.
  intros -> Hl. unfold slice, splice.
  rewrite drop_app_ge by (rewrite length_take; lia).
  rewrite length_take, Nat.min_l by lia.
  replace (i - i)%nat with 0%nat by lia. rewrite drop_0.
  rewrite take_app_le by lia. rewrite take_ge; [done|lia].
Qed.

Lemma slice_splice_before {A} i a b (xs l : list A) :
  (a ≤ b)%nat → (b ≤ i)%nat → (i ≤ length l)%nat →
  slice a b (splice i xs l) = slice a b l.
Proof.
  intros Hab Hbi Hl. unfold slice, splice.
  rewrite drop_app_le by (rewrite length_take; lia).
  rewrite take_app_le by (rewrite length_drop, length_take; lia).
  rewrite skipn_firstn_comm, take_take. f_equal. lia.
Qed.

Lemma slice_splice_after {A} i a b (xs l : list A) :
  (i + length xs ≤ a)%nat → (a ≤ b)%nat → (i + length xs ≤ length l)%nat →
  slice a b (splice i xs l) = slice a b l.
Proof.
  intros Hia Hab Hl. unfold slice, splice. f_equal.
  rewrite drop_app_ge by (rewrite length_take; lia).
  rewrite length_take, Nat.min_l by lia.
  rewrite drop_app_ge by lia.
  rewrite drop_drop. f_equal. lia.
Qed.

Lemma slice_full {A} n (l : list A) : length l = n → slice 0 n l = l.
Proof. intros <-. unfold slice. rewrite drop_0, take_ge; [done|lia]. Qed.

(** ** Sorting

    [sort_by leb] is a stable sort ([sort_by_key], and [sort_unstable] on keys
    without duplicates). *)
Section sorting.
  Context {A : Type} (leb : A → A → bool).

Fixpoint insert_by (x : A) (l : list A) : list A :=
  match l with
  | [] => [x]
  | y :: l' => if leb x y then x :: y :: l' else y :: insert_by x l'
  end.

Definition sort_by (l : list A) : list A := foldr insert_by [] l.

Lemma insert_by_perm x l : Permutation (insert_by x l) (x :: l).
Proof.
  induction l as [|y l IH]; simpl; [done|].
  destruct (leb x y); [done|]. rewrite IH. apply perm_swap.
Qed.

Lemma sort_by_perm l : Permutation (sort_by l) l.
Proof.
  induction l as [|x l IH]; simpl; [done|]. rewrite insert_by_perm. by constructor.
Qed.

Lemma elem_of_sort_by x l : x ∈ sort_by l ↔ x ∈ l.
Proof. by rewrite sort_by_perm. Qed.

Lemma length_sort_by l : length (sort_by l) = length l.
Proof. apply Permutation_length, sort_by_perm. Qed.

Lemma NoDup_sort_by l : NoDup l → NoDup (sort_by l).
Proof. by rewrite sort_by_perm. Qed.

Hypothesis leb_total : ∀ x y, leb x y = true ∨ leb y x = true.
Hypothesis leb_trans : ∀ x y z, leb x y = true → leb y z = true → leb x z = true.

Lemma insert_by_sorted x l :
  StronglySorted (λ a b, leb a b = true) l →
  StronglySorted (λ a b, leb a b = true) (insert_by x l).
Proof.
  induction 1 as [|y l Hs IH Hall]; simpl; [repeat constructor|].
  destruct (leb x y) eqn:E.
  - constructor; [by constructor|]. constructor; [done|].
    eapply Forall_impl; [exact Hall|]. intros z Hz. simpl in *. eauto.
  - constructor; [done|]. rewrite insert_by_perm. constructor; [|done].
    destruct (leb_total x y); congruence.
Qed.

Lemma sort_by_sorted l : StronglySorted (λ a b, leb a b = true) (sort_by l).
Proof. induction l; simpl; [constructor|by apply insert_by_sorted]. Qed.

End sorting.

(** Lexicographic order on pairs, the derived [Ord] of a Rust tuple. *)
Definition lex_leb (x y : Z * Z) : bool :=
  (x.1 <? y.1) || ((x.1 =? y.1) && (x.2 <=? y.2)).

Lemma lex_leb_total x y : lex_leb x y = true ∨ lex_leb y x = true.
Proof. unfold lex_leb. destruct x, y; simpl. lia. Qed.

Lemma lex_leb_trans x y z :
  lex_leb x y = true → lex_leb y z = true → lex_leb x z = true.
Proof. unfold lex_leb. destruct x, y, z; simpl. lia. Qed.

(** ** Finite maps as hash maps *)

Definition values {K A} `{Countable K} (m : gmap K A) : list A := (map_to_list m).*2.
Definition keys {K A} `{Countable K} (m : gmap K A) : list K := (map_to_list m).*1.

(** [iter().map(f).sum()]. *)
Definition sum_with {A} (f : A → Z) (l : list A) : Z := foldr (λ x acc, f x + acc) 0 l.

Definition map_sum {K A} `{Countable K} (f : A → Z) (m : gmap K A) : Z :=
  sum_with f (values m).

Definition count_of {A} (p : A → bool) (x : A) : Z := if p x then 1 else 0.

Lemma sum_with_perm {A} (f : A → Z) l l' :
  Permutation l l' → sum_with f l = sum_with f l'.
Proof. induction 1; simpl in *; lia. Qed.

Lemma sum_with_app {A} (f : A → Z) l l' :
  sum_with f (l ++ l') = sum_with f l + sum_with f l'.
Proof. induction l; simpl; lia. Qed.

Lemma sum_with_ext {A} (f g : A → Z) l :
  (∀ x, x ∈ l → f x = g x) → sum_with f l = sum_with g l.
Proof.
  induction l as [|x l IH]; intros H; simpl; [done|].
  rewrite H by set_solver. rewrite IH; [done|]. set_solver.
Qed.

Lemma sum_with_filter {A} (p : A → bool) (f : A → Z) l :
  sum_with f (filter (λ x, p x = true) l) = sum_with (λ x, if p x then f x else 0) l.
Proof.
  induction l as [|x l IH]; [done|]. rewrite filter_cons. simpl.
  destruct (p x); simpl; lia.
Qed.

Lemma sum_with_count {A} (p : A → bool) l :
  sum_with (count_of p) l = Z.of_nat (length (filter (λ x, p x = true) l)).
Proof.
  induction l as [|x l IH]; [done|]. rewrite filter_cons. unfold count_of in *. simpl.
  destruct (p x); simpl; lia.
Qed.

Lemma sum_with_fmap {A B} (f : B → Z) (g : A → B) l :
  sum_with f (g <$> l) = sum_with (λ x, f (g x)) l.
Proof. induction l as [|x l IH]; [done|]. rewrite fmap_cons. simpl. by rewrite IH. Qed.

Lemma sum_with_plus {A} (f g : A → Z) l :
  sum_with (λ x, f x + g x) l = sum_with f l + sum_with g l.
Proof. induction l; simpl; lia. Qed.

Section map_sum.
  Context {K A : Type} `{Countable K} (f : A → Z).
  Implicit Types m : gmap K A.

Lemma elem_of_values m x : x ∈ values m ↔ ∃ k, m !! k = Some x.
Proof.
  unfold values. rewrite list_elem_of_fmap. split.
  - intros [[k y] [-> Hk]]. exists k. by apply elem_of_map_to_list.
  - intros [k Hk]. exists (k, x). by rewrite elem_of_map_to_list.
Qed.

Lemma elem_of_keys m k : k ∈ keys m ↔ is_Some (m !! k).
Proof.
  unfold keys. rewrite list_elem_of_fmap. split.
  - intros [[k' y] [-> Hk]]. exists y. by apply elem_of_map_to_list.
  - intros [y Hk]. exists (k, y). by rewrite elem_of_map_to_list.
Qed.

Lemma NoDup_keys m : NoDup (keys m).
Proof. apply NoDup_fst_map_to_list. Qed.

Lemma length_keys m : length (keys m) = size m.
Proof. unfold keys. by rewrite length_fmap, length_map_to_list. Qed.

Lemma length_values m : length (values m) = size m.
Proof. unfold values. by rewrite length_fmap, length_map_to_list. Qed.

Lemma map_sum_empty : map_sum f (∅ : gmap K A) = 0.
Proof. unfold map_sum, values. by rewrite map_to_list_empty. Qed.

Lemma map_sum_insert m k x :
  m !! k = None → map_sum f (<[k:=x]> m) = f x + map_sum f m.
Proof.
  intros Hk. unfold map_sum, values.
  erewrite sum_with_perm; [|by rewrite map_to_list_insert]. done.
Qed.

Lemma map_sum_delete m k x :
  m !! k = Some x → map_sum f (delete k m) = map_sum f m - f x.
Proof.
  intros Hk. rewrite <-(insert_delete_id m k x Hk) at 2.
  rewrite map_sum_insert by apply lookup_delete_eq. lia.
Qed.

Lemma map_sum_update m k x y :
  m !! k = Some x → map_sum f (<[k:=y]> m) = map_sum f m - f x + f y.
Proof.
  intros Hk. rewrite <-insert_delete_eq.
  rewrite map_sum_insert by apply lookup_delete_eq.
  rewrite (map_sum_delete m k x Hk). lia.
Qed.

Lemma map_sum_nonneg m : (∀ k x, m !! k = Some x → 0 ≤ f x) → 0 ≤ map_sum f m.
Proof.
  intros Hf. unfold map_sum.
  assert (Hl : ∀ x, x ∈ values m → 0 ≤ f x).
  { intros x [k Hk]%elem_of_values. eauto. }
  revert Hl. generalize (values m). induction l as [|x l IH]; intros Hl; simpl; [lia|].
  assert (0 ≤ f x) by (apply Hl; set_solver).
  assert (0 ≤ sum_with f l) by (apply IH; set_solver). lia.
Qed.

Lemma map_sum_lookup_le m k x :
  (∀ k x, m !! k = Some x → 0 ≤ f x) → m !! k = Some x → f x ≤ map_sum f m.
Proof.
  intros Hf Hk. pose proof (map_sum_delete m k x Hk).
  assert (0 ≤ map_sum f (delete k m)).
  { apply map_sum_nonneg. intros k' x' [_ ?]%lookup_delete_Some. eauto. }
  lia.
Qed.

End map_sum.

(** Summing over the keys, through the map. *)
Lemma sum_with_keys {K A} `{Countable K} (f : A → Z) (m : gmap K A) :
  sum_with (λ k, match m !! k with Some x => f x | None => 0 end) (keys m) = map_sum f m.
Proof.
  unfold map_sum, keys, values. rewrite !sum_with_fmap. apply sum_with_ext.
  intros [k x] Hk%elem_of_map_to_list. simpl. by rewrite Hk.
Qed.

Lemma map_sum_ext {K A} `{Countable K} (f g : A → Z) (m : gmap K A) :
  (∀ k x, m !! k = Some x → f x = g x) → map_sum f m = map_sum g m.
Proof. intros Hfg. apply sum_with_ext. intros x [k Hk]%elem_of_values. eauto. Qed.

(** A count is the number of keys it counts. *)
Lemma map_sum_count_dom {K A} `{Countable K} (p : A → bool) (m : gmap K A) :
  map_sum (count_of p) m = Z.of_nat (size (dom (filter (λ kx, p kx.2 = true) m))).
Proof.
  induction m as [|k x m Hk IH] using map_ind.
  - by rewrite map_sum_empty, map_filter_empty, dom_empty_L, size_empty.
  - rewrite map_sum_insert, IH, map_filter_insert by done. unfold count_of at 1. destruct (decide _) as [Hp|Hp]; simpl in Hp.
    + rewrite dom_insert_L, size_union, size_singleton, Hp; [lia|].
      apply disjoint_singleton_l. rewrite not_elem_of_dom. apply map_lookup_filter_None. by left.
    + rewrite delete_id by done. by destruct (p x).
Qed.

Lemma map_sum_count_le_size {K A} `{Countable K} (p : A → bool) (m : gmap K A) :
  map_sum (count_of p) m ≤ Z.of_nat (size m).
Proof.
  unfold map_sum. rewrite sum_with_count. rewrite <-length_values.
  apply Nat2Z.inj_le, length_filter.
Qed.
