(* ===== verification/Types.v ===== *)
(** * Data shared by the worker's components

    The types of [worker/src/types.rs], [worker/src/message.rs] and the data
    types of [worker/src/runtime.rs].  A Rust [String] is its UTF-8 bytes, a Rocq
    [string]; a [Vec<u8>] is a [list byte]; integers are [Z] with the ranges of
    their Rust types stated by [start_cmd_wf] and the like. *)

From Stdlib Require Import Strings.Byte.
From coqutil Require Export Byte.
From S2P Require Export Prelude.

(** ** types.rs *)

Inductive GpuType : Set :=
| GpuNone | A100_40 | A100_80 | H100Sxm | H100Pcie | H200 | L40s | A10g | T4.

#[global] Instance GpuType_eq_dec : EqDecision GpuType.
Proof. solve_decision. Defined.

(** [gpu_type as u8]. *)
Definition gpu_type_as_u8 (g : GpuType) : Z :=
  match g with
  | GpuNone => 0 | A100_40 => 1 | A100_80 => 2 | H100Sxm => 3 | H100Pcie => 4
  | H200 => 5 | L40s => 6 | A10g => 7 | T4 => 8
  end.

(** ** message.rs: control plane to agent *)

Record EnvEntry := mkEnvEntry {
  ee_name : string;
  ee_value : string;
  ee_is_secret_ref : bool
}.

Record StartPodCmd := mkStartPodCmd {
  sp_pod_id : Z;
  sp_deployment_id : Z;
  sp_image : string;
  sp_entrypoint : string;
  sp_port : Z;
  sp_gpu_count : Z;
  sp_gpu_type : GpuType;
  sp_cpu_millicores : Z;
  sp_memory_megabytes : Z;
  sp_juicefs_path : string;
  sp_liveness_path : string;
  sp_readiness_path : string;
  sp_env_vars : list EnvEntry;
  sp_image_pull_registry : string;
  sp_image_pull_username : string;
  sp_image_pull_password : string;
  sp_image_pull_password_is_secret : bool
}.

Record StopPodCmd := mkStopPodCmd {
  st_pod_id : Z;
  st_grace_period_ms : Z
}.

Record ProbePodCmd := mkProbePodCmd { pp_pod_id : Z }.

Record RunRequestCmd := mkRunRequestCmd {
  rr_request_id : Z;
  rr_deployment_id : Z;
  rr_payload : list byte
}.

Inductive ControlMessage :=
| StartPod (cmd : StartPodCmd)
| StopPod (cmd : StopPodCmd)
| ProbePod (cmd : ProbePodCmd)
| RunRequest (cmd : RunRequestCmd).

(** ** message.rs: agent to control plane *)

Inductive PodStatusReport :=
| RImagePulling
| RCreating
| RRunning
| RStopped (exit_code : Z)
| RFailed (reason : string).

Record NodeRegisterMsg := mkNodeRegisterMsg {
  nr_node_name : string;
  nr_cpu_millicores : Z;
  nr_memory_megabytes : Z;
  nr_gpu_type : GpuType;
  nr_gpu_count : Z
}.

Record NodeHeartbeatMsg := mkNodeHeartbeatMsg {
  nh_tick : Z;
  nh_active_pods : Z;
  nh_gpu_free : Z
}.

Record PodStatusEventMsg := mkPodStatusEventMsg {
  pe_pod_id : Z;
  pe_status : PodStatusReport
}.

Record RunResponseMsg := mkRunResponseMsg {
  rs_request_id : Z;
  rs_status : Z;
  rs_payload : list byte
}.

Inductive WorkerMessage :=
| NodeRegister (m : NodeRegisterMsg)
| NodeHeartbeat (m : NodeHeartbeatMsg)
| PodStatusEvent (m : PodStatusEventMsg)
| RunResponse (m : RunResponseMsg).

(** ** runtime.rs *)

Record BindMount := mkBindMount { bm_host_path : string; bm_container_path : string }.

Record ImagePullAuth := mkImagePullAuth {
  ipa_registry : string;
  ipa_username : string;
  ipa_password : string
}.

Record PodSpec := mkPodSpec {
  ps_pod_id : Z;
  ps_deployment_id : Z;
  ps_image : string;
  ps_entrypoint : string;
  ps_port : Z;
  ps_gpu_count : Z;
  ps_gpu_type : GpuType;
  ps_cpu_millicores : Z;
  ps_memory_megabytes : Z;
  ps_env_vars : list (string * string);
  ps_mounts : list BindMount
}.

Record PodHandle := mkPodHandle { ph_pod_id : Z; ph_container_id : string }.

Inductive PodStatus :=
| PCreated
| PRunning
| PStopped (exit_code : Z)
| PUnknown.

Inductive RuntimeError :=
| EImagePull (msg : string)
| EContainerCreate (msg : string)
| EContainerStart (msg : string)
| EContainerStop (msg : string)
| EContainerNotFound (msg : string)
| EResponseTooLarge (msg : string)
| EInternal (msg : string).

(** [impl Display for RuntimeError]. *)
Definition runtime_error_to_string (e : RuntimeError) : string :=
  match e with
  | EImagePull msg => "image pull failed: " +:+ msg
  | EContainerCreate msg => "container create failed: " +:+ msg
  | EContainerStart msg => "container start failed: " +:+ msg
  | EContainerStop msg => "container stop failed: " +:+ msg
  | EContainerNotFound msg => "container not found: " +:+ msg
  | EResponseTooLarge msg => "response too large: " +:+ msg
  | EInternal msg => "internal error: " +:+ msg
  end.

Definition MAX_STOP_GRACE_MS : Z := 30000.

#[global] Instance EnvEntry_eq_dec : EqDecision EnvEntry.
Proof. solve_decision. Defined.
#[global] Instance byte_eq_decision : EqDecision Init.Byte.byte := Strings.Byte.byte_eq_dec.
#[global] Instance StartPodCmd_eq_dec : EqDecision StartPodCmd.
Proof. solve_decision. Defined.
#[global] Instance PodStatusReport_eq_dec : EqDecision PodStatusReport.
Proof. solve_decision. Defined.
#[global] Instance PodHandle_eq_dec : EqDecision PodHandle.
Proof. solve_decision. Defined.
#[global] Instance PodStatus_eq_dec : EqDecision PodStatus.
Proof. solve_decision. Defined.

(** ** Ranges of the Rust integer types *)

Record start_cmd_wf (c : StartPodCmd) : Prop := {
  scw_pod_id : is_u64 (sp_pod_id c);
  scw_deployment_id : is_u64 (sp_deployment_id c);
  scw_port : is_u16 (sp_port c);
  scw_gpu_count : is_u8 (sp_gpu_count c);
  scw_cpu : is_u32 (sp_cpu_millicores c);
  scw_memory : is_u32 (sp_memory_megabytes c)
}.

Definition control_wf (m : ControlMessage) : Prop :=
  match m with
  | StartPod c => start_cmd_wf c
  | StopPod c => is_u64 (st_pod_id c) ∧ is_u64 (st_grace_period_ms c)
  | ProbePod c => is_u64 (pp_pod_id c)
  | RunRequest c => is_u64 (rr_request_id c) ∧ is_u64 (rr_deployment_id c)
  end.
