(* ===== verification/Prng.v ===== *)
(** * The xorshift64 generator of [worker/src/prng.rs]

    [Ratio] and [Prng] with the wrap-around of [u64] written out.  The generator
    never reaches the absorbing state 0 and its step is injective on non-zero
    states, so a seeded stream never collapses. *)

From S2P Require Import Prelude.

Record Ratio := mkRatio { numerator : Z; denominator : Z }.

Definition ratio_zero : Ratio := mkRatio 0 1.
Definition ratio_from_percent (pct : Z) : Ratio := mkRatio pct 100.
Definition ratio_is_zero (r : Ratio) : bool := numerator r =? 0.

Record Prng := mkPrng { prng_state : Z }.

Definition prng_init (seed : Z) : Prng := mkPrng (if seed =? 0 then 1 else seed).

(** [x ^= x << k] and [x ^= x >> k] on a [u64]. *)
Definition xor_shl (k x : Z) : Z := Z.lxor x (wrap64 (Z.shiftl x k)).
Definition xor_shr (k x : Z) : Z := Z.lxor x (Z.shiftr x k).

Definition prng_next (p : Prng) : Z * Prng :=
  let x := xor_shl 17 (xor_shr 7 (xor_shl 13 (prng_state p))) in (x, mkPrng x).

Definition prng_bounded (bound : Z) (p : Prng) : outcome (Z * Prng) :=
  assert_or (0 <? bound) "assertion failed: bound > 0"
    (let '(x, p') := prng_next p in Done (x mod bound, p')).

Definition prng_chance (percent : Z) (p : Prng) : outcome (bool * Prng) :=
  let! (x, p') := prng_bounded 100 p in Done (x <? percent, p').

Definition prng_chance_ratio (r : Ratio) (p : Prng) : outcome (bool * Prng) :=
  if numerator r =? 0 then Done (false, p)
  else if denominator r <=? numerator r then Done (true, p)
  else let! (x, p') := prng_bounded (denominator r) p in Done (x <? numerator r, p').

(** A live state: a non-zero [u64]. *)
Definition prng_wf (p : Prng) : Prop := 0 < prng_state p ≤ U64_MAX.

(** [n] draws, the stream a seeded component consumes. *)
Fixpoint prng_stream (n : nat) (p : Prng) : list Z :=
  match n with
  | O => []
  | S n => let '(x, p') := prng_next p in x :: prng_stream n p'
  end.

(** ** Bit-level facts *)

Lemma u64_lt_pow x : 0 ≤ x ≤ U64_MAX ↔ 0 ≤ x < 2 ^ 64.
Proof. unfold U64_MAX. change (2 ^ 64) with 18446744073709551616. lia. Qed.

Lemma lxor_bound64 a b : 0 ≤ a < 2 ^ 64 → 0 ≤ b < 2 ^ 64 → 0 ≤ Z.lxor a b < 2 ^ 64.
Proof.
  intros Ha Hb.
  assert (H0 : 0 ≤ Z.lxor a b) by (apply Z.lxor_nonneg; lia).
  split; [done|].
  destruct (Z.eq_dec (Z.lxor a b) 0) as [->|Hne]; [lia|].
  apply Z.log2_lt_cancel. rewrite Z.log2_pow2 by lia.
  eapply Z.le_lt_trans; [by apply Z.log2_lxor; lia|].
  apply Z.max_lub_lt.
  - destruct (Z.eq_dec a 0) as [->|]; [done|apply Z.log2_lt_pow2; lia].
  - destruct (Z.eq_dec b 0) as [->|]; [done|apply Z.log2_lt_pow2; lia].
Qed.

Lemma wrap64_bound x : 0 ≤ wrap64 x < 2 ^ 64.
Proof. unfold wrap64. apply Z.mod_pos_bound. lia. Qed.

Lemma wrap64_testbit x i :
  0 ≤ i → Z.testbit (wrap64 x) i = (i <? 64) && Z.testbit x i.
Proof.
  intros Hi. unfold wrap64. destruct (Z.ltb_spec i 64).
  - by rewrite Z.mod_pow2_bits_low by lia.
  - by rewrite Z.mod_pow2_bits_high by lia.
Qed.

(** A word equal to its own left shift is zero: its bits vanish upwards. *)
Lemma shl_fixpoint_zero k x :
  0 < k → 0 ≤ x < 2 ^ 64 → x = wrap64 (Z.shiftl x k) → x = 0.
Proof.
  intros Hk Hx Heq. apply Z.bits_inj_0. intros i.
  destruct (Z.neg_nonneg_cases i) as [?|Hi]; [by apply Z.testbit_neg_r|].
  induction i as [i IH] using (well_founded_induction (Z.lt_wf 0)).
  rewrite Heq, wrap64_testbit by done.
  rewrite Z.shiftl_spec by done.
  destruct (Z.ltb_spec i k).
  - rewrite Z.testbit_neg_r by lia. by rewrite andb_false_r.
  - rewrite IH by lia. by rewrite andb_false_r.
Qed.

Lemma lxor_eq_swap a b c d : Z.lxor a b = Z.lxor c d → Z.lxor a c = Z.lxor b d.
Proof.
  intros H. apply Z.bits_inj'. intros i Hi.
  apply (f_equal (λ z, Z.testbit z i)) in H. revert H. rewrite !Z.lxor_spec.
  by destruct (Z.testbit a i), (Z.testbit b i), (Z.testbit c i), (Z.testbit d i).
Qed.

Lemma wrap64_lxor a b : wrap64 (Z.lxor a b) = Z.lxor (wrap64 a) (wrap64 b).
Proof.
  apply Z.bits_inj'. intros i Hi. rewrite Z.lxor_spec, !wrap64_testbit by done.
  rewrite Z.lxor_spec. by destruct (i <? 64).
Qed.

Lemma xor_shl_inj k x y :
  0 < k → 0 ≤ x < 2 ^ 64 → 0 ≤ y < 2 ^ 64 → xor_shl k x = xor_shl k y → x = y.
Proof.
  intros Hk Hx Hy H%lxor_eq_swap. rewrite <-wrap64_lxor, <-Z.shiftl_lxor in H.
  apply Z.lxor_eq. apply (shl_fixpoint_zero k); [done|by apply lxor_bound64|done].
Qed.

Lemma xor_shr_inj k x y :
  0 < k → 0 ≤ x < 2 ^ 64 → 0 ≤ y < 2 ^ 64 → xor_shr k x = xor_shr k y → x = y.
Proof.
  intros Hk Hx Hy H%lxor_eq_swap. rewrite <-Z.shiftr_lxor in H.
  apply Z.lxor_eq. set (d := Z.lxor x y) in *.
  assert (Hd : 0 ≤ d < 2 ^ 64) by by apply lxor_bound64.
  destruct (Z.eq_dec d 0) as [|Hne]; [done|]. exfalso.
  assert (Z.shiftr d k < d); [|lia].
  rewrite Z.shiftr_div_pow2 by lia. apply Z.div_lt; [lia|].
  change 1 with (2 ^ 0). apply Z.pow_lt_mono_r; lia.
Qed.

Lemma xor_shl_bound k x : 0 ≤ x < 2 ^ 64 → 0 ≤ xor_shl k x < 2 ^ 64.
Proof. intros. apply lxor_bound64; [done|apply wrap64_bound]. Qed.

Lemma xor_shr_bound k x : 0 < k → 0 ≤ x < 2 ^ 64 → 0 ≤ xor_shr k x < 2 ^ 64.
Proof.
  intros Hk Hx. apply lxor_bound64; [done|].
  rewrite Z.shiftr_div_pow2 by lia. split; [apply Z.div_pos; lia|].
  eapply Z.le_lt_trans; [|apply Hx]. apply Z.div_le_upper_bound; [lia|nia].
Qed.

Lemma prng_next_inj s t :
  0 ≤ s < 2 ^ 64 → 0 ≤ t < 2 ^ 64 →
  fst (prng_next (mkPrng s)) = fst (prng_next (mkPrng t)) → s = t.
Proof.
  intros Hs Ht H. simpl in H.
  apply xor_shl_inj in H; [|lia|by apply xor_shr_bound, xor_shl_bound..|].
  all: try by (apply xor_shr_bound; [lia|by apply xor_shl_bound]).
  apply xor_shr_inj in H; [|lia|by apply xor_shl_bound..].
  by apply xor_shl_inj in H.
Qed.

(** ** What components rely on *)

Lemma prng_init_wf seed : is_u64 seed → prng_wf (prng_init seed).
Proof.
  unfold prng_wf, prng_init. simpl. intros H.
  destruct (Z.eqb_spec seed 0); int_lia.
Qed.

Lemma prng_next_wf p : prng_wf p → prng_wf (snd (prng_next p)).
Proof.
  destruct p as [s]. unfold prng_wf. simpl. intros Hs.
  assert (Hs' : 0 ≤ s < 2 ^ 64) by (apply u64_lt_pow; lia).
  assert (Hb : 0 ≤ fst (prng_next (mkPrng s)) < 2 ^ 64).
  { simpl. apply xor_shl_bound, xor_shr_bound; [lia|]. by apply xor_shl_bound. }
  assert (Hne : fst (prng_next (mkPrng s)) ≠ 0).
  { intros H0. assert (s = 0); [|lia].
    apply prng_next_inj; [done|lia|]. by rewrite H0. }
  simpl in Hb, Hne. apply u64_lt_pow in Hb. lia.
Qed.

Lemma prng_bounded_spec bound p :
  0 < bound → prng_wf p →
  ∃ x p', prng_bounded bound p = Done (x, p') ∧ 0 ≤ x < bound ∧ prng_wf p'.
Proof.
  intros Hb Hp. unfold prng_bounded, assert_or. rewrite (proj2 (Z.ltb_lt _ _) Hb).
  pose proof (prng_next_wf p Hp) as Hn. destruct (prng_next p) as [x p'] eqn:E.
  exists (x mod bound), p'. split_and!; [done|apply Z.mod_pos_bound; lia|apply Z.mod_pos_bound; lia|done..].
Qed.

Definition ratio_wf (r : Ratio) : Prop := is_u32 (numerator r) ∧ is_u32 (denominator r).

(** A [u32] ratio never trips [bounded]'s assertion, whatever its denominator. *)
Lemma prng_chance_ratio_total r p :
  ratio_wf r → prng_wf p →
  ∃ b p', prng_chance_ratio r p = Done (b, p') ∧ prng_wf p'.
Proof.
  intros [Hn Hd] Hp. unfold prng_chance_ratio.
  destruct (Z.eqb_spec (numerator r) 0); [by eauto|].
  destruct (Z.leb_spec (denominator r) (numerator r)); [by eauto|].
  destruct (prng_bounded_spec (denominator r) p) as (x & p' & -> & _ & Hp'); [int_lia|done|].
  simpl. eauto.
Qed.

(** The generator's step maps live states to live states and never merges
    two of them: the stream of a seeded component never reaches 0, never leaves
    [u64], and distinct states give distinct outputs. *)
Theorem prng_next_permutes_live_states p q :
  prng_wf p → prng_wf q →
  prng_wf (snd (prng_next p)) ∧
  (fst (prng_next p) = fst (prng_next q) → p = q).
Proof.
  intros Hp Hq. split; [by apply prng_next_wf|].
  destruct p as [s], q as [t]. unfold prng_wf in *. simpl in Hp, Hq. intros H.
  f_equal. apply prng_next_inj; [apply u64_lt_pow; lia..|done].
Qed.

Lemma prng_next_permutes_live_states_witness :
  prng_wf (snd (prng_next (prng_init 42))) ∧
  fst (prng_next (prng_init 42)) = 45454805674.
Proof.
  split; [|by vm_compute].
  apply (prng_next_permutes_live_states (prng_init 42) (prng_init 0)).
  all: vm_compute; split; congruence.
Defined.
