(* ===== verification/RustStr.v ===== *)
(** * Strings and bytes of the Rust standard library

    The byte-level behaviour of the [str], [String] and integer methods the
    worker calls: little-endian integers, UTF-8 decoding with replacement,
    [lines], [split_whitespace], [trim], prefixes and substrings. *)

From coqutil Require Export Word.LittleEndianList.
From S2P Require Import Prelude Types.

Abbreviation bytes := (list Init.Byte.byte).

(** [String::as_bytes] and its inverse. *)
Definition as_bytes (s : string) : bytes := list_byte_of_string s.
Definition of_bytes (b : bytes) : string := string_of_list_byte b.

Lemma as_of_bytes b : as_bytes (of_bytes b) = b.
Proof. apply list_byte_of_string_of_list_byte. Qed.

Lemma of_as_bytes s : of_bytes (as_bytes s) = s.
Proof. apply string_of_list_byte_of_string. Qed.

#[global] Instance as_bytes_inj : Inj (=) (=) as_bytes.
Proof. intros s t H. by rewrite <-(of_as_bytes s), H, of_as_bytes. Qed.

Definition b2z (b : Init.Byte.byte) : Z := byte.unsigned b.
Definition z2b (z : Z) : Init.Byte.byte := byte.of_Z z.

Lemma b2z_range b : 0 ≤ b2z b < 256.
Proof. apply byte.unsigned_range. Qed.

Lemma b2z_z2b z : is_u8 z → b2z (z2b z) = z.
Proof.
  intros H. unfold b2z, z2b. rewrite byte.unsigned_of_Z. unfold byte.wrap.
  apply Z.mod_small. int_lia.
Qed.

Lemma z2b_b2z b : z2b (b2z b) = b.
Proof. apply byte.of_Z_unsigned. Qed.

(** [to_le_bytes] and [from_le_bytes] on [n]-byte integers; an [i32] is encoded
    through its two's complement. *)
Definition to_le (n : nat) (x : Z) : bytes := le_split n x.
Definition from_le (b : bytes) : Z := le_combine b.

Lemma length_to_le n x : length (to_le n x) = n.
Proof. apply length_le_split. Qed.

Lemma from_to_le n x : 0 ≤ x < 2 ^ (Z.of_nat n * 8) → from_le (to_le n x) = x.
Proof. intros H. unfold from_le, to_le. rewrite le_combine_split. by apply Z.mod_small. Qed.

Lemma from_le_bound b : 0 ≤ from_le b < 2 ^ (8 * Z.of_nat (length b)).
Proof. apply le_combine_bound. Qed.

Lemma from_to_le_u64 x : is_u64 x → from_le (to_le 8 x) = x.
Proof. intros H. apply from_to_le. change (2 ^ (Z.of_nat 8 * 8)) with 18446744073709551616. int_lia. Qed.

Lemma from_to_le_u32 x : is_u32 x → from_le (to_le 4 x) = x.
Proof. intros H. apply from_to_le. change (2 ^ (Z.of_nat 4 * 8)) with 4294967296. int_lia. Qed.

Lemma from_to_le_u16 x : is_u16 x → from_le (to_le 2 x) = x.
Proof. intros H. apply from_to_le. change (2 ^ (Z.of_nat 2 * 8)) with 65536. int_lia. Qed.

(** Two's complement reading of a 4-byte field. *)
Definition i32_of_u32 (x : Z) : Z := if x <=? 2147483647 then x else x - 4294967296.

Lemma from_to_le_i32 x : is_i32 x → i32_of_u32 (from_le (to_le 4 x)) = x.
Proof.
  intros H. unfold from_le, to_le, i32_of_u32. rewrite le_combine_split.
  change (2 ^ (Z.of_nat 4 * 8)) with 4294967296.
  unfold is_i32 in H. destruct (Z.leb_spec (x mod 4294967296) 2147483647); Z.to_euclidean_division_equations; lia.
Qed.

(** ** UTF-8 *)

(** What the decoder finds at the head of its input: a whole character of [n]
    bytes, or an ill-formed sequence whose maximal prefix has [n] bytes. *)
Inductive utf8_head := Valid (n : nat) | Invalid (n : nat).

Definition cont (z : Z) : bool := (128 <=? z) && (z <=? 191).

(** The byte at position [i], 0 past the end ([safe_get]). *)
Definition safe_get (l : bytes) (i : nat) : Z :=
  match l !! i with Some b => b2z b | None => 0 end.

(** The second byte allowed after a three-byte lead. *)
Definition second3 (b0 b1 : Z) : bool :=
  ((b0 =? 224) && (160 <=? b1) && (b1 <=? 191))
  || ((225 <=? b0) && (b0 <=? 236) && cont b1)
  || ((b0 =? 237) && (128 <=? b1) && (b1 <=? 159))
  || ((238 <=? b0) && (b0 <=? 239) && cont b1).

(** The second byte allowed after a four-byte lead. *)
Definition second4 (b0 b1 : Z) : bool :=
  ((b0 =? 240) && (144 <=? b1) && (b1 <=? 191))
  || ((241 <=? b0) && (b0 <=? 243) && cont b1)
  || ((b0 =? 244) && (128 <=? b1) && (b1 <=? 143)).

Definition utf8_next (l : bytes) : utf8_head :=
  let b0 := safe_get l 0 in
  let b1 := safe_get l 1 in
  let b2 := safe_get l 2 in
  let b3 := safe_get l 3 in
  if b0 <=? 127 then Valid 1
  else if (194 <=? b0) && (b0 <=? 223) then
    if cont b1 then Valid 2 else Invalid 1
  else if (224 <=? b0) && (b0 <=? 239) then
    if second3 b0 b1 then (if cont b2 then Valid 3 else Invalid 2) else Invalid 1
  else if (240 <=? b0) && (b0 <=? 244) then
    if second4 b0 b1 then
      (if cont b2 then (if cont b3 then Valid 4 else Invalid 3) else Invalid 2)
    else Invalid 1
  else Invalid 1.

Definition replacement : bytes := [Init.Byte.xef; Init.Byte.xbf; Init.Byte.xbd].

Fixpoint lossy_fuel (fuel : nat) (l : bytes) : bytes :=
  match fuel, l with
  | O, _ | _, [] => []
  | S fuel, _ =>
    match utf8_next l with
    | Valid n => take n l ++ lossy_fuel fuel (drop n l)
    | Invalid n => replacement ++ lossy_fuel fuel (drop n l)
    end
  end.

Definition lossy (l : bytes) : bytes := lossy_fuel (length l) l.

(** [String::from_utf8_lossy(l).into_owned()]. *)
Definition from_utf8_lossy (l : bytes) : string := of_bytes (lossy l).

Fixpoint valid_fuel (fuel : nat) (l : bytes) : bool :=
  match fuel, l with
  | _, [] => true
  | O, _ => false
  | S fuel, _ =>
    match utf8_next l with
    | Valid n => valid_fuel fuel (drop n l)
    | Invalid _ => false
    end
  end.

(** The invariant of a Rust [str]. *)
Definition valid_utf8 (l : bytes) : bool := valid_fuel (length l) l.

Lemma safe_get_pos l i : 0 < safe_get l i → (i < length l)%nat.
Proof.
  unfold safe_get. destruct (l !! i) eqn:E; [|lia]. intros _. by eapply lookup_lt_Some.
Qed.

Lemma safe_get_app l k i : (i < length l)%nat → safe_get (l ++ k) i = safe_get l i.
Proof. intros H. unfold safe_get. by rewrite lookup_app_l. Qed.

Lemma safe_get_take n l i : (i < n)%nat → safe_get (take n l) i = safe_get l i.
Proof. intros H. unfold safe_get. by rewrite lookup_take_lt. Qed.

(** The bytes that decide a whole character are in the input. *)
Lemma utf8_next_valid l n :
  l ≠ [] → utf8_next l = Valid n → (1 ≤ n ≤ length l)%nat.
Proof.
  intros Hl. unfold utf8_next, second3, second4, cont.
  assert (0 < length l)%nat by (destruct l; [done|simpl; lia]).
  pose proof (safe_get_pos l 1). pose proof (safe_get_pos l 2). pose proof (safe_get_pos l 3).
  repeat case_match; intros; simplify_eq; lia.
Qed.

Lemma utf8_next_invalid l n : utf8_next l = Invalid n → (1 ≤ n)%nat.
Proof. unfold utf8_next. repeat case_match; intros; simplify_eq; lia. Qed.

(** A whole character is recognised whatever follows it. *)
Lemma utf8_next_take_app l n k :
  l ≠ [] → utf8_next l = Valid n → utf8_next (take n l ++ k) = Valid n.
Proof.
  intros Hl Hn. pose proof (utf8_next_valid l n Hl Hn) as Hb.
  assert (G : ∀ i, (i < n)%nat → safe_get (take n l ++ k) i = safe_get l i).
  { intros i Hi. rewrite safe_get_app by (rewrite length_take; lia). by apply safe_get_take. }
  revert Hn. unfold utf8_next. rewrite (G 0%nat) by lia.
  repeat case_match; intros; simplify_eq;
    repeat match goal with
    | H : context [safe_get (take ?n l ++ k) ?i] |- _ => rewrite (G i) in H by lia
    end; congruence.
Qed.

Lemma valid_fuel_mono f f' l :
  (f ≤ f')%nat → valid_fuel f l = true → valid_fuel f' l = true.
Proof.
  revert f' l. induction f as [|f IH]; intros [|f'] [|b l] Hf; simpl; try done; try lia.
  case_match; [|done]. apply IH. lia.
Qed.

Lemma lossy_fuel_valid f l : valid_fuel f l = true → lossy_fuel f l = l.
Proof.
  revert l. induction f as [|f IH]; intros [|b l]; try done.
  cbn [valid_fuel lossy_fuel]. destruct (utf8_next (b :: l)) as [n|n]; [|done].
  intros H. rewrite IH by done. apply take_drop.
Qed.

(** Well-formed text decodes to itself. *)
Lemma from_utf8_lossy_valid l : valid_utf8 l = true → from_utf8_lossy l = of_bytes l.
Proof. intros H. unfold from_utf8_lossy, lossy. by rewrite lossy_fuel_valid. Qed.

Lemma valid_fuel_app_char f l n k :
  l ≠ [] → utf8_next l = Valid n → valid_fuel f k = true →
  valid_fuel (S f) (take n l ++ k) = true.
Proof.
  intros Hl Hn Hk. pose proof (utf8_next_valid l n Hl Hn).
  assert (Hd : drop n (take n l ++ k) = k).
  { rewrite drop_app_ge by (rewrite length_take; lia).
    rewrite length_take, Nat.min_l, Nat.sub_diag, drop_0 by lia. done. }
  destruct (take n l ++ k) as [|b t] eqn:E; [done|].
  cbn [valid_fuel]. rewrite <-E, (utf8_next_take_app l n k), E, Hd by done. done.
Qed.

Lemma lossy_fuel_is_valid f l : ∃ g, valid_fuel g (lossy_fuel f l) = true.
Proof.
  revert l. induction f as [|f IH]; intros [|b l]; [by exists 0%nat..|].
  cbn [lossy_fuel]. destruct (utf8_next (b :: l)) as [n|n] eqn:E.
  - destruct (IH (drop n (b :: l))) as [g Hg]. exists (S g). by apply valid_fuel_app_char.
  - destruct (IH (drop n (b :: l))) as [g Hg]. exists (S g).
    by apply (valid_fuel_app_char g replacement 3).
Qed.

Lemma valid_fuel_enough f l : valid_fuel f l = true → valid_fuel (length l) l = true.
Proof.
  revert l. induction f as [|f IH]; intros [|b l]; try done.
  cbn [valid_fuel]. destruct (utf8_next (b :: l)) as [n|n] eqn:E; [|done].
  intros H%IH. pose proof (utf8_next_valid (b :: l) n ltac:(done) E).
  change (length (b :: l)) with (S (length l)). cbn [valid_fuel]. rewrite E.
  eapply valid_fuel_mono; [|exact H]. rewrite length_drop. simpl in *. lia.
Qed.

(** The result of a lossy decoding is always a well-formed [String]. *)
Lemma from_utf8_lossy_wf l : valid_utf8 (as_bytes (from_utf8_lossy l)) = true.
Proof.
  unfold from_utf8_lossy. rewrite as_of_bytes.
  destruct (lossy_fuel_is_valid (length l) l) as [g Hg]. by eapply valid_fuel_enough.
Qed.

(** ** [str] methods *)

(** [s.starts_with(p)]. *)
Fixpoint starts_with (p s : string) : bool :=
  match p, s with
  | EmptyString, _ => true
  | String c p', String d s' => Ascii.eqb c d && starts_with p' s'
  | String _ _, EmptyString => false
  end.

(** [s.contains(p)] for a non-empty pattern or [""]. *)
Fixpoint contains (p s : string) : bool :=
  starts_with p s || match s with EmptyString => false | String _ s' => contains p s' end.

Definition str_is_empty (s : string) : bool :=
  match s with EmptyString => true | _ => false end.

Definition byte_code (c : ascii) : Z := Z.of_N (N_of_ascii c).

(** Bytes of the white-space character at the head of [s], 0 if there is none:
    the [White_Space] characters of Unicode in UTF-8. *)
Definition ws_len (s : string) : nat :=
  match s with
  | EmptyString => O
  | String c0 s0 =>
    let b0 := byte_code c0 in
    if ((9 <=? b0) && (b0 <=? 13)) || (b0 =? 32) then 1%nat
    else match s0 with
    | EmptyString => O
    | String c1 s1 =>
      let b1 := byte_code c1 in
      if (b0 =? 194) && ((b1 =? 133) || (b1 =? 160)) then 2%nat
      else match s1 with
      | EmptyString => O
      | String c2 _ =>
        let b2 := byte_code c2 in
        if ((b0 =? 225) && (b1 =? 154) && (b2 =? 128))
           || ((b0 =? 226) && (b1 =? 128)
               && (((128 <=? b2) && (b2 <=? 138)) || (b2 =? 168) || (b2 =? 169) || (b2 =? 175)))
           || ((b0 =? 226) && (b1 =? 129) && (b2 =? 159))
           || ((b0 =? 227) && (b1 =? 128) && (b2 =? 128))
        then 3%nat else O
      end
    end
  end.

(** [s.split_whitespace()]: [skip] counts the remaining bytes of a white-space
    character, [cur] is the word being read. *)
Fixpoint split_ws (s : string) (skip : nat) (cur : string) : list string :=
  match s with
  | EmptyString => if str_is_empty cur then [] else [cur]
  | String c s' =>
    match skip with
    | S k => split_ws s' k cur
    | O =>
      match ws_len s with
      | O => split_ws s' 0 (cur +:+ String c "")
      | S k => (if str_is_empty cur then [] else [cur]) ++ split_ws s' k ""
      end
    end
  end.
Definition split_whitespace (s : string) : list string := split_ws s 0 "".

(** Drops one trailing carriage return. *)
Fixpoint strip_cr (s : string) : string :=
  match s with
  | EmptyString => EmptyString
  | String c EmptyString => if byte_code c =? 13 then EmptyString else s
  | String c s' => String c (strip_cr s')
  end.

(** [s.lines()]: split at newlines, a trailing CR of a terminated line removed,
    no empty last line. *)
Fixpoint lines_aux (s cur : string) : list string :=
  match s with
  | EmptyString => if str_is_empty cur then [] else [cur]
  | String c s' =>
    if byte_code c =? 10 then strip_cr cur :: lines_aux s' ""
    else lines_aux s' (cur +:+ String c "")
  end.
Definition lines (s : string) : list string := lines_aux s "".

(** [format!("{n}")] for an integer. *)
Definition fmt_int (n : Z) : string := pretty n.

#[global] Instance fmt_int_inj : Inj (=) (=) fmt_int.
Proof. apply pretty_Z_inj. Qed.

Example lines_ex : lines (of_bytes [Init.Byte.x61; Init.Byte.x0d; Init.Byte.x0a; Init.Byte.x62]) = ["a"; "b"].
Proof. reflexivity. Qed.
Example split_ws_ex : split_whitespace "  36 35 98:0 /mnt /tmp " = ["36"; "35"; "98:0"; "/mnt"; "/tmp"].
Proof. reflexivity. Qed.
Example fmt_ex : fmt_int 18446744073709551615 = "18446744073709551615".
Proof. reflexivity. Qed.

(** A line feed, and text between double quotes. *)
Definition newline : string := String "010" EmptyString.
Definition quote_char : string := String "034" EmptyString.
Definition quoted (s : string) : string := quote_char +:+ s +:+ quote_char.
