(* ===== verification/RustParse.v ===== *)
(** * Parsing with the standard library

    The [str] methods and [FromStr] instances the configuration and fingerprint code
    use: trimming, splitting, unsigned integers, socket addresses. *)

From S2P Require Import Prelude Types RustStr.

(** ** [str] methods *)

(** Drops the white space at the head; [skip] as in [split_ws]. *)
Fixpoint trim_start_from (s : string) (skip : nat) : string :=
  match s with
  | EmptyString => EmptyString
  | String _ s' =>
    match skip with
    | S k => trim_start_from s' k
    | O => match ws_len s with O => s | S k => trim_start_from s' k end
    end
  end.
Definition trim_start (s : string) : string := trim_start_from s 0.

(** Only white space is left.  A continuation byte starts no white-space character, so
    the test is right at every byte of well-formed UTF-8. *)
Fixpoint all_ws (s : string) (skip : nat) : bool :=
  match s with
  | EmptyString => true
  | String _ s' =>
    match skip with
    | S k => all_ws s' k
    | O => match ws_len s with O => false | S k => all_ws s' k end
    end
  end.
Fixpoint trim_end (s : string) : string :=
  if all_ws s 0 then EmptyString
  else match s with EmptyString => EmptyString | String c s' => String c (trim_end s') end.

Definition trim (s : string) : string := trim_end (trim_start s).

(** [s.split(sep)] for an ASCII separator: always at least one part. *)
Fixpoint split_char (sep : ascii) (s cur : string) : list string :=
  match s with
  | EmptyString => [cur]
  | String c s' =>
    if Ascii.eqb c sep then cur :: split_char sep s' ""
    else split_char sep s' (cur +:+ String c "")
  end.
Definition split (sep : ascii) (s : string) : list string := split_char sep s "".

(** [s.strip_prefix(p)]. *)
Fixpoint strip_prefix (p s : string) : option string :=
  match p, s with
  | EmptyString, _ => Some s
  | String c p', String d s' => if Ascii.eqb c d then strip_prefix p' s' else None
  | String _ _, EmptyString => None
  end.

Fixpoint str_rev_app (s acc : string) : string :=
  match s with EmptyString => acc | String c s' => str_rev_app s' (String c acc) end.
Definition str_rev (s : string) : string := str_rev_app s "".

(** [s.trim_end_matches(p)]: drops [p] at the end as often as it is there; [p] is not empty. *)
Fixpoint strip_prefixes (fuel : nat) (p s : string) : string :=
  match fuel with
  | O => s
  | S fuel => match strip_prefix p s with Some s' => strip_prefixes fuel p s' | None => s end
  end.
Definition trim_end_matches (p s : string) : string :=
  str_rev (strip_prefixes (String.length s) (str_rev p) (str_rev s)).

(** ** Unsigned integers: [str::parse::<uN>] *)

Definition digit_of (c : ascii) : option Z :=
  let d := byte_code c - 48 in if (0 <=? d) && (d <=? 9) then Some d else None.

Fixpoint parse_digits (max acc : Z) (s : string) : option Z :=
  match s with
  | EmptyString => Some acc
  | String c s' =>
    match digit_of c with
    | Some d => let acc := acc * 10 + d in if acc <=? max then parse_digits max acc s' else None
    | None => None
    end
  end.

Definition parse_unsigned (max : Z) (s : string) : option Z :=
  match s with
  | EmptyString => None
  | String c s' =>
    if Ascii.eqb c "+" then (if str_is_empty s' then None else parse_digits max 0 s')
    else parse_digits max 0 s
  end.

Lemma parse_digits_bounds max acc s n :
  0 ≤ acc ≤ max → parse_digits max acc s = Some n → acc ≤ n ≤ max.
Proof.
  revert acc. induction s as [|c s IH]; simpl; intros acc Ha; [intros [= <-]; lia|].
  unfold digit_of. destruct (_ && _) eqn:Ed; [|done]. apply andb_true_iff in Ed as [? ?].
  destruct (Z.leb_spec (acc * 10 + (byte_code c - 48)) max); [|done]. intros ?%IH; lia.
Qed.

Lemma parse_unsigned_bounds max s n : 0 ≤ max → parse_unsigned max s = Some n → 0 ≤ n ≤ max.
Proof.
  intros Hm. destruct s as [|c s]; [done|]. unfold parse_unsigned.
  case_match; [case_match; [done|]|]; intros ?%parse_digits_bounds; lia.
Qed.

Lemma digit_of_pretty (x : N) : (x < 10)%N → digit_of (pretty_N_char x) = Some (Z.of_N x).
Proof.
  intros Hx. assert (x ∈ [0;1;2;3;4;5;6;7;8;9]%N) as Hin.
  { rewrite <-(N2Nat.id x). assert (N.to_nat x < 10)%nat as Hn by lia. revert Hn.
    generalize (N.to_nat x) as n. intros n Hn. do 10 (destruct n as [|n]; [set_solver|]). lia. }
  repeat (apply elem_of_cons in Hin as [->|Hin]; [reflexivity|]). by apply elem_of_nil in Hin.
Qed.

Lemma parse_digits_go max (x : N) s :
  (0 < x)%N → Z.of_N x ≤ max →
  parse_digits max 0 (pretty_N_go x s) = parse_digits max (Z.of_N x) s.
Proof.
  revert s. induction (N.lt_wf_0 x) as [x _ IH]. intros s Hx Hm.
  rewrite pretty_N_go_step by done.
  assert (Hmod : (x `mod` 10 < 10)%N) by (apply N.mod_lt; lia).
  pose proof (N.div_mod x 10 ltac:(lia)) as Hdm.
  assert (Hone : ∀ acc, acc * 10 + Z.of_N (x `mod` 10) = Z.of_N x →
    parse_digits max acc (String (pretty_N_char (x `mod` 10)) s) = parse_digits max (Z.of_N x) s).
  { intros acc Hacc. simpl. rewrite digit_of_pretty by done. rewrite Hacc.
    by rewrite (proj2 (Z.leb_le _ _)) by lia. }
  destruct (decide (x `div` 10 = 0)%N) as [E|Hne].
  - rewrite E. rewrite pretty_N_go_0. apply Hone. lia.
  - rewrite IH; [apply Hone; lia|apply N.div_lt; lia|apply N.neq_0_lt_0; exact Hne|]. pose proof (N.Div0.div_le_upper_bound x 10 x) as Hle. lia.
Qed.

(** Printing an integer and parsing it back. *)
Lemma parse_fmt_int max n : 0 ≤ n ≤ max → parse_unsigned max (fmt_int n) = Some n.
Proof.
  intros Hn. destruct n as [|p|p]; [| |lia].
  { change (fmt_int 0) with "0"%string. unfold parse_unsigned, parse_digits. cbn. destruct max; [done|done|lia]. }
  assert (E : fmt_int (Z.pos p) = pretty_N_go (N.pos p) "") by reflexivity.
  assert (Hp : parse_digits max 0 (fmt_int (Z.pos p)) = Some (Z.pos p)).
  { rewrite E, parse_digits_go by lia. done. }
  unfold parse_unsigned. destruct (fmt_int (Z.pos p)) as [|c s] eqn:Es.
  - by injection Hp.
  - destruct (Ascii.eqb_spec c "+") as [->|]; [done|exact Hp].
Qed.

Lemma fmt_int_not_dashes n : 0 ≤ n → starts_with "--" (fmt_int n) = false.
Proof.
  intros Hn. pose proof (parse_fmt_int n n ltac:(lia)) as Hp.
  destruct (fmt_int n) as [|c s]; [done|]. cbn [starts_with].
  destruct (Ascii.eqb_spec "-" c) as [<-|]; [by cbn in Hp|done].
Qed.

(** ** Socket addresses: [str::parse::<SocketAddr>]

    The recursive-descent parser of [core::net]: every reader takes what is left and
    gives its value and the rest, or fails and consumes nothing. *)

Definition reader (A : Type) : Type := string → option (A * string).

Definition given_char (c : ascii) : reader unit := λ s,
  match s with String d s' => if Ascii.eqb c d then Some (tt, s') else None | EmptyString => None end.

(** [char::to_digit(radix)] for radix 10 and 16. *)
Definition to_digit (radix : Z) (c : ascii) : option Z :=
  let z := byte_code c in
  let d := if (48 <=? z) && (z <=? 57) then Some (z - 48)
           else if (97 <=? z) && (z <=? 122) then Some (z - 87)
           else if (65 <=? z) && (z <=? 90) then Some (z - 55) else None in
  match d with Some d => if d <? radix then Some d else None | None => None end.

(** The digits at the head: their number and value. *)
Fixpoint take_digits (radix : Z) (s : string) (count : nat) (acc : Z) : nat * Z * string :=
  match s with
  | EmptyString => (count, acc, s)
  | String c s' =>
    match to_digit radix c with
    | Some d => take_digits radix s' (S count) (acc * radix + d)
    | None => (count, acc, s)
    end
  end.

(** [read_number(radix, max_digits, allow_zero_prefix)] into a type with maximum [max]. *)
Definition read_number (radix max : Z) (max_digits : option nat) (allow_zero_prefix : bool) : reader Z := λ s,
  let '(count, value, rest) := take_digits radix s 0 0 in
  let leading_zero := match s with String c _ => Ascii.eqb c "0" | EmptyString => false end in
  if (count =? 0)%nat then None
  else if match max_digits with Some m => (m <? count)%nat | None => false end then None
  else if negb allow_zero_prefix && leading_zero && (1 <? count)%nat then None
  else if value <=? max then Some (value, rest) else None.

(** [read_separator(sep, i, inner)]: the separator before every item but the first. *)
Definition read_separator {A} (sep : ascii) (i : nat) (inner : reader A) : reader A := λ s,
  if (0 <? i)%nat then match given_char sep s with Some (_, s) => inner s | None => None end else inner s.

Fixpoint read_octets (n i : nat) : reader (list Z) := λ s,
  match n with
  | O => Some ([], s)
  | S n =>
    match read_separator "." i (read_number 10 255 (Some 3%nat) false) s with
    | None => None
    | Some (o, s) => match read_octets n (S i) s with
                     | Some (os, s) => Some (o :: os, s) | None => None end
    end
  end.
Definition read_ipv4_addr : reader (list Z) := read_octets 4 0.

(** [read_groups]: up to [left] more groups of an address of which [i] are read; the
    last two may be an IPv4 address, which ends the reading. *)
Fixpoint read_groups (left i : nat) (s : string) : list Z * bool * string :=
  match left with
  | O => ([], false, s)
  | S more =>
    match (if (0 <? more)%nat then read_separator ":" i read_ipv4_addr s else None) with
    | Some (v4, s) =>
      let byte k := nth k v4 0 in
      ([byte 0%nat * 256 + byte 1%nat; byte 2%nat * 256 + byte 3%nat], true, s)
    | None =>
      match read_separator ":" i (read_number 16 65535 (Some 4%nat) true) s with
      | None => ([], false, s)
      | Some (g, s) =>
        let '(gs, v4, s) := read_groups more (S i) s in (g :: gs, v4, s)
      end
    end
  end.

Definition read_ipv6_addr : reader (list Z) := λ s,
  let '(head, head_ipv4, s1) := read_groups 8 0 s in
  if (length head =? 8)%nat then Some (head, s1)
  else if head_ipv4 then None
  else
    match given_char ":" s1 with
    | None => None
    | Some (_, s2) =>
      match given_char ":" s2 with
      | None => None
      | Some (_, s3) =>
        let '(tail, _, s4) := read_groups (8 - (length head + 1)) 0 s3 in
        Some (head ++ replicate (8 - length head - length tail) 0 ++ tail, s4)
      end
    end.

Inductive SocketAddr :=
| V4 (octets : list Z) (port : Z)
| V6 (segments : list Z) (port scope_id : Z).

Definition read_port : reader Z := λ s,
  match given_char ":" s with Some (_, s) => read_number 10 65535 None true s | None => None end.

Definition read_scope_id (s : string) : Z * string :=
  match given_char "%" s with
  | None => (0, s)
  | Some (_, s') => match read_number 10 U32_MAX None true s' with Some (z, s') => (z, s') | None => (0, s) end
  end.

Definition read_socket_addr_v4 : reader SocketAddr := λ s,
  match read_ipv4_addr s with
  | None => None
  | Some (ip, s) => match read_port s with Some (port, s) => Some (V4 ip port, s) | None => None end
  end.

Definition read_socket_addr_v6 : reader SocketAddr := λ s,
  match given_char "[" s with
  | None => None
  | Some (_, s) =>
    match read_ipv6_addr s with
    | None => None
    | Some (ip, s) =>
      let '(scope_id, s) := read_scope_id s in
      match given_char "]" s with
      | None => None
      | Some (_, s) => match read_port s with Some (port, s) => Some (V6 ip port scope_id, s) | None => None end
      end
    end
  end.

Definition parse_socket_addr (s : string) : option SocketAddr :=
  match (match read_socket_addr_v4 s with Some r => Some r | None => read_socket_addr_v6 s end) with
  | Some (a, EmptyString) => Some a
  | _ => None
  end.

Example parse_socket_addr_ex :
  parse_socket_addr "127.0.0.1:9000" = Some (V4 [127; 0; 0; 1] 9000) ∧
  parse_socket_addr "[::1]:9001" = Some (V6 [0; 0; 0; 0; 0; 0; 0; 1] 9001 0) ∧
  parse_socket_addr "[fe80::1:2.3.4.5%7]:65535" = Some (V6 [65152; 0; 0; 0; 0; 1; 515; 1029] 65535 7) ∧
  parse_socket_addr "localhost:9000" = None ∧ parse_socket_addr "1.2.3.04:1" = None ∧
  parse_socket_addr "1.2.3.4:65536" = None ∧ parse_socket_addr "1.2.3.4" = None.
Proof. vm_compute. split_and!; reflexivity. Qed.

Example trim_ex : trim "  a b  " = "a b" ∧ split "," "a,,b" = ["a"; ""; "b"] ∧
  trim_end_matches " kB" "12 kB kB" = "12" ∧ parse_unsigned U16_MAX "+80" = Some 80 ∧
  parse_unsigned U16_MAX "65536" = None ∧ parse_unsigned U16_MAX "-1" = None.
Proof. vm_compute. split_and!; reflexivity. Qed.

(** ** Separators *)

Fixpoint free_of (c : ascii) (s : string) : bool :=
  match s with EmptyString => true | String d s' => negb (Ascii.eqb d c) && free_of c s' end.

Lemma parse_digits_free max acc s n c :
  digit_of c = None → parse_digits max acc s = Some n → free_of c s = true.
Proof.
  intros Hc. revert acc. induction s as [|d s IH]; simpl; intros acc; [done|].
  destruct (digit_of d) as [k|] eqn:Ed; [|done]. destruct (_ <=? max); [|done]. intros E%IH. rewrite E.
  destruct (Ascii.eqb_spec d c) as [->|]; [congruence|done].
Qed.

(** The decimal form of a natural number has digits only. *)
Lemma fmt_int_free n c : 0 ≤ n → digit_of c = None → c ≠ "+"%char → free_of c (fmt_int n) = true.
Proof.
  intros Hn Hc Hp. pose proof (parse_fmt_int n n ltac:(lia)) as E. unfold parse_unsigned in E.
  destruct (fmt_int n) as [|d s]; [done|]. destruct (Ascii.eqb_spec d "+") as [->|].
  - destruct (str_is_empty s); [done|]. cbn [free_of]. destruct (Ascii.eqb_spec "+" c); [congruence|].
    by eapply parse_digits_free.
  - by eapply parse_digits_free.
Qed.

(** Text before the first separator is determined. *)
Lemma separator_inj c a b a' b' :
  free_of c a = true → free_of c a' = true →
  a +:+ String c b = a' +:+ String c b' → a = a' ∧ b = b'.
Proof.
  revert a'. induction a as [|d a IH]; intros [|d' a']; cbn [free_of append].
  - intros _ _ [= ->]. done.
  - intros _ [Hd _]%andb_true_iff [= -> _]. by rewrite Ascii.eqb_refl in Hd.
  - intros [Hd _]%andb_true_iff _ [= -> _]. by rewrite Ascii.eqb_refl in Hd.
  - intros [_ Ha]%andb_true_iff [_ Ha']%andb_true_iff [= <- E].
    by destruct (IH a' Ha Ha' E) as [-> ->].
Qed.

Lemma prefix_inj p a b : p +:+ a = p +:+ b → a = b.
Proof. induction p as [|c p IH]; cbn [append]; [done|]. intros [= E]. by apply IH. Qed.

Lemma starts_with_split p s : starts_with p s = true ↔ ∃ t, s = p +:+ t.
Proof.
  revert s. induction p as [|c p IH]; intros s; cbn [starts_with append]; [by split; [eauto|]|].
  destruct s as [|d s]; [by split; [|intros [? [=]]]|].
  rewrite andb_true_iff, Ascii.eqb_eq, IH. split.
  - intros [-> [t ->]]. eauto.
  - intros [t [= -> ->]]. eauto.
Qed.

Lemma app_string_assoc (a b c : string) : (a +:+ b) +:+ c = a +:+ (b +:+ c).
Proof.
  induction a as [|d a IH]; [done|].
  change (String d ((a +:+ b) +:+ c) = String d (a +:+ (b +:+ c))). by rewrite IH.
Qed.
