(* ===== verification/Config.v ===== *)
(** * The command line of the worker: [worker/src/main.rs]

    [parse_run_config], [parse_replica_addrs] and [validate_replica_addrs].  The
    environment is a function from names to values, as in the source. *)

From S2P Require Import Prelude Types RustStr RustParse.

Definition MAX_REPLICA_ADDRS : nat := 64.

Record RunConfig := mkRunConfig {
  replica_addr : string;
  runtime_mode : string;
  snapshotter : string;
  metrics_port : option Z;
  encryption_key_hex : string;
  test_process_controls : bool;
  test_process_base_port : Z;
  test_process_base_port_explicit : bool
}.

#[global] Instance RunConfig_eq_dec : EqDecision RunConfig.
Proof. solve_decision. Defined.

(** ** Replica addresses *)

(** The loop over the parts; [n] addresses are already kept. *)
Fixpoint collect_addrs (parts : list string) (n : nat) : list string :=
  match parts with
  | [] => []
  | part :: parts =>
    let addr := trim part in
    if str_is_empty addr then collect_addrs parts n
    else if (MAX_REPLICA_ADDRS <=? n)%nat then []
    else addr :: collect_addrs parts (S n)
  end.
Definition parse_replica_addrs (s : string) : list string := collect_addrs (split "," s) 0.

Fixpoint validate_replica_addrs (addrs : list string) : result unit string :=
  match addrs with
  | [] => Ok tt
  | addr :: addrs =>
    match parse_socket_addr addr with
    | None => Err ("replica address must be an IP socket address: " +:+ addr)%string
    | Some _ => validate_replica_addrs addrs
    end
  end.

(** ** Flags *)

Definition default_config : RunConfig :=
  mkRunConfig "" "process" "overlayfs" None "" false 15000 false.

Definition set_replica_addr (x : string) (c : RunConfig) : RunConfig :=
  mkRunConfig x (runtime_mode c) (snapshotter c) (metrics_port c) (encryption_key_hex c)
    (test_process_controls c) (test_process_base_port c) (test_process_base_port_explicit c).
Definition set_runtime_mode (x : string) (c : RunConfig) : RunConfig :=
  mkRunConfig (replica_addr c) x (snapshotter c) (metrics_port c) (encryption_key_hex c)
    (test_process_controls c) (test_process_base_port c) (test_process_base_port_explicit c).
Definition set_snapshotter (x : string) (c : RunConfig) : RunConfig :=
  mkRunConfig (replica_addr c) (runtime_mode c) x (metrics_port c) (encryption_key_hex c)
    (test_process_controls c) (test_process_base_port c) (test_process_base_port_explicit c).
Definition set_metrics_port (x : option Z) (c : RunConfig) : RunConfig :=
  mkRunConfig (replica_addr c) (runtime_mode c) (snapshotter c) x (encryption_key_hex c)
    (test_process_controls c) (test_process_base_port c) (test_process_base_port_explicit c).
Definition set_encryption_key_hex (x : string) (c : RunConfig) : RunConfig :=
  mkRunConfig (replica_addr c) (runtime_mode c) (snapshotter c) (metrics_port c) x
    (test_process_controls c) (test_process_base_port c) (test_process_base_port_explicit c).
Definition set_test_process_controls (c : RunConfig) : RunConfig :=
  mkRunConfig (replica_addr c) (runtime_mode c) (snapshotter c) (metrics_port c) (encryption_key_hex c)
    true (test_process_base_port c) (test_process_base_port_explicit c).
Definition set_test_process_base_port (x : Z) (c : RunConfig) : RunConfig :=
  mkRunConfig (replica_addr c) (runtime_mode c) (snapshotter c) (metrics_port c) (encryption_key_hex c)
    (test_process_controls c) x true.

(** The flags that take a value, as the arms of the source's [match]. *)
Definition value_flag (name value : string) : option (RunConfig → RunConfig) :=
  if String.eqb name "--runtime" then Some (set_runtime_mode value)
  else if String.eqb name "--snapshotter" then Some (set_snapshotter value)
  else if String.eqb name "--metrics-port" then Some (set_metrics_port (parse_unsigned U16_MAX value))
  else if String.eqb name "--encryption-key" then Some (set_encryption_key_hex value)
  else if String.eqb name "--test-process-base-port" then
    Some (set_test_process_base_port (default 0 (parse_unsigned U16_MAX value)))
  else None.

(** An argument on its own: the switch, or the first positional argument. *)
Definition lone_arg (arg : string) (c : RunConfig) : RunConfig :=
  if String.eqb arg "--test-process-controls" then set_test_process_controls c
  else if str_is_empty (replica_addr c) then set_replica_addr arg c
  else c.

(** The [while i < args.len()] loop; a value flag at the very end has no value and is
    an argument on its own. *)
Fixpoint parse_args (args : list string) (c : RunConfig) : RunConfig :=
  match args with
  | [] => c
  | arg :: rest =>
    match rest with
    | value :: rest' =>
      match value_flag arg value with
      | Some set => parse_args rest' (set c)
      | None => parse_args rest (lone_arg arg c)
      end
    | [] => lone_arg arg c
    end
  end.

(** What the environment adds. *)
Definition fill_from_env (env : string → option string) (c : RunConfig) : RunConfig :=
  let c := if String.eqb (snapshotter c) "overlayfs" then
             match env "HIVEMIND_SNAPSHOTTER" with
             | Some v => if str_is_empty v then c else set_snapshotter v c
             | None => c
             end
           else c in
  let c := match metrics_port c with
           | None => match env "HIVEMIND_AGENT_METRICS_PORT" with
                     | Some v => set_metrics_port (parse_unsigned U16_MAX v) c
                     | None => c
                     end
           | Some _ => c
           end in
  if str_is_empty (encryption_key_hex c) then
    match env "HIVEMIND_ENCRYPTION_KEY" with Some v => set_encryption_key_hex v c | None => c end
  else c.

Definition parse_run_config (args : list string) (env : string → option string) : RunConfig :=
  fill_from_env env (parse_args args default_config).

(** ** Command lines *)

(** The command line that asks for a configuration. *)
Definition command_line (c : RunConfig) : list string :=
  (if test_process_controls c then ["--test-process-controls"] else []) ++
  ["--runtime"; runtime_mode c] ++ ["--snapshotter"; snapshotter c] ++
  match metrics_port c with Some port => ["--metrics-port"; fmt_int port] | None => [] end ++
  (if str_is_empty (encryption_key_hex c) then [] else ["--encryption-key"; encryption_key_hex c]) ++
  (if test_process_base_port_explicit c then ["--test-process-base-port"; fmt_int (test_process_base_port c)]
   else []) ++
  [replica_addr c].

(** A configuration a command line can ask for. *)
Record config_wf (c : RunConfig) : Prop := {
  cw_addr : replica_addr c ≠ ""%string ∧ replica_addr c ≠ "--test-process-controls"%string;
  cw_metrics : ∀ p, metrics_port c = Some p → is_u16 p;
  cw_port : is_u16 (test_process_base_port c);
  cw_default : test_process_base_port_explicit c = false → test_process_base_port c = 15000
}.

(** A value flag and its value are taken in one step. *)
Lemma parse_args_value name value f rest c :
  value_flag name value = Some f → parse_args (name :: value :: rest) c = parse_args rest (f c).
Proof. intros E. cbn [parse_args]. by rewrite E. Qed.

Lemma parse_args_controls rest c :
  parse_args ("--test-process-controls"%string :: rest) c = parse_args rest (set_test_process_controls c).
Proof. by destruct rest. Qed.

Lemma parse_command_line c : config_wf c → parse_args (command_line c) default_config = c.
Proof.
  intros [[Ha Hne] Hm Hp Hd]. destruct c as [addr mode snap port key controls base explicit].
  unfold command_line. cbn [replica_addr runtime_mode snapshotter metrics_port encryption_key_hex
    test_process_controls test_process_base_port test_process_base_port_explicit] in *.
  assert (Htail : ∀ c, parse_args [addr] c = lone_arg addr c) by done.
  assert (Hlast : ∀ c, replica_addr c = ""%string → lone_arg addr c = set_replica_addr addr c).
  { intros c E. unfold lone_arg. rewrite (proj2 (String.eqb_neq _ _) Hne). by rewrite E. }
  destruct controls; cbn [app]; rewrite ?parse_args_controls;
    (erewrite parse_args_value by reflexivity); (erewrite parse_args_value by reflexivity);
    (destruct port as [p|]; cbn [app];
      [erewrite parse_args_value by reflexivity; rewrite parse_fmt_int by (by apply Hm)|]);
    (destruct key as [|k key]; cbn [str_is_empty app]; [|erewrite parse_args_value by reflexivity]);
    (destruct explicit; cbn [app];
      [erewrite parse_args_value by reflexivity; rewrite parse_fmt_int by done|rewrite Hd by done]);
    rewrite Htail, Hlast by reflexivity; reflexivity.
Qed.

(** The command line means what it says and takes precedence over the
    environment.  From the arguments that spell out any configuration, whatever the
    environment holds, [parse_run_config] gives back that configuration: the flags win,
    and only the snapshotter left at [overlayfs], an absent metrics port and an absent
    key are filled from their variables (the snapshotter only by a non-empty value, the
    port only by a number that is a [u16]). *)
Theorem command_line_roundtrip (c : RunConfig) (env : string → option string) :
  config_wf c →
  parse_run_config (command_line c) env =
  mkRunConfig (replica_addr c) (runtime_mode c)
    (if bool_decide (snapshotter c = "overlayfs"%string ∧
                     default ""%string (env "HIVEMIND_SNAPSHOTTER") ≠ ""%string)
     then default ""%string (env "HIVEMIND_SNAPSHOTTER") else snapshotter c)
    (match metrics_port c with
     | Some port => Some port
     | None => env "HIVEMIND_AGENT_METRICS_PORT" ≫= parse_unsigned U16_MAX
     end)
    (if bool_decide (encryption_key_hex c = ""%string)
     then default ""%string (env "HIVEMIND_ENCRYPTION_KEY") else encryption_key_hex c)
    (test_process_controls c) (test_process_base_port c) (test_process_base_port_explicit c).
Proof.
  intros Hc. unfold parse_run_config. rewrite parse_command_line by done. unfold fill_from_env.
  destruct c as [addr mode snap port key controls base explicit].
  cbn [replica_addr runtime_mode snapshotter metrics_port encryption_key_hex
    test_process_controls test_process_base_port test_process_base_port_explicit].
  destruct (String.eqb_spec snap "overlayfs") as [->|Hs].
  - destruct (env "HIVEMIND_SNAPSHOTTER") as [[|a v]|]; cbn;
      destruct port, key, (env "HIVEMIND_AGENT_METRICS_PORT"), (env "HIVEMIND_ENCRYPTION_KEY"); reflexivity.
  - rewrite (bool_decide_eq_false_2 (snap = _ ∧ _)) by by intros [].
    destruct port, key, (env "HIVEMIND_AGENT_METRICS_PORT"), (env "HIVEMIND_ENCRYPTION_KEY"); reflexivity.
Qed.

Definition sample_config : RunConfig :=
  mkRunConfig "10.0.0.1:9000,10.0.0.2:9000" "containerd" "nydus" (Some 8081) "" true 20000 true.

Lemma command_line_roundtrip_witness :
  parse_run_config (command_line sample_config) (λ _, Some "overlayfs"%string) =
    set_encryption_key_hex "overlayfs" sample_config ∧
  parse_replica_addrs (replica_addr sample_config) = ["10.0.0.1:9000"; "10.0.0.2:9000"]%string.
Proof.
  split; [|vm_compute; reflexivity].
  rewrite (command_line_roundtrip sample_config).
  - vm_compute. reflexivity.
  - constructor; simpl; [done| |int_lia|done]. intros p [= <-]. int_lia.
Defined.

(** An explicit [--snapshotter overlayfs] is not distinguished from the default, so the
    environment overrides the flag. *)
Theorem overlayfs_flag_loses_to_environment :
  snapshotter (parse_run_config ["10.0.0.1:9000"; "--snapshotter"; "overlayfs"]%string
    (λ name, if String.eqb name "HIVEMIND_SNAPSHOTTER" then Some "nydus"%string else None)) = "nydus"%string.
Proof. vm_compute. reflexivity. Qed.

(** ** Bounds and validity *)

Lemma collect_addrs_length parts n : (length (collect_addrs parts n) ≤ MAX_REPLICA_ADDRS - n)%nat.
Proof.
  revert n. induction parts as [|part parts IH]; intros n; cbn [collect_addrs length]; [lia|].
  destruct (str_is_empty _); [apply IH|]. destruct (Nat.leb_spec MAX_REPLICA_ADDRS n); cbn [length]; [lia|].
  specialize (IH (S n)). lia.
Qed.

Lemma validate_replica_addrs_ok addrs :
  validate_replica_addrs addrs = Ok tt ↔ Forall (λ a, is_Some (parse_socket_addr a)) addrs.
Proof.
  induction addrs as [|a addrs IH]; simpl; [by split; [constructor|]|].
  rewrite Forall_cons, <-IH. destruct (parse_socket_addr a); [by split; [eauto|intros []]|].
  split; [done|by intros [[] _]].
Qed.
