(* ===== verification/Crypto.v ===== *)
(** * Frame encryption: [worker/src/crypto.rs]

    The AEAD (XChaCha20-Poly1305), HKDF-SHA256 and the operating system's random
    source are external; [Aead] names them and [AeadLaws] the two documented facts
    the framing relies on. *)

From S2P Require Import Prelude Types RustStr.

Definition KEY_LEN : nat := 32.
Definition NONCE_LEN : nat := 24.
Definition TAG_LEN : nat := 16.
Definition ENCRYPTED_OVERHEAD : nat := 1 + NONCE_LEN + TAG_LEN.

(** The primitives of the [chacha20poly1305] and [hkdf] crates. *)
Class Aead := {
  aead_encrypt : bytes → bytes → bytes → bytes → bytes; (* key nonce msg aad *)
  aead_decrypt : bytes → bytes → bytes → bytes → option bytes;
  hkdf_sha256 : bytes → bytes → bytes → bytes (* salt ikm info *)
}.

(** Decryption inverts encryption under the same key, nonce and associated data,
    and the ciphertext is the message followed by a 16-byte tag. *)
Class AeadLaws `{!Aead} : Prop := {
  aead_decrypt_encrypt k n m a : aead_decrypt k n (aead_encrypt k n m a) a = Some m;
  aead_encrypt_length k n m a :
    length (aead_encrypt k n m a) = (length m + TAG_LEN)%nat
}.

(** ** Hexadecimal keys *)

Definition hex_digit (b : Init.Byte.byte) : option Z :=
  let z := b2z b in
  if (48 <=? z) && (z <=? 57) then Some (z - 48)
  else if (97 <=? z) && (z <=? 102) then Some (z - 87)
  else if (65 <=? z) && (z <=? 70) then Some (z - 55)
  else None.

(** [u8::from_str_radix(s, 16)] on a two-byte string: an optional sign [+], then
    digits. *)
Definition from_str_radix_16 (b0 b1 : Init.Byte.byte) : option Z :=
  if b2z b0 =? 43 then hex_digit b1
  else
    match hex_digit b0, hex_digit b1 with
    | Some h, Some l => Some (16 * h + l)
    | _, _ => None
    end.

(** [s.is_char_boundary(i)]. *)
Definition is_char_boundary (s : bytes) (i : nat) : bool :=
  (i =? 0)%nat || (i =? length s)%nat
  || match s !! i with Some b => (b2z b <? 128) || (192 <=? b2z b) | None => false end.

(** One round of the loop of [hex_decode]: [&hex[i * 2..i * 2 + 2]] panics
    outside character boundaries. *)
Definition hex_decode_at (hex : bytes) (i : nat) : outcome (result Z unit) :=
  if is_char_boundary hex (i * 2) && is_char_boundary hex (i * 2 + 2) then
    match hex !! (i * 2)%nat, hex !! (i * 2 + 1)%nat with
    | Some b0, Some b1 => Done (ok_or tt (from_str_radix_16 b0 b1))
    | _, _ => Panic "byte index is out of bounds of the string"
    end
  else Panic "byte index is not a char boundary".

Fixpoint hex_decode_loop (hex : bytes) (i n : nat) : outcome (result bytes unit) :=
  match n with
  | O => Done (Ok [])
  | S n =>
    let! r := hex_decode_at hex i in
    match r with
    | Err e => Done (Err e)
    | Ok z =>
      let! rest := hex_decode_loop hex (S i) n in
      Done (result_map (cons (z2b z)) rest)
    end
  end.

(** [hex_decode(hex, out)] with [out] of length [out_len]. *)
Definition hex_decode (hex : bytes) (out_len : nat) : outcome (result bytes unit) :=
  if (length hex =? out_len * 2)%nat then hex_decode_loop hex 0 out_len
  else Done (Err tt).

Record EncryptionState := mkEncryptionState { enabled : bool; worker_key : bytes }.

Section aead.
  Context `{!Aead}.

(** [EncryptionState::from_hex]; [hk.expand] of 32 bytes cannot fail. *)
Definition from_hex (hex : string) : outcome (result EncryptionState string) :=
  let h := as_bytes hex in
  if (length h =? 64)%nat then
    let! psk := hex_decode h KEY_LEN in
    match psk with
    | Err _ => Done (Err "invalid hex"%string)
    | Ok psk =>
      Done (Ok (mkEncryptionState true
        (hkdf_sha256 (as_bytes "hivemind-v1") psk (as_bytes "hivemind-agent-v1"))))
    end
  else Done (Err "key must be 64 hex chars (32 bytes)"%string).

Definition disabled : EncryptionState := mkEncryptionState false (replicate KEY_LEN Init.Byte.x00).

(** [encrypt_frame]; the nonce drawn from [OsRng] is an argument. *)
Definition encrypt_frame (nonce key plaintext aad : bytes) : bytes :=
  nonce ++ aead_encrypt key nonce plaintext aad.

Definition decrypt_frame (key encrypted_data aad : bytes) : result bytes string :=
  if (length encrypted_data <? NONCE_LEN + TAG_LEN)%nat then Err "frame too short"%string
  else
    ok_or "authentication failed"%string
      (aead_decrypt key (take NONCE_LEN encrypted_data) (drop NONCE_LEN encrypted_data) aad).

Lemma length_encrypt_frame `{!AeadLaws} nonce key m aad :
  length nonce = NONCE_LEN →
  length (encrypt_frame nonce key m aad) = (NONCE_LEN + length m + TAG_LEN)%nat.
Proof. intros Hn. unfold encrypt_frame. rewrite length_app, aead_encrypt_length. lia. Qed.

Lemma decrypt_encrypt_frame `{!AeadLaws} nonce key m aad :
  length nonce = NONCE_LEN →
  decrypt_frame key (encrypt_frame nonce key m aad) aad = Ok m.
Proof.
  intros Hn. unfold decrypt_frame. rewrite length_encrypt_frame by done.
  destruct (Nat.ltb_spec (NONCE_LEN + length m + TAG_LEN) (NONCE_LEN + TAG_LEN)); [lia|].
  unfold encrypt_frame.
  rewrite take_app_length' by done. rewrite drop_app_length' by done.
  by rewrite aead_decrypt_encrypt.
Qed.

End aead.

(** ** Hexadecimal round trip *)

(** The lower-case encoding operators write keys in. *)
Definition hex_char (z : Z) : Init.Byte.byte := z2b (if z <? 10 then z + 48 else z + 87).
Definition hex_encode (k : bytes) : bytes :=
  mjoin ((λ b, [hex_char (b2z b / 16); hex_char (b2z b mod 16)]) <$> k).

Definition ascii_only (s : bytes) : Prop := ∀ i b, s !! i = Some b → b2z b < 128.

Lemma hex_char_code z :
  0 ≤ z < 16 → b2z (hex_char z) = (if z <? 10 then z + 48 else z + 87).
Proof. intros. unfold hex_char. apply b2z_z2b. destruct (z <? 10) eqn:?; int_lia. Qed.

Lemma hex_digit_char z : 0 ≤ z < 16 → hex_digit (hex_char z) = Some z.
Proof.
  intros Hz. unfold hex_digit. rewrite hex_char_code by done.
  destruct (Z.ltb_spec z 10).
  - rewrite !(proj2 (Z.leb_le _ _)) by lia. simpl. f_equal. lia.
  - rewrite (proj2 (Z.leb_gt (z + 87) 57)) by lia. rewrite andb_false_r.
    rewrite !(proj2 (Z.leb_le _ _)) by lia. simpl. f_equal. lia.
Qed.

Lemma from_str_radix_16_hex b :
  from_str_radix_16 (hex_char (b2z b / 16)) (hex_char (b2z b mod 16)) = Some (b2z b).
Proof.
  pose proof (b2z_range b).
  assert (0 ≤ b2z b / 16 < 16) by (Z.to_euclidean_division_equations; lia).
  assert (0 ≤ b2z b mod 16 < 16) by (Z.to_euclidean_division_equations; lia).
  unfold from_str_radix_16. rewrite !hex_digit_char by done. rewrite hex_char_code by done.
  destruct (Z.eqb_spec (if b2z b / 16 <? 10 then b2z b / 16 + 48 else b2z b / 16 + 87) 43) as [E|].
  - destruct (b2z b / 16 <? 10); lia.
  - f_equal. Z.to_euclidean_division_equations; lia.
Qed.

Lemma length_hex_encode k : length (hex_encode k) = (length k * 2)%nat.
Proof.
  induction k as [|b k IH]; [done|].
  change (hex_encode (b :: k)) with
    ([hex_char (b2z b / 16); hex_char (b2z b mod 16)] ++ hex_encode k).
  rewrite length_app, IH. simpl. lia.
Qed.

Lemma ascii_boundary s i : ascii_only s → (i ≤ length s)%nat → is_char_boundary s i = true.
Proof.
  intros Hs Hi. unfold is_char_boundary.
  destruct (Nat.eqb_spec i (length s)) as [->|Hne]; [by rewrite orb_true_r|].
  destruct (s !! i) as [b|] eqn:E.
  - specialize (Hs i b E). rewrite (proj2 (Z.ltb_lt _ _) Hs). by rewrite orb_true_r.
  - apply lookup_ge_None in E. lia.
Qed.

(** On ASCII text the slices of [hex_decode] are always legal. *)
Lemma hex_decode_at_ascii hex i :
  ascii_only hex → (i * 2 + 2 ≤ length hex)%nat →
  ∃ b0 b1, hex !! (i * 2)%nat = Some b0 ∧ hex !! (i * 2 + 1)%nat = Some b1 ∧
    hex_decode_at hex i = Done (ok_or tt (from_str_radix_16 b0 b1)).
Proof.
  intros Ha Hl. unfold hex_decode_at. rewrite !ascii_boundary by (done || lia). simpl.
  destruct (lookup_lt_is_Some_2 hex (i * 2)) as [b0 H0]; [lia|].
  destruct (lookup_lt_is_Some_2 hex (i * 2 + 1)) as [b1 H1]; [lia|].
  exists b0, b1. by rewrite H0, H1.
Qed.

Lemma hex_decode_loop_ascii hex i n :
  ascii_only hex → ((i + n) * 2 ≤ length hex)%nat →
  ∃ r, hex_decode_loop hex i n = Done r.
Proof.
  intros Ha. revert i. induction n as [|n IH]; intros i Hl; [by eexists|].
  simpl. destruct (hex_decode_at_ascii hex i) as (b0 & b1 & _ & _ & ->); [done|lia|].
  simpl. destruct (from_str_radix_16 b0 b1); simpl; [|by eexists].
  destruct (IH (S i)) as [r ->]; [lia|]. by eexists.
Qed.

Lemma hex_encode_ascii k : ascii_only (hex_encode k).
Proof.
  intros i b Hb%list_elem_of_lookup_2. revert Hb.
  induction k as [|c k IH]; [by intros ?%not_elem_of_nil|].
  change (hex_encode (c :: k)) with
    ([hex_char (b2z c / 16); hex_char (b2z c mod 16)] ++ hex_encode k).
  pose proof (b2z_range c).
  rewrite elem_of_app, !elem_of_cons. intros [[->|[->|?%not_elem_of_nil]]|?]; [..|done|eauto].
  all: rewrite hex_char_code by (Z.to_euclidean_division_equations; lia);
    case_match; Z.to_euclidean_division_equations; lia.
Qed.

Lemma hex_encode_lookup k i b :
  k !! i = Some b →
  hex_encode k !! (i * 2)%nat = Some (hex_char (b2z b / 16)) ∧
  hex_encode k !! (i * 2 + 1)%nat = Some (hex_char (b2z b mod 16)).
Proof.
  revert i. induction k as [|c k IH]; intros [|i] H; simplify_eq/=; [done|].
  apply IH in H. exact H.
Qed.

Lemma hex_decode_loop_encode k i n :
  (i + n = length k)%nat → hex_decode_loop (hex_encode k) i n = Done (Ok (drop i k)).
Proof.
  revert i. induction n as [|n IH]; intros i Hi; cbn [hex_decode_loop].
  { by rewrite drop_ge by lia. }
  destruct (lookup_lt_is_Some_2 k i) as [b Hb]; [lia|].
  destruct (hex_encode_lookup k i b Hb) as [H0 H1].
  destruct (hex_decode_at_ascii (hex_encode k) i) as (b0 & b1 & E0 & E1 & ->).
  { apply hex_encode_ascii. } { rewrite length_hex_encode. lia. }
  simplify_eq. rewrite from_str_radix_16_hex. simpl.
  rewrite IH by lia. simpl. rewrite z2b_b2z. by rewrite (drop_S k b i Hb).
Qed.

Lemma hex_decode_encode k : hex_decode (hex_encode k) (length k) = Done (Ok k).
Proof.
  unfold hex_decode. rewrite length_hex_encode, Nat.eqb_refl.
  rewrite hex_decode_loop_encode by lia. by rewrite drop_0.
Qed.

(** [hex_decode] reads back every key written in hexadecimal, and it never
    panics on ASCII text, whatever its length and contents. *)
Theorem hex_decode_roundtrip_and_total (k s : bytes) (n : nat) :
  hex_decode (hex_encode k) (length k) = Done (Ok k) ∧
  (ascii_only s → ∃ r, hex_decode s n = Done r).
Proof.
  split; [apply hex_decode_encode|]. intros Ha. unfold hex_decode.
  destruct (Nat.eqb_spec (length s) (n * 2)); [|by eexists].
  by apply hex_decode_loop_ascii; [|lia].
Qed.

(** A 64-byte key with a two-byte character straddling an even offset. *)
Definition straddling_key : bytes :=
  [Init.Byte.x61] ++ mjoin (replicate 31 [Init.Byte.xc3; Init.Byte.xa9]) ++ [Init.Byte.x62].

(** On well-formed UTF-8 that is not ASCII, [from_hex] does not report
    "invalid hex": slicing the [str] off a character boundary panics. *)
Theorem from_hex_panics_on_multibyte_key `{!Aead} :
  valid_utf8 straddling_key = true ∧ length straddling_key = 64%nat ∧
  from_hex (of_bytes straddling_key) = Panic "byte index is not a char boundary".
Proof. split_and!; vm_compute; reflexivity. Qed.
