(* ===== verification/Protocol.v ===== *)
(** * Wire payloads: [worker/src/protocol.rs], message codecs

    [encode_agent_message] and [decode_control_message] over byte buffers.  Every
    slice and index of the decoder is a read that panics out of range
    ([read_slice], [read_at]), so the totality theorem below is about the source's
    own bounds checks. *)

From S2P Require Import Prelude Types RustStr.

Inductive ErrorKind :=
| InvalidData | InvalidInput | WriteZero | UnexpectedEof | WouldBlock | Interrupted | OtherKind.

#[global] Instance ErrorKind_eq_dec : EqDecision ErrorKind.
Proof. solve_decision. Defined.

Record io_error := mkIoError { err_kind : ErrorKind; err_msg : string }.

Definition invalid_data {A} (msg : string) : result A io_error := Err (mkIoError InvalidData msg).

(** ** Constants *)

Definition MSG_START_POD : Z := 2.
Definition MSG_STOP_POD : Z := 3.
Definition MSG_PROBE_POD : Z := 5.
Definition MSG_RUN_REQUEST : Z := 4.
Definition MSG_NODE_REGISTER : Z := 16.
Definition MSG_NODE_HEARTBEAT : Z := 17.
Definition MSG_POD_STATUS_EVENT : Z := 18.
Definition MSG_RUN_RESPONSE : Z := 19.
Definition MAX_FRAME_PAYLOAD : nat := 16 * 1024.
Definition MAX_RUN_PAYLOAD : nat := 512.
Definition MAX_RUN_RESPONSE_BODY : nat := MAX_FRAME_PAYLOAD - 9.

Inductive RunStatus :=
| RunOk | DeploymentNotFound | QueueFull | InvalidPayload | ResponseTooLarge
| OutcomeAmbiguous | ForwardingFailed | NoRunningPod | Unavailable | NotLeader.

(** [status as u8]. *)
Definition run_status_as_u8 (s : RunStatus) : Z :=
  match s with
  | RunOk => 0 | DeploymentNotFound => 1 | QueueFull => 2 | InvalidPayload => 3
  | ResponseTooLarge => 4 | OutcomeAmbiguous => 5 | ForwardingFailed => 6
  | NoRunningPod => 7 | Unavailable => 8 | NotLeader => 9
  end.

Definition RUN_STATUS_RESPONSE_TOO_LARGE : Z := run_status_as_u8 ResponseTooLarge.
Definition RUN_STATUS_FORWARDING_FAILED : Z := run_status_as_u8 ForwardingFailed.
Definition RUN_STATUS_NO_RUNNING_POD : Z := run_status_as_u8 NoRunningPod.

Definition STOP_POD_PAYLOAD_LEN : nat := 16.
Definition PROBE_POD_PAYLOAD_LEN : nat := 8.
Definition NODE_REGISTER_PAYLOAD_LEN : nat := 138.
Definition NODE_HEARTBEAT_PAYLOAD_LEN : nat := 23.
Definition POD_STATUS_EVENT_PAYLOAD_LEN : nat := 150.

(** ** Helpers *)

Definition zeros (n : nat) : bytes := replicate n Init.Byte.x00.

(** [str_to_fixed::<N>(s)]: the first [N] bytes, padded with zeros. *)
Definition str_to_fixed (n : nat) (s : string) : bytes :=
  let len := Nat.min (length (as_bytes s)) n in
  take len (as_bytes s) ++ zeros (n - len).

(** [iter().position(|&b| b == 0).unwrap_or(len)]. *)
Fixpoint nul_position (l : bytes) : nat :=
  match l with
  | [] => 0
  | b :: l' => if b2z b =? 0 then 0 else S (nul_position l')
  end.

Definition fixed_to_string (buf : bytes) : string :=
  from_utf8_lossy (take (nul_position buf) buf).

Definition decode_bool (value : Z) (field : string) : result bool io_error :=
  if value =? 0 then Ok false
  else if value =? 1 then Ok true
  else invalid_data (field +:+ " must be 0 or 1, got " +:+ fmt_int value).

Definition u8_to_gpu_type (v : Z) : result GpuType io_error :=
  if v =? 0 then Ok GpuNone
  else if v =? 1 then Ok A100_40
  else if v =? 2 then Ok A100_80
  else if v =? 3 then Ok H100Sxm
  else if v =? 4 then Ok H100Pcie
  else if v =? 5 then Ok H200
  else if v =? 6 then Ok L40s
  else if v =? 7 then Ok A10g
  else if v =? 8 then Ok T4
  else invalid_data ("invalid StartPod GPU type: " +:+ fmt_int v).

(** [fixed_payload_mut(buf, payload_len, message)]: the zeroed payload prefix of
    the output buffer, or [WriteZero] when it does not fit. *)
Definition fixed_payload_mut (buf : bytes) (payload_len : nat) (message : string)
    : result bytes io_error :=
  if (payload_len <=? length buf)%nat then Ok (zeros payload_len)
  else Err (mkIoError WriteZero (message +:+ " buffer too small")).

(** Writes through the payload prefix leave the rest of the buffer in place. *)
Definition write_back (payload buf : bytes) : bytes := payload ++ drop (length payload) buf.

(** ** Encoding agent messages *)

Definition encode_node_register (m : NodeRegisterMsg) (payload : bytes) : bytes :=
  let payload := splice 0 (str_to_fixed 64 (nr_node_name m)) payload in
  let payload := splice 64 (to_le 4 (nr_cpu_millicores m)) payload in
  let payload := splice 68 (to_le 4 (nr_memory_megabytes m)) payload in
  let payload := splice 72 [z2b (gpu_type_as_u8 (nr_gpu_type m))] payload in
  splice 73 [z2b (nr_gpu_count m)] payload.

(** [m.active_pods as u16] truncates. *)
Definition encode_node_heartbeat (m : NodeHeartbeatMsg) (payload : bytes) : bytes :=
  let payload := splice 0 (to_le 8 (nh_tick m)) payload in
  splice 21 (to_le 2 (nh_active_pods m mod 65536)) payload.

Definition pod_status_fields (s : PodStatusReport) : Z * Z * string :=
  match s with
  | RImagePulling => (0, 0, "pulling"%string)
  | RCreating => (1, 0, "creating"%string)
  | RRunning => (2, 0, "running"%string)
  | RStopped exit_code => (3, exit_code, "stopped"%string)
  | RFailed reason => (4, 1, reason)
  end.

Definition encode_pod_status_event (m : PodStatusEventMsg) (payload : bytes) : bytes :=
  let '(new_phase, exit_code, message) := pod_status_fields (pe_status m) in
  let payload := splice 0 (to_le 8 (pe_pod_id m)) payload in
  let payload := splice 9 [z2b new_phase] payload in
  let payload := splice 18 (to_le 4 exit_code) payload in
  splice 22 (str_to_fixed 128 message) payload.

(** The result and the buffer after the call. *)
Definition encode_run_response (m : RunResponseMsg) (buf : bytes)
    : result (Z * nat) io_error * bytes :=
  let header := 9%nat in
  if (length buf <? header)%nat then
    (Err (mkIoError WriteZero "RunResponse buffer too small"), buf)
  else
    let buf := splice 0 (to_le 8 (rs_request_id m)) buf in
    if run_status_as_u8 NotLeader <=? rs_status m then
      (invalid_data "worker RunResponse status must be in 0..=8", buf)
    else if (MAX_RUN_RESPONSE_BODY <? length (rs_payload m))%nat then
      (Ok (MSG_RUN_RESPONSE, header), splice 8 [z2b RUN_STATUS_RESPONSE_TOO_LARGE] buf)
    else if (length buf - header <? length (rs_payload m))%nat then
      (Err (mkIoError WriteZero "RunResponse buffer too small"), buf)
    else
      let buf := splice 8 [z2b (rs_status m)] buf in
      (Ok (MSG_RUN_RESPONSE, header + length (rs_payload m))%nat, splice header (rs_payload m) buf).

Definition encode_fixed (tag : Z) (len : nat) (name : string) (fill : bytes → bytes) (buf : bytes)
    : result (Z * nat) io_error * bytes :=
  match fixed_payload_mut buf len name with
  | Err e => (Err e, buf)
  | Ok payload => (Ok (tag, len), write_back (fill payload) buf)
  end.

Definition encode_agent_message (msg : WorkerMessage) (buf : bytes)
    : result (Z * nat) io_error * bytes :=
  match msg with
  | NodeRegister m =>
    encode_fixed MSG_NODE_REGISTER NODE_REGISTER_PAYLOAD_LEN "NodeRegister"
      (encode_node_register m) buf
  | NodeHeartbeat m =>
    encode_fixed MSG_NODE_HEARTBEAT NODE_HEARTBEAT_PAYLOAD_LEN "NodeHeartbeat"
      (encode_node_heartbeat m) buf
  | PodStatusEvent m =>
    encode_fixed MSG_POD_STATUS_EVENT POD_STATUS_EVENT_PAYLOAD_LEN "PodStatusEvent"
      (encode_pod_status_event m) buf
  | RunResponse m => encode_run_response m buf
  end.

(** ** Decoding control messages *)

(** [&l[i..j]] and [l[i]], which panic out of range. *)
Definition read_slice (i j : nat) (l : bytes) : outcome bytes :=
  if (i <=? j)%nat && (j <=? length l)%nat then Done (slice i j l)
  else Panic "range end index out of range for slice".

Definition read_at (i : nat) (l : bytes) : outcome Z :=
  match l !! i with Some b => Done (b2z b) | None => Panic "index out of bounds" end.

(** [r?] in a function that may also panic. *)
Definition try_bind {A B} (r : result A io_error) (f : A → outcome (result B io_error))
    : outcome (result B io_error) :=
  match r with Ok a => f a | Err e => Done (Err e) end.

Notation "'let?!' x := r 'in' k" := (try_bind r (λ x, k))
  (at level 10, x pattern, r at level 100, k at level 200) : rust_scope.

Definition read_int (n i : nat) (l : bytes) : outcome Z :=
  let! b := read_slice i (i + n) l in Done (from_le b).

Definition read_str (n i : nat) (l : bytes) : outcome string :=
  let! b := read_slice i (i + n) l in Done (fixed_to_string b).

Definition ENV_ENTRY_SIZE : nat := 64 + 256 + 1.
Definition START_POD_FIXED_SIZE : nat :=
  8 + 8 + 256 + 256 + 2 + 1 + 1 + 4 + 4 + 128 + 64 + 64 + 1.
Definition REGISTRY_AUTH_TRAILER_SIZE : nat := 1 + 128 + 64 + 256 + 1.

(** The [for _ in 0..env_count] loop: entries and the position after them. *)
Fixpoint decode_env (payload : bytes) (n pos : nat)
    : outcome (result (list EnvEntry * nat) io_error) :=
  match n with
  | O => Done (Ok ([], pos))
  | S n =>
    let! name := read_str 64 pos payload in
    let pos := (pos + 64)%nat in
    let! value := read_str 256 pos payload in
    let pos := (pos + 256)%nat in
    let! flag := read_at pos payload in
    let?! is_secret_ref := decode_bool flag "StartPod env secret flag" in
    let pos := (pos + 1)%nat in
    let! rest := decode_env payload n pos in
    let?! (es, pos') := rest in
    Done (Ok (mkEnvEntry name value is_secret_ref :: es, pos'))
  end.

(** The optional registry credentials after the environment entries. *)
Definition decode_registry_trailer (payload : bytes) (pos : nat)
    : outcome (result (string * string * string * bool * nat) io_error) :=
  let remaining := (length payload - pos)%nat in
  if (remaining =? 0)%nat then Done (Ok (""%string, ""%string, ""%string, false, pos))
  else
    let bad := Done (invalid_data "StartPod registry auth trailer invalid") in
    if negb (remaining =? REGISTRY_AUTH_TRAILER_SIZE)%nat then bad
    else
      let! marker := read_at pos payload in
      if negb (marker =? 1) then bad
      else
        let pos := (pos + 1)%nat in
        let! registry := read_str 128 pos payload in
        let pos := (pos + 128)%nat in
        let! username := read_str 64 pos payload in
        let pos := (pos + 64)%nat in
        let! password := read_str 256 pos payload in
        let pos := (pos + 256)%nat in
        let! flag := read_at pos payload in
        let?! is_secret := decode_bool flag "StartPod image pull secret flag" in
        let pos := (pos + 1)%nat in
        Done (Ok (registry, username, password, is_secret, pos)).

Definition decode_start_pod (payload : bytes) : outcome (result ControlMessage io_error) :=
  if (length payload <? START_POD_FIXED_SIZE)%nat then
    Done (invalid_data "StartPod payload too short")
  else
    let pos := 0%nat in
    let! pod_id := read_int 8 pos payload in
    let pos := (pos + 8)%nat in
    let! deployment_id := read_int 8 pos payload in
    let pos := (pos + 8)%nat in
    let! image := read_str 256 pos payload in
    let pos := (pos + 256)%nat in
    let! entrypoint := read_str 256 pos payload in
    let pos := (pos + 256)%nat in
    let! port := read_int 2 pos payload in
    let pos := (pos + 2)%nat in
    let! gpu_count := read_at pos payload in
    let pos := (pos + 1)%nat in
    let! gpu_byte := read_at pos payload in
    let?! gpu_type := u8_to_gpu_type gpu_byte in
    let pos := (pos + 1)%nat in
    let! cpu_millicores := read_int 4 pos payload in
    let pos := (pos + 4)%nat in
    let! memory_megabytes := read_int 4 pos payload in
    let pos := (pos + 4)%nat in
    let! juicefs_path := read_str 128 pos payload in
    let pos := (pos + 128)%nat in
    let! liveness_path := read_str 64 pos payload in
    let pos := (pos + 64)%nat in
    let! readiness_path := read_str 64 pos payload in
    let pos := (pos + 64)%nat in
    let! env_byte := read_at pos payload in
    let env_count := Z.to_nat env_byte in
    let pos := (pos + 1)%nat in
    let env_end := (pos + env_count * ENV_ENTRY_SIZE)%nat in
    if (length payload <? env_end)%nat then
      Done (invalid_data "StartPod env entries truncated")
    else
      let! env := decode_env payload env_count pos in
      let?! (env_vars, pos) := env in
      let! trailer := decode_registry_trailer payload pos in
      let?! (registry, username, password, is_secret, pos) := trailer in
      if negb (pos =? length payload)%nat then
        Done (invalid_data "StartPod payload has trailing bytes")
      else
        Done (Ok (StartPod
          (mkStartPodCmd pod_id deployment_id image entrypoint port gpu_count gpu_type
             cpu_millicores memory_megabytes juicefs_path liveness_path readiness_path
             env_vars registry username password is_secret))).

Definition decode_stop_pod (payload : bytes) : outcome (result ControlMessage io_error) :=
  if negb (length payload =? STOP_POD_PAYLOAD_LEN)%nat then
    Done (invalid_data "StopPod payload length invalid")
  else
    let! pod_id := read_int 8 0 payload in
    let! grace_period_ms := read_int 8 8 payload in
    Done (Ok (StopPod (mkStopPodCmd pod_id grace_period_ms))).

Definition decode_probe_pod (payload : bytes) : outcome (result ControlMessage io_error) :=
  if negb (length payload =? PROBE_POD_PAYLOAD_LEN)%nat then
    Done (invalid_data "ProbePod payload length invalid")
  else
    let! pod_id := read_int 8 0 payload in
    Done (Ok (ProbePod (mkProbePodCmd pod_id))).

Definition decode_run_request (payload : bytes) : outcome (result ControlMessage io_error) :=
  if (length payload <? 20)%nat then Done (invalid_data "RunRequest payload too short")
  else
    let! request_id := read_int 8 0 payload in
    let! deployment_id := read_int 8 8 payload in
    let! declared_len := read_int 4 16 payload in
    let! body := read_slice 20 (length payload) payload in
    if (Z.of_nat MAX_RUN_PAYLOAD <? declared_len) || negb (Z.of_nat (length body) =? declared_len)
    then Done (invalid_data "RunRequest payload length mismatch")
    else Done (Ok (RunRequest (mkRunRequestCmd request_id deployment_id body))).

Definition hex_nibble (z : Z) : ascii :=
  ascii_of_N (Z.to_N (if z <? 10 then z + 48 else z + 87)).
(** [{v:02x}]. *)
Definition fmt_hex2 (v : Z) : string :=
  String (hex_nibble (v / 16)) (String (hex_nibble (v mod 16)) "").

Definition decode_control_message (msg_type : Z) (payload : bytes)
    : outcome (result ControlMessage io_error) :=
  if msg_type =? MSG_START_POD then decode_start_pod payload
  else if msg_type =? MSG_STOP_POD then decode_stop_pod payload
  else if msg_type =? MSG_PROBE_POD then decode_probe_pod payload
  else if msg_type =? MSG_RUN_REQUEST then decode_run_request payload
  else Done (invalid_data ("unknown message type: 0x" +:+ fmt_hex2 msg_type)).

(** ** Reads in range *)

Lemma read_slice_ok i j l (Q : bytes → Prop) :
  (i ≤ j ≤ length l)%nat → (length (slice i j l) = (j - i)%nat → Q (slice i j l)) →
  returns (read_slice i j l) Q.
Proof.
  intros H HQ. unfold read_slice.
  rewrite (proj2 (Nat.leb_le _ _)), (proj2 (Nat.leb_le _ _)) by lia. simpl.
  apply HQ, length_slice; lia.
Qed.

Lemma read_at_ok i l (Q : Z → Prop) :
  (i < length l)%nat → (∀ z, is_u8 z → Q z) → returns (read_at i l) Q.
Proof.
  intros H HQ. unfold read_at. destruct (lookup_lt_is_Some_2 l i H) as [b ->].
  apply HQ. pose proof (b2z_range b). int_lia.
Qed.

Lemma read_int_ok n i l (Q : Z → Prop) :
  (i + n ≤ length l)%nat → (∀ z, 0 ≤ z < 2 ^ (8 * Z.of_nat n) → Q z) →
  returns (read_int n i l) Q.
Proof.
  intros H HQ. apply returns_bind. apply read_slice_ok; [lia|]. intros Hlen.
  apply returns_Done, HQ. pose proof (from_le_bound (slice i (i + n) l)) as Hb.
  rewrite Hlen in Hb. by replace (i + n - i)%nat with n in Hb by lia.
Qed.

(** Every decoded string satisfies the [str] invariant. *)
Definition str_wf (s : string) : Prop := valid_utf8 (as_bytes s) = true.

Lemma read_str_ok n i l (Q : string → Prop) :
  (i + n ≤ length l)%nat → (∀ s, str_wf s → Q s) → returns (read_str n i l) Q.
Proof.
  intros H HQ. apply returns_bind. apply read_slice_ok; [lia|]. intros _.
  apply returns_Done, HQ, from_utf8_lossy_wf.
Qed.

Definition is_invalid_data {A} (P : A → Prop) (r : result A io_error) : Prop :=
  match r with Ok a => P a | Err e => err_kind e = InvalidData end.

Lemma try_bind_returns {A B} (r : result A io_error) (f : A → outcome (result B io_error)) P Q :
  is_invalid_data P r →
  (∀ a, P a → returns (f a) (is_invalid_data Q)) →
  returns (try_bind r f) (is_invalid_data Q).
Proof. destruct r; simpl; auto. Qed.

Lemma decode_bool_ok v field : is_invalid_data (λ _, True) (decode_bool v field).
Proof. unfold decode_bool. by repeat case_match. Qed.

Lemma u8_to_gpu_type_ok v :
  is_invalid_data (λ g, gpu_type_as_u8 g = v) (u8_to_gpu_type v).
Proof.
  unfold u8_to_gpu_type.
  repeat match goal with
  | |- context [v =? ?n] => destruct (Z.eqb_spec v n) as [->|]; [done|]
  end. done.
Qed.

Lemma returns_let {A B} (o : outcome A) (f : A → outcome B) P Q :
  returns o P → (∀ a, P a → returns (f a) Q) → returns (outcome_bind f o) Q.
Proof. intros H Hf. apply returns_bind. eapply returns_mono; [exact H|]. auto. Qed.

(** Steps through the reads of a decoder, leaving the arithmetic to [lia]. *)
Ltac read_step :=
  lazymatch goal with
  | |- returns (outcome_bind _ (read_int _ _ _)) _ =>
    apply returns_bind, read_int_ok; [lia|intros ? ?]
  | |- returns (outcome_bind _ (read_str _ _ _)) _ =>
    apply returns_bind, read_str_ok; [lia|intros ? ?]
  | |- returns (outcome_bind _ (read_at _ _)) _ =>
    apply returns_bind, read_at_ok; [lia|intros ? ?]
  | |- returns (try_bind (decode_bool _ _) _) _ =>
    eapply try_bind_returns; [apply decode_bool_ok|intros ? _]
  | |- returns (try_bind (u8_to_gpu_type _) _) _ =>
    eapply try_bind_returns; [apply u8_to_gpu_type_ok|intros ? ?]
  end.

Definition env_entry_wf (e : EnvEntry) : Prop := str_wf (ee_name e) ∧ str_wf (ee_value e).

Lemma decode_env_ok payload n pos :
  (pos + n * ENV_ENTRY_SIZE ≤ length payload)%nat →
  returns (decode_env payload n pos)
    (is_invalid_data (λ '(es, pos'),
       length es = n ∧ Forall env_entry_wf es ∧ pos' = (pos + n * ENV_ENTRY_SIZE)%nat)).
Proof.
  unfold ENV_ENTRY_SIZE. revert pos. induction n as [|n IH]; intros pos Hl; cbn [decode_env].
  { simpl. split_and!; [done|done|lia]. }
  repeat read_step. eapply returns_let; [apply IH; lia|].
  intros r Hr. eapply try_bind_returns; [exact Hr|].
  intros [es pos'] (He & Hf & ->). simpl. split_and!; [lia| |lia].
  constructor; [by split|done].
Qed.

Lemma decode_registry_trailer_ok payload pos :
  (pos ≤ length payload)%nat →
  returns (decode_registry_trailer payload pos)
    (is_invalid_data (λ '(r, u, p, _, pos'),
       str_wf r ∧ str_wf u ∧ str_wf p ∧ pos' = length payload ∧
       (length payload = pos ∨ length payload = pos + REGISTRY_AUTH_TRAILER_SIZE)%nat)).
Proof.
  intros Hp. unfold decode_registry_trailer.
  destruct (Nat.eqb_spec (length payload - pos) 0) as [E|].
  { simpl. split_and!; [done..|lia|lia]. }
  destruct (Nat.eqb_spec (length payload - pos) REGISTRY_AUTH_TRAILER_SIZE) as [E|]; [|done].
  cbn [negb]. unfold REGISTRY_AUTH_TRAILER_SIZE in *.
  read_step. destruct (Z.eqb_spec z 1); [|done]. cbn [negb].
  repeat read_step. simpl. split_and!; [done..|lia|lia].
Qed.

(** What a decoded command guarantees to the worker: integers in the range of
    their types, strings that are well-formed, a payload of exactly the canonical
    length. *)
Definition start_strings_wf (c : StartPodCmd) : Prop :=
  str_wf (sp_image c) ∧ str_wf (sp_entrypoint c) ∧ str_wf (sp_juicefs_path c) ∧
  str_wf (sp_liveness_path c) ∧ str_wf (sp_readiness_path c) ∧
  Forall env_entry_wf (sp_env_vars c) ∧
  str_wf (sp_image_pull_registry c) ∧ str_wf (sp_image_pull_username c) ∧
  str_wf (sp_image_pull_password c).

Definition canonical_length (m : ControlMessage) (n : nat) : Prop :=
  match m with
  | StartPod c =>
    let base := (START_POD_FIXED_SIZE + length (sp_env_vars c) * ENV_ENTRY_SIZE)%nat in
    start_strings_wf c ∧ (n = base ∨ n = base + REGISTRY_AUTH_TRAILER_SIZE)%nat
  | StopPod _ => n = STOP_POD_PAYLOAD_LEN
  | ProbePod _ => n = PROBE_POD_PAYLOAD_LEN
  | RunRequest c => n = (20 + length (rr_payload c))%nat ∧ (length (rr_payload c) ≤ MAX_RUN_PAYLOAD)%nat
  end.

Definition decoded_ok (n : nat) (m : ControlMessage) : Prop :=
  control_wf m ∧ canonical_length m n.

Lemma pow_u64 z : 0 ≤ z < 2 ^ (8 * Z.of_nat 8) → is_u64 z.
Proof. change (2 ^ (8 * Z.of_nat 8)) with 18446744073709551616. int_lia. Qed.
Lemma pow_u32 z : 0 ≤ z < 2 ^ (8 * Z.of_nat 4) → is_u32 z.
Proof. change (2 ^ (8 * Z.of_nat 4)) with 4294967296. int_lia. Qed.
Lemma pow_u16 z : 0 ≤ z < 2 ^ (8 * Z.of_nat 2) → is_u16 z.
Proof. change (2 ^ (8 * Z.of_nat 2)) with 65536. int_lia. Qed.
#[local] Hint Resolve pow_u64 pow_u32 pow_u16 : intdb.

Lemma decode_start_pod_ok payload :
  returns (decode_start_pod payload) (is_invalid_data (decoded_ok (length payload))).
Proof.
  unfold decode_start_pod.
  destruct (Nat.ltb_spec (length payload) START_POD_FIXED_SIZE) as [|Hl]; [done|].
  unfold START_POD_FIXED_SIZE in Hl. cbv zeta.
  repeat read_step.
  match goal with |- context [(length payload <? ?e)%nat] =>
    destruct (Nat.ltb_spec (length payload) e) as [|He]; [done|] end.
  eapply returns_let; [apply decode_env_ok; lia|]. intros r Hr.
  eapply try_bind_returns; [exact Hr|]. intros [es pos] (Hlen & Hf & ->).
  eapply returns_let; [apply decode_registry_trailer_ok; lia|]. intros r' Hr'.
  eapply try_bind_returns; [exact Hr'|]. intros [[[[reg user] pw] sec] pos'] (Hreg & Hu & Hpw & -> & Hle).
  rewrite Nat.eqb_refl. cbn [negb]. simpl. unfold decoded_ok, start_strings_wf. simpl.
  split; [constructor; simpl; auto with intdb|].
  unfold START_POD_FIXED_SIZE. rewrite Hlen. split_and!; [done..|lia].
Qed.

Lemma decode_run_request_ok payload :
  returns (decode_run_request payload) (is_invalid_data (decoded_ok (length payload))).
Proof.
  unfold decode_run_request.
  destruct (Nat.ltb_spec (length payload) 20) as [|Hl]; [done|].
  repeat read_step. apply returns_bind, read_slice_ok; [lia|]. intros Hb.
  destruct (Z.ltb_spec (Z.of_nat MAX_RUN_PAYLOAD) z1); [done|].
  destruct (Z.eqb_spec (Z.of_nat (length (slice 20 (length payload) payload))) z1); [|done].
  simpl. split; [split; simpl; auto with intdb|]. simpl. lia.
Qed.

Lemma decode_control_message_ok (msg_type : Z) (payload : bytes) :
  returns (decode_control_message msg_type payload)
    (is_invalid_data (decoded_ok (length payload))).
Proof.
  unfold decode_control_message. repeat case_match; [|..|done].
  - apply decode_start_pod_ok.
  - unfold decode_stop_pod.
    destruct (Nat.eqb_spec (length payload) STOP_POD_PAYLOAD_LEN) as [E|]; [|done].
    unfold STOP_POD_PAYLOAD_LEN in E. cbn [negb]. repeat read_step.
    simpl. split; [split; simpl; auto with intdb|done].
  - unfold decode_probe_pod.
    destruct (Nat.eqb_spec (length payload) PROBE_POD_PAYLOAD_LEN) as [E|]; [|done].
    unfold PROBE_POD_PAYLOAD_LEN in E. cbn [negb]. read_step.
    simpl. split; [simpl; auto with intdb|done].
  - apply decode_run_request_ok.
Qed.

(** C25: the decoder is total.  For every tag and every payload, of any length,
    it returns without a panic; a rejected payload is reported as [InvalidData];
    an accepted one has exactly the canonical length of its message and yields
    integers in the range of their types and well-formed strings. *)
Theorem decode_control_message_total (msg_type : Z) (payload : bytes) :
  returns (decode_control_message msg_type payload)
    (is_invalid_data (decoded_ok (length payload))).
Proof. apply decode_control_message_ok. Qed.

(** ** Round trip of the StartPod layout

    The layout the decoder documents, as a writer: fixed-width fields in order,
    the environment entries, and optionally the registry credentials. *)

Definition bool_byte (b : bool) : bytes := [z2b (if b then 1 else 0)].

Definition env_entry_wire (e : EnvEntry) : bytes :=
  str_to_fixed 64 (ee_name e) ++ str_to_fixed 256 (ee_value e) ++ bool_byte (ee_is_secret_ref e).

Definition registry_trailer_wire (c : StartPodCmd) : bytes :=
  [z2b 1] ++ str_to_fixed 128 (sp_image_pull_registry c)
  ++ str_to_fixed 64 (sp_image_pull_username c)
  ++ str_to_fixed 256 (sp_image_pull_password c)
  ++ bool_byte (sp_image_pull_password_is_secret c).

Definition start_pod_wire (with_auth : bool) (c : StartPodCmd) : bytes :=
  to_le 8 (sp_pod_id c) ++ to_le 8 (sp_deployment_id c)
  ++ str_to_fixed 256 (sp_image c) ++ str_to_fixed 256 (sp_entrypoint c)
  ++ to_le 2 (sp_port c) ++ [z2b (sp_gpu_count c)] ++ [z2b (gpu_type_as_u8 (sp_gpu_type c))]
  ++ to_le 4 (sp_cpu_millicores c) ++ to_le 4 (sp_memory_megabytes c)
  ++ str_to_fixed 128 (sp_juicefs_path c) ++ str_to_fixed 64 (sp_liveness_path c)
  ++ str_to_fixed 64 (sp_readiness_path c)
  ++ [z2b (Z.of_nat (length (sp_env_vars c)))]
  ++ mjoin (env_entry_wire <$> sp_env_vars c)
  ++ (if with_auth then registry_trailer_wire c else []).

(** A string that survives a field of [n] bytes. *)
Definition fits (n : nat) (s : string) : Prop :=
  str_wf s ∧ (length (as_bytes s) ≤ n)%nat ∧ Forall (λ b, b2z b ≠ 0) (as_bytes s).

Lemma length_str_to_fixed n s : length (str_to_fixed n s) = n.
Proof. unfold str_to_fixed, zeros. rewrite length_app, length_take, length_replicate. lia. Qed.

Lemma nul_position_app l k :
  Forall (λ b, b2z b ≠ 0) l → nul_position (l ++ k) = (length l + nul_position k)%nat.
Proof.
  induction 1 as [|b l Hb _ IH]; simpl; [done|].
  destruct (Z.eqb_spec (b2z b) 0); [done|]. by rewrite IH.
Qed.

Lemma nul_position_zeros n : nul_position (zeros n) = 0%nat.
Proof. by destruct n. Qed.

Lemma fixed_roundtrip n s : fits n s → fixed_to_string (str_to_fixed n s) = s.
Proof.
  intros (Hwf & Hlen & Hnz). unfold fixed_to_string, str_to_fixed.
  cbv zeta. rewrite Nat.min_l, (take_ge (as_bytes s)) by lia.
  rewrite nul_position_app, nul_position_zeros, Nat.add_0_r by done.
  rewrite take_app_length. rewrite from_utf8_lossy_valid by done. apply of_as_bytes.
Qed.

(** Reading the field at the head of what is left. *)
Lemma read_slice_drop n i l f rest :
  drop i l = f ++ rest → length f = n → (0 < n)%nat →
  read_slice i (i + n) l = Done f ∧ drop (i + n) l = rest.
Proof.
  intros Hd Hf Hn.
  assert (Hlen : (n ≤ length l - i)%nat).
  { rewrite <-length_drop, Hd, length_app. lia. }
  split.
  - unfold read_slice. rewrite !(proj2 (Nat.leb_le _ _)) by lia. simpl.
    unfold slice. rewrite Hd. replace (i + n - i)%nat with n by lia.
    by rewrite take_app_length'.
  - rewrite <-drop_drop, Hd. by rewrite drop_app_length'.
Qed.

Lemma read_int_drop n i l x rest :
  drop i l = to_le n x ++ rest → (0 < n)%nat → 0 ≤ x < 2 ^ (Z.of_nat n * 8) →
  read_int n i l = Done x ∧ drop (i + n) l = rest.
Proof.
  intros Hd Hn Hx. apply read_slice_drop with (n := n) in Hd as [Hr ?]; [|apply length_to_le|done].
  unfold read_int. rewrite Hr. simpl. by rewrite from_to_le.
Qed.

Lemma read_str_drop n i l s rest :
  drop i l = str_to_fixed n s ++ rest → (0 < n)%nat → fits n s →
  read_str n i l = Done s ∧ drop (i + n) l = rest.
Proof.
  intros Hd Hn Hs.
  apply read_slice_drop with (n := n) in Hd as [Hr ?]; [|apply length_str_to_fixed|done].
  unfold read_str. rewrite Hr. simpl. by rewrite fixed_roundtrip.
Qed.

Lemma read_at_drop i l z rest :
  drop i l = [z2b z] ++ rest → is_u8 z →
  read_at i l = Done z ∧ drop (i + 1) l = rest.
Proof.
  intros Hd Hz. split.
  - unfold read_at. rewrite <-(Nat.add_0_r i), <-lookup_drop, Hd. simpl. by rewrite b2z_z2b.
  - by rewrite <-drop_drop, Hd.
Qed.

Lemma decode_bool_byte (b : bool) field : decode_bool (if b then 1 else 0) field = Ok b.
Proof. by destruct b. Qed.

Lemma is_u8_bool (b : bool) : is_u8 (if b then 1 else 0).
Proof. destruct b; int_lia. Qed.

Definition env_entry_fits (e : EnvEntry) : Prop := fits 64 (ee_name e) ∧ fits 256 (ee_value e).

Lemma decode_env_wire l es pos rest :
  drop pos l = mjoin (env_entry_wire <$> es) ++ rest → Forall env_entry_fits es →
  decode_env l (length es) pos = Done (Ok (es, (pos + length es * ENV_ENTRY_SIZE)%nat)) ∧
  drop (pos + length es * ENV_ENTRY_SIZE) l = rest.
Proof.
  unfold ENV_ENTRY_SIZE.
  revert pos. induction es as [|[nm v b] es IH]; intros pos Hd Hf.
  { simpl in *. rewrite Nat.add_0_r. done. }
  apply Forall_cons in Hf as [[Hn Hv] Hf]. simpl in Hn, Hv.
  change (mjoin (env_entry_wire <$> mkEnvEntry nm v b :: es)) with
    (env_entry_wire (mkEnvEntry nm v b) ++ mjoin (env_entry_wire <$> es)) in Hd.
  unfold env_entry_wire at 1 in Hd. unfold bool_byte in Hd. simpl in Hd. rewrite <-!app_assoc in Hd.
  cbn [length decode_env].
  apply read_str_drop in Hd as [-> Hd]; [|lia|done]. cbn [outcome_bind].
  apply read_str_drop in Hd as [-> Hd]; [|lia|done]. cbn [outcome_bind].
  apply read_at_drop in Hd as [-> Hd]; [|apply is_u8_bool]. cbn [outcome_bind].
  rewrite decode_bool_byte. cbn [try_bind].
  apply IH in Hd as [-> Hd]; [|done]. cbn [outcome_bind try_bind].
  match goal with |- context [(?a, (?p + 64 + 256 + 1 + ?n)%nat)] =>
    replace (p + 64 + 256 + 1 + n)%nat with (p + (64 + 256 + 1 + n))%nat by lia end.
  split; [done|]. rewrite <-Hd. f_equal. lia.
Qed.

(** A command the layout can carry. *)
Record start_cmd_fits (with_auth : bool) (c : StartPodCmd) : Prop := {
  scf_wf : start_cmd_wf c;
  scf_image : fits 256 (sp_image c);
  scf_entrypoint : fits 256 (sp_entrypoint c);
  scf_juicefs : fits 128 (sp_juicefs_path c);
  scf_liveness : fits 64 (sp_liveness_path c);
  scf_readiness : fits 64 (sp_readiness_path c);
  scf_env : Forall env_entry_fits (sp_env_vars c);
  scf_env_count : (length (sp_env_vars c) ≤ 255)%nat;
  scf_registry : fits 128 (sp_image_pull_registry c);
  scf_username : fits 64 (sp_image_pull_username c);
  scf_password : fits 256 (sp_image_pull_password c);
  scf_no_auth : with_auth = false →
    sp_image_pull_registry c = "" ∧ sp_image_pull_username c = "" ∧
    sp_image_pull_password c = "" ∧ sp_image_pull_password_is_secret c = false
}.

Lemma decode_registry_trailer_wire with_auth c l pos :
  start_cmd_fits with_auth c → (pos ≤ length l)%nat →
  drop pos l = (if with_auth then registry_trailer_wire c else []) →
  decode_registry_trailer l pos =
    Done (Ok (sp_image_pull_registry c, sp_image_pull_username c, sp_image_pull_password c,
              sp_image_pull_password_is_secret c, length l)).
Proof.
  intros Hc Hp Hd. unfold decode_registry_trailer.
  assert (Hlen : (length l - pos)%nat = length (drop pos l)) by by rewrite length_drop.
  rewrite Hlen, Hd. destruct with_auth.
  - assert (Hl : length (registry_trailer_wire c) = REGISTRY_AUTH_TRAILER_SIZE).
    { unfold registry_trailer_wire, bool_byte, REGISTRY_AUTH_TRAILER_SIZE.
      rewrite !length_app, !length_str_to_fixed. simpl. lia. }
    rewrite Hd, Hl in Hlen. rewrite Hl, Nat.eqb_refl. unfold REGISTRY_AUTH_TRAILER_SIZE in Hlen.
    simpl Nat.eqb. cbn [negb]. unfold registry_trailer_wire, bool_byte in Hd.
    rewrite <-(app_nil_r [z2b (if sp_image_pull_password_is_secret c then 1 else 0)]) in Hd.
    apply read_at_drop in Hd as [-> Hd]; [|int_lia]. cbn [outcome_bind negb Z.eqb Pos.eqb].
    apply read_str_drop in Hd as [-> Hd]; [|lia|apply Hc]. cbn [outcome_bind].
    apply read_str_drop in Hd as [-> Hd]; [|lia|apply Hc]. cbn [outcome_bind].
    apply read_str_drop in Hd as [-> Hd]; [|lia|apply Hc]. cbn [outcome_bind].
    apply read_at_drop in Hd as [-> Hd]; [|apply is_u8_bool]. cbn [outcome_bind].
    rewrite decode_bool_byte. cbn [try_bind]. do 3 f_equal. lia.
  - destruct (scf_no_auth _ _ Hc eq_refl) as (-> & -> & -> & ->). simpl. do 3 f_equal.
    rewrite Hd in Hlen. simpl in Hlen. lia.
Qed.

Lemma u8_to_gpu_type_as_u8 g : u8_to_gpu_type (gpu_type_as_u8 g) = Ok g.
Proof. by destruct g. Qed.

Lemma is_u8_gpu g : is_u8 (gpu_type_as_u8 g).
Proof. destruct g; cbn [gpu_type_as_u8]; int_lia. Qed.

Lemma length_env_wire es : length (mjoin (env_entry_wire <$> es)) = (length es * ENV_ENTRY_SIZE)%nat.
Proof.
  induction es as [|e es IH]; [done|].
  change (mjoin (env_entry_wire <$> e :: es)) with
    (env_entry_wire e ++ mjoin (env_entry_wire <$> es)).
  rewrite length_app, IH. unfold env_entry_wire, bool_byte, ENV_ENTRY_SIZE.
  rewrite !length_app, !length_str_to_fixed. simpl. lia.
Qed.

(** Consumes the next field of the remaining bytes [Hd]. *)
Ltac next_int Hd :=
  apply read_int_drop in Hd as [-> Hd];
  [cbn [outcome_bind]|lia|
   match goal with |- _ ≤ _ < ?p => let v := eval vm_compute in p in change p with v end; int_lia].
Ltac next_str Hd Hc :=
  apply read_str_drop in Hd as [-> Hd]; [cbn [outcome_bind]|lia|apply Hc].

(** C26: StartPod round trip.  Every command whose strings fit their fields (valid
    UTF-8, no NUL) and with at most 255 environment entries is decoded exactly as
    it was laid out, with or without the registry-credentials trailer. *)
Theorem start_pod_roundtrip (with_auth : bool) (c : StartPodCmd) :
  start_cmd_fits with_auth c →
  decode_control_message MSG_START_POD (start_pod_wire with_auth c) = Done (Ok (StartPod c)).
Proof.
  intros Hc. change (decode_control_message MSG_START_POD) with decode_start_pod.
  pose proof (scf_wf _ _ Hc) as [].
  remember (start_pod_wire with_auth c) as l eqn:Hl.
  assert (Hlen : (START_POD_FIXED_SIZE + length (sp_env_vars c) * ENV_ENTRY_SIZE ≤ length l)%nat).
  { subst l. unfold start_pod_wire. rewrite !length_app, !length_str_to_fixed, !length_to_le, length_env_wire.
    unfold START_POD_FIXED_SIZE. simpl. lia. }
  unfold decode_start_pod.
  destruct (Nat.ltb_spec (length l) START_POD_FIXED_SIZE); [lia|]. cbv zeta.
  assert (Hd : drop 0 l = start_pod_wire with_auth c) by by rewrite drop_0.
  clear Hl. unfold start_pod_wire in Hd.
  next_int Hd. next_int Hd. next_str Hd Hc. next_str Hd Hc. next_int Hd.
  apply read_at_drop in Hd as [-> Hd]; [|done]. cbn [outcome_bind].
  apply read_at_drop in Hd as [-> Hd]; [|apply is_u8_gpu]. cbn [outcome_bind].
  rewrite u8_to_gpu_type_as_u8. cbn [try_bind].
  next_int Hd. next_int Hd. next_str Hd Hc. next_str Hd Hc. next_str Hd Hc.
  pose proof (scf_env_count _ _ Hc).
  apply read_at_drop in Hd as [-> Hd]; [|int_lia]. cbn [outcome_bind].
  rewrite Nat2Z.id. unfold START_POD_FIXED_SIZE in Hlen.
  match goal with |- context [(length l <? ?e)%nat] =>
    destruct (Nat.ltb_spec (length l) e); [lia|] end.
  apply decode_env_wire in Hd as [-> Hd]; [|apply Hc]. cbn [outcome_bind try_bind].
  erewrite decode_registry_trailer_wire; [|done|lia|exact Hd]. cbn [outcome_bind try_bind].
  rewrite Nat.eqb_refl. by destruct c.
Qed.

(** ** What an encoded agent message carries

    The reader's side of the fixed layouts: fields at the offsets the control
    plane parses. *)
Inductive AgentView :=
| VRegister (name : string) (cpu mem gpu_type gpu_count : Z)
| VHeartbeat (tick active_pods : Z)
| VPodStatus (pod_id phase exit_code : Z) (message : string)
| VRunResponse (request_id status : Z) (payload : bytes).

Definition read_agent (tag : Z) (p : bytes) : option AgentView :=
  if tag =? MSG_NODE_REGISTER then
    Some (VRegister (fixed_to_string (slice 0 64 p)) (from_le (slice 64 68 p))
            (from_le (slice 68 72 p)) (from_le (slice 72 73 p)) (from_le (slice 73 74 p)))
  else if tag =? MSG_NODE_HEARTBEAT then
    Some (VHeartbeat (from_le (slice 0 8 p)) (from_le (slice 21 23 p)))
  else if tag =? MSG_POD_STATUS_EVENT then
    Some (VPodStatus (from_le (slice 0 8 p)) (from_le (slice 9 10 p))
            (i32_of_u32 (from_le (slice 18 22 p))) (fixed_to_string (slice 22 150 p)))
  else if tag =? MSG_RUN_RESPONSE then
    Some (VRunResponse (from_le (slice 0 8 p)) (from_le (slice 8 9 p)) (drop 9 p))
  else None.

(** The enumerations of the control plane ([message.zig]), in the order they are declared
    there: the code of a value is its place. *)
Definition GPU_TYPES : list GpuType :=
  [GpuNone; A100_40; A100_80; H100Sxm; H100Pcie; H200; L40s; A10g; T4].
Definition POD_PHASES : list string := ["pending"; "scheduled"; "running"; "succeeded"; "failed"; "terminating"]%string.

Definition place {A} `{!EqDecision A} (x : A) (l : list A) : Z :=
  match list_find (x =.) l with Some (i, _) => Z.of_nat i | None => -1 end.

(** What a report says to the control plane: the phase, the exit code and the text. *)
Definition phase_of (s : PodStatusReport) : string :=
  match s with
  | RImagePulling => "pending" | RCreating => "scheduled" | RRunning => "running"
  | RStopped _ => "succeeded" | RFailed _ => "failed"
  end.
Definition exit_code_of (s : PodStatusReport) : Z :=
  match s with RStopped exit_code => exit_code | RFailed _ => 1 | _ => 0 end.
Definition text_of (s : PodStatusReport) : string :=
  match s with
  | RImagePulling => "pulling" | RCreating => "creating" | RRunning => "running" | RStopped _ => "stopped"
  | RFailed reason => reason
  end.

(** The codes the encoder writes are those. *)
Lemma gpu_type_as_u8_place g : gpu_type_as_u8 g = place g GPU_TYPES.
Proof. by destruct g. Qed.

Lemma pod_status_fields_meaning s : pod_status_fields s = (place (phase_of s) POD_PHASES, exit_code_of s, text_of s).
Proof. by destruct s. Qed.

(** The information each message is meant to carry: texts cut to their field,
    [gpu_free] left out of the heartbeat, an oversize response replaced by the
    status [ResponseTooLarge] with an empty body. *)
Definition agent_view (m : WorkerMessage) : AgentView :=
  match m with
  | NodeRegister r =>
    VRegister (fixed_to_string (str_to_fixed 64 (nr_node_name r))) (nr_cpu_millicores r)
      (nr_memory_megabytes r) (place (nr_gpu_type r) GPU_TYPES) (nr_gpu_count r)
  | NodeHeartbeat h => VHeartbeat (nh_tick h) (nh_active_pods h)
  | PodStatusEvent e =>
    VPodStatus (pe_pod_id e) (place (phase_of (pe_status e)) POD_PHASES) (exit_code_of (pe_status e))
      (fixed_to_string (str_to_fixed 128 (text_of (pe_status e))))
  | RunResponse r =>
    if (MAX_RUN_RESPONSE_BODY <? length (rs_payload r))%nat
    then VRunResponse (rs_request_id r) RUN_STATUS_RESPONSE_TOO_LARGE []
    else VRunResponse (rs_request_id r) (rs_status r) (rs_payload r)
  end.

(** Messages the worker builds: integers in range, at most [u16::MAX] active pods
    (the heartbeat field is 16 bits wide), a status a worker may emit. *)
Definition agent_wf (m : WorkerMessage) : Prop :=
  match m with
  | NodeRegister r =>
    is_u32 (nr_cpu_millicores r) ∧ is_u32 (nr_memory_megabytes r) ∧ is_u8 (nr_gpu_count r)
  | NodeHeartbeat h => is_u64 (nh_tick h) ∧ is_u16 (nh_active_pods h)
  | PodStatusEvent e =>
    is_u64 (pe_pod_id e) ∧ match pe_status e with RStopped c => is_i32 c | _ => True end
  | RunResponse r => is_u64 (rs_request_id r) ∧ 0 ≤ rs_status r < run_status_as_u8 NotLeader
  end.

(** What a worker may put on the wire: a run status a worker may emit. *)
Definition emittable (m : WorkerMessage) : Prop :=
  match m with RunResponse r => 0 ≤ rs_status r < run_status_as_u8 NotLeader | _ => True end.

Lemma from_le_byte z : is_u8 z → from_le [z2b z] = z.
Proof. intros H. unfold from_le. rewrite le_combine_1. by apply b2z_z2b. Qed.

Lemma length_zeros n : length (zeros n) = n.
Proof. apply length_replicate. Qed.

(** Field access through nested overwrites. *)
Ltac len_tac :=
  repeat (rewrite length_splice by len_tac);
  rewrite ?length_to_le, ?length_str_to_fixed, ?length_zeros, ?length_app;
  cbn [length]; lia.
Ltac field_tac :=
  repeat first
    [ rewrite slice_splice_same by len_tac
    | rewrite slice_splice_after by len_tac
    | rewrite slice_splice_before by len_tac ].

Lemma take_write_back n p buf : length p = n → take n (write_back p buf) = p.
Proof. intros <-. unfold write_back. apply take_app_length. Qed.

Lemma length_write_back p buf :
  (length p ≤ length buf)%nat → length (write_back p buf) = length buf.
Proof. intros H. unfold write_back. rewrite length_app, length_drop. lia. Qed.

(** The outcome promised for a message encoded into a frame-sized buffer. *)
Definition encodes (m : WorkerMessage) (buf : bytes) : Prop :=
  ∃ tag len buf', encode_agent_message m buf = (Ok (tag, len), buf') ∧
    length buf' = length buf ∧ (len ≤ MAX_FRAME_PAYLOAD)%nat ∧
    read_agent tag (take len buf') = Some (agent_view m).

Lemma encode_fixed_ok tag len name fill buf :
  (len ≤ length buf)%nat → length (fill (zeros len)) = len →
  ∃ buf', encode_fixed tag len name fill buf = (Ok (tag, len), buf') ∧
    length buf' = length buf ∧ take len buf' = fill (zeros len).
Proof.
  intros Hl Hf. unfold encode_fixed, fixed_payload_mut.
  rewrite (proj2 (Nat.leb_le _ _)) by lia. eexists. split; [done|].
  split; [apply length_write_back; lia|by apply take_write_back].
Qed.

Lemma encodes_node_register r buf :
  agent_wf (NodeRegister r) → (MAX_FRAME_PAYLOAD ≤ length buf)%nat → encodes (NodeRegister r) buf.
Proof.
  intros (Hc & Hm & Hg) Hb. unfold encodes. cbn [encode_agent_message].
  destruct (encode_fixed_ok MSG_NODE_REGISTER NODE_REGISTER_PAYLOAD_LEN "NodeRegister"
    (encode_node_register r) buf) as (buf' & -> & Hlen & Htake).
  { unfold NODE_REGISTER_PAYLOAD_LEN, MAX_FRAME_PAYLOAD in *. lia. }
  { unfold encode_node_register, NODE_REGISTER_PAYLOAD_LEN. len_tac. }
  do 3 eexists. split; [done|]. split; [done|]. split; [apply Nat.leb_le; vm_compute; done|].
  rewrite Htake. unfold read_agent, encode_node_register, NODE_REGISTER_PAYLOAD_LEN. cbn [agent_view].
  rewrite <-gpu_type_as_u8_place. simpl.
  field_tac. rewrite !from_le_byte by (done || apply is_u8_gpu).
  by rewrite !from_to_le_u32.
Qed.

Lemma encodes_node_heartbeat h buf :
  agent_wf (NodeHeartbeat h) → (MAX_FRAME_PAYLOAD ≤ length buf)%nat → encodes (NodeHeartbeat h) buf.
Proof.
  intros [Ht Ha] Hb. unfold encodes. cbn [encode_agent_message].
  destruct (encode_fixed_ok MSG_NODE_HEARTBEAT NODE_HEARTBEAT_PAYLOAD_LEN "NodeHeartbeat"
    (encode_node_heartbeat h) buf) as (buf' & -> & Hlen & Htake).
  { unfold NODE_HEARTBEAT_PAYLOAD_LEN, MAX_FRAME_PAYLOAD in *. lia. }
  { unfold encode_node_heartbeat, NODE_HEARTBEAT_PAYLOAD_LEN. len_tac. }
  do 3 eexists. split; [done|]. split; [done|]. split; [apply Nat.leb_le; vm_compute; done|].
  rewrite Htake. unfold read_agent, encode_node_heartbeat, NODE_HEARTBEAT_PAYLOAD_LEN. simpl.
  field_tac. rewrite from_to_le_u64 by done.
  rewrite Z.mod_small by int_lia. by rewrite from_to_le_u16.
Qed.

Lemma encodes_pod_status_event e buf :
  agent_wf (PodStatusEvent e) → (MAX_FRAME_PAYLOAD ≤ length buf)%nat → encodes (PodStatusEvent e) buf.
Proof.
  intros [Hp Hs] Hb. unfold encodes. cbn [encode_agent_message].
  destruct (pod_status_fields (pe_status e)) as [[phase code] text] eqn:E.
  assert (Hpc : is_u8 phase ∧ is_i32 code).
  { destruct (pe_status e); simplify_eq/=; (split; [int_lia|]); first [done|int_lia]. }
  destruct Hpc as [Hph Hco].
  assert (Hfill : encode_pod_status_event e (zeros POD_STATUS_EVENT_PAYLOAD_LEN) =
    splice 22 (str_to_fixed 128 text) (splice 18 (to_le 4 code) (splice 9 [z2b phase]
      (splice 0 (to_le 8 (pe_pod_id e)) (zeros POD_STATUS_EVENT_PAYLOAD_LEN))))).
  { unfold encode_pod_status_event. by rewrite E. }
  destruct (encode_fixed_ok MSG_POD_STATUS_EVENT POD_STATUS_EVENT_PAYLOAD_LEN "PodStatusEvent"
    (encode_pod_status_event e) buf) as (buf' & -> & Hlen & Htake).
  { unfold POD_STATUS_EVENT_PAYLOAD_LEN, MAX_FRAME_PAYLOAD in *. lia. }
  { rewrite Hfill. unfold POD_STATUS_EVENT_PAYLOAD_LEN. len_tac. }
  do 3 eexists. split; [done|]. split; [done|]. split; [apply Nat.leb_le; vm_compute; done|].
  rewrite Htake, Hfill. unfold read_agent, POD_STATUS_EVENT_PAYLOAD_LEN. cbn [agent_view].
  rewrite pod_status_fields_meaning in E. injection E as -> -> ->. simpl.
  field_tac. rewrite from_le_byte, from_to_le_u64, from_to_le_i32 by done. done.
Qed.

Lemma take_slice {A} n a b (l : list A) : (b ≤ n)%nat → slice a b (take n l) = slice a b l.
Proof.
  intros H. unfold slice. rewrite skipn_firstn_comm, take_take. f_equal. lia.
Qed.

Lemma drop_splice {A} i (xs l : list A) n :
  (i + length xs ≤ length l)%nat → n = (i + length xs)%nat →
  drop i (take n (splice i xs l)) = xs.
Proof.
  intros H ->. unfold splice. rewrite app_assoc.
  rewrite take_app_length' by (rewrite length_app, length_take; lia).
  apply drop_app_length'. rewrite length_take. lia.
Qed.

Lemma encodes_run_response r buf :
  agent_wf (RunResponse r) → (MAX_FRAME_PAYLOAD ≤ length buf)%nat → encodes (RunResponse r) buf.
Proof.
  intros [Hid Hst] Hb. unfold encodes. cbn [encode_agent_message agent_view].
  unfold encode_run_response, MAX_RUN_RESPONSE_BODY. unfold MAX_FRAME_PAYLOAD in *. simpl in Hst.
  destruct (Nat.ltb_spec (length buf) 9); [lia|].
  destruct (Z.leb_spec (run_status_as_u8 NotLeader) (rs_status r)) as [Hl|_]; [simpl in Hl; lia|].
  destruct (Nat.ltb_spec (16 * 1024 - 9) (length (rs_payload r))).
  - do 3 eexists. split; [done|]. split; [len_tac|]. split; [lia|].
    unfold read_agent. cbn -[slice splice take drop zeros to_le].
    rewrite !take_slice by lia. field_tac. rewrite from_le_byte, from_to_le_u64 by done || (simpl; int_lia).
    by rewrite drop_ge by (rewrite length_take; lia).
  - rewrite length_splice by len_tac.
    destruct (Nat.ltb_spec (length buf - 9) (length (rs_payload r))); [lia|].
    do 3 eexists. split; [done|]. split; [len_tac|]. split; [lia|].
    unfold read_agent. cbn -[slice splice take drop zeros to_le].
    rewrite !take_slice by lia. rewrite drop_splice by (done || len_tac).
    field_tac. by rewrite from_le_byte, from_to_le_u64 by (done || int_lia).
Qed.

(** C30: encoding round trip.  Into a buffer of [MAX_FRAME_PAYLOAD] bytes (the
    size of the connection's write buffer) every message the worker builds is
    encoded, never past that bound, without touching the buffer's length, and the
    fields read back at the layout's offsets are the message's: registration,
    heartbeat, pod status and run response; an oversize run response is sent as
    [ResponseTooLarge] with an empty body, never truncated. *)
Theorem encode_agent_message_roundtrip (m : WorkerMessage) (buf : bytes) :
  agent_wf m → (MAX_FRAME_PAYLOAD ≤ length buf)%nat → encodes m buf.
Proof.
  destruct m; auto using encodes_node_register, encodes_node_heartbeat,
    encodes_pod_status_event, encodes_run_response.
Qed.

(** The statuses a worker may not emit ([NotLeader] and the undefined
    bytes) are refused, and so is every message that does not fit the buffer; a
    refused fixed-size message leaves the buffer as it was. *)
Theorem encode_agent_message_errors (m : WorkerMessage) (buf : bytes) :
  match m with
  | RunResponse r =>
    (9 ≤ length buf)%nat → run_status_as_u8 NotLeader ≤ rs_status r →
    ∃ e buf', encode_agent_message m buf = (Err e, buf') ∧ err_kind e = InvalidData
  | NodeRegister _ => (length buf < NODE_REGISTER_PAYLOAD_LEN)%nat →
    ∃ e, encode_agent_message m buf = (Err e, buf) ∧ err_kind e = WriteZero
  | NodeHeartbeat _ => (length buf < NODE_HEARTBEAT_PAYLOAD_LEN)%nat →
    ∃ e, encode_agent_message m buf = (Err e, buf) ∧ err_kind e = WriteZero
  | PodStatusEvent _ => (length buf < POD_STATUS_EVENT_PAYLOAD_LEN)%nat →
    ∃ e, encode_agent_message m buf = (Err e, buf) ∧ err_kind e = WriteZero
  end.
Proof.
  destruct m as [r|h|e|r]; cbn [encode_agent_message].
  1-3: intros Hl; unfold encode_fixed, fixed_payload_mut;
    rewrite (proj2 (Nat.leb_gt _ _)) by lia; by eexists.
  intros Hb Hs. unfold encode_run_response.
  destruct (Nat.ltb_spec (length buf) 9); [lia|].
  rewrite (proj2 (Z.leb_le _ _)) by done. by do 2 eexists.
Qed.

(** Whatever may be emitted fits a frame. *)
Lemma encode_emittable m buf :
  emittable m → (MAX_FRAME_PAYLOAD ≤ length buf)%nat →
  ∃ tag len buf', encode_agent_message m buf = (Ok (tag, len), buf') ∧ (len ≤ MAX_FRAME_PAYLOAD)%nat ∧
    length buf' = length buf.
Proof.
  intros Hm Hb.
  assert (Hfix : ∀ tag len name fill, (len ≤ MAX_FRAME_PAYLOAD)%nat → length (fill (zeros len)) = len →
    ∃ t l b, encode_fixed tag len name fill buf = (Ok (t, l), b) ∧ (l ≤ MAX_FRAME_PAYLOAD)%nat ∧
      length b = length buf).
  { intros tag len name fill Hl Hf. destruct (encode_fixed_ok tag len name fill buf) as (b & E & ? & _);
      [lia|done|]. exists tag, len, b. by rewrite E. }
  destruct m as [r|h|e|r]; cbn [encode_agent_message].
  - apply Hfix; [apply Nat.leb_le; vm_compute; reflexivity|].
    unfold encode_node_register, NODE_REGISTER_PAYLOAD_LEN. len_tac.
  - apply Hfix; [apply Nat.leb_le; vm_compute; reflexivity|].
    unfold encode_node_heartbeat, NODE_HEARTBEAT_PAYLOAD_LEN. len_tac.
  - apply Hfix; [apply Nat.leb_le; vm_compute; reflexivity|].
    unfold encode_pod_status_event, POD_STATUS_EVENT_PAYLOAD_LEN.
    destruct (pod_status_fields (pe_status e)) as [[phase code] text]. len_tac.
  - simpl in Hm. unfold encode_run_response, MAX_RUN_RESPONSE_BODY. unfold MAX_FRAME_PAYLOAD in *.
    cbn [run_status_as_u8].
    rewrite (proj2 (Nat.ltb_ge _ _)) by lia. rewrite (proj2 (Z.leb_gt _ _)) by lia.
    destruct (Nat.ltb_spec (16 * 1024 - 9) (length (rs_payload r))) as [|Hle].
    { do 3 eexists. split; [done|]. split; [lia|len_tac]. }
    rewrite length_splice by len_tac. rewrite (proj2 (Nat.ltb_ge _ _)) by lia.
    do 3 eexists. split; [done|]. split; [lia|len_tac].
Qed.

(** ** Concrete instances *)

Definition sample_start_cmd : StartPodCmd :=
  mkStartPodCmd 42 9 "registry.local/demo:1" "serve --port 8080" 8080 1 T4 500 512
    "/data/models" "/health" "/ready" [mkEnvEntry "MODE" "prod" false; mkEnvEntry "KEY" "SECRET" true]
    "registry.local" "robot" "hunter2" true.

Lemma fits_dec n s :
  valid_utf8 (as_bytes s) && (length (as_bytes s) <=? n)%nat
    && forallb (λ b, negb (b2z b =? 0)) (as_bytes s) = true → fits n s.
Proof.
  intros [[H1 H2]%andb_prop H3]%andb_prop. split_and!; [done|by apply Nat.leb_le|].
  apply Forall_forall. intros b Hb.
  rewrite forallb_forall in H3. specialize (H3 b). rewrite <-list_elem_of_In in H3.
  intros E. specialize (H3 Hb). by rewrite E in H3.
Qed.

Lemma sample_start_cmd_fits : start_cmd_fits true sample_start_cmd.
Proof.
  constructor; try (apply fits_dec; vm_compute; reflexivity).
  - constructor; simpl; int_lia.
  - constructor; [split; apply fits_dec; vm_compute; reflexivity|].
    constructor; [split; apply fits_dec; vm_compute; reflexivity|constructor].
  - simpl; lia.
  - done.
Qed.

Lemma start_pod_roundtrip_witness :
  decode_control_message MSG_START_POD (start_pod_wire true sample_start_cmd)
  = Done (Ok (StartPod sample_start_cmd)).
Proof. apply (start_pod_roundtrip true sample_start_cmd). exact sample_start_cmd_fits. Defined.

Lemma encode_agent_message_roundtrip_witness :
  encodes (PodStatusEvent (mkPodStatusEventMsg 7 (RStopped (-9)))) (zeros MAX_FRAME_PAYLOAD).
Proof.
  apply (encode_agent_message_roundtrip (PodStatusEvent (mkPodStatusEventMsg 7 (RStopped (-9))))).
  - simpl. split; [int_lia|unfold is_i32; lia].
  - by rewrite length_zeros.
Defined.

Lemma encode_agent_message_errors_witness :
  ∃ e buf', encode_agent_message (RunResponse (mkRunResponseMsg 7 9 [])) (zeros 16) = (Err e, buf')
    ∧ err_kind e = InvalidData.
Proof.
  apply (encode_agent_message_errors (RunResponse (mkRunResponseMsg 7 9 [])) (zeros 16)).
  - rewrite length_zeros. lia.
  - simpl. lia.
Defined.
