(* ===== verification/Frame.v ===== *)
(** * Framing: [worker/src/protocol.rs], frame I/O

    [[4B LE len][1B flags][2B LE version][1B tag][payload]], plaintext or
    encrypted.  Lengths that come from the wire are [Z] (a [u32] widened to
    [usize]); reads and the [debug_assert] are panics when they fail. *)

From S2P Require Import Prelude Types RustStr Crypto Protocol.

Definition PROTOCOL_VERSION : Z := 6.
Definition FRAME_FLAGS_LEN : Z := 1.
Definition FRAME_INNER_MIN : Z := 3.
Definition ENCRYPTED_FRAME_OVERHEAD : Z := Z.of_nat NONCE_LEN + Z.of_nat TAG_LEN.

Definition zlen {A} (l : list A) : Z := Z.of_nat (length l).
Definition MAX_PAYLOAD : Z := 16384.

Lemma MAX_PAYLOAD_eq : MAX_PAYLOAD = Z.of_nat MAX_FRAME_PAYLOAD.
Proof. vm_compute. reflexivity. Qed.

Definition validate_frame_declaration (total_len flags : Z) (key_configured : bool)
    : result Z io_error :=
  if negb (flags =? 0) && negb (flags =? 1) then
    invalid_data ("unknown frame flags: 0x" +:+ fmt_hex2 flags)
  else if negb (Bool.eqb (flags =? 1) key_configured) then
    invalid_data (if flags =? 1 then "encrypted frame but no key"
                  else "plaintext frame while key configured")
  else if total_len <? FRAME_FLAGS_LEN then invalid_data "frame too short"
  else
    let remaining := total_len - FRAME_FLAGS_LEN in
    let overhead := if flags =? 1 then ENCRYPTED_FRAME_OVERHEAD else 0 in
    let minimum := overhead + FRAME_INNER_MIN in
    let maximum := overhead + FRAME_INNER_MIN + MAX_PAYLOAD in
    if remaining <? minimum then invalid_data "frame too short"
    else if maximum <? remaining then
      invalid_data ("frame too large: declared=" +:+ fmt_int remaining
                    +:+ " max=" +:+ fmt_int maximum)
    else Ok remaining.

Definition validate_protocol_version (inner : bytes) : outcome (result unit io_error) :=
  if zlen inner <? FRAME_INNER_MIN then Done (invalid_data "frame payload too short")
  else
    let! version := read_int 2 0 inner in
    if negb (version =? PROTOCOL_VERSION) then
      Done (invalid_data ("unsupported protocol version: " +:+ fmt_int version))
    else Done (Ok tt).

Section frame.
  Context `{!Aead}.

(** [io::Write] as the framing uses it. *)
Class Writer (W : Type) := {
  write_all : bytes → W → result unit io_error * W;
  flush : W → result unit io_error * W
}.

(** A [Vec<u8>] sink. *)
#[export] Instance vec_writer : Writer bytes := {
  write_all b w := (Ok tt, w ++ b);
  flush w := (Ok tt, w)
}.

(** [w.write_all(a)?; w.write_all(b)?; ...; w.flush()]. *)
Fixpoint write_chunks {W} `{!Writer W} (chunks : list bytes) (w : W) : result unit io_error * W :=
  match chunks with
  | [] => flush w
  | c :: cs =>
    let '(r, w) := write_all c w in
    match r with Err e => (Err e, w) | Ok _ => write_chunks cs w end
  end.

(** [version(2) tag(1) payload]. *)
Definition frame_inner (msg_type : Z) (payload : bytes) : bytes :=
  to_le 2 PROTOCOL_VERSION ++ [z2b msg_type] ++ payload.

(** [write_frame_encrypted]; the nonce [encrypt_frame] draws is an argument.  The
    [checked_add]s cannot fail on a payload that passed the first test. *)
Definition write_frame_encrypted {W} `{!Writer W} (nonce : bytes) (w : W) (msg_type : Z)
    (payload : bytes) (key : option bytes) : result unit io_error * W :=
  if MAX_PAYLOAD <? zlen payload then
    (Err (mkIoError InvalidInput ("frame payload too large: " +:+ fmt_int (zlen payload)
       +:+ " > " +:+ fmt_int MAX_PAYLOAD)), w)
  else
    let inner := frame_inner msg_type payload in
    match key with
    | Some k =>
      let enc_payload_len := Z.of_nat NONCE_LEN + zlen inner + Z.of_nat TAG_LEN in
      let frame_len := FRAME_FLAGS_LEN + enc_payload_len in
      let header := to_le 4 frame_len ++ [z2b 1] in
      let encrypted := encrypt_frame nonce k inner header in
      write_chunks [header; encrypted] w
    | None =>
      let frame_len := FRAME_FLAGS_LEN + zlen inner in
      write_chunks [to_le 4 frame_len; [z2b 0]; inner] w
    end.

Definition write_frame {W} `{!Writer W} (nonce : bytes) (w : W) (msg_type : Z) (payload : bytes) :=
  write_frame_encrypted nonce w msg_type payload None.

(** Copies a decoded payload into the caller's buffer. *)
Definition deliver_payload (plaintext buf : bytes) : outcome (result (Z * nat) io_error * bytes) :=
  let! v := validate_protocol_version plaintext in
  match v with
  | Err e => Done (Err e, buf)
  | Ok _ =>
    let! msg_type := read_at 2 plaintext in
    let payload_len := (length plaintext - 3)%nat in
    if (length buf <? payload_len)%nat then
      Done (invalid_data ("frame too large: payload=" +:+ fmt_int (Z.of_nat payload_len)
              +:+ " buffer=" +:+ fmt_int (zlen buf)), buf)
    else Done (Ok (msg_type, payload_len), splice 0 (drop 3 plaintext) buf)
  end.

(** The plaintext of a frame body, [key.unwrap()] included. *)
Definition open_body (flags : Z) (key : option bytes) (body header : bytes)
    : outcome (result bytes io_error) :=
  if flags =? 1 then
    match key with
    | None => Panic "called `Option::unwrap()` on a `None` value"
    | Some k => Done (result_map_err (mkIoError InvalidData) (decrypt_frame k body header))
    end
  else Done (Ok body).

(** [try_decode_frame]: the message tag, the payload length and the bytes
    consumed, [None] while the frame is incomplete; and the payload buffer. *)
Definition try_decode_frame (data buf : bytes) (key : option bytes)
    : outcome (result (option (Z * nat * nat)) io_error * bytes) :=
  if (length data <? 5)%nat then Done (Ok None, buf)
  else
    let! total_len := read_int 4 0 data in
    let! flags := read_at 4 data in
    match validate_frame_declaration total_len flags (bool_decide (is_Some key)) with
    | Err e => Done (Err e, buf)
    | Ok remaining =>
      let frame_len := 4 + total_len in
      if zlen data <? frame_len then Done (Ok None, buf)
      else
        let! frame_payload := read_slice 5 (Z.to_nat frame_len) data in
        let! header := read_slice 0 5 data in
        let! opened := open_body flags key frame_payload header in
        match opened with
        | Err e => Done (Err e, buf)
        | Ok plaintext =>
          let! (r, buf') := deliver_payload plaintext buf in
          match r with
          | Err e => Done (Err e, buf')
          | Ok (msg_type, payload_len) =>
            assert_or (remaining =? zlen frame_payload) "assertion `left == right` failed"
              (Done (Ok (Some (msg_type, payload_len, Z.to_nat frame_len)), buf'))
          end
        end
    end.

(** [Read::read_exact] on a byte source, its remaining bytes [r]. *)
Definition read_exact (n : nat) (r : bytes) : result (bytes * bytes) io_error :=
  if (n <=? length r)%nat then Ok (take n r, drop n r)
  else Err (mkIoError UnexpectedEof "failed to fill whole buffer").

(** The result, the payload buffer and the rest of the source. *)
Definition read_frame_encrypted (r buf : bytes) (key : option bytes)
    : outcome (result (Z * nat) io_error * bytes * bytes) :=
  match read_exact 4 r with
  | Err e => Done (Err e, buf, [])
  | Ok (len_bytes, r) =>
    let total_len := from_le len_bytes in
    match read_exact 1 r with
    | Err e => Done (Err e, buf, [])
    | Ok (flag_bytes, r) =>
      let flags := from_le flag_bytes in
      match validate_frame_declaration total_len flags (bool_decide (is_Some key)) with
      | Err e => Done (Err e, buf, r)
      | Ok remaining =>
        if flags =? 1 then
          match read_exact (Z.to_nat remaining) r with
          | Err e => Done (Err e, buf, [])
          | Ok (enc_buf, r) =>
            let! opened := open_body flags key enc_buf (len_bytes ++ flag_bytes) in
            match opened with
            | Err e => Done (Err e, buf, r)
            | Ok plaintext =>
              let! (d, buf') := deliver_payload plaintext buf in
              Done (d, buf', r)
            end
          end
        else
          match read_exact 3 r with
          | Err e => Done (Err e, buf, [])
          | Ok (inner_header, r) =>
            let! v := validate_protocol_version inner_header in
            match v with
            | Err e => Done (Err e, buf, r)
            | Ok _ =>
              let payload_len := Z.to_nat (remaining - FRAME_INNER_MIN) in
              if (length buf <? payload_len)%nat then
                Done (invalid_data ("frame too large: payload=" +:+ fmt_int (Z.of_nat payload_len)
                        +:+ " buffer=" +:+ fmt_int (zlen buf)), buf, r)
              else
                match read_exact payload_len r with
                | Err e => Done (Err e, buf, [])
                | Ok (payload, r) =>
                  let! tag := read_at 2 inner_header in
                  Done (Ok (tag, payload_len), splice 0 payload buf, r)
                end
            end
          end
      end
    end
  end.

Definition read_frame (r buf : bytes) := read_frame_encrypted r buf None.

(** ** Facts *)

(** What an accepted declaration says: bounded before anything is allocated. *)
Lemma validate_frame_declaration_ok total_len flags key n :
  validate_frame_declaration total_len flags key = Ok n →
  n = total_len - 1 ∧ (flags = 0 ∧ key = false ∧ 3 ≤ n ≤ 3 + MAX_PAYLOAD
    ∨ flags = 1 ∧ key = true ∧ 43 ≤ n ≤ 43 + MAX_PAYLOAD).
Proof.
  unfold validate_frame_declaration, FRAME_FLAGS_LEN, FRAME_INNER_MIN, ENCRYPTED_FRAME_OVERHEAD.
  change (Z.of_nat NONCE_LEN) with 24. change (Z.of_nat TAG_LEN) with 16.
  destruct (Z.eqb_spec flags 0), (Z.eqb_spec flags 1), key; simpl; try done; try lia;
    repeat case_match; intros; simplify_eq; lia.
Qed.

Lemma validate_frame_declaration_intro total_len (key : bool) :
  (if key then 44 else 4) ≤ total_len ≤ (if key then 44 else 4) + MAX_PAYLOAD →
  validate_frame_declaration total_len (if key then 1 else 0) key = Ok (total_len - 1).
Proof.
  intros Hl. unfold validate_frame_declaration, FRAME_FLAGS_LEN, FRAME_INNER_MIN, ENCRYPTED_FRAME_OVERHEAD.
  change (Z.of_nat NONCE_LEN) with 24. change (Z.of_nat TAG_LEN) with 16.
  destruct key; simpl; repeat case_match; try lia; done.
Qed.

(** Every error of a declaration is [InvalidData]. *)
Lemma validate_frame_declaration_err total_len flags key :
  is_invalid_data (λ _, True) (validate_frame_declaration total_len flags key).
Proof. unfold validate_frame_declaration. by repeat case_match. Qed.

Lemma validate_protocol_version_ok inner :
  returns (validate_protocol_version inner)
    (is_invalid_data (λ _, (3 ≤ length inner)%nat)).
Proof.
  unfold validate_protocol_version, zlen, FRAME_INNER_MIN.
  destruct (Z.ltb_spec (Z.of_nat (length inner)) 3); [done|].
  apply returns_bind, read_int_ok; [lia|]. intros z _. case_match; simpl; [done|lia].
Qed.

Definition delivered (buf : bytes) (p : result (Z * nat) io_error * bytes) : Prop :=
  let '(r, buf') := p in
  length buf' = length buf ∧
  is_invalid_data (λ '(t, n), is_u8 t ∧ (n ≤ length buf)%nat) r.

Lemma deliver_payload_ok plaintext buf :
  returns (deliver_payload plaintext buf) (delivered buf).
Proof.
  unfold deliver_payload. eapply returns_let; [apply validate_protocol_version_ok|].
  intros [[]|e] Hv; simpl in Hv; [|done].
  apply returns_bind, read_at_ok; [lia|]. intros t Ht.
  destruct (Nat.ltb_spec (length buf) (length plaintext - 3)); [done|].
  simpl. split; [|by split]. apply length_splice. rewrite length_drop. lia.
Qed.

(** The longest frame that can be declared. *)
Definition MAX_FRAME : nat := Z.to_nat (4 + FRAME_FLAGS_LEN + ENCRYPTED_FRAME_OVERHEAD + FRAME_INNER_MIN + MAX_PAYLOAD).

(** What a call of [try_decode_frame] leaves behind. *)
Definition decode_post (data buf : bytes)
    (p : result (option (Z * nat * nat)) io_error * bytes) : Prop :=
  let '(r, buf') := p in
  length buf' = length buf ∧
  is_invalid_data (λ o, match o with
    | None => (length data < MAX_FRAME)%nat
    | Some (t, n, c) => is_u8 t ∧ (n ≤ length buf)%nat ∧ (8 ≤ c ≤ length data)%nat
    end) r.

Lemma try_decode_frame_ok data buf key :
  returns (try_decode_frame data buf key) (decode_post data buf).
Proof.
  unfold try_decode_frame. assert (HM : Z.of_nat MAX_FRAME = 48 + MAX_PAYLOAD) by (vm_compute; reflexivity).
  destruct (Nat.ltb_spec (length data) 5); [split; [done|]; simpl; unfold MAX_PAYLOAD in HM; lia|].
  apply returns_bind, read_int_ok; [lia|]. intros total Htot.
  apply returns_bind, read_at_ok; [lia|]. intros flags Hfl.
  pose proof (validate_frame_declaration_err total flags (bool_decide (is_Some key))) as Herr.
  destruct (validate_frame_declaration total flags (bool_decide (is_Some key))) as [n|e] eqn:E;
    [|done]. clear Herr.
  apply validate_frame_declaration_ok in E as [-> Hn]. unfold zlen.
  destruct (Z.ltb_spec (Z.of_nat (length data)) (4 + total)); [split; [done|]; simpl; lia|].
  apply returns_bind, read_slice_ok; [lia|]. intros Hb.
  apply returns_bind, read_slice_ok; [lia|]. intros _.
  assert (Hopen : returns (open_body flags key (slice 5 (Z.to_nat (4 + total)) data) (slice 0 5 data))
    (is_invalid_data (λ _, True))).
  { unfold open_body. destruct (Z.eqb_spec flags 1) as [->|]; [|done].
    destruct key as [k|]; simpl.
    - by destruct (decrypt_frame _ _ _).
    - destruct Hn as [(? & ? & ?)|(? & Hk & ?)]; [done|]. by rewrite bool_decide_eq_true in Hk; destruct Hk. }
  eapply returns_let; [exact Hopen|]. intros [plaintext|e] Ho; [|done].
  eapply returns_let; [apply deliver_payload_ok|]. intros [[[t len]|e] buf'] [Hl Hd]; simpl in Hd; [|done].
  unfold assert_or. rewrite Hb. destruct (Z.eqb_spec (total - 1) (Z.of_nat (Z.to_nat (4 + total) - 5))); [|lia].
  simpl. split; [done|]. split_and!; [apply Hd..|lia|lia].
Qed.

(** C28: [try_decode_frame] is total: on any bytes, buffer and key it returns
    (its indexing, [unwrap] and [debug_assert_eq] never panic), every error is
    [InvalidData], the payload fits the buffer and the frame lies in the input, and it
    asks for more input only while there is less than the longest frame. *)
Theorem try_decode_frame_total (data buf : bytes) (key : option bytes) :
  ∃ r buf', try_decode_frame data buf key = Done (r, buf') ∧ decode_post data buf (r, buf').
Proof.
  destruct (returns_elim _ _ (try_decode_frame_ok data buf key)) as [[r buf'] [E H']]. eauto.
Qed.

(** ** Writing a frame and reading it back *)

(** The bytes [write_frame_encrypted] produces. *)
Definition frame_bytes (nonce : bytes) (msg_type : Z) (payload : bytes) (key : option bytes) : bytes :=
  let inner := frame_inner msg_type payload in
  match key with
  | Some k =>
    let header := to_le 4 (44 + zlen payload) ++ [z2b 1] in
    header ++ encrypt_frame nonce k inner header
  | None => to_le 4 (4 + zlen payload) ++ [z2b 0] ++ inner
  end.

Lemma length_frame_inner t payload : length (frame_inner t payload) = (3 + length payload)%nat.
Proof. unfold frame_inner. rewrite !length_app, length_to_le. done. Qed.

Lemma write_frame_bytes nonce t payload key :
  zlen payload ≤ MAX_PAYLOAD →
  write_frame_encrypted nonce ([] : bytes) t payload key = (Ok tt, frame_bytes nonce t payload key).
Proof.
  intros Hp. unfold write_frame_encrypted, frame_bytes.
  destruct (Z.ltb_spec MAX_PAYLOAD (zlen payload)); [lia|].
  unfold zlen. rewrite length_frame_inner. unfold FRAME_FLAGS_LEN.
  destruct key as [k|]; cbn [write_chunks write_all flush vec_writer].
  - change (Z.of_nat NONCE_LEN) with 24. change (Z.of_nat TAG_LEN) with 16.
    replace (1 + (24 + Z.of_nat (3 + length payload) + 16)) with (44 + Z.of_nat (length payload)) by lia.
    done.
  - replace (1 + Z.of_nat (3 + length payload)) with (4 + Z.of_nat (length payload)) by lia.
    by rewrite <-!app_assoc.
Qed.

(** The five header bytes and the body of a frame. *)
Definition frame_total (payload : bytes) (key : option bytes) : Z :=
  (if bool_decide (is_Some key) then 44 else 4) + zlen payload.
Definition frame_flag (key : option bytes) : Z := if bool_decide (is_Some key) then 1 else 0.
Definition frame_header (payload : bytes) (key : option bytes) : bytes :=
  to_le 4 (frame_total payload key) ++ [z2b (frame_flag key)].
Definition frame_body (nonce : bytes) (t : Z) (payload : bytes) (key : option bytes) : bytes :=
  match key with
  | Some k => encrypt_frame nonce k (frame_inner t payload) (frame_header payload key)
  | None => frame_inner t payload
  end.

Lemma frame_bytes_split nonce t payload key :
  frame_bytes nonce t payload key = frame_header payload key ++ frame_body nonce t payload key.
Proof. destruct key; [done|]. unfold frame_bytes, frame_header. by rewrite <-app_assoc. Qed.

Lemma length_frame_header payload key : length (frame_header payload key) = 5%nat.
Proof. unfold frame_header. by rewrite length_app, length_to_le. Qed.

Lemma length_frame_body `{!AeadLaws} nonce t payload key :
  length nonce = NONCE_LEN →
  Z.of_nat (length (frame_body nonce t payload key)) = frame_total payload key - 1.
Proof.
  intros Hn. unfold frame_body, frame_total, zlen. destruct key as [k|].
  - rewrite length_encrypt_frame, length_frame_inner by done. unfold NONCE_LEN, TAG_LEN. simpl. lia.
  - rewrite length_frame_inner. simpl. lia.
Qed.

Lemma read_slice_app (a b : bytes) i j :
  i = 0%nat → j = length a → read_slice i j (a ++ b) = Done a.
Proof.
  intros -> ->. unfold read_slice. rewrite length_app.
  rewrite (proj2 (Nat.leb_le _ _)) by lia. rewrite (proj2 (Nat.leb_le _ _)) by lia.
  simpl. unfold slice. rewrite drop_0, Nat.sub_0_r, take_app_length. done.
Qed.

Lemma read_slice_mid (a b c : bytes) i j :
  i = length a → j = (length a + length b)%nat → read_slice i j (a ++ b ++ c) = Done b.
Proof.
  intros -> ->. unfold read_slice. rewrite !length_app.
  rewrite (proj2 (Nat.leb_le _ _)) by lia. rewrite (proj2 (Nat.leb_le _ _)) by lia.
  simpl. unfold slice. rewrite drop_app_length.
  replace (length a + length b - length a)%nat with (length b) by lia.
  by rewrite take_app_length.
Qed.

(** Reading the two header fields back. *)
Lemma read_frame_total payload key rest :
  zlen payload ≤ MAX_PAYLOAD →
  read_int 4 0 (frame_header payload key ++ rest) = Done (frame_total payload key).
Proof.
  intros Hp. unfold read_int, frame_header. rewrite <-app_assoc.
  rewrite read_slice_app by (by rewrite ?length_to_le). simpl.
  rewrite from_to_le_u32; [done|]. unfold frame_total, zlen, MAX_PAYLOAD in *. case_match; int_lia.
Qed.

Lemma read_frame_flag payload key rest :
  read_at 4 (frame_header payload key ++ rest) = Done (frame_flag key).
Proof.
  unfold read_at, frame_header. rewrite <-app_assoc.
  rewrite lookup_app_r by (rewrite length_to_le; lia). rewrite length_to_le. simpl.
  rewrite b2z_z2b; [done|]. unfold frame_flag. case_match; int_lia.
Qed.

Lemma frame_declaration_ok payload key :
  zlen payload ≤ MAX_PAYLOAD →
  validate_frame_declaration (frame_total payload key) (frame_flag key) (bool_decide (is_Some key))
    = Ok (frame_total payload key - 1).
Proof.
  intros Hp. unfold frame_flag. apply validate_frame_declaration_intro.
  unfold frame_total, zlen in *. case_match; lia.
Qed.

Lemma open_frame_body `{!AeadLaws} nonce t payload key :
  length nonce = NONCE_LEN →
  open_body (frame_flag key) key (frame_body nonce t payload key) (frame_header payload key)
    = Done (Ok (frame_inner t payload)).
Proof.
  intros Hn. unfold open_body, frame_body. destruct key as [k|]; simpl; [|done].
  by rewrite decrypt_encrypt_frame.
Qed.

Lemma frame_inner_version t payload : validate_protocol_version (frame_inner t payload) = Done (Ok tt).
Proof.
  unfold validate_protocol_version, zlen. rewrite length_frame_inner. unfold FRAME_INNER_MIN.
  rewrite (proj2 (Z.ltb_ge _ _)) by lia.
  unfold read_int, frame_inner. rewrite read_slice_app by (by rewrite ?length_to_le).
  cbn [outcome_bind]. by rewrite from_to_le_u16.
Qed.

Lemma frame_inner_tag t payload : is_u8 t → read_at 2 (frame_inner t payload) = Done t.
Proof.
  intros Ht. unfold read_at, frame_inner. rewrite lookup_app_r by (rewrite length_to_le; lia).
  rewrite length_to_le. simpl. by rewrite b2z_z2b.
Qed.

Lemma deliver_frame_inner t payload buf :
  is_u8 t → (length payload ≤ length buf)%nat →
  deliver_payload (frame_inner t payload) buf = Done (Ok (t, length payload), splice 0 payload buf).
Proof.
  intros Ht Hb. unfold deliver_payload. rewrite frame_inner_version. cbn [outcome_bind].
  rewrite frame_inner_tag by done. cbn [outcome_bind]. rewrite length_frame_inner.
  replace (3 + length payload - 3)%nat with (length payload) by lia.
  by rewrite (proj2 (Nat.ltb_ge _ _)) by lia.
Qed.

(** What [try_decode_frame] does on a prefix [p] of a frame. *)
Lemma try_decode_prefix `{!AeadLaws} nonce t payload key buf p q :
  length nonce = NONCE_LEN → zlen payload ≤ MAX_PAYLOAD →
  p ++ q = frame_bytes nonce t payload key → q ≠ [] →
  try_decode_frame p buf key = Done (Ok None, buf).
Proof.
  intros Hn Hp Hpq Hq. rewrite frame_bytes_split in Hpq. unfold try_decode_frame.
  destruct (Nat.ltb_spec (length p) 5) as [|Hl]; [done|].
  pose proof (length_frame_header payload key) as Hh.
  assert (Hlen : (length p < 5 + length (frame_body nonce t payload key))%nat).
  { apply (f_equal length) in Hpq. rewrite !length_app, Hh in Hpq.
    destruct q; [done|simpl in Hpq; lia]. }
  assert (∃ r, p = frame_header payload key ++ r) as [r ->].
  { exists (drop 5 p). rewrite <-(take_drop 5 p) at 1. f_equal.
    apply (f_equal (take 5)) in Hpq.
    rewrite take_app_le, take_app_length' in Hpq by lia. exact Hpq. }
  rewrite read_frame_total, read_frame_flag by done. cbn [outcome_bind].
  rewrite frame_declaration_ok by done. cbn iota beta.
  pose proof (length_frame_body nonce t payload key Hn) as Hb.
  destruct (Z.ltb_spec (zlen (frame_header payload key ++ r)) (4 + frame_total payload key));
    [done|]. unfold zlen in *. lia.
Qed.

Lemma try_decode_whole `{!AeadLaws} nonce t payload key buf rest :
  length nonce = NONCE_LEN → zlen payload ≤ MAX_PAYLOAD → is_u8 t →
  (length payload ≤ length buf)%nat →
  try_decode_frame (frame_bytes nonce t payload key ++ rest) buf key =
    Done (Ok (Some (t, length payload, length (frame_bytes nonce t payload key))),
          splice 0 payload buf).
Proof.
  intros Hn Hp Ht Hbuf. rewrite frame_bytes_split, <-app_assoc. unfold try_decode_frame.
  pose proof (length_frame_header payload key) as Hh.
  pose proof (length_frame_body nonce t payload key Hn) as Hb.
  rewrite (proj2 (Nat.ltb_ge _ _)) by (rewrite length_app; lia).
  rewrite read_frame_total, read_frame_flag by done. cbn [outcome_bind].
  rewrite frame_declaration_ok by done. cbn iota beta.
  assert (0 < frame_total payload key) by (unfold frame_total, zlen; case_match; lia).
  rewrite (proj2 (Z.ltb_ge _ _)) by (unfold zlen; rewrite !length_app; lia).
  rewrite (read_slice_mid _ _ _ 5) by lia. cbn [outcome_bind].
  rewrite read_slice_app by lia. cbn [outcome_bind].
  rewrite open_frame_body by done. cbn [outcome_bind].
  rewrite deliver_frame_inner by done. cbn [outcome_bind]. unfold assert_or, zlen.
  rewrite (proj2 (Z.eqb_eq _ _)) by lia. rewrite length_app. do 6 f_equal. lia.
Qed.

(** C27: writing a frame and decoding it, in the clear or encrypted, gives the tag
    and the payload back whatever bytes follow, consumes exactly the frame, and
    waits ([Ok None], buffer untouched) on every proper prefix of it; a payload over
    [MAX_FRAME_PAYLOAD] is refused before anything is written. *)
Theorem frame_roundtrip `{!AeadLaws} (nonce : bytes) (t : Z) (payload : bytes)
    (key : option bytes) (buf : bytes) :
  length nonce = NONCE_LEN → is_u8 t → (length payload ≤ length buf)%nat →
  let '(w, f) := write_frame_encrypted nonce ([] : bytes) t payload key in
  if MAX_PAYLOAD <? zlen payload then f = [] ∧ result_is_ok w = false
  else w = Ok tt ∧
    (∀ rest, try_decode_frame (f ++ rest) buf key =
      Done (Ok (Some (t, length payload, length f)), splice 0 payload buf)) ∧
    (∀ p q, p ++ q = f → q ≠ [] → try_decode_frame p buf key = Done (Ok None, buf)).
Proof.
  intros Hn Ht Hb. destruct (Z.ltb_spec MAX_PAYLOAD (zlen payload)) as [Hp|Hp].
  - unfold write_frame_encrypted. by rewrite (proj2 (Z.ltb_lt _ _)).
  - rewrite write_frame_bytes by done. split; [done|]. split.
    + intros rest. by apply try_decode_whole.
    + intros p q Hpq Hq. by eapply try_decode_prefix.
Qed.

(** ** The streaming decoder and the blocking reader agree *)

Lemma from_le_single z : is_u8 z → from_le [z2b z] = z.
Proof.
  intros Hz. pose proof (from_to_le 1 z) as E. unfold to_le in E. simpl in E.
  rewrite <-E at 2; [done|]. int_lia.
Qed.

Lemma from_le_one b : from_le [b] = b2z b.
Proof.
  rewrite <-(z2b_b2z b) at 1. apply from_le_single. pose proof (b2z_range b). int_lia.
Qed.

(** The header fields as the blocking reader takes them. *)
Lemma read_exact_header data :
  (5 ≤ length data)%nat →
  ∃ len flag body, length len = 4%nat ∧ data = len ++ [flag] ++ body ∧
    read_exact 4 data = Ok (len, [flag] ++ body) ∧ read_exact 1 ([flag] ++ body) = Ok ([flag], body) ∧
    read_int 4 0 data = Done (from_le len) ∧ read_at 4 data = Done (b2z flag) ∧
    read_slice 0 5 data = Done (len ++ [flag]).
Proof.
  destruct data as [|b0 [|b1 [|b2 [|b3 [|flag body]]]]]; simpl; try lia. intros _.
  exists [b0; b1; b2; b3], flag, body. unfold read_exact. simpl. by split_and!.
Qed.

Lemma read_exact_app n (a b : bytes) : length a = n → read_exact n (a ++ b) = Ok (a, b).
Proof.
  intros <-. unfold read_exact. rewrite length_app, (proj2 (Nat.leb_le _ _)) by lia.
  by rewrite take_app_length, drop_app_length.
Qed.

(** The plaintext path of the blocking reader, once the body is there. *)
Definition read_plain (remaining : Z) (buf r : bytes) : outcome (result (Z * nat) io_error * bytes * bytes) :=
  match read_exact 3 r with
  | Err e => Done (Err e, buf, [])
  | Ok (inner_header, r) =>
    let! v := validate_protocol_version inner_header in
    match v with
    | Err e => Done (Err e, buf, r)
    | Ok _ =>
      let payload_len := Z.to_nat (remaining - FRAME_INNER_MIN) in
      if (length buf <? payload_len)%nat then
        Done (invalid_data ("frame too large: payload=" +:+ fmt_int (Z.of_nat payload_len)
                +:+ " buffer=" +:+ fmt_int (zlen buf)), buf, r)
      else
        match read_exact payload_len r with
        | Err e => Done (Err e, buf, [])
        | Ok (payload, r) =>
          let! tag := read_at 2 inner_header in
          Done (Ok (tag, payload_len), splice 0 payload buf, r)
        end
    end
  end.

Lemma validate_version_prefix h p :
  length h = 3%nat → validate_protocol_version (h ++ p) = validate_protocol_version h.
Proof.
  intros Hh. destruct h as [|a [|b [|c [|]]]]; try done.
  unfold validate_protocol_version, zlen, FRAME_INNER_MIN.
  rewrite !(proj2 (Z.ltb_ge _ _)) by (rewrite ?length_app; simpl; lia). done.
Qed.

(** On a complete plaintext body it does what [deliver_payload] does. *)
Lemma read_plain_deliver body rest buf :
  (3 ≤ length body)%nat →
  ∃ r', read_plain (Z.of_nat (length body)) buf (body ++ rest) =
    match deliver_payload body buf with
    | Done (Ok x, b) => Done (Ok x, b, rest)
    | Done (Err e, b) => Done (Err e, b, r')
    | Panic m => Panic m
    end.
Proof.
  intros Hl. destruct body as [|a [|b [|c p]]]; simpl in Hl; try lia.
  unfold read_plain, deliver_payload, FRAME_INNER_MIN.
  change (a :: b :: c :: p) with ([a; b; c] ++ p).
  rewrite <-app_assoc, read_exact_app, validate_version_prefix by done.
  destruct (validate_protocol_version [a; b; c]) as [[[]|e]|m]; cbn [outcome_bind]; [|by eexists..].
  replace (Z.to_nat (Z.of_nat (length ([a; b; c] ++ p)) - 3)) with (length p) by (simpl; lia).
  replace (length ([a; b; c] ++ p) - 3)%nat with (length p) by (simpl; lia).
  unfold read_at. simpl lookup. cbn [outcome_bind].
  destruct (length buf <? length p)%nat; [by eexists|].
  rewrite read_exact_app by done. by exists [].
Qed.

(** C29: the incremental decoder and the blocking reader agree: a frame
    [try_decode_frame] accepts is read by [read_frame_encrypted] with the same tag,
    length and buffer, leaving exactly the unconsumed bytes; an error of the first is
    the same error of the second, with the same buffer. *)
Theorem read_frame_agrees_with_try_decode (data buf buf' : bytes) (key : option bytes)
    (r : result (option (Z * nat * nat)) io_error) :
  try_decode_frame data buf key = Done (r, buf') →
  match r with
  | Ok (Some (t, n, c)) => read_frame_encrypted data buf key = Done (Ok (t, n), buf', drop c data)
  | Ok None => True
  | Err e => ∃ rest, read_frame_encrypted data buf key = Done (Err e, buf', rest)
  end.
Proof.
  unfold try_decode_frame.
  destruct (Nat.ltb_spec (length data) 5) as [|Hl]; [by intros; simplify_eq|].
  destruct (read_exact_header data Hl) as (len & flag & rest & Hlen & Hdata & E1 & E2 & -> & -> & Hhdr).
  cbn [outcome_bind]. unfold read_frame_encrypted. rewrite E1, E2, from_le_one.
  destruct (validate_frame_declaration (from_le len) (b2z flag) (bool_decide (is_Some key)))
    as [n|e] eqn:Ev; [|intros; simplify_eq; by eexists].
  apply validate_frame_declaration_ok in Ev as [-> Hn].
  destruct (Z.ltb_spec (zlen data) (4 + from_le len)) as [|Hcomplete]; [by intros; simplify_eq|].
  assert (∃ body tail, rest = body ++ tail ∧ Z.of_nat (length body) = from_le len - 1)
    as (body & tail & -> & HL).
  { exists (take (Z.to_nat (from_le len - 1)) rest), (drop (Z.to_nat (from_le len - 1)) rest).
    rewrite take_drop, length_take. split; [done|]. unfold zlen in Hcomplete.
    subst data. rewrite !length_app in Hcomplete. simpl in *. lia. }
  assert (Hbody : read_slice 5 (Z.to_nat (4 + from_le len)) data = Done body).
  { rewrite Hdata, (app_assoc len). apply read_slice_mid; rewrite length_app; simpl; lia. }
  assert (Hdrop : drop (Z.to_nat (4 + from_le len)) data = tail).
  { rewrite Hdata, (app_assoc len), (app_assoc (len ++ [flag])).
    apply drop_app_length'. rewrite !length_app. simpl. lia. }
  rewrite Hbody, Hhdr. cbn [outcome_bind].
  destruct Hn as [(-> & Hk & Hn)|(-> & Hk & Hn)].
  - change (0 =? 1) with false. cbn iota. unfold open_body. cbn [outcome_bind Z.eqb].
    fold (read_plain (from_le len - 1) buf (body ++ tail)).
    destruct (read_plain_deliver body tail buf) as [r' Er]; [lia|].
    rewrite HL in Er. rewrite Er.
    destruct (deliver_payload body buf) as [[[[t m]|e] b]|msg]; simpl; [..|done].
    + unfold assert_or. case_match; intros; simplify_eq. by rewrite Hdrop.
    + intros; simplify_eq. by eexists.
  - change (1 =? 1) with true. cbn iota.
    rewrite read_exact_app by lia.
    destruct (open_body 1 key body (len ++ [flag])) as [[pt|e]|msg]; cbn [outcome_bind];
      [|intros; simplify_eq; by eexists|done].
    destruct (deliver_payload pt buf) as [[[[t m]|e] b]|msg]; simpl; [..|done].
    + unfold assert_or. case_match; intros; simplify_eq. by rewrite Hdrop.
    + intros; simplify_eq. by eexists.
Qed.

End frame.

(** A concrete AEAD with the two documented facts: the message and a zero tag. *)
Definition toy_aead : Aead := {|
  aead_encrypt _ _ m _ := m ++ zeros TAG_LEN;
  aead_decrypt _ _ c _ := Some (take (length c - TAG_LEN) c);
  hkdf_sha256 _ _ _ := zeros KEY_LEN
|}.

Lemma toy_aead_laws : AeadLaws (H := toy_aead).
Proof.
  split; intros; simpl.
  - rewrite length_app, length_zeros. replace (length m + TAG_LEN - TAG_LEN)%nat with (length m) by lia.
    by rewrite take_app_length.
  - by rewrite length_app, length_zeros.
Qed.

Lemma frame_roundtrip_witness :
  let '(w, f) := write_frame_encrypted (H := toy_aead) (zeros 24) ([] : bytes) 17 (zeros 2) (Some (zeros 32)) in
  w = Ok tt ∧ length f = 50%nat ∧
  try_decode_frame (H := toy_aead) f (replicate 4 Init.Byte.xff) (Some (zeros 32)) =
    Done (Ok (Some (17, 2%nat, 50%nat)), [Init.Byte.x00; Init.Byte.x00; Init.Byte.xff; Init.Byte.xff]).
Proof.
  destruct (frame_roundtrip (H := toy_aead) (H0 := toy_aead_laws) (zeros 24) 17 (zeros 2)
    (Some (zeros 32)) (replicate 4 Init.Byte.xff)) as (Hw & Hd & _);
    [reflexivity|split; vm_compute; congruence|simpl; lia|].
  split; [exact Hw|]. split; [reflexivity|].
  specialize (Hd []). rewrite app_nil_r in Hd. exact Hd.
Defined.

Lemma read_frame_agrees_with_try_decode_witness :
  let f := frame_bytes (H := toy_aead) [] 17 [Init.Byte.x01] None in
  try_decode_frame (H := toy_aead) (f ++ [Init.Byte.x09]) (zeros 4) None =
    Done (Ok (Some (17, 1%nat, 9%nat)), Init.Byte.x01 :: zeros 3) ∧
  read_frame_encrypted (H := toy_aead) (f ++ [Init.Byte.x09]) (zeros 4) None =
    Done (Ok (17, 1%nat), Init.Byte.x01 :: zeros 3, [Init.Byte.x09]).
Proof.
  split; [vm_compute; reflexivity|].
  pose proof (read_frame_agrees_with_try_decode (H := toy_aead)
    (frame_bytes (H := toy_aead) [] 17 [Init.Byte.x01] None ++ [Init.Byte.x09]) (zeros 4)
    (Init.Byte.x01 :: zeros 3) None (Ok (Some (17, 1%nat, 9%nat)))
    ltac:(vm_compute; reflexivity)) as E.
  exact E.
Defined.
