(* ===== verification/Traits.v ===== *)
(** * The interfaces the worker is written against

    [Io] is the trait of [worker/src/io.rs], [Runtime] the trait of
    [worker/src/runtime.rs], [Host] the operating system as the sources call it
    (clock, environment, files, child processes, HTTPS).  The worker's theorems are
    proved against [IoLaws] and [RuntimeLaws]; the simulated and the TCP implementations
    discharge the first, the simulated, process and containerd runtimes the second. *)

From S2P Require Import Prelude Types RustStr Protocol.

(** ** io.rs *)

(** [send] may fail an assertion of its implementation, so it is an [outcome]. *)
Class Io (IO : Type) := {
  io_now : IO → Z;
  io_send : WorkerMessage → IO → outcome IO;
  io_recv : IO → outcome (option ControlMessage * IO);
  io_random_u64 : IO → Z * IO
}.

(** What an implementation promises: [recv] delivers well-formed messages and runs
    dry, [send] takes every message a worker may emit and delivers no new one, and the
    only panics are the ones named. *)
Class IoLaws (IO : Type) `{!Io IO} := {
  io_wf : IO → Prop;
  io_pending : IO → nat;
  io_panics : string → Prop;
  io_send_law m io : io_wf io → emittable m →
    match io_send m io with
    | Done io' => io_wf io' ∧ (io_pending io' ≤ io_pending io)%nat ∧ io_now io' = io_now io
    | Panic e => io_panics e
    end;
  io_recv_law io : io_wf io →
    match io_recv io with
    | Done (Some m, io') =>
        control_wf m ∧ io_wf io' ∧ (io_pending io' < io_pending io)%nat ∧ io_now io' = io_now io
    | Done (None, io') =>
        io_wf io' ∧ (io_pending io' ≤ io_pending io)%nat ∧ io_now io' = io_now io
    | Panic e => io_panics e
    end
}.

(** ** The operating system *)

Record CommandOutput := mkCommandOutput {
  co_code : option Z;  (* [None]: killed by a signal *)
  co_stdout : bytes;
  co_stderr : bytes
}.

(** [output.status.success()]. *)
Definition co_success (o : CommandOutput) : bool := bool_decide (co_code o = Some 0).

Inductive fs_error := FsNotFound | FsOther (msg : string).

Class Host (H : Type) := {
  instant_now : H → Z * H;  (* nanoseconds *)
  env_var : string → H → option string;
  create_dir_all : string → H → result unit string * H;
  command_output : list string → H → result CommandOutput string * H;
  read_to_string : string → H → result string string * H;
  remove_dir_all : string → H → result unit fs_error * H;
  path_exists : string → H → bool * H;
  http_get : string → list (string * string) → H → result bytes string * H;
  json_value_raw : bytes → option string  (* [body["value"]["raw"].as_str()] *)
}.

(** Host code that fails with a [String]. *)
Definition HM (H A : Type) : Type := H → result A string * H.

Section hm.
  Context {H : Type}.

Definition hm_ret {A} (a : A) : HM H A := λ h, (Ok a, h).
Definition hm_err {A} (e : string) : HM H A := λ h, (Err e, h).
Definition hm_bind {A B} (m : HM H A) (f : A → HM H B) : HM H B :=
  λ h, match m h with (Ok a, h') => f a h' | (Err e, h') => (Err e, h') end.
(** An operation that cannot fail, and one whose error is mapped to a message. *)
Definition hm_lift {A} (m : H → A * H) : HM H A := λ h, let '(a, h') := m h in (Ok a, h').
Definition hm_map_err {A E} (f : E → string) (m : H → result A E * H) : HM H A :=
  λ h, let '(r, h') := m h in (result_map_err f r, h').

End hm.

Notation "'let?*' x := m 'in' k" := (hm_bind m (λ x, k))
  (at level 10, x pattern, m at level 100, k at level 200) : rust_scope.

(** [Duration]s in nanoseconds. *)
Definition NANOS_PER_SEC : Z := 1000000000.
Definition NANOS_PER_MILLI : Z := 1000000.
Definition from_secs (s : Z) : Z := s * NANOS_PER_SEC.
Definition as_millis (d : Z) : Z := d / NANOS_PER_MILLI.
(** [deadline.saturating_duration_since(now)]. *)
Definition saturating_duration_since (deadline now : Z) : Z := Z.max 0 (deadline - now).

(** ** runtime.rs *)

Class Runtime (RT H : Type) := {
  pull_image : string → option ImagePullAuth → RT → result unit RuntimeError * RT;
  create_pod : PodSpec → RT → result PodHandle RuntimeError * RT;
  start_pod : PodHandle → RT → result unit RuntimeError * RT;
  forward_run : PodHandle → Z → bytes → RT → result bytes RuntimeError * RT;
  probe_pod : PodHandle → Z → string → RT → result bool RuntimeError * RT;
  stop_pod : PodHandle → Z → RT → result unit RuntimeError * RT;
  pod_status : PodHandle → RT → result PodStatus RuntimeError * RT;
  remove_pod : PodHandle → RT → result unit RuntimeError * RT;
  stop_pod_until : PodHandle → Z → Z → RT * H → result unit RuntimeError * (RT * H);
  pod_status_until : PodHandle → Z → RT * H → result PodStatus RuntimeError * (RT * H);
  remove_pod_until : PodHandle → Z → RT * H → result unit RuntimeError * (RT * H)
}.

(** The default bodies of the trait. *)
Definition default_probe_pod {RT} (_ : PodHandle) (_ : Z) (_ : string) (rt : RT)
    : result bool RuntimeError * RT :=
  (Err (EInternal "runtime does not implement pod probes"), rt).

Section defaults.
  Context {RT H : Type} `{!Host H}.

(** [if Instant::now() >= deadline { return Err(..) } op(self)]. *)
Definition before_deadline {A} (deadline : Z) (late : RuntimeError)
    (op : RT → result A RuntimeError * RT) (s : RT * H) : result A RuntimeError * (RT * H) :=
  let '(rt, h) := s in
  let '(now, h) := instant_now h in
  if deadline <=? now then (Err late, (rt, h))
  else let '(r, rt) := op rt in (r, (rt, h)).

Definition default_stop_pod_until (stop : PodHandle → Z → RT → result unit RuntimeError * RT)
    (handle : PodHandle) (grace_period_ms deadline : Z) :=
  before_deadline deadline (EContainerStop "shutdown deadline reached") (stop handle grace_period_ms).

Definition default_pod_status_until (status : PodHandle → RT → result PodStatus RuntimeError * RT)
    (handle : PodHandle) (deadline : Z) :=
  before_deadline deadline (EContainerNotFound "shutdown deadline reached") (status handle).

Definition default_remove_pod_until (remove : PodHandle → RT → result unit RuntimeError * RT)
    (handle : PodHandle) (deadline : Z) :=
  before_deadline deadline (EContainerStop "shutdown deadline reached") (remove handle).

End defaults.

(** What an implementation promises of the containers it owns: it owns a new one only when
    it answers with its handle, and no longer owns one it answers to have removed. *)
Class RuntimeLaws (RT H : Type) `{!Runtime RT H} := {
  (** The containers that exist, by their ids. *)
  owns : RT → string → Prop;
  own_pull img auth (r : RT) x : owns (pull_image img auth r).2 x → owns r x;
  own_create spec (r : RT) x : owns (create_pod spec r).2 x →
    owns r x ∨ ∃ h, (create_pod spec r).1 = Ok h ∧ ph_container_id h = x;
  own_start h (r : RT) x : owns (start_pod h r).2 x → owns r x ∨ x = ph_container_id h;
  own_forward h port payload (r : RT) x : owns (forward_run h port payload r).2 x → owns r x;
  own_probe h port path (r : RT) x : owns (probe_pod h port path r).2 x → owns r x;
  own_stop h grace (r : RT) x : owns (stop_pod h grace r).2 x → owns r x;
  own_status h (r : RT) x : owns (pod_status h r).2 x → owns r x;
  own_remove h (r : RT) x : owns (remove_pod h r).2 x →
    owns r x ∧ ((remove_pod h r).1 = Ok tt → x ≠ ph_container_id h);
  own_stop_until h grace deadline (s : RT * H) x :
    owns (stop_pod_until h grace deadline s).2.1 x → owns s.1 x;
  own_status_until h deadline (s : RT * H) x : owns (pod_status_until h deadline s).2.1 x → owns s.1 x;
  own_remove_until h deadline (s : RT * H) x : owns (remove_pod_until h deadline s).2.1 x →
    owns s.1 x ∧ ((remove_pod_until h deadline s).1 = Ok tt → x ≠ ph_container_id h)
}.
