(* ===== verification/Fingerprint.v ===== *)
(** * What the node is: [worker/src/fingerprint.rs]

    The name, processors, memory and GPUs the worker registers with.  The files of
    [/proc] are read through [Host]; [gethostname] and the NVML library are external and
    named by [Node]. *)

From S2P Require Import Prelude Types RustStr RustParse Traits.

Record NodeFingerprint := mkNodeFingerprint {
  fp_node_name : string;
  fp_cpu_millicores : Z;
  fp_memory_megabytes : Z;
  fp_gpu_type : GpuType;
  fp_gpu_count : Z;
  fp_gpu_memory_megabytes : Z
}.

Inductive FingerprintError :=
| CpuInfoRead (e : string)
| CpuInfoParse (e : string)
| MemInfoRead (e : string)
| MemInfoParse (e : string)
| Hostname (e : string).

(** A device as [nvml_wrapper] shows it: its name and memory in bytes, if it answers. *)
Record Device := mkDevice { dev_name : option string; dev_memory_total : option Z }.

Class Node (OS : Type) := {
  (** The 64-byte buffer after [gethostname], or the error. *)
  gethostname : OS → result bytes string * OS;
  (** [None]: the library cannot be loaded. *)
  nvml_device_count : OS → option (option Z);
  nvml_device_by_index : Z → OS → option Device;
  (** Upper case beyond ASCII, by the tables of Unicode. *)
  unicode_uppercase : string → string
}.

(** [n as u32] and [n as u8]. *)
Definition as_u32 (n : Z) : Z := n mod 2 ^ 32.
Definition as_u8 (n : Z) : Z := n mod 2 ^ 8.

(** ** /proc *)

Definition parse_cpuinfo (content : string) : outcome (result Z FingerprintError) :=
  let core_count := Z.of_nat (length (filter (λ line, starts_with "processor" line = true) (lines content))) in
  if core_count =? 0 then Done (Err (CpuInfoParse "no processor entries found"))
  else
    let millicores := as_u32 core_count * 1000 in
    if millicores <=? U32_MAX then Done (Ok millicores) else Panic "attempt to multiply with overflow".

Fixpoint find_mem_total (ls : list string) : result Z FingerprintError :=
  match ls with
  | [] => Err (MemInfoParse "MemTotal not found")
  | line :: ls =>
    match strip_prefix "MemTotal:" line with
    | Some rest =>
      let kb_str := trim (trim_end_matches " kB" (trim rest)) in
      match parse_unsigned U64_MAX kb_str with
      | Some kb => Ok (as_u32 (kb / 1024))
      | None => Err (MemInfoParse ("invalid MemTotal value: " +:+ kb_str))
      end
    | None => find_mem_total ls
    end
  end.
Definition parse_meminfo (content : string) : result Z FingerprintError := find_mem_total (lines content).

(** ** GPUs *)

Definition ascii_upper (c : ascii) : ascii :=
  let z := byte_code c in if (97 <=? z) && (z <=? 122) then ascii_of_N (Z.to_N (z - 32)) else c.
Fixpoint upper (s : string) : string :=
  match s with EmptyString => EmptyString | String c s' => String (ascii_upper c) (upper s') end.
Fixpoint is_ascii (s : string) : bool :=
  match s with EmptyString => true | String c s' => (byte_code c <? 128) && is_ascii s' end.

Section node.
  Context {OS : Type} `{!Host OS} `{!Node OS}.

(** [s.to_uppercase()]. *)
Definition to_uppercase (s : string) : string :=
  if is_ascii s then upper s else unicode_uppercase s.

Definition classify_gpu (name : string) (memory_mb : Z) : GpuType :=
  let u := to_uppercase name in
  if contains "A100" u then (if memory_mb <=? 42000 then A100_40 else A100_80)
  else if contains "H100" u then (if contains "SXM" u then H100Sxm else H100Pcie)
  else if contains "H200" u then H200
  else if contains "L40S" u then L40s
  else if contains "A10G" u then A10g
  else if contains "T4" u && negb (contains "RTX" u) then T4
  else GpuNone.

(** [discover_gpus] on Linux; the comparison with the second device only logs. *)
Definition discover_gpus (os : OS) : GpuType * Z * Z :=
  let none := (GpuNone, 0, 0) in
  match nvml_device_count os with
  | None | Some None => none
  | Some (Some count) =>
    if count =? 0 then none
    else
      match nvml_device_by_index 0 os with
      | None => none
      | Some device =>
        let name := default ""%string (dev_name device) in
        let memory_mb := default 0 ((λ total, as_u32 (total / (1024 * 1024))) <$> dev_memory_total device) in
        (classify_gpu name memory_mb, as_u8 count, memory_mb)
      end
  end.

(** [String::from_utf8_lossy(&buf[..len])] with [len] the position of the first zero. *)
Fixpoint until_nul (b : bytes) : bytes :=
  match b with [] => [] | x :: b' => if b2z x =? 0 then [] else x :: until_nul b' end.

Definition get_hostname (os : OS) : result string FingerprintError * OS :=
  let '(r, os) := gethostname os in
  (match r with Ok buf => Ok (from_utf8_lossy (until_nul buf)) | Err e => Err (Hostname e) end, os).

Definition read_cpu_millicores (os : OS) : outcome (result Z FingerprintError * OS) :=
  let '(r, os) := read_to_string "/proc/cpuinfo" os in
  match r with
  | Err e => Done (Err (CpuInfoRead e), os)
  | Ok content => let! r := parse_cpuinfo content in Done (r, os)
  end.

Definition read_memory_megabytes (os : OS) : result Z FingerprintError * OS :=
  let '(r, os) := read_to_string "/proc/meminfo" os in
  (match r with Err e => Err (MemInfoRead e) | Ok content => parse_meminfo content end, os).

Definition fingerprint (os : OS) : outcome (result NodeFingerprint FingerprintError * OS) :=
  let '(name, os) := get_hostname os in
  match name with
  | Err e => Done (Err e, os)
  | Ok name =>
    let! (cpu, os) := read_cpu_millicores os in
    match cpu with
    | Err e => Done (Err e, os)
    | Ok cpu =>
      let '(memory, os) := read_memory_megabytes os in
      match memory with
      | Err e => Done (Err e, os)
      | Ok memory =>
        let '(gpu_type, gpu_count, gpu_memory) := discover_gpus os in
        Done (Ok (mkNodeFingerprint name cpu memory gpu_type gpu_count gpu_memory), os)
      end
    end
  end.

(** ** Ranges *)

(** What a fingerprint claims is within its types, and the processors even below the
    maximum: a multiple of 1000 is not [u32::MAX]. *)
Definition fingerprint_wf (fp : NodeFingerprint) : Prop :=
  0 ≤ fp_cpu_millicores fp < U32_MAX ∧ is_u32 (fp_memory_megabytes fp) ∧
  is_u8 (fp_gpu_count fp) ∧ is_u32 (fp_gpu_memory_megabytes fp).

Lemma as_u32_range n : is_u32 (as_u32 n).
Proof. unfold as_u32. pose proof (Z.mod_pos_bound n (2 ^ 32) ltac:(lia)). int_lia. Qed.
Lemma as_u8_range n : is_u8 (as_u8 n).
Proof. unfold as_u8. pose proof (Z.mod_pos_bound n (2 ^ 8) ltac:(lia)). int_lia. Qed.

Lemma parse_cpuinfo_range content n : parse_cpuinfo content = Done (Ok n) → 0 ≤ n < U32_MAX.
Proof.
  unfold parse_cpuinfo. case_match; [done|]. cbv zeta.
  pose proof (as_u32_range (Z.of_nat (length (filter (λ line, starts_with "processor" line = true) (lines content))))) as [Hlo _].
  revert Hlo. generalize (as_u32 (Z.of_nat (length (filter (λ line, starts_with "processor" line = true) (lines content))))) as k.
  intros k Hlo. destruct (Z.leb_spec (k * 1000) U32_MAX); [|done]. intros [= <-]. unfold U32_MAX in *. lia.
Qed.

Lemma parse_meminfo_range content n : parse_meminfo content = Ok n → is_u32 n.
Proof.
  unfold parse_meminfo. induction (lines content) as [|l ls IH]; cbn [find_mem_total]; [done|].
  destruct (strip_prefix _ l); [|exact IH]. destruct (parse_unsigned _ _); [|done]. intros [= <-]. apply as_u32_range.
Qed.

Lemma discover_gpus_range os g n m : discover_gpus os = (g, n, m) → is_u8 n ∧ is_u32 m.
Proof.
  unfold discover_gpus. intros E. repeat case_match; simplify_eq; try (split; int_lia).
  split; [apply as_u8_range|]. destruct (dev_memory_total _); simpl; [apply as_u32_range|int_lia].
Qed.

Lemma fingerprint_range os fp os' : fingerprint os = Done (Ok fp, os') → fingerprint_wf fp.
Proof.
  unfold fingerprint, read_cpu_millicores, read_memory_megabytes.
  destruct (get_hostname os) as [[name|] os1]; [|done].
  destruct (read_to_string "/proc/cpuinfo" os1) as [[cpuinfo|] os2]; [|done].
  destruct (parse_cpuinfo cpuinfo) as [[cpu|]|] eqn:Ec; [|done..]. cbn [outcome_bind].
  destruct (read_to_string "/proc/meminfo" os2) as [[meminfo|] os3]; [|done].
  destruct (parse_meminfo meminfo) as [memory|] eqn:Em; [|done].
  destruct (discover_gpus os3) as [[g n] m] eqn:Eg. intros [= <- _].
  apply parse_cpuinfo_range in Ec. apply parse_meminfo_range in Em. apply discover_gpus_range in Eg.
  split; [done|]. by split.
Qed.

(** Names are matched by substring, and only the T4 test looks for workstation cards: an
    RTX A1000 is registered as an A100, a T400 as a T4. *)
Theorem workstation_cards_taken_for_datacenter_cards :
  classify_gpu "NVIDIA RTX A1000" 8192 = A100_40 ∧ classify_gpu "NVIDIA T400 4GB" 4096 = T4 ∧
  classify_gpu "NVIDIA A100-SXM4-80GB" 81920 = A100_80 ∧ classify_gpu "Tesla T4" 15360 = T4.
Proof. split_and!; vm_compute; reflexivity. Qed.

End node.
