(* ===== verification/System.v ===== *)
(** * The system under the real runtimes

    What [runtime/process.rs] and [runtime/containerd.rs] ask of the operating system
    beyond [Host]: sleeping, child processes, sockets, files, network namespaces, and the
    crates [ureq], [sha2] and [serde_json].  [SystemLaws] states what the clock, [sleep]
    and the exit status of a child promise. *)

From S2P Require Import Prelude Types RustStr Traits.

(** [ExitStatus::code()]; [None]: killed by a signal. *)
Abbreviation ExitStatus := (option Z).

(** A command that starts a pod's server: the values in the four holes of the script
    given to [python3 -c], and the environment set on top of the inherited one. *)
Record SpawnCommand := mkSpawnCommand {
  sc_test_controls : bool;
  sc_too_large : Z;
  sc_pod_id : Z;
  sc_port : Z;
  sc_env : list (string * string)
}.

(** A response of [ureq]: the [Content-Length] header, the bytes of the body and the
    error that ends it early, if any. *)
Record HttpResponse := mkHttpResponse {
  hr_content_length : option string;
  hr_body : bytes;
  hr_error : option string
}.

Inductive PostResult :=
| PostOk (r : HttpResponse)
| PostStatus (code : Z) (r : HttpResponse)
| PostTransport (e : string).

Class System (OS : Type) := {
  thread_sleep : Z → OS → OS;
  (** Children, by process id. *)
  spawn : SpawnCommand → OS → result Z string * OS;
  try_wait : Z → OS → result (option ExitStatus) string * OS;
  kill_term : Z → OS → result unit string * OS;
  child_kill : Z → OS → result unit string * OS;
  (** Sockets to 127.0.0.1, by number. *)
  tcp_connect : Z → option Z → OS → result Z string * OS;  (* port, timeout *)
  set_timeout : Z → Z → OS → result unit string * OS;
  tcp_write_all : Z → bytes → OS → result unit string * OS;
  tcp_read : Z → nat → OS → result bytes string * OS;
  http_post : string → Z → Z → bytes → OS → PostResult * OS;
  (** Files. *)
  process_id : OS → Z;
  temp_dir : OS → string;
  create_dir : string → OS → result unit string * OS;
  set_permissions : string → Z → OS → result unit string * OS;
  open_new : string → Z → OS → result Z string * OS;
  file_write_all : Z → bytes → OS → result unit string * OS;
  file_sync : Z → OS → result unit string * OS;
  fs_write : string → string → OS → result unit string * OS;
  (** Network namespaces. *)
  open_netns : string → OS → result Z string * OS;
  setns : Z → OS → result unit string * OS;
  (** The digest of [sha2] in hexadecimal, and the label [serde_json] finds. *)
  sha256_hex : bytes → string;
  json_label : string → string → result (option string) string;
  (** [std::env::consts::ARCH]. *)
  arch : string
}.

(** ** Code that fails with an error of its own *)

Section fallible.
  Context {St E : Type}.

Definition fail {A} (e : E) : M St (result A E) := ret (Err e).
Definition succeed {A} (a : A) : M St (result A E) := ret (Ok a).
(** The [?] operator. *)
Definition try_bind {A B} (m : M St (result A E)) (f : A → M St (result B E)) : M St (result B E) :=
  bind m (λ r, match r with Ok a => f a | Err e => ret (Err e) end).
Definition map_err {A F} (f : E → F) (m : M St (result A E)) : M St (result A F) :=
  bind m (λ r, ret (result_map_err f r)).
(** A call of the system. *)
Definition sys {A} (f : St → A * St) : M St A := λ s, Done (f s).

End fallible.

Notation "'try*' x := m 'in' k" := (try_bind m (λ x, k))
  (at level 10, x pattern, m at level 100, k at level 200) : rust_scope.

(** Total correctness. *)
Abbreviation no_panic := (λ _ : string, False).

Lemma wp_try_bind {St E A B} P (m : M St (result A E)) (f : A → M St (result B E)) Q s :
  wp P m (λ r s', match r with Ok a => wp P (f a) Q s' | Err e => Q (Err e) s' end) s →
  wp P (try_bind m f) Q s.
Proof. intros Hm. apply wp_bind. eapply wp_mono; [exact Hm|]. by intros [a|e] s'. Qed.

Lemma wp_map_err {St E F A} P (f : E → F) (m : M St (result A E)) Q s :
  wp P m (λ r s', Q (result_map_err f r) s') s → wp P (map_err f m) Q s.
Proof. intros Hm. apply wp_bind. exact Hm. Qed.

Lemma wp_sys {St A} P (f : St → A * St) Q s : Q (f s).1 (f s).2 → wp P (sys f) Q s.
Proof. unfold wp, sys. by destruct (f s). Qed.

(** ** Operations as answers *)

(** A call as the [Runtime] class has it, which knows no panics; a runtime that is made an
    instance with [answer] shows that its operations return. *)
Definition answer {St A} (m : M St (result A RuntimeError)) (s : St) : result A RuntimeError * St :=
  match m s with Done p => p | Panic e => (Err (EInternal e), s) end.

(** The same where the worker's host is at hand: the runtime has its own view of the clock. *)
Definition answer_beside {St H A} (m : M St (result A RuntimeError)) (s : St * H)
    : result A RuntimeError * (St * H) :=
  let '(a, s') := answer m s.1 in (a, (s', s.2)).

(** What is known of a call that does not panic is known of its answer. *)
Lemma wp_answer {St A} (m : M St (result A RuntimeError)) (Q : result A RuntimeError → St → Prop) s :
  wp no_panic m Q s → m s = Done (answer m s) ∧ Q (answer m s).1 (answer m s).2.
Proof. unfold wp, answer. by destruct (m s) as [[a s']|]. Qed.

Lemma answer_beside_snd {St H A} (m : M St (result A RuntimeError)) (s : St * H) :
  (answer_beside m s).1 = (answer m s.1).1 ∧ (answer_beside m s).2.1 = (answer m s.1).2.
Proof. unfold answer_beside. by destruct (answer m s.1). Qed.

(** ** What the system promises *)

(** Time passes, and a child that has exited stays so with the same status. *)
Record advances {OS} (clock : OS → Z) (exit_of : Z → OS → option ExitStatus) (os os' : OS) : Prop := {
  adv_clock : clock os ≤ clock os';
  adv_exit p st : exit_of p os = Some st → exit_of p os' = Some st
}.

Class SystemLaws (OS : Type) `{!Host OS} `{!System OS} := {
  (** The monotonic clock behind [Instant::now]. *)
  clock : OS → Z;
  (** The exit status of a child that has been reaped. *)
  exit_of : Z → OS → option ExitStatus;
  instant_now_law os : clock os ≤ (instant_now os).1 ≤ clock (instant_now os).2;
  sleep_law d os : clock os + Z.max 0 d ≤ clock (thread_sleep d os);
  try_wait_law p os st : (try_wait p os).1 = Ok (Some st) → exit_of p (try_wait p os).2 = Some st;
  try_wait_exited_law p os st : exit_of p os = Some st → (try_wait p os).1 = Ok (Some st);
  tcp_read_law sock n os b : (tcp_read sock n os).1 = Ok b → (length b ≤ n)%nat;
  instant_now_adv os : advances clock exit_of os (instant_now os).2;
  sleep_adv d os : advances clock exit_of os (thread_sleep d os);
  try_wait_adv p os : advances clock exit_of os (try_wait p os).2;
  kill_term_adv p os : advances clock exit_of os (kill_term p os).2;
  child_kill_adv p os : advances clock exit_of os (child_kill p os).2;
  command_output_adv args os : advances clock exit_of os (command_output args os).2
}.

Section laws.
  Context {OS : Type} `{!Host OS} `{!System OS} `{LAWS : !SystemLaws OS}.

Definition later : relation OS := advances clock exit_of.

#[export] Instance later_preorder : PreOrder later.
Proof.
  split; [by split|]. intros os1 os2 os3 [C1 E1] [C2 E2]. split; [lia|auto].
Qed.

Lemma later_clock os os' : later os os' → clock os ≤ clock os'.
Proof. apply adv_clock. Qed.

Lemma later_exit os os' p st : later os os' → exit_of p os = Some st → exit_of p os' = Some st.
Proof. intros L. by apply (adv_exit _ _ _ _ L). Qed.

Lemma wp_instant_now Q os :
  (∀ now os', later os os' → clock os ≤ now ≤ clock os' → Q now os') → wp no_panic (sys instant_now) Q os.
Proof.
  intros HQ. unfold wp, sys. pose proof (instant_now_law os) as Ht. pose proof (instant_now_adv os) as La.
  destruct (instant_now os) as [now os']. by apply HQ.
Qed.

End laws.
