(* ===== verification/Http.v ===== *)
(** * HTTP to a pod: probes and run requests of [worker/src/runtime/process.rs]

    Both runtimes use [probe_http] and [forward_run]. *)

From S2P Require Import Prelude Types RustStr RustParse Protocol Traits System.

Definition PROBE_DEADLINE : Z := from_secs 5.
Definition PROBE_PATH_MAX : nat := 1024.
Definition HTTP_STATUS_LINE_MAX : nat := 1024.

(** The bytes [b'!'..=b'~'] and [b' '..=b'~']. *)
Definition is_target_byte (b : Init.Byte.byte) : bool := (33 <=? b2z b) && (b2z b <=? 126).
Definition is_reason_byte (b : Init.Byte.byte) : bool := (32 <=? b2z b) && (b2z b <=? 126).
Definition is_digit_byte (b : Init.Byte.byte) : bool := (48 <=? b2z b) && (b2z b <=? 57).

Definition validate_probe_path (path : string) : result unit string :=
  let p := as_bytes path in
  if (length p =? 0)%nat || (PROBE_PATH_MAX <? length p)%nat || negb (starts_with "/" path) then
    Err ("probe path must start with '/' and contain at most " +:+ fmt_int (Z.of_nat PROBE_PATH_MAX)
         +:+ " bytes")%string
  else if negb (forallb is_target_byte p) then Err "probe path contains unsafe request-target bytes"%string
  else Ok tt.

(** [iter().position(|byte| *byte == b)]. *)
Fixpoint position (z : Z) (l : bytes) : option nat :=
  match l with
  | [] => None
  | b :: l => if b2z b =? z then Some 0%nat else S <$> position z l
  end.

(** [line.strip_suffix(b"\r\n")]. *)
Definition strip_crlf (l : bytes) : option bytes :=
  let n := (length l - 2)%nat in
  if (2 <=? length l)%nat && bool_decide (drop n l = [Init.Byte.x0d; Init.Byte.x0a]) then Some (take n l) else None.

Definition parse_http_status_line (line : bytes) : result bool string :=
  match strip_crlf line with
  | None => Err "HTTP status line must end with CRLF"%string
  | Some line =>
    match position 32 line with
    | None => Err "HTTP status line is missing status code"%string
    | Some version_end =>
      let version := take version_end line in
      if negb (bool_decide (version = as_bytes "HTTP/1.0") || bool_decide (version = as_bytes "HTTP/1.1")) then
        Err "HTTP status line has unsupported version"%string
      else
        let status_and_reason := drop (version_end + 1) line in
        if (length status_and_reason <? 3)%nat then Err "HTTP status code must contain three digits"%string
        else
          let status := take 3 status_and_reason in
          if negb (forallb is_digit_byte status) then Err "HTTP status code must contain three digits"%string
          else
            let reason := drop 3 status_and_reason in
            match reason with
            | b :: rest =>
              if negb (b2z b =? 32) then Err "HTTP status code must be followed by one space"%string
              else if negb (forallb is_reason_byte rest) then Err "HTTP reason phrase contains unsafe bytes"%string
              else Ok (bool_decide (status = as_bytes "200"))
            | [] => Err "HTTP status code must be followed by one space"%string
            end
    end
  end.

Definition status_line_too_long : string :=
  "HTTP status line exceeds " +:+ fmt_int (Z.of_nat HTTP_STATUS_LINE_MAX) +:+ " bytes".

Section http.
  Context {OS : Type} `{!Host OS} `{!System OS}.

(** [probe_time_remaining]; [elapsed] saturates at zero. *)
Definition probe_time_remaining (started : Z) : M OS (result Z string) :=
  let* now := sys instant_now in
  let elapsed := saturating_duration_since now started in
  ret (if elapsed <? PROBE_DEADLINE then Ok (PROBE_DEADLINE - elapsed)
       else Err "HTTP probe exceeded total deadline"%string).

(** The loop that reads the status line; [got] is [status_line[..length]]. *)
Fixpoint read_status_line (fuel : nat) (sock started : Z) (got : bytes) : M OS (result bool string) :=
  match fuel with
  | O => panic "status line did not end"
  | S fuel =>
    if (length got =? HTTP_STATUS_LINE_MAX + 1)%nat then fail status_line_too_long
    else
      try* remaining := probe_time_remaining started in
      try* _ := map_err (λ e, "set read timeout: " +:+ e)%string (sys (set_timeout sock remaining)) in
      try* read := map_err (λ e, "read status line: " +:+ e)%string
                     (sys (tcp_read sock (HTTP_STATUS_LINE_MAX + 1 - length got))) in
      match read with
      | [] => fail "HTTP response ended before status line"%string
      | _ =>
        let got := got ++ read in
        match position 10 got with
        | Some line_end =>
          if (HTTP_STATUS_LINE_MAX <? line_end + 1)%nat then fail status_line_too_long
          else ret (parse_http_status_line (take (line_end + 1) got))
        | None => read_status_line fuel sock started got
        end
      end
  end.

Definition CRLF : string := String "013" (String "010" EmptyString).

Definition probe_request (port : Z) (path : string) : string :=
  "GET " +:+ path +:+ " HTTP/1.1" +:+ CRLF +:+ "Host: 127.0.0.1:" +:+ fmt_int port +:+ CRLF
  +:+ "Connection: close" +:+ CRLF +:+ CRLF.

Definition probe_http (port : Z) (path : string) : M OS (result bool string) :=
  try* _ := ret (validate_probe_path path) in
  let* started := sys instant_now in
  try* sock := map_err (λ e, "connect: " +:+ e)%string (sys (tcp_connect port (Some PROBE_DEADLINE))) in
  try* remaining := probe_time_remaining started in
  try* _ := map_err (λ e, "set write timeout: " +:+ e)%string (sys (set_timeout sock remaining)) in
  try* _ := map_err (λ e, "write: " +:+ e)%string
              (sys (tcp_write_all sock (as_bytes (probe_request port path)))) in
  read_status_line (HTTP_STATUS_LINE_MAX + 2) sock started [].

(** ** Run requests *)

Definition body_too_large : RuntimeError :=
  EResponseTooLarge ("body exceeds " +:+ fmt_int (Z.of_nat MAX_RUN_RESPONSE_BODY) +:+ " bytes").

(** [reader.take(limit).read_to_end(..)]. *)
Definition read_body (limit : nat) (r : HttpResponse) : result bytes string :=
  if (limit <=? length (hr_body r))%nat then Ok (take limit (hr_body r))
  else match hr_error r with None => Ok (hr_body r) | Some e => Err e end.

Definition accept_response (r : HttpResponse) : result bytes RuntimeError :=
  let declared := match hr_content_length r with
                  | None => Ok ()
                  | Some cl =>
                    match parse_unsigned U64_MAX cl with
                    | None => Err (EInternal "invalid Content-Length")
                    | Some n => if Z.of_nat MAX_RUN_RESPONSE_BODY <? n then Err body_too_large else Ok ()
                    end
                  end in
  let? _ := declared in
  match read_body (MAX_RUN_RESPONSE_BODY + 1) r with
  | Err e => Err (EInternal ("read body: " +:+ e))
  | Ok body => if (MAX_RUN_RESPONSE_BODY <? length body)%nat then Err body_too_large else Ok body
  end.

Definition forward_run_with_deadline (port : Z) (payload : bytes) (hard_deadline : Z)
    : M OS (result bytes RuntimeError) :=
  assert (negb (hard_deadline =? 0)) "run deadline must be positive" ;;;
  let* response := sys (http_post ("http://127.0.0.1:" +:+ fmt_int port +:+ "/inference") hard_deadline
                          (Z.min (from_secs 5) hard_deadline) payload) in
  ret (match response with
       | PostOk r | PostStatus _ r => accept_response r
       | PostTransport e => Err (EInternal ("request: " +:+ e))
       end).

Definition post_run (port : Z) (payload : bytes) : M OS (result bytes RuntimeError) :=
  forward_run_with_deadline port payload (from_secs 25).

End http.

(** ** Status lines *)

Definition SP : Init.Byte.byte := Init.Byte.x20.
Definition CRLF_bytes : bytes := [Init.Byte.x0d; Init.Byte.x0a].

(** The status lines of HTTP/1: version, three digits, reason. *)
Definition status_line (version code reason : bytes) : bytes :=
  version ++ [SP] ++ code ++ [SP] ++ reason ++ CRLF_bytes.

Lemma strip_crlf_Some l k : strip_crlf l = Some k ↔ l = k ++ CRLF_bytes.
Proof.
  unfold strip_crlf, CRLF_bytes. split.
  - destruct (Nat.leb_spec 2 (length l)); [|done]. case_bool_decide as E; [|done]. intros [= <-].
    by rewrite <-E, take_drop.
  - intros ->. rewrite length_app. cbn [length]. replace (length k + 2 - 2)%nat with (length k) by lia.
    rewrite take_app_length, drop_app_length. rewrite (proj2 (Nat.leb_le _ _)) by lia. done.
Qed.

Lemma position_Some z l n :
  position z l = Some n → ∃ b, b2z b = z ∧ l = take n l ++ [b] ++ drop (n + 1) l.
Proof.
  revert n. induction l as [|b l IH]; intros n; [done|]. cbn [position].
  destruct (Z.eqb_spec (b2z b) z) as [E|_].
  - intros [= <-]. by exists b.
  - destruct (position z l) as [m|]; [|done]. intros [= <-].
    destruct (IH m eq_refl) as (c & Hc & El). exists c. split; [done|]. simpl. f_equal. exact El.
Qed.

Lemma position_app z l b k :
  (∀ c, c ∈ l → b2z c ≠ z) → b2z b = z → position z (l ++ b :: k) = Some (length l).
Proof.
  intros Hl Hb. induction l as [|c l IH]; cbn [app position length].
  - by rewrite (proj2 (Z.eqb_eq _ _) Hb).
  - rewrite (proj2 (Z.eqb_neq _ _)) by (apply Hl; constructor). rewrite IH; [done|]. intros d Hd. apply Hl.
    by constructor.
Qed.

Lemma b2z_inj b c : b2z b = b2z c → b = c.
Proof. intros E. by rewrite <-(z2b_b2z b), E, z2b_b2z. Qed.

Lemma b2z_SP b : b2z b = 32 → b = SP.
Proof. intros E. by apply b2z_inj. Qed.

Definition http_version (v : bytes) : Prop := v = as_bytes "HTTP/1.0" ∨ v = as_bytes "HTTP/1.1".

(** C24: a probe accepts exactly the well-formed status lines.  Of all byte strings,
    [parse_http_status_line] answers for the lines "HTTP/1.0 or HTTP/1.1, a space, three
    digits, a space, printable ASCII, CR LF" and no others, and says healthy exactly for
    the code 200. *)
Theorem status_line_exact (line : bytes) (healthy : bool) :
  parse_http_status_line line = Ok healthy ↔
  ∃ version code reason, line = status_line version code reason ∧ http_version version ∧
    length code = 3%nat ∧ forallb is_digit_byte code = true ∧ forallb is_reason_byte reason = true ∧
    healthy = bool_decide (code = as_bytes "200").
Proof.
  unfold parse_http_status_line. split.
  - destruct (strip_crlf line) as [l|] eqn:El; [|done]. apply strip_crlf_Some in El as ->.
    destruct (position 32 l) as [n|] eqn:Ep; [|done]. apply position_Some in Ep as (b & Hb%b2z_SP & El).
    subst b. cbv zeta. destruct (bool_decide (take n l = _) || _) eqn:Ev; [|done]. cbn [negb].
    destruct (Nat.ltb_spec (length (drop (n + 1) l)) 3) as [|Hlen]; [done|].
    destruct (forallb is_digit_byte _) eqn:Ed; [|done]. cbn [negb].
    destruct (drop 3 (drop (n + 1) l)) as [|c reason] eqn:Er; [done|].
    destruct (Z.eqb_spec (b2z c) 32) as [Hc%b2z_SP|]; [|done]. subst c. cbn [negb].
    destruct (forallb is_reason_byte reason) eqn:Ex; [|done]. intros [= <-].
    exists (take n l), (take 3 (drop (n + 1) l)), reason. split.
    { unfold status_line. rewrite El at 1. rewrite <-(take_drop 3 (drop (n + 1) l)) at 1.
      rewrite Er. by rewrite <-!app_assoc. }
    split; [by apply orb_true_iff in Ev as [?%bool_decide_eq_true|?%bool_decide_eq_true]; [left|right]|].
    split; [by rewrite length_take, Nat.min_l|]. by split.
  - intros (version & code & reason & -> & Hv & Hlen & Hd & Hr & ->). unfold status_line.
    rewrite (proj2 (strip_crlf_Some _ (version ++ [SP] ++ code ++ [SP] ++ reason))) by by rewrite <-!app_assoc.
    assert (Hvl : length version = 8%nat) by by destruct Hv as [-> | ->].
    assert (Hp : position 32 (version ++ [SP] ++ code ++ [SP] ++ reason) = Some 8%nat).
    { rewrite <-Hvl. apply position_app; [|done]. intros c Hc.
      destruct Hv as [-> | ->]; repeat (apply elem_of_cons in Hc as [->|Hc]; [done|]); by apply elem_of_nil in Hc. }
    rewrite Hp. cbv zeta. rewrite (take_app_length' version) by done.
    assert (Ev : bool_decide (version = as_bytes "HTTP/1.0") || bool_decide (version = as_bytes "HTTP/1.1") = true).
    { destruct Hv as [-> | ->]; reflexivity. }
    rewrite Ev. cbn [negb].
    assert (Ed : drop (8 + 1) (version ++ [SP] ++ code ++ [SP] ++ reason) = code ++ [SP] ++ reason).
    { rewrite app_assoc. apply drop_app_length'. rewrite length_app. cbn [length]. lia. }
    rewrite Ed, (take_app_length' code), (drop_app_length' code) by done.
    destruct (Nat.ltb_spec (length (code ++ [SP] ++ reason)) 3); [rewrite length_app in *; lia|].
    rewrite Hd. cbn [negb app]. rewrite Hr. reflexivity.
Qed.

(** ** Probes and run requests end *)

Section facts.
  Context {OS : Type} `{!Host OS} `{!System OS} `{LAWS : !SystemLaws OS}.
  Implicit Types os : OS.

Abbreviation total m := (∀ os, wp no_panic m (λ _ _, True) os).

Lemma total_try {A B E F} (g : E → F) (f : OS → result A E * OS) (k : A → M OS (result B F)) :
  (∀ a, total (k a)) → total (try_bind (map_err g (sys f)) k).
Proof.
  intros Hk os. apply wp_try_bind, wp_map_err, wp_sys. destruct (f os) as [[a|e] os']; [apply Hk|done].
Qed.

Lemma total_remaining {B} started (k : Z → M OS (result B string)) :
  (∀ a, total (k a)) → total (try_bind (probe_time_remaining started) k).
Proof.
  intros Hk os. apply wp_try_bind. unfold probe_time_remaining. wp_step. apply wp_sys. apply wp_ret.
  destruct (_ <? _); [apply Hk|done].
Qed.

Lemma read_status_line_ok fuel sock started got :
  (length got ≤ HTTP_STATUS_LINE_MAX + 1)%nat → (HTTP_STATUS_LINE_MAX + 1 - length got < fuel)%nat →
  total (read_status_line fuel sock started got).
Proof.
  revert got. induction fuel as [|fuel IH]; intros got Hg Hf; [lia|]. cbn [read_status_line].
  destruct (Nat.eqb_spec (length got) (HTTP_STATUS_LINE_MAX + 1)); [done|].
  apply total_remaining. intros remaining. apply total_try. intros _ os.
  apply wp_try_bind, wp_map_err, wp_sys.
  pose proof (tcp_read_law sock (HTTP_STATUS_LINE_MAX + 1 - length got) os) as Hread.
  destruct (tcp_read sock (HTTP_STATUS_LINE_MAX + 1 - length got) os) as [[b|e] os']; [|done].
  cbn [fst snd result_map_err] in *. specialize (Hread b eq_refl).
  destruct b as [|c b]; [done|]. cbv zeta. cbn [length] in Hread.
  destruct (position _ _); [destruct (_ <? _)%nat; done|].
  apply IH; rewrite length_app; cbn [length]; lia.
Qed.

(** A probe always answers. *)
Lemma probe_http_total port path : total (probe_http port path).
Proof.
  intros os. unfold probe_http. apply wp_try_bind, wp_ret. destruct (validate_probe_path path); [|done].
  wp_step. apply wp_sys. apply total_try. intros sock. apply total_remaining. intros remaining.
  do 2 (apply total_try; intros _). apply read_status_line_ok; simpl; lia.
Qed.

(** A body is given whole, within the limit, or not at all. *)
Lemma accept_response_spec r body :
  accept_response r = Ok body ↔
  body = hr_body r ∧ hr_error r = None ∧ (length (hr_body r) ≤ MAX_RUN_RESPONSE_BODY)%nat ∧
  (∀ cl, hr_content_length r = Some cl →
     ∃ n, parse_unsigned U64_MAX cl = Some n ∧ n ≤ Z.of_nat MAX_RUN_RESPONSE_BODY).
Proof.
  destruct r as [header data error]. unfold accept_response, read_body. cbn [hr_content_length hr_body hr_error].
  assert (Hbody : ∀ b, match (if (MAX_RUN_RESPONSE_BODY + 1 <=? length data)%nat
                              then Ok (take (MAX_RUN_RESPONSE_BODY + 1) data)
                              else match error with None => Ok data | Some e => Err e end) with
    | Ok body => if (MAX_RUN_RESPONSE_BODY <? length body)%nat then Err body_too_large else Ok body
    | Err e => Err (EInternal ("read body: " +:+ e)) end = Ok b ↔
    b = data ∧ error = None ∧ (length data ≤ MAX_RUN_RESPONSE_BODY)%nat).
  { intros b. destruct (Nat.leb_spec (MAX_RUN_RESPONSE_BODY + 1) (length data)) as [Hl|Hl].
    - rewrite length_take, Nat.min_l by done. rewrite (proj2 (Nat.ltb_lt _ _)) by lia. split; [done|lia].
    - destruct error; [by split; [|intros (? & ? & ?)]|]. rewrite (proj2 (Nat.ltb_ge _ _)) by lia.
      split; [intros [= <-]; split_and!; [done|done|lia]|by intros (-> & _)]. }
  destruct header as [cl|]; cbn [result_bind].
  - destruct (parse_unsigned U64_MAX cl) as [n|] eqn:Ep; cbn [result_bind].
    + destruct (Z.ltb_spec (Z.of_nat MAX_RUN_RESPONSE_BODY) n); cbn [result_bind].
      * split; [done|]. intros (_ & _ & _ & Hcl). destruct (Hcl cl eq_refl) as (m & Em & ?).
        rewrite Ep in Em. injection Em as ->. lia.
      * rewrite Hbody. split; [|by intros (H1 & H2 & H3 & _)]. intros (H1 & H2 & H3).
        split; [exact H1|]. split; [exact H2|]. split; [exact H3|]. intros ? [= <-]. eauto.
    + split; [done|]. intros (_ & _ & _ & Hcl). destruct (Hcl cl eq_refl) as (m & Em & _). congruence.
  - rewrite Hbody. split; [|by intros (H1 & H2 & H3 & _)]. intros (H1 & H2 & H3).
    split; [exact H1|]. split; [exact H2|]. by split; [exact H3|].
Qed.

End facts.
