(* ===== verification/Process.v ===== *)
(** * The process runtime: [worker/src/runtime/process.rs]

    Pods as child processes, each with a port of its own.  The mutexes protect single
    reads and updates of the maps; a stop takes the process out of the map, waits without
    the lock and puts it back ([ProcessThreads] interleaves those steps). *)

From S2P Require Import Prelude Types RustStr Protocol Traits System Http.

Definition BASE_PORT : Z := 15000.
Definition POST_KILL_WAIT : Z := from_secs 2.
Definition TERM_POLL_INTERVAL : Z := 10 * NANOS_PER_MILLI.
Definition POLL_INTERVAL : Z := 10 * NANOS_PER_MILLI.
Definition TEST_PROCESS_PORT_COUNT : Z := 4.

Record RunningProcess := mkRunningProcess { rp_child : Z; rp_port : Z }.

Record ProcessRuntime := mkProcessRuntime {
  processes : gmap string RunningProcess;
  next_port : Z;
  port_end_exclusive : option Z;
  test_controls_enabled : bool;
  run_deadline : Z
}.

Definition set_processes (m : gmap string RunningProcess) (r : ProcessRuntime) : ProcessRuntime :=
  mkProcessRuntime m (next_port r) (port_end_exclusive r) (test_controls_enabled r) (run_deadline r).
Definition set_next_port (p : Z) (r : ProcessRuntime) : ProcessRuntime :=
  mkProcessRuntime (processes r) p (port_end_exclusive r) (test_controls_enabled r) (run_deadline r).

Definition with_base_port (base_port : Z) : ProcessRuntime :=
  mkProcessRuntime ∅ base_port None false (from_secs 25).
Definition process_runtime_new : ProcessRuntime := with_base_port BASE_PORT.

Definition with_test_controls (base_port : Z) : outcome ProcessRuntime :=
  assert_or (0 <? base_port) "test process base port must be nonzero"
    (match checked_add U16_MAX base_port TEST_PROCESS_PORT_COUNT with
     | None => Panic "test process port range must fit in u16"
     | Some port_end => Done (mkProcessRuntime ∅ base_port (Some port_end) true (600 * NANOS_PER_MILLI))
     end).

Definition get_port (r : ProcessRuntime) (container_id : string) : option Z :=
  rp_port <$> processes r !! container_id.

(** ** Waiting for a child *)

Section child.
  Context {OS : Type} `{!Host OS} `{!System OS}.

Definition sleep_for (d : Z) : M OS unit := sys (λ os, (tt, thread_sleep d os)).

(** The poll loop after TERM: [Ok true] is an exit, [Ok false] the end of the grace. *)
Fixpoint wait_after_term (fuel : nat) (container_id : string) (pid deadline : Z)
    : M OS (result bool RuntimeError) :=
  match fuel with
  | O => panic "grace period did not end"
  | S fuel =>
    let* status := sys (try_wait pid) in
    match status with
    | Ok (Some _) => ret (Ok true)
    | Ok None =>
      let* now := sys instant_now in
      if now <? deadline then
        let* now := sys instant_now in
        sleep_for (Z.min TERM_POLL_INTERVAL (saturating_duration_since deadline now)) ;;;
        wait_after_term fuel container_id pid deadline
      else ret (Ok false)
    | Err error => fail (EContainerStop (container_id +:+ " status after TERM: " +:+ error))
    end
  end.

(** [wait_for_child_exit_until]. *)
Fixpoint wait_for_child_exit_until (fuel : nat) (pid deadline : Z) : M OS (result (option ExitStatus) string) :=
  match fuel with
  | O => panic "wait did not end"
  | S fuel =>
    try* status := sys (try_wait pid) in
    match status with
    | Some status => ret (Ok (Some status))
    | None =>
      let* now := sys instant_now in
      let remaining := saturating_duration_since deadline now in
      if remaining =? 0 then ret (Ok None)
      else sleep_for (Z.min POLL_INTERVAL remaining) ;;; wait_for_child_exit_until fuel pid deadline
    end
  end.

(** More than 30 s of grace, and more than the 2 s after KILL, in steps of 10 ms. *)
Definition TERM_FUEL : nat := 3005.
Definition KILL_FUEL : nat := 205.

(** The closure of [stop_pod_until] on the process taken out of the map. *)
Definition stop_child (container_id : string) (pid grace_period_ms shutdown_deadline : Z)
    : M OS (result unit RuntimeError) :=
  let* before := sys (try_wait pid) in
  match before with
  | Ok (Some _) => ret (Ok tt)
  | Err error => fail (EContainerStop (container_id +:+ " status before TERM: " +:+ error))
  | Ok None =>
    if 2147483647 <? pid then
      fail (EContainerStop (container_id +:+ " pid conversion: out of range integral type conversion attempted"))
    else
      try* _ := map_err (λ e, EContainerStop (container_id +:+ " TERM: " +:+ e)) (sys (kill_term pid)) in
      let grace := Z.min grace_period_ms MAX_STOP_GRACE_MS * NANOS_PER_MILLI in
      let* now := sys instant_now in
      try* exited := wait_after_term TERM_FUEL container_id pid (Z.min (now + grace) shutdown_deadline) in
      if exited then ret (Ok tt)
      else
        try* _ := map_err (λ e, EContainerStop (container_id +:+ " KILL: " +:+ e)) (sys (child_kill pid)) in
        let* now := sys instant_now in
        let* waited := wait_for_child_exit_until KILL_FUEL pid (Z.min (now + POST_KILL_WAIT) shutdown_deadline) in
        ret (match waited with
             | Ok (Some _) => Ok tt
             | Ok None => Err (EContainerStop (container_id +:+ " did not exit within "
                                 +:+ fmt_int (as_millis POST_KILL_WAIT) +:+ "ms after KILL"))
             | Err error => Err (EContainerStop (container_id +:+ " status after KILL: " +:+ error))
             end)
  end.

End child.

(** ** The operations of the trait *)

Section process.
  Context {OS : Type} `{!Host OS} `{!System OS}.
  Abbreviation P := (M (ProcessRuntime * OS)).

Definition rt_get : P ProcessRuntime := λ s, Done (s.1, s).
Definition rt_set (f : ProcessRuntime → ProcessRuntime) : P unit := λ s, Done (tt, (f s.1, s.2)).
(** A call of the system, on its own. *)
Definition on_sys {A} (m : M OS A) : P A := λ s,
  match m s.2 with Done (a, os) => Done (a, (s.1, os)) | Panic e => Panic e end.

Definition proc_pull_image (_ : string) (_ : option ImagePullAuth) : P (result unit RuntimeError) := ret (Ok tt).

Definition proc_container_id (pod_id port : Z) : string :=
  "proc-pod-" +:+ fmt_int pod_id +:+ ":" +:+ fmt_int port.

Definition proc_create_pod (spec : PodSpec) : P (result PodHandle RuntimeError) :=
  if 0 <? ps_gpu_count spec then
    fail (EContainerCreate "GPU workload rejected: process runtime cannot isolate physical devices")
  else
    let* r := rt_get in
    let port := next_port r in
    if bool_decide (port_end_exclusive r = Some port) then
      fail (EContainerCreate ("test process port range exhausted after " +:+ fmt_int TEST_PROCESS_PORT_COUNT +:+ " pods"))
    else
      match checked_add U16_MAX port 1 with
      | None => fail (EContainerCreate "process runtime port range exhausted")
      | Some next =>
        rt_set (set_next_port next) ;;;
        let container_id := proc_container_id (ps_pod_id spec) port in
        let env := ps_env_vars spec ++ (if 0 <? ps_port spec then [("PORT"%string, fmt_int (ps_port spec))] else []) in
        try* child := map_err (λ e, EContainerCreate ("spawn failed: " +:+ e))
          (on_sys (sys (spawn (mkSpawnCommand (test_controls_enabled r) (Z.of_nat (MAX_RUN_RESPONSE_BODY + 1))
                                 (ps_pod_id spec) port env)))) in
        rt_set (λ r, set_processes (<[container_id := mkRunningProcess child port]> (processes r)) r) ;;;
        succeed (mkPodHandle (ps_pod_id spec) container_id)
      end.

(** [self.get_port(..).ok_or_else(..)]. *)
Definition port_of (h : PodHandle) : P (result Z RuntimeError) :=
  let* r := rt_get in
  ret (ok_or (EContainerNotFound (ph_container_id h)) (get_port r (ph_container_id h))).

Fixpoint await_server (attempts : nat) (port : Z) : M OS (result unit RuntimeError) :=
  match attempts with
  | O => fail (EContainerStart "server didn't become ready in 5s")
  | S attempts =>
    let* sock := sys (tcp_connect port None) in
    match sock with
    | Ok _ => succeed tt
    | Err _ => sleep_for (100 * NANOS_PER_MILLI) ;;; await_server attempts port
    end
  end.

Definition proc_start_pod (h : PodHandle) : P (result unit RuntimeError) :=
  try* port := port_of h in on_sys (await_server 50 port).

Definition proc_forward_run (h : PodHandle) (_ : Z) (payload : bytes) : P (result bytes RuntimeError) :=
  try* port := port_of h in
  let* r := rt_get in on_sys (forward_run_with_deadline port payload (run_deadline r)).

Definition proc_probe_pod (h : PodHandle) (_ : Z) (path : string) : P (result bool RuntimeError) :=
  try* port := port_of h in map_err EInternal (on_sys (probe_http port path)).

Definition proc_stop_pod_until (h : PodHandle) (grace_period_ms shutdown_deadline : Z)
    : P (result unit RuntimeError) :=
  let* now := on_sys (sys instant_now) in
  if shutdown_deadline <=? now then fail (EContainerStop "shutdown deadline reached")
  else
    let* r := rt_get in
    match processes r !! ph_container_id h with
    | None => fail (EContainerNotFound (ph_container_id h))
    | Some process =>
      rt_set (λ r, set_processes (delete (ph_container_id h) (processes r)) r) ;;;
      let* res := on_sys (stop_child (ph_container_id h) (rp_child process) grace_period_ms shutdown_deadline) in
      let* r := rt_get in
      rt_set (λ r, set_processes (<[ph_container_id h := process]> (processes r)) r) ;;;
      assert (bool_decide (processes r !! ph_container_id h = None)) "stopped process ownership must be unique" ;;;
      ret res
    end.

Definition proc_stop_pod (h : PodHandle) (grace_period_ms : Z) : P (result unit RuntimeError) :=
  let* now := on_sys (sys instant_now) in
  proc_stop_pod_until h grace_period_ms
    (now + Z.min grace_period_ms MAX_STOP_GRACE_MS * NANOS_PER_MILLI + POST_KILL_WAIT).

Definition proc_pod_status (h : PodHandle) : P (result PodStatus RuntimeError) :=
  let* r := rt_get in
  match processes r !! ph_container_id h with
  | Some process =>
    let* status := on_sys (sys (try_wait (rp_child process))) in
    ret (Ok (match status with
             | Ok (Some code) => PStopped (default (-1) code)
             | Ok None => PRunning
             | Err _ => PUnknown
             end))
  | None => fail (EContainerNotFound (ph_container_id h))
  end.

Definition proc_pod_status_until (h : PodHandle) (deadline : Z) : P (result PodStatus RuntimeError) :=
  let* now := on_sys (sys instant_now) in
  if deadline <=? now then fail (EContainerNotFound "shutdown deadline reached") else proc_pod_status h.

Definition proc_remove_pod_until (h : PodHandle) (deadline : Z) : P (result unit RuntimeError) :=
  try* _ := proc_stop_pod_until h 0 deadline in
  let* now := on_sys (sys instant_now) in
  if deadline <=? now then fail (EContainerStop "shutdown deadline reached")
  else
    let* r := rt_get in
    rt_set (λ r, set_processes (delete (ph_container_id h) (processes r)) r) ;;;
    assert (bool_decide (is_Some (processes r !! ph_container_id h)))
      "stopped process must remain owned until removal" ;;;
    ret (Ok tt).

Definition proc_remove_pod (h : PodHandle) : P (result unit RuntimeError) :=
  let* now := on_sys (sys instant_now) in proc_remove_pod_until h (now + POST_KILL_WAIT).

End process.
