(* ===== verification/ProcessSafety.v ===== *)
(** * The process runtime keeps its processes and its promises *)

From S2P Require Import Prelude Types RustStr Protocol Traits System Http Process.

Section child.
  Context {OS : Type} `{!Host OS} `{!System OS} `{LAWS : !SystemLaws OS}.
  Implicit Types os : OS.

(** ** Rules *)

Lemma wp_sleep_for d Q os :
  (∀ os', later os os' → clock os + Z.max 0 d ≤ clock os' → Q tt os') → wp no_panic (sleep_for d) Q os.
Proof. intros HQ. apply HQ; [apply sleep_adv|apply sleep_law]. Qed.

Lemma wp_try_wait pid Q os :
  (∀ r os', later os os' → (∀ st, r = Ok (Some st) → exit_of pid os' = Some st) → Q r os') →
  wp no_panic (sys (try_wait pid)) Q os.
Proof.
  intros HQ. unfold wp, sys. pose proof (try_wait_law pid os) as Hw. pose proof (try_wait_adv pid os) as La.
  destruct (try_wait pid os) as [r os']. by apply HQ.
Qed.

(** ** The loops end *)

(** So many nanoseconds before [deadline] take at most so many rounds. *)
Lemma wait_after_term_ok fuel n id pid deadline os :
  deadline - clock os ≤ Z.of_nat n * TERM_POLL_INTERVAL → (n < fuel)%nat →
  wp no_panic (wait_after_term fuel id pid deadline)
    (λ r os', later os os' ∧ (r = Ok true → is_Some (exit_of pid os'))) os.
Proof.
  revert n os. induction fuel as [|fuel IH]; intros n os Hr Hf; [lia|]. cbn [wait_after_term].
  wp_step. apply wp_try_wait. intros r os1 L1 Hx.
  destruct r as [[st|]|e]; [by apply wp_ret; split; [|eauto]| |by apply wp_ret].
  wp_step. apply wp_instant_now. intros now os2 L2 T2. pose proof (later_clock _ _ L1).
  pose proof (later_clock _ _ L2).
  destruct (Z.ltb_spec now deadline); [|apply wp_ret; split; [by transitivity os1|done]].
  wp_step. apply wp_instant_now. intros now' os3 L3 T3. pose proof (later_clock _ _ L3).
  wp_step. apply wp_sleep_for. intros os4 L4 T4.
  assert (L : later os os4) by (by transitivity os1; [|transitivity os2; [|transitivity os3]]).
  unfold TERM_POLL_INTERVAL, NANOS_PER_MILLI, saturating_duration_since in *.
  eapply wp_mono; [apply (IH (n - 1)%nat); [|]|]; [|lia|].
  - destruct n as [|n]; [lia|]. replace (S n - 1)%nat with n by lia. lia.
  - intros r os5 [L5 H5]. split; [by transitivity os4|done].
Qed.

Lemma wait_for_child_exit_ok fuel n pid deadline os :
  deadline - clock os ≤ Z.of_nat n * POLL_INTERVAL → (n < fuel)%nat →
  wp no_panic (wait_for_child_exit_until fuel pid deadline)
    (λ r os', later os os' ∧ (∀ st, r = Ok (Some st) → exit_of pid os' = Some st)) os.
Proof.
  revert n os. induction fuel as [|fuel IH]; intros n os Hr Hf; [lia|]. cbn [wait_for_child_exit_until].
  apply wp_try_bind. apply wp_try_wait. intros r os1 L1 Hx.
  destruct r as [[st|]|e]; [|..|by split].
  { apply wp_ret. split; [done|]. intros st' [= <-]. by apply Hx. }
  wp_step. apply wp_instant_now. intros now os2 L2 T2. pose proof (later_clock _ _ L1).
  cbv zeta. destruct (Z.eqb_spec (saturating_duration_since deadline now) 0) as [|Hne].
  { apply wp_ret. split; [by transitivity os1|done]. }
  wp_step. apply wp_sleep_for. intros os3 L3 T3.
  assert (L : later os os3) by (by transitivity os1; [|transitivity os2]).
  unfold POLL_INTERVAL, NANOS_PER_MILLI, saturating_duration_since in *.
  eapply wp_mono; [apply (IH (n - 1)%nat); [|]|]; [|lia|].
  - destruct n as [|n]; [lia|]. replace (S n - 1)%nat with n by lia. lia.
  - intros r os5 [L5 H5]. split; [by transitivity os3|done].
Qed.

(** ** Stopping a child *)

Lemma wp_kill_term pid Q os :
  (∀ r os', later os os' → Q r os') → wp no_panic (sys (kill_term pid)) Q os.
Proof.
  intros HQ. unfold wp, sys. pose proof (kill_term_adv pid os). destruct (kill_term pid os). by apply HQ.
Qed.

Lemma wp_child_kill pid Q os :
  (∀ r os', later os os' → Q r os') → wp no_panic (sys (child_kill pid)) Q os.
Proof.
  intros HQ. unfold wp, sys. pose proof (child_kill_adv pid os). destruct (child_kill pid os). by apply HQ.
Qed.

Lemma stop_child_ok id pid grace deadline os :
  wp no_panic (stop_child id pid grace deadline)
    (λ r os', later os os' ∧ (r = Ok tt → is_Some (exit_of pid os'))) os.
Proof.
  unfold stop_child. wp_step. apply wp_try_wait. intros r os1 L1 Hx.
  destruct r as [[st|]|e]; [by apply wp_ret; split; [|eauto]| |by apply wp_ret].
  destruct (_ <? pid); [by apply wp_ret|]. cbv zeta.
  apply wp_try_bind, wp_map_err, wp_kill_term. intros [[]|e] os2 L2; cbn [result_map_err];
    [|split; [by transitivity os1|done]].
  wp_step. apply wp_instant_now. intros now os3 L3 T3.
  assert (L : later os os3) by (by transitivity os1; [|transitivity os2]).
  apply wp_try_bind. eapply wp_mono; [apply (wait_after_term_ok _ 3000)|].
  { unfold MAX_STOP_GRACE_MS, TERM_POLL_INTERVAL, NANOS_PER_MILLI. lia. }
  { unfold TERM_FUEL. lia. }
  intros [[]|e] os4 [L4 H4].
  - apply wp_ret. split; [by transitivity os3|]. intros _. by apply H4.
  - apply wp_try_bind, wp_map_err, wp_child_kill. intros [[]|e] os5 L5; cbn [result_map_err];
      [|split; [by transitivity os3; [|transitivity os4]|done]].
    wp_step. apply wp_instant_now. intros now2 os6 L6 T6.
    wp_step. eapply wp_mono; [apply (wait_for_child_exit_ok _ 200)|].
    { unfold POST_KILL_WAIT, POLL_INTERVAL, from_secs, NANOS_PER_SEC, NANOS_PER_MILLI. lia. }
    { unfold KILL_FUEL. lia. }
    intros r os7 [L7 H7]. apply wp_ret. split.
    { by transitivity os3; [|transitivity os4; [|transitivity os5; [|transitivity os6]]]. }
    destruct r as [[st|]|e]; [|done..]. intros _. eauto.
  - split; [by transitivity os3|done].
Qed.

End child.

Section operations.
  Context {OS : Type} `{!Host OS} `{!System OS} `{LAWS : !SystemLaws OS}.
  Implicit Types (os : OS) (r : ProcessRuntime).

Lemma wp_on_sys {A} P (m : M OS A) (Q : A → ProcessRuntime * OS → Prop) r os :
  wp P m (λ a os', Q a (r, os')) os → wp P (on_sys m) Q (r, os).
Proof. unfold wp, on_sys. simpl. by destruct (m os) as [[]|]. Qed.

Lemma wp_rt_get P (Q : ProcessRuntime → ProcessRuntime * OS → Prop) r os :
  Q r (r, os) → wp P rt_get Q (r, os).
Proof. done. Qed.

Lemma wp_rt_set P f (Q : unit → ProcessRuntime * OS → Prop) r os :
  Q tt (f r, os) → wp P (rt_set f) Q (r, os).
Proof. done. Qed.

(** Taking a process out and putting it back changes nothing. *)
Lemma put_back r id p :
  processes r !! id = Some p →
  set_processes (<[id:=p]> (delete id (processes r))) (set_processes (delete id (processes r)) r) = r.
Proof. intros Hp. rewrite insert_delete_eq, insert_id by done. by destruct r. Qed.

Lemma stop_pod_until_ok h grace deadline r os :
  wp no_panic (proc_stop_pod_until h grace deadline)
    (λ res s', s'.1 = r ∧ later os s'.2 ∧
       (res = Ok tt → ∃ p, processes r !! ph_container_id h = Some p ∧ is_Some (exit_of (rp_child p) s'.2)))
    (r, os).
Proof.
  unfold proc_stop_pod_until. wp_step. apply wp_on_sys, wp_instant_now. intros now os1 L1 _.
  destruct (deadline <=? now); [by apply wp_ret; split_and!|]. wp_step. apply wp_rt_get.
  destruct (processes r !! ph_container_id h) as [p|] eqn:Hp; [|by apply wp_ret; split_and!].
  wp_step. apply wp_rt_set. wp_step. apply wp_on_sys. eapply wp_mono; [apply stop_child_ok|].
  intros res os2 [L2 Hx]. wp_step. apply wp_rt_get. wp_step. apply wp_rt_set. wp_step.
  apply wp_assert; [by apply bool_decide_eq_true_2; simpl; rewrite lookup_delete_eq|]. apply wp_ret.
  cbn [fst snd]. split; [by apply put_back|]. split; [by transitivity os1|]. intros ->. eauto.
Qed.

Lemma remove_pod_until_ok h deadline r os :
  wp no_panic (proc_remove_pod_until h deadline)
    (λ res s', later os s'.2 ∧
       match res with
       | Ok _ => s'.1 = set_processes (delete (ph_container_id h) (processes r)) r ∧
                 ∃ p, processes r !! ph_container_id h = Some p ∧ is_Some (exit_of (rp_child p) s'.2)
       | Err _ => s'.1 = r
       end) (r, os).
Proof.
  unfold proc_remove_pod_until. apply wp_try_bind. eapply wp_mono; [apply stop_pod_until_ok|].
  intros [[]|e] [r1 os1] (E & L1 & Hx); simpl in E, L1; subst r1; [|done].
  destruct (Hx eq_refl) as (p & Hp & st & Hst). simpl in Hst.
  wp_step. apply wp_on_sys, wp_instant_now. intros now os2 L2 _.
  assert (L : later os os2) by by transitivity os1.
  destruct (deadline <=? now); [by apply wp_ret; split_and!|]. wp_step. apply wp_rt_get. wp_step. apply wp_rt_set.
  wp_step. apply wp_assert; [by apply bool_decide_eq_true_2; rewrite Hp|]. apply wp_ret.
  split; [done|]. split; [done|]. exists p. split; [done|]. exists st. exact (later_exit _ _ _ _ L2 Hst).
Qed.

(** A pod whose process has exited is reported stopped, with its exit code. *)
Lemma status_of_exited h r os p st :
  processes r !! ph_container_id h = Some p → exit_of (rp_child p) os = Some st →
  ∃ os', proc_pod_status h (r, os) = Done (Ok (PStopped (default (-1) st)), (r, os')).
Proof.
  intros Hp Hx. unfold proc_pod_status, bind, rt_get, on_sys, sys. cbn [fst snd]. rewrite Hp.
  cbn [fst snd]. pose proof (try_wait_exited_law _ _ _ Hx) as Hw.
  destruct (try_wait (rp_child p) os) as [w os']. simpl in Hw. subst w. by exists os'.
Qed.

(** C18: stopping and removing a process are verified.  Whatever the child does,
    [stop_pod_until] ends (the polls are bounded by the grace and kill deadlines), loses
    no process and fails no assertion; it answers [Ok] only when the child's exit has
    been collected, and from then on [pod_status] reports the pod stopped.
    [remove_pod_until] forgets the process exactly when it answers [Ok], and only after
    its exit. *)
Theorem process_stop_and_remove (h : PodHandle) (grace deadline : Z) (r : ProcessRuntime) (os : OS) :
  (∃ res os', proc_stop_pod_until h grace deadline (r, os) = Done (res, (r, os')) ∧
     (res = Ok tt → ∃ p st os'', processes r !! ph_container_id h = Some p ∧
        exit_of (rp_child p) os' = Some st ∧
        proc_pod_status h (r, os') = Done (Ok (PStopped (default (-1) st)), (r, os'')))) ∧
  (∃ res r' os', proc_remove_pod_until h deadline (r, os) = Done (res, (r', os')) ∧
     match res with
     | Ok _ => r' = set_processes (delete (ph_container_id h) (processes r)) r ∧
               ∃ p, processes r !! ph_container_id h = Some p ∧ is_Some (exit_of (rp_child p) os')
     | Err _ => r' = r
     end).
Proof.
  split.
  - destruct (proj1 (wp_run _ _ _ _) (stop_pod_until_ok h grace deadline r os))
      as [(res & [r' os'] & E & Hr & _ & Hx)|(e & _ & [])].
    simpl in Hr, Hx. subst r'. exists res, os'. split; [done|]. intros Hok.
    destruct (Hx Hok) as (p & Hp & st & Hst). destruct (status_of_exited h r os' p st Hp Hst) as [os'' Es].
    by exists p, st, os''.
  - destruct (proj1 (wp_run _ _ _ _) (remove_pod_until_ok h deadline r os))
      as [(res & [r' os'] & E & _ & Hx)|(e & _ & [])].
    by exists res, r', os'.
Qed.

(** ** Ports *)

(** Every process has a port of its own below [next_port], which its id names. *)
Record ports_wf (r : ProcessRuntime) : Prop := {
  pf_next : 0 < next_port r ≤ U16_MAX;
  pf_end : ∀ e, port_end_exclusive r = Some e → next_port r ≤ e;
  pf_ids : ∀ id p, processes r !! id = Some p →
    rp_port p < next_port r ∧ ∃ pod, id = proc_container_id pod (rp_port p);
  pf_unique : ∀ id id' p p', processes r !! id = Some p → processes r !! id' = Some p' →
    rp_port p = rp_port p' → id = id';
  pf_deadline : 0 < run_deadline r
}.

Lemma ports_wf_delete r id : ports_wf r → ports_wf (set_processes (delete id (processes r)) r).
Proof.
  intros []. constructor; simpl; try done.
  - intros id' p [_ Hp]%lookup_delete_Some. eauto.
  - intros id1 id2 p p' [_ H1]%lookup_delete_Some [_ H2]%lookup_delete_Some. eauto.
Qed.

Lemma create_pod_ok spec r os :
  ports_wf r →
  wp no_panic (proc_create_pod spec)
    (λ res s', ports_wf s'.1 ∧
       match res with
       | Ok h => h = mkPodHandle (ps_pod_id spec) (proc_container_id (ps_pod_id spec) (next_port r)) ∧
                 get_port s'.1 (ph_container_id h) = Some (next_port r) ∧
                 (∀ id p, processes r !! id = Some p → rp_port p ≠ next_port r) ∧ next_port s'.1 = next_port r + 1
       | Err _ => processes s'.1 = processes r
       end) (r, os).
Proof.
  intros Hr. unfold proc_create_pod. destruct (0 <? _); [by apply wp_ret; split_and!|].
  wp_step. apply wp_rt_get. cbv zeta. case_bool_decide as He; [by apply wp_ret; split_and!|].
  unfold checked_add. destruct (Z.leb_spec (next_port r + 1) U16_MAX) as [Hle|]; [|by apply wp_ret; split_and!].
  assert (Hr1 : ports_wf (set_next_port (next_port r + 1) r)).
  { destruct Hr as [Hn Hend Hids ? ?]. constructor; simpl; try done; [lia| |].
    - intros e Ee. specialize (Hend e Ee). assert (e ≠ next_port r) by congruence. lia.
    - intros id p Hp. destruct (Hids id p Hp) as [? ?]. split; [lia|done]. }
  wp_step. apply wp_rt_set. apply wp_try_bind, wp_map_err, wp_on_sys. unfold sys, wp at 1.
  destruct (spawn _ os) as [[child|e] os1]; cbn [result_map_err]; [|by split].
  wp_step. apply wp_rt_set. apply wp_ret. cbn [fst].
  assert (Hfresh : ∀ id p, processes r !! id = Some p → rp_port p ≠ next_port r).
  { intros id p Hp. destruct (pf_ids _ Hr id p Hp). lia. }
  split; [|split_and!; [done| |done|done]].
  - destruct Hr1 as [Hn Hend Hids Hu Hd]. simpl in *. constructor; simpl; try done.
    + intros id p [[<- <-]|[_ Hp]]%lookup_insert_Some; [simpl; split; [lia|eauto]|eauto].
    + intros id1 id2 p p' [[<- <-]|[_ H1]]%lookup_insert_Some [[<- <-]|[_ H2]]%lookup_insert_Some; simpl;
        [done| | |eauto]; intros E; exfalso; [by apply (Hfresh id2 p')|by apply (Hfresh id1 p)].
  - unfold get_port. simpl. by rewrite lookup_insert_eq.
Qed.

(** The life of the runtime: any operation, in any order, on any handle. *)
Inductive proc_reachable : ProcessRuntime * OS → Prop :=
| pr_new base os : 0 < base ≤ U16_MAX → proc_reachable (with_base_port base, os)
| pr_test base r os : with_test_controls base = Done r → proc_reachable (r, os)
| pr_create spec s s' res : proc_reachable s → proc_create_pod spec s = Done (res, s') → proc_reachable s'
| pr_stop h grace deadline s s' res :
    proc_reachable s → proc_stop_pod_until h grace deadline s = Done (res, s') → proc_reachable s'
| pr_remove h deadline s s' res :
    proc_reachable s → proc_remove_pod_until h deadline s = Done (res, s') → proc_reachable s'
| pr_status h s s' res : proc_reachable s → proc_pod_status h s = Done (res, s') → proc_reachable s'
| pr_world r os os' : proc_reachable (r, os) → proc_reachable (r, os').

Lemma ports_wf_new base : 0 < base ≤ U16_MAX → ports_wf (with_base_port base).
Proof. intros Hb. by constructor; simpl. Qed.

Lemma ports_wf_test base r : with_test_controls base = Done r → ports_wf r.
Proof.
  unfold with_test_controls, assert_or, checked_add. destruct (Z.ltb_spec 0 base); [|done].
  destruct (Z.leb_spec (base + TEST_PROCESS_PORT_COUNT) U16_MAX) as [Hle|]; [|done].
  intros [= <-]. unfold TEST_PROCESS_PORT_COUNT in *. constructor; simpl; try done; [lia|].
  intros e [= <-]. lia.
Qed.

Lemma proc_reachable_wf s : proc_reachable s → ports_wf s.1.
Proof.
  induction 1 as [base os Hb|base r os E|spec s s' res _ IH E|h g d s s' res _ IH E|h d s s' res _ IH E
                 |h s s' res _ IH E|r os os' _ IH].
  - by apply ports_wf_new.
  - by eapply ports_wf_test.
  - destruct s as [r os]. pose proof (create_pod_ok spec r os IH) as Hwp. unfold wp in Hwp.
    rewrite E in Hwp. apply Hwp.
  - destruct s as [r os]. pose proof (stop_pod_until_ok h g d r os) as Hwp. unfold wp in Hwp.
    rewrite E in Hwp. by rewrite (proj1 Hwp).
  - destruct s as [r os]. pose proof (remove_pod_until_ok h d r os) as Hwp. unfold wp in Hwp.
    rewrite E in Hwp. destruct Hwp as [_ Hr]. destruct res; [destruct Hr as [-> _]; by apply ports_wf_delete|by rewrite Hr].
  - destruct s as [r os]. revert E. unfold proc_pod_status, bind, rt_get, on_sys, sys. cbn [fst snd].
    destruct (processes r !! _) as [p|]; [|by intros [= _ <-]]. cbn [fst snd].
    destruct (try_wait (rp_child p) os) as [w os1]. by intros [= _ <-].
  - done.
Qed.

(** C19: ports are never shared.  In every reachable state of the runtime two
    different containers have different ports, each below the next port to hand out;
    creating a pod gives it a port no process had, or fails and adds no process; a port
    is never handed out twice, not even after its pod was removed. *)
Theorem process_ports_unique (s : ProcessRuntime * OS) (spec : PodSpec) :
  proc_reachable s →
  (∀ id id' p p', processes s.1 !! id = Some p → processes s.1 !! id' = Some p' → id ≠ id' →
     rp_port p ≠ rp_port p' ∧ rp_port p < next_port s.1 ≤ U16_MAX) ∧
  (∃ res s', proc_create_pod spec s = Done (res, s') ∧
     match res with
     | Ok h => get_port s'.1 (ph_container_id h) = Some (next_port s.1) ∧ next_port s'.1 = next_port s.1 + 1 ∧
               (∀ id p, processes s.1 !! id = Some p → rp_port p ≠ next_port s.1)
     | Err _ => processes s'.1 = processes s.1
     end).
Proof.
  intros Hs%proc_reachable_wf. split.
  - intros id id' p p' H1 H2 Hne. split; [intros E; apply Hne; by eapply (pf_unique _ Hs)|].
    split; [by eapply (pf_ids _ Hs)|apply Hs].
  - destruct s as [r os].
    destruct (proj1 (wp_run _ _ _ _) (create_pod_ok spec r os Hs)) as [(res & s' & E & _ & Hx)|(e & _ & [])].
    exists res, s'. split; [done|]. destruct res; [|done]. by destruct Hx as (_ & ? & ? & ?).
Qed.

End operations.
