(* ===== verification/ProcessThreads.v ===== *)
(** * The process runtime under threads

    The lifecycle threads of the worker call the runtime concurrently.  Each locked region
    of [process.rs] is one step here: a stop takes its process out of the map, waits with no
    lock held, and puts it back; [create_pod] holds the port lock from choosing the port to
    inserting the process.  The clock, the children and the outcome of the waiting are left
    out: any outcome is possible.  No two threads stop or remove the same handle, as the
    worker's do not: one operation per pod.  [ProcessSteps] refines this system to the
    calls of the operations, one system call at a time. *)

From S2P Require Import Prelude Types RustStr RustParse Traits System Http Process.

Inductive ProcOp :=
| OpCreatePod (pod_id : Z)
| OpStopPod (id : string)
| OpRemovePod (id : string)
| OpPodStatus (id : string)
| OpReadPort (id : string).      (* [get_port], before starting, probing or forwarding *)

(** Where a thread is in its call. *)
Inductive ProcThread :=
| Calling (op : ProcOp)
| HoldingPort (pod_id port : Z)                          (* spawning, port lock held *)
| Waiting (removing : bool) (id : string) (p : RunningProcess)  (* process taken out *)
| Reclaiming (id : string)                               (* stopped, about to remove *)
| Returned
| AssertFailed (msg : string).

Record Shared := mkShared {
  sh_processes : gmap string RunningProcess;
  sh_next_port : Z;
  sh_port_locked : bool
}.

Inductive thread_moves : Shared → ProcThread → Shared → ProcThread → Prop :=
(** [create_pod]: the port lock is taken, the port chosen, the next one stored. *)
| mv_create m n pod :
    n + 1 ≤ U16_MAX →
    thread_moves (mkShared m n false) (Calling (OpCreatePod pod))
                 (mkShared m (n + 1) true) (HoldingPort pod n)
(** GPU workloads are refused before the lock, exhausted port ranges with it. *)
| mv_create_refused m n l pod :
    thread_moves (mkShared m n l) (Calling (OpCreatePod pod)) (mkShared m n l) Returned
| mv_spawn_failed m n pod port :
    thread_moves (mkShared m n true) (HoldingPort pod port) (mkShared m n false) Returned
| mv_spawned m n pod port child :
    thread_moves (mkShared m n true) (HoldingPort pod port)
                 (mkShared (<[proc_container_id pod port := mkRunningProcess child port]> m) n false) Returned
(** [stop_pod_until], alone or as the first part of [remove_pod_until]. *)
| mv_take m n l op id removing p :
    op = (if removing : bool then OpRemovePod id else OpStopPod id) → m !! id = Some p →
    thread_moves (mkShared m n l) (Calling op) (mkShared (delete id m) n l) (Waiting removing id p)
| mv_unknown m n l op id removing :
    op = (if removing : bool then OpRemovePod id else OpStopPod id) → m !! id = None →
    thread_moves (mkShared m n l) (Calling op) (mkShared m n l) Returned
| mv_late m n l op id removing :
    op = (if removing : bool then OpRemovePod id else OpStopPod id) →
    thread_moves (mkShared m n l) (Calling op) (mkShared m n l) Returned
| mv_put_back m n l removing id p stopped :
    m !! id = None →
    thread_moves (mkShared m n l) (Waiting removing id p) (mkShared (<[id:=p]> m) n l)
                 (if removing && stopped : bool then Reclaiming id else Returned)
| mv_put_back_assert m n l removing id p q :
    m !! id = Some q →
    thread_moves (mkShared m n l) (Waiting removing id p) (mkShared (<[id:=p]> m) n l)
                 (AssertFailed "stopped process ownership must be unique")
(** The rest of [remove_pod_until]. *)
| mv_remove m n l id p :
    m !! id = Some p →
    thread_moves (mkShared m n l) (Reclaiming id) (mkShared (delete id m) n l) Returned
| mv_remove_assert m n l id :
    m !! id = None →
    thread_moves (mkShared m n l) (Reclaiming id) (mkShared m n l)
                 (AssertFailed "stopped process must remain owned until removal")
| mv_remove_late m n l id :
    thread_moves (mkShared m n l) (Reclaiming id) (mkShared m n l) Returned
| mv_status m n l id :
    thread_moves (mkShared m n l) (Calling (OpPodStatus id)) (mkShared m n l) Returned
| mv_read_port m n l id :
    thread_moves (mkShared m n l) (Calling (OpReadPort id)) (mkShared m n l) Returned.

(** One thread moves. *)
Inductive threads_move : Shared * list ProcThread → Shared * list ProcThread → Prop :=
| threads_move_at i sh ts t sh' t' :
    ts !! i = Some t → thread_moves sh t sh' t' → threads_move (sh, ts) (sh', <[i:=t']> ts).

(** ** Ownership *)

(** The handle a thread is stopping or removing. *)
Definition target (t : ProcThread) : option string :=
  match t with
  | Calling (OpStopPod id) | Calling (OpRemovePod id)
  | Waiting _ id _ | Reclaiming id => Some id
  | _ => None
  end.

(** The id a thread in the middle of a call relies on. *)
Definition claim (t : ProcThread) : option string :=
  match t with Waiting _ id _ | Reclaiming id => Some id | _ => None end.

(** Ports below this belong to processes already spawned. *)
Definition ceiling (sh : Shared) : Z := if sh_port_locked sh then sh_next_port sh - 1 else sh_next_port sh.

(** A process is named after its port, and has one below the ceiling. *)
Definition process_wf (sh : Shared) (id : string) (p : RunningProcess) : Prop :=
  0 ≤ rp_port p < ceiling sh ∧ ∃ pod, 0 ≤ pod ∧ id = proc_container_id pod (rp_port p).

(** What is known of a thread in a state. *)
Definition thread_wf (sh : Shared) (t : ProcThread) : Prop :=
  match t with
  | Waiting _ id p => sh_processes sh !! id = None ∧ process_wf sh id p
  | Reclaiming id => is_Some (sh_processes sh !! id)
  | HoldingPort pod port => sh_port_locked sh = true ∧ 0 ≤ pod ∧ 0 ≤ port ∧ port + 1 = sh_next_port sh
  | Calling (OpCreatePod pod) => 0 ≤ pod
  | AssertFailed _ => False
  | _ => True
  end.

Definition is_holding (t : ProcThread) : bool := match t with HoldingPort _ _ => true | _ => false end.

Record conf_wf (c : Shared * list ProcThread) : Prop := {
  cf_next : 0 ≤ sh_next_port c.1;
  cf_map : ∀ id p, sh_processes c.1 !! id = Some p → process_wf c.1 id p;
  cf_threads : ∀ i t, c.2 !! i = Some t → thread_wf c.1 t;
  cf_targets : ∀ i j t u id, c.2 !! i = Some t → c.2 !! j = Some u →
    target t = Some id → target u = Some id → i = j;
  cf_lock : ∀ i j t u, c.2 !! i = Some t → c.2 !! j = Some u → is_holding t = true → is_holding u = true → i = j
}.

Lemma proc_container_id_inj pod port pod' port' :
  0 ≤ pod → 0 ≤ pod' → proc_container_id pod port = proc_container_id pod' port' → port = port'.
Proof.
  intros Hp Hp' E. unfold proc_container_id in E. apply prefix_inj in E.
  apply (separator_inj ":") in E as [_ E]; [by apply (inj fmt_int)|by apply fmt_int_free..].
Qed.

Lemma process_wf_mono sh sh' id p : ceiling sh ≤ ceiling sh' → process_wf sh id p → process_wf sh' id p.
Proof. intros Hc [? ?]. split; [lia|done]. Qed.

Lemma claim_target t id : claim t = Some id → target t = Some id.
Proof. by destruct t. Qed.

(** A thread does not notice changes away from its claim. *)
Lemma thread_wf_frame sh sh' u :
  (∀ id, claim u = Some id → sh_processes sh' !! id = sh_processes sh !! id) →
  ceiling sh ≤ ceiling sh' →
  (is_holding u = true → sh_port_locked sh' = sh_port_locked sh ∧ sh_next_port sh' = sh_next_port sh) →
  thread_wf sh u → thread_wf sh' u.
Proof.
  intros Hm Hc Hh. destruct u as [[]|pod port|b id p|id| |]; simpl; try done.
  - destruct Hh as [-> ->]; done.
  - rewrite (Hm id) by done. intros [? ?]. split; [done|]. by eapply process_wf_mono.
  - by rewrite (Hm id).
Qed.

(** The effect of one move on the whole configuration: what the mover owes. *)
Lemma conf_wf_move sh ts i t sh' t' :
  conf_wf (sh, ts) → ts !! i = Some t →
  0 ≤ sh_next_port sh' → (∀ id p, sh_processes sh' !! id = Some p → process_wf sh' id p) →
  thread_wf sh' t' → (∀ id, target t' = Some id → target t = Some id) →
  (∀ j u, j ≠ i → ts !! j = Some u → thread_wf sh' u) →
  (is_holding t' = true → ∀ j u, j ≠ i → ts !! j = Some u → is_holding u = false) →
  conf_wf (sh', <[i:=t']> ts).
Proof.
  intros [Hn Hmap Hth Htg Hlk] Hi Hn' Hmap' Ht' Htarget Hothers Hhold.
  assert (Hl : (i < length ts)%nat) by by eapply lookup_lt_Some.
  assert (Hcase : ∀ j u, <[i:=t']> ts !! j = Some u → (j = i ∧ u = t') ∨ (j ≠ i ∧ ts !! j = Some u)).
  { intros j u. destruct (decide (j = i)) as [->|Hne].
    - rewrite list_lookup_insert_eq by done. intros [= ->]. by left.
    - rewrite list_lookup_insert_ne by done. by right. }
  constructor; cbn [fst snd] in *; try done.
  - intros j u [[-> ->]|[? ?]]%Hcase; eauto.
  - intros j k u v id [[-> ->]|[Hj Hju]]%Hcase [[-> ->]|[Hk Hkv]]%Hcase E1 E2; [done| | |eauto]; exfalso;
      [apply Hk|apply Hj]; symmetry; eapply Htg; eauto.
  - intros j k u v [[-> ->]|[Hj Hju]]%Hcase [[-> ->]|[Hk Hkv]]%Hcase E1 E2; [done| | |eauto]; exfalso.
    + rewrite (Hhold E1 k v) in E2; done.
    + rewrite (Hhold E2 j u) in E1; done.
Qed.

(** Other threads keep their claims when the map changes at a target of the mover. *)
Lemma others_keep sh ts i t sh' id :
  conf_wf (sh, ts) → ts !! i = Some t → target t = Some id →
  (∀ k, k ≠ id → sh_processes sh' !! k = sh_processes sh !! k) →
  sh_port_locked sh' = sh_port_locked sh → sh_next_port sh' = sh_next_port sh →
  ∀ j u, j ≠ i → ts !! j = Some u → thread_wf sh' u.
Proof.
  intros Hc Hi Ht Hm Hl Hn j u Hne Hj. apply (thread_wf_frame sh).
  - intros k Hk. apply Hm. intros ->. apply Hne. eapply (cf_targets _ Hc); [done|done| |done].
    by apply claim_target.
  - unfold ceiling. rewrite Hl, Hn. lia.
  - done.
  - by apply (cf_threads _ Hc j u).
Qed.

(** A new container's id is fresh: its port is above every other. *)
Lemma fresh_id sh pod port id :
  0 ≤ pod → ceiling sh ≤ port → (∃ p, process_wf sh id p) → id ≠ proc_container_id pod port.
Proof.
  intros Hpod Hc (p & [? ?] & pod' & ? & ->) E. apply proc_container_id_inj in E; [lia|done|done].
Qed.

Lemma move_create_wf m n pod ts i :
  conf_wf (mkShared m n false, ts) → ts !! i = Some (Calling (OpCreatePod pod)) →
  conf_wf (mkShared m (n + 1) true, <[i:=HoldingPort pod n]> ts).
Proof.
  intros Hc Hi. pose proof (cf_next _ Hc) as Hn. simpl in Hn.
  assert (Hce : ceiling (mkShared m n false) ≤ ceiling (mkShared m (n + 1) true)) by (unfold ceiling; simpl; lia).
  assert (Hno : ∀ j u, ts !! j = Some u → is_holding u = false).
  { intros j u Hj. pose proof (cf_threads _ Hc j u Hj) as Hu. by destruct u; [|destruct Hu| | | |]. }
  eapply conf_wf_move; [exact Hc|exact Hi|simpl; lia| | |done| |by intros _ j u _ ?; eapply Hno].
  - intros id p Hp. eapply process_wf_mono; [done|]. by apply (cf_map _ Hc).
  - pose proof (cf_threads _ Hc i _ Hi) as Hpod. simpl in *. lia.
  - intros j u Hne Hj. apply (thread_wf_frame (mkShared m n false)); [done|done| |by apply (cf_threads _ Hc j u)].
    by rewrite (Hno j u Hj).
Qed.

(** The end of [create_pod], with or without a new process. *)
Lemma move_unlock_wf m m' n pod port ts i :
  conf_wf (mkShared m n true, ts) → ts !! i = Some (HoldingPort pod port) →
  (m' = m ∨ ∃ child, m' = <[proc_container_id pod port := mkRunningProcess child port]> m) →
  conf_wf (mkShared m' n false, <[i:=Returned]> ts).
Proof.
  intros Hc Hi Hm. pose proof (cf_threads _ Hc i _ Hi) as (_ & Hpod & Hport & Hn). simpl in Hn.
  assert (Hce : ceiling (mkShared m n true) ≤ ceiling (mkShared m' n false)) by (unfold ceiling; simpl; lia).
  assert (Hfresh : ∀ id, (∃ p, process_wf (mkShared m n true) id p) → m' !! id = m !! id).
  { intros id Hid. destruct Hm as [->|[child ->]]; [done|]. apply lookup_insert_ne.
    intros E. eapply (fresh_id _ pod port); [done| |done|done]. unfold ceiling. simpl. lia. }
  eapply conf_wf_move; [exact Hc|exact Hi|simpl; lia| |done|done| |done].
  - intros id p. simpl. intros Hp.
    assert (Hcase : m !! id = Some p ∨ id = proc_container_id pod port ∧ rp_port p = port).
    { destruct Hm as [->|[child ->]]; [by left|]. apply lookup_insert_Some in Hp as [[<- <-]|[_ Hp]]; auto. }
    destruct Hcase as [Hp'|[-> Hpp]]; [eapply process_wf_mono; [done|by apply (cf_map _ Hc)]|].
    split; [unfold ceiling; simpl; lia|]. exists pod. by rewrite Hpp.
  - intros j u Hne Hj. pose proof (cf_threads _ Hc j u Hj) as Hu. apply (thread_wf_frame (mkShared m n true)).
    + intros id Hid. simpl. apply Hfresh. destruct u as [|?|b id' p|id'| |]; try done; injection Hid as ->.
      * destruct Hu. eauto.
      * destruct Hu as [p Hp]. exists p. by apply (cf_map _ Hc).
    + done.
    + intros Hh. exfalso. apply Hne. by eapply (cf_lock _ Hc).
    + done.
Qed.

(** Removing an entry at the mover's target. *)
Lemma move_delete_wf m n l ts i t t' id :
  conf_wf (mkShared m n l, ts) → ts !! i = Some t → target t = Some id → is_holding t' = false →
  thread_wf (mkShared (delete id m) n l) t' → (∀ k, target t' = Some k → k = id) →
  conf_wf (mkShared (delete id m) n l, <[i:=t']> ts).
Proof.
  intros Hc Hi Ht Hh Ht' Htg.
  eapply conf_wf_move; [exact Hc|exact Hi|by apply (cf_next _ Hc)| |exact Ht'| | |by rewrite Hh].
  - intros k p Hp. simpl in Hp. apply lookup_delete_Some in Hp as [_ Hp]. by apply (cf_map _ Hc).
  - intros k ->%Htg. done.
  - eapply others_keep; [exact Hc|exact Hi|exact Ht| |done|done]. intros k Hk. simpl. by rewrite lookup_delete_ne.
Qed.

Lemma threads_move_wf c c' : conf_wf c → threads_move c c' → conf_wf c'.
Proof.
  intros Hc Hstep. destruct Hstep as [i sh ts t sh' t' Hi Hm].
  pose proof (cf_threads _ Hc i t Hi) as Ht. cbn [fst snd] in Ht.
  assert (Hsame : ∀ sh ts t t', conf_wf (sh, ts) → ts !! i = Some t → thread_wf sh t' → is_holding t' = false →
    target t' = None → conf_wf (sh, <[i:=t']> ts)).
  { clear. intros sh ts t t' Hc Hi Ht' Hh Htg.
    eapply conf_wf_move; [exact Hc|exact Hi|apply (cf_next _ Hc)|apply (cf_map _ Hc)|done| | |by rewrite Hh].
    - intros id. by rewrite Htg.
    - intros j u _ Hj. by apply (cf_threads _ Hc j u). }
  destruct Hm as [m n pod Hle|m n pod|m n pod port|m n pod port child|m n l op id b p -> Hp|m n l op id b -> Hp|m n l op id b ->
                 |m n l b id p stopped Hp|m n l b id p q Hp|m n l id p Hp|m n l id Hp|m n l id|m n l id|m n l id].
  - by apply move_create_wf.
  - by eapply Hsame.
  - eapply move_unlock_wf; [done|done|by left].
  - eapply move_unlock_wf; [done|done|right; eauto].
  - eapply move_delete_wf; [done|done|by destruct b|done| |by intros k [= ->]].
    split; [apply lookup_delete_eq|]. by apply (cf_map _ Hc).
  - by eapply Hsame.
  - by eapply Hsame.
  - destruct Ht as [Hnone Hpw].
    eapply conf_wf_move; [exact Hc|exact Hi|apply (cf_next _ Hc)| | | | |by destruct (b && stopped)].
    + intros k q Hq. simpl in Hq. apply lookup_insert_Some in Hq as [[<- <-]|[_ Hq]]; [done|by apply (cf_map _ Hc)].
    + destruct (b && stopped); [|done]. simpl. rewrite lookup_insert_eq. eauto.
    + intros k. by destruct (b && stopped).
    + eapply others_keep; [exact Hc|exact Hi|done| |done|done]. intros k Hk. simpl. by rewrite lookup_insert_ne.
  - destruct Ht as [Hnone _]. simpl in Hnone. congruence.
  - by eapply move_delete_wf.
  - destruct Ht as [q Hq]. simpl in Hq. congruence.
  - by eapply Hsame.
  - by eapply Hsame.
  - by eapply Hsame.
Qed.

(** A process is owned by the map or by the thread that has taken it out. *)
Definition owned (c : Shared * list ProcThread) (id : string) (p : RunningProcess) : Prop :=
  sh_processes c.1 !! id = Some p ∨ ∃ i b, c.2 !! i = Some (Waiting b id p).

Lemma owned_or_removed c c' id p :
  conf_wf c → threads_move c c' → owned c id p →
  owned c' id p ∨ ∃ i, c.2 !! i = Some (Reclaiming id).
Proof.
  intros Hc Hstep Ho. pose proof (threads_move_wf c c' Hc Hstep) as Hc'.
  destruct Hstep as [i sh ts t sh' t' Hi Hm]. unfold owned in *. cbn [fst snd] in *.
  assert (Hl : (i < length ts)%nat) by by eapply lookup_lt_Some.
  destruct Ho as [Hp|(j & b & Hj)].
  - destruct Hm; simpl in *; try (by left; left).
    + left; left. rewrite lookup_insert_ne; [done|].
      pose proof (cf_threads _ Hc i _ Hi) as (_ & Hpod & Hport & Hn). simpl in Hn. intros E. symmetry in E.
      eapply (fresh_id (mkShared m n true) pod port id); [done|unfold ceiling; simpl; lia| |done].
      exists p. by apply (cf_map _ Hc).
    + destruct (decide (id0 = id)) as [->|Hne].
      * left; right. exists i, removing. rewrite list_lookup_insert_eq by done. congruence.
      * left; left. by rewrite lookup_delete_ne.
    + left; left. destruct (decide (id0 = id)) as [->|Hne]; [congruence|]. by rewrite lookup_insert_ne.
    + left; left. destruct (decide (id0 = id)) as [->|Hne].
      * pose proof (cf_threads _ Hc i _ Hi) as [Hn _]. simpl in Hn. congruence.
      * by rewrite lookup_insert_ne.
    + destruct (decide (id0 = id)) as [->|Hne]; [by right; exists i|]. left; left. by rewrite lookup_delete_ne.
  - destruct (decide (i = j)) as [<-|Hne].
    + rewrite Hi in Hj. injection Hj as ->. left. inversion Hm; subst; simpl; left; apply lookup_insert_eq.
    + left; right. exists j, b. by rewrite list_lookup_insert_ne.
Qed.

(** C20: the process runtime is safe under its threads.  However the steps of threads
    that work on distinct handles interleave, no assertion of [stop_pod_until] or
    [remove_pod_until] fails, and no process is lost: each stays in the map or with the
    thread that is stopping it until the call that removes it takes it. *)
Theorem process_threads_safe (c c' : Shared * list ProcThread) :
  conf_wf c → rtc threads_move c c' →
  (∀ i msg, c'.2 !! i ≠ Some (AssertFailed msg)) ∧
  (∀ id p c'', owned c' id p → threads_move c' c'' →
     owned c'' id p ∨ ∃ i, c'.2 !! i = Some (Reclaiming id)).
Proof.
  intros Hc Hsteps. assert (Hc' : conf_wf c').
  { induction Hsteps as [|c1 c2 c3 Hstep _ IH]; [done|]. by eapply IH, threads_move_wf. }
  split.
  - intros i msg Hi. exact (cf_threads _ Hc' i _ Hi).
  - intros id p c'' Ho Hstep. by eapply owned_or_removed.
Qed.

(** ** The port lock *)

(** The port lock has a holder. *)
Definition lock_held (c : Shared * list ProcThread) : Prop :=
  sh_port_locked c.1 = true → ∃ i t, c.2 !! i = Some t ∧ is_holding t = true.

Lemma threads_move_lock c c' : lock_held c → threads_move c c' → lock_held c'.
Proof.
  intros Hl Hstep. destruct Hstep as [i sh ts t sh' t' Hi Hm]. unfold lock_held in *. cbn [fst snd] in *.
  assert (Hlen : (i < length ts)%nat) by by eapply lookup_lt_Some.
  assert (Hother : is_holding t = false → (∃ j u, ts !! j = Some u ∧ is_holding u = true) →
    ∃ j u, <[i:=t']> ts !! j = Some u ∧ is_holding u = true).
  { intros Ht (j & u & Hj & Hu). exists j, u. rewrite list_lookup_insert_ne; [done|]. intros <-. congruence. }
  destruct Hm; simpl in *; try done; try (intros L; apply Hother; [by subst; try destruct removing|by apply Hl]).
  intros _. exists i, (HoldingPort pod n). by rewrite list_lookup_insert_eq.
Qed.
