(* ===== verification/ProcessSteps.v ===== *)
(** * The process runtime, one system call at a time

    The operations of [worker/src/runtime/process.rs] as programs whose steps are single
    system calls and single locked regions, so that threads interleave between any two of
    them: between the polls of a stop, between choosing a port and spawning on it.  Run
    alone, each program is the operation of [Process]; run among others, it is a thread of
    [ProcessThreads], and it returns. *)

From S2P Require Import Prelude Types RustStr Protocol Traits System Http Process ProcessThreads.

(** ** Programs *)

Section prog.
  Context {W : Type}.

(** [Act f k]: wait until [f] is enabled, do it, go on with [k]. *)
Inductive prog (A : Type) : Type :=
| Halt (a : A)
| Crash (msg : string)
| Act (X : Type) (f : W → option (X * W)) (k : X → prog A).
Arguments Halt {A} a.
Arguments Crash {A} msg.
Arguments Act {A X} f k.

Fixpoint then_do {A B} (t : prog A) (f : A → prog B) : prog B :=
  match t with
  | Halt a => f a
  | Crash msg => Crash msg
  | Act g k => Act g (λ x, then_do (k x) f)
  end.

(** A program with the world to itself. *)
Fixpoint alone {A} (t : prog A) (w : W) : outcome (A * W) :=
  match t with
  | Halt a => Done (a, w)
  | Crash msg => Panic msg
  | Act f k => match f w with Some (x, w') => alone (k x) w' | None => Panic "blocked for ever" end
  end.

Lemma alone_then {A B} (t : prog A) (f : A → prog B) w :
  alone (then_do t f) w = match alone t w with Done (a, w') => alone (f a) w' | Panic e => Panic e end.
Proof.
  revert w. induction t as [a|msg|X g k IH]; intros w; simpl; [done..|]. by destruct (g w) as [[x w']|].
Qed.

(** At most [n] steps to the end. *)
Fixpoint ends_within {A} (t : prog A) (n : nat) : Prop :=
  match t with
  | Halt _ | Crash _ => True
  | Act _ k => match n with O => False | S n => ∀ x, ends_within (k x) n end
  end.

Lemma within_le {A} (t : prog A) n m : (n ≤ m)%nat → ends_within t n → ends_within t m.
Proof.
  revert n m. induction t as [a|msg|X g k IH]; intros n m Hle; [done..|]. destruct n; [done|].
  destruct m; [lia|]. intros Hk x. eapply IH; [|apply Hk]. lia.
Qed.

Lemma within_then {A B} (t : prog A) (f : A → prog B) n m :
  ends_within t n → (∀ a, ends_within (f a) m) → ends_within (then_do t f) (n + m).
Proof.
  revert n. induction t as [a|msg|X g k IH]; intros n Ht Hf; simpl; [|done|].
  - eapply within_le; [|apply Hf]. lia.
  - destruct n; [done|]. intros x. by apply IH.
Qed.

(** ** Threads *)

(** One thread does one step. *)
Inductive threads_step {A} : W * list (prog A) → W * list (prog A) → Prop :=
| threads_step_at i w ts X (f : W → option (X * W)) k x w' :
    ts !! i = Some (Act f k) → f w = Some (x, w') →
    threads_step (w, ts) (w', <[i := k x]> ts).

(** Running a given schedule; a thread that is blocked or done is passed over. *)
Fixpoint schedule {A} (order : list nat) (c : W * list (prog A)) : W * list (prog A) :=
  match order with
  | [] => c
  | i :: order =>
    schedule order
      match c.2 !! i with
      | Some (Act f k) => match f c.1 with Some (x, w') => (w', <[i := k x]> c.2) | None => c end
      | _ => c
      end
  end.

Lemma schedule_steps {A} order (c : W * list (prog A)) : rtc threads_step c (schedule order c).
Proof.
  revert c. induction order as [|i order IH]; intros [w ts]; simpl; [done|].
  destruct (ts !! i) as [[a|msg|X f k]|] eqn:Ei; try apply IH. destruct (f w) as [[x w']|] eqn:Ef; [|apply IH].
  eapply rtc_l; [|apply IH]. by econstructor.
Qed.

(** Bounded programs make finitely many steps, however they are scheduled. *)
Lemma bounded_threads_sn {A} (ns : list nat) (c : W * list (prog A)) :
  Forall2 ends_within c.2 ns → sn threads_step c.
Proof.
  remember (sum_list ns) as n eqn:En. revert ns c En.
  induction n as [n IH] using lt_wf_ind. intros ns c -> Hb. constructor. intros c' Hs. unfold flip in Hs.
  destruct Hs as [i w ts X f k x w' Hi Hf]. cbn [snd] in *.
  destruct (Forall2_lookup_l _ _ _ _ _ Hb Hi) as (b & Hbi & Hw). destruct b as [|b]; [done|].
  eapply (IH (sum_list (<[i:=b]> ns))); [|done|by apply Forall2_insert].
  rewrite <-(take_drop_middle ns i _ Hbi) at 2. rewrite insert_take_drop by by eapply lookup_lt_Some.
  rewrite !sum_list_with_app. simpl. lia.
Qed.

Definition returned {A} (t : prog A) : Prop := ∃ a, t = Halt a.

End prog.

Arguments prog : clear implicits.
Arguments Halt {W A} a.
Arguments Crash {W A} msg.
Arguments Act {W A X} f k.

Notation "'do*' x := m 'in' k" := (then_do m (λ x, k))
  (at level 10, x pattern, m at level 100, k at level 200) : rust_scope.

(** ** The operations *)

(** The runtime with its port lock, and the system.  The fields of the runtime outside its
    mutexes do not change: the programs read them from [self]. *)
Record RuntimeWorld (OS : Type) := mkRuntimeWorld { w_runtime : ProcessRuntime; w_locked : bool; w_os : OS }.
Arguments mkRuntimeWorld {OS} _ _ _.
Arguments w_runtime {OS} _.
Arguments w_locked {OS} _.
Arguments w_os {OS} _.

Section steps.
  Context {OS : Type} `{!Host OS} `{!System OS}.
  Abbreviation T := (prog (RuntimeWorld OS)).

(** A system call. *)
Definition call {X} (f : OS → X * OS) : T X :=
  Act (λ w, let '(x, os) := f (w_os w) in Some (x, mkRuntimeWorld (w_runtime w) (w_locked w) os)) Halt.
Definition pause (d : Z) : T unit := call (λ os, (tt, thread_sleep d os)).
(** Calls that hold no lock and end in an answer or in a panic. *)
Definition exchange {X} (m : M OS X) : T X :=
  then_do (call (λ os, match m os with Done (x, os') => (Done x, os') | Panic e => (Panic e, os) end))
    (λ o, match o with Done x => Halt x | Panic e => Crash e end).

(** A locked region over the process map. *)
Definition with_processes {X} (f : gmap string RunningProcess → X * gmap string RunningProcess) : T X :=
  Act (λ w, let '(x, m) := f (processes (w_runtime w)) in
            Some (x, mkRuntimeWorld (set_processes m (w_runtime w)) (w_locked w) (w_os w))) Halt.

Definition take_process (id : string) : T (option RunningProcess) := with_processes (λ m, (m !! id, delete id m)).
Definition put_process (id : string) (p : RunningProcess) : T (option RunningProcess) :=
  with_processes (λ m, (m !! id, <[id := p]> m)).
Definition look_up_port (id : string) : T (option Z) := with_processes (λ m, (match m !! id with Some p => Some (rp_port p) | None => None end, m)).

(** Taking the port lock, up to storing the next port; refused without it. *)
Definition choose_port (self : ProcessRuntime) : T (result Z RuntimeError) :=
  Act (λ w,
    if w_locked w then None
    else
      let port := next_port (w_runtime w) in
      if bool_decide (port_end_exclusive self = Some port) then
        Some (Err (EContainerCreate ("test process port range exhausted after " +:+ fmt_int TEST_PROCESS_PORT_COUNT +:+ " pods")), w)
      else
        match checked_add U16_MAX port 1 with
        | None => Some (Err (EContainerCreate "process runtime port range exhausted"), w)
        | Some next => Some (Ok port, mkRuntimeWorld (set_next_port next (w_runtime w)) true (w_os w))
        end) Halt.

(** The guard of the port lock is dropped on return: after a failed spawn, or right after
    the new process is inserted. *)
Definition release_port : T unit := Act (λ w, Some (tt, mkRuntimeWorld (w_runtime w) false (w_os w))) Halt.
Definition insert_and_release (id : string) (p : RunningProcess) : T unit :=
  Act (λ w, Some (tt, mkRuntimeWorld (set_processes (<[id := p]> (processes (w_runtime w))) (w_runtime w)) false (w_os w))) Halt.

Definition create_pod_steps (self : ProcessRuntime) (spec : PodSpec) : T (result PodHandle RuntimeError) :=
  if 0 <? ps_gpu_count spec then
    Halt (Err (EContainerCreate "GPU workload rejected: process runtime cannot isolate physical devices"))
  else
    do* chosen := choose_port self in
    match chosen with
    | Err e => Halt (Err e)
    | Ok port =>
      let container_id := proc_container_id (ps_pod_id spec) port in
      let env := ps_env_vars spec ++ (if 0 <? ps_port spec then [("PORT"%string, fmt_int (ps_port spec))] else []) in
      do* child := call (spawn (mkSpawnCommand (test_controls_enabled self) (Z.of_nat (MAX_RUN_RESPONSE_BODY + 1))
                                  (ps_pod_id spec) port env)) in
      match child with
      | Err e => do* _ := release_port in Halt (Err (EContainerCreate ("spawn failed: " +:+ e)))
      | Ok child =>
        do* _ := insert_and_release container_id (mkRunningProcess child port) in
        Halt (Ok (mkPodHandle (ps_pod_id spec) container_id))
      end
    end.

(** *** Waiting for a child *)

Fixpoint wait_after_term_steps (fuel : nat) (container_id : string) (pid deadline : Z) : T (result bool RuntimeError) :=
  match fuel with
  | O => Crash "grace period did not end"
  | S fuel =>
    do* status := call (try_wait pid) in
    match status with
    | Ok (Some _) => Halt (Ok true)
    | Ok None =>
      do* now := call instant_now in
      if now <? deadline then
        do* now := call instant_now in
        do* _ := pause (Z.min TERM_POLL_INTERVAL (saturating_duration_since deadline now)) in
        wait_after_term_steps fuel container_id pid deadline
      else Halt (Ok false)
    | Err error => Halt (Err (EContainerStop (container_id +:+ " status after TERM: " +:+ error)))
    end
  end.

Fixpoint wait_for_child_exit_steps (fuel : nat) (pid deadline : Z) : T (result (option ExitStatus) string) :=
  match fuel with
  | O => Crash "wait did not end"
  | S fuel =>
    do* status := call (try_wait pid) in
    match status with
    | Err error => Halt (Err error)
    | Ok (Some status) => Halt (Ok (Some status))
    | Ok None =>
      do* now := call instant_now in
      let remaining := saturating_duration_since deadline now in
      if remaining =? 0 then Halt (Ok None)
      else do* _ := pause (Z.min POLL_INTERVAL remaining) in wait_for_child_exit_steps fuel pid deadline
    end
  end.

Definition kill_child_steps (container_id : string) (pid shutdown_deadline : Z) : T (result unit RuntimeError) :=
  do* killed := call (child_kill pid) in
  match killed with
  | Err e => Halt (Err (EContainerStop (container_id +:+ " KILL: " +:+ e)))
  | Ok _ =>
    do* now := call instant_now in
    do* waited := wait_for_child_exit_steps KILL_FUEL pid (Z.min (now + POST_KILL_WAIT) shutdown_deadline) in
    Halt (match waited with
          | Ok (Some _) => Ok tt
          | Ok None => Err (EContainerStop (container_id +:+ " did not exit within "
                              +:+ fmt_int (as_millis POST_KILL_WAIT) +:+ "ms after KILL"))
          | Err error => Err (EContainerStop (container_id +:+ " status after KILL: " +:+ error))
          end)
  end.

Definition stop_child_steps (container_id : string) (pid grace_period_ms shutdown_deadline : Z)
    : T (result unit RuntimeError) :=
  do* before := call (try_wait pid) in
  match before with
  | Ok (Some _) => Halt (Ok tt)
  | Err error => Halt (Err (EContainerStop (container_id +:+ " status before TERM: " +:+ error)))
  | Ok None =>
    if 2147483647 <? pid then
      Halt (Err (EContainerStop (container_id +:+ " pid conversion: out of range integral type conversion attempted")))
    else
      do* termed := call (kill_term pid) in
      match termed with
      | Err e => Halt (Err (EContainerStop (container_id +:+ " TERM: " +:+ e)))
      | Ok _ =>
        let grace := Z.min grace_period_ms MAX_STOP_GRACE_MS * NANOS_PER_MILLI in
        do* now := call instant_now in
        do* exited := wait_after_term_steps TERM_FUEL container_id pid (Z.min (now + grace) shutdown_deadline) in
        match exited with
        | Err e => Halt (Err e)
        | Ok true => Halt (Ok tt)
        | Ok false => kill_child_steps container_id pid shutdown_deadline
        end
      end
  end.

(** *** Stopping, removing, looking *)

Definition stop_pod_until_steps (id : string) (grace_period_ms shutdown_deadline : Z) : T (result unit RuntimeError) :=
  do* now := call instant_now in
  if shutdown_deadline <=? now then Halt (Err (EContainerStop "shutdown deadline reached"))
  else
    do* taken := take_process id in
    match taken with
    | None => Halt (Err (EContainerNotFound id))
    | Some process =>
      do* res := stop_child_steps id (rp_child process) grace_period_ms shutdown_deadline in
      do* previous := put_process id process in
      if bool_decide (previous = None) then Halt res else Crash "stopped process ownership must be unique"
    end.

Definition stop_pod_steps (id : string) (grace_period_ms : Z) : T (result unit RuntimeError) :=
  do* now := call instant_now in
  stop_pod_until_steps id grace_period_ms
    (now + Z.min grace_period_ms MAX_STOP_GRACE_MS * NANOS_PER_MILLI + POST_KILL_WAIT).

Definition remove_pod_until_steps (id : string) (deadline : Z) : T (result unit RuntimeError) :=
  do* stopped := stop_pod_until_steps id 0 deadline in
  match stopped with
  | Err e => Halt (Err e)
  | Ok _ =>
    do* now := call instant_now in
    if deadline <=? now then Halt (Err (EContainerStop "shutdown deadline reached"))
    else
      do* removed := take_process id in
      if bool_decide (is_Some removed) then Halt (Ok tt) else Crash "stopped process must remain owned until removal"
  end.

Definition remove_pod_steps (id : string) : T (result unit RuntimeError) :=
  do* now := call instant_now in remove_pod_until_steps id (now + POST_KILL_WAIT).

(** [pod_status] polls the child with the map locked. *)
Definition pod_status_steps (id : string) : T (result PodStatus RuntimeError) :=
  Act (λ w,
    match processes (w_runtime w) !! id with
    | None => Some (Err (EContainerNotFound id), w)
    | Some process =>
      let '(status, os) := try_wait (rp_child process) (w_os w) in
      Some (Ok (match status with
                | Ok (Some code) => PStopped (default (-1) code)
                | Ok None => PRunning
                | Err _ => PUnknown
                end), mkRuntimeWorld (w_runtime w) (w_locked w) os)
    end) Halt.

Definition pod_status_until_steps (id : string) (deadline : Z) : T (result PodStatus RuntimeError) :=
  do* now := call instant_now in
  if deadline <=? now then Halt (Err (EContainerNotFound "shutdown deadline reached")) else pod_status_steps id.

Fixpoint await_server_steps (attempts : nat) (port : Z) : T (result unit RuntimeError) :=
  match attempts with
  | O => Halt (Err (EContainerStart "server didn't become ready in 5s"))
  | S attempts =>
    do* sock := call (tcp_connect port None) in
    match sock with
    | Ok _ => Halt (Ok tt)
    | Err _ => do* _ := pause (100 * NANOS_PER_MILLI) in await_server_steps attempts port
    end
  end.

(** [get_port], and what follows it. *)
Definition on_port {X} (id : string) (f : Z → T (result X RuntimeError)) : T (result X RuntimeError) :=
  do* port := look_up_port id in
  match port with None => Halt (Err (EContainerNotFound id)) | Some port => f port end.

Definition start_pod_steps (id : string) : T (result unit RuntimeError) := on_port id (await_server_steps 50).
Definition forward_run_steps (self : ProcessRuntime) (id : string) (payload : bytes) : T (result bytes RuntimeError) :=
  on_port id (λ port, exchange (forward_run_with_deadline port payload (run_deadline self))).
Definition probe_pod_steps (id path : string) : T (result bool RuntimeError) :=
  on_port id (λ port, exchange (map_err EInternal (probe_http port path))).

End steps.

(** ** Alone, the programs are the operations of [Process] *)

Section alone.
  Context {OS : Type} `{!Host OS} `{!System OS}.
  Abbreviation T := (prog (RuntimeWorld OS)).

Lemma alone_call {X A} (f : OS → X * OS) (k : X → T A) r l os :
  alone (then_do (call f) k) (mkRuntimeWorld r l os) = alone (k (f os).1) (mkRuntimeWorld r l (f os).2).
Proof. unfold call. cbn [then_do alone w_os]. by destruct (f os). Qed.

Lemma alone_locked {X A} f (k : X → T A) r l os :
  alone (then_do (with_processes f) k) (mkRuntimeWorld r l os) =
  alone (k (f (processes r)).1) (mkRuntimeWorld (set_processes (f (processes r)).2 r) l os).
Proof. unfold with_processes. cbn [then_do alone w_runtime]. by destruct (f _). Qed.

(** A program over the system only, and one over the runtime. *)
Definition does_sys {A} (t : T A) (m : M OS A) : Prop := ∀ r l os,
  alone t (mkRuntimeWorld r l os) = match m os with Done (a, os') => Done (a, mkRuntimeWorld r l os') | Panic e => Panic e end.
Definition does {A} (r : ProcessRuntime) (os : OS) (t : T A) (m : M (ProcessRuntime * OS) A) : Prop :=
  alone t (mkRuntimeWorld r false os) =
  match m (r, os) with Done (a, (r', os')) => Done (a, mkRuntimeWorld r' false os') | Panic e => Panic e end.

Lemma does_ret {A} (a : A) : does_sys (Halt a) (ret a).
Proof. by intros r l os. Qed.

Lemma does_call {X A} (f : OS → X * OS) (k : X → T A) (m : X → M OS A) :
  (∀ x, does_sys (k x) (m x)) → does_sys (then_do (call f) k) (bind (sys f) m).
Proof. intros Hk r l os. unfold bind, sys. simpl. destruct (f os) as [x os']. apply Hk. Qed.

Lemma does_then {X A} (t : T X) n (k : X → T A) (m : X → M OS A) :
  does_sys t n → (∀ x, does_sys (k x) (m x)) → does_sys (then_do t k) (bind n m).
Proof. intros Ht Hk r l os. rewrite alone_then, Ht. unfold bind. destruct (n os) as [[x os']|]; [apply Hk|done]. Qed.

Lemma does_wait_after_term fuel id pid deadline :
  does_sys (wait_after_term_steps fuel id pid deadline) (wait_after_term fuel id pid deadline).
Proof.
  induction fuel as [|fuel IH]; [done|]. apply does_call. intros [[st|]|e]; [done| |done].
  apply does_call. intros now. destruct (now <? deadline); [|done]. apply does_call. intros now'. by apply does_call.
Qed.

Lemma does_wait_for_child_exit fuel pid deadline :
  does_sys (wait_for_child_exit_steps fuel pid deadline) (wait_for_child_exit_until fuel pid deadline).
Proof.
  induction fuel as [|fuel IH]; [done|]. apply does_call. intros [[st|]|e]; [done| |done].
  apply does_call. intros now. cbv zeta. destruct (_ =? 0); [done|]. by apply does_call.
Qed.

(** The system call behind a [?] with its error mapped. *)
Lemma does_call_err {X A} (g : string → RuntimeError) (f : OS → result X string * OS) (k : X → T (result A RuntimeError)) m :
  (∀ x, does_sys (k x) (m x)) →
  does_sys (then_do (call f) (λ r, match r with Ok x => k x | Err e => Halt (Err (g e)) end))
    (try_bind (map_err g (sys f)) m).
Proof.
  intros Hk r l os. unfold try_bind, map_err, bind, sys. simpl. destruct (f os) as [[x|e] os']; [apply Hk|done].
Qed.

Lemma does_stop_child id pid grace deadline :
  does_sys (stop_child_steps id pid grace deadline) (stop_child id pid grace deadline).
Proof.
  apply does_call. intros [[st|]|e]; [done| |done]. destruct (_ <? pid); [done|].
  apply does_call_err. intros []. cbv zeta. apply does_call. intros now.
  apply does_then; [apply does_wait_after_term|]. intros [[]|e]; [done| |done].
  apply does_call_err. intros []. apply does_call. intros now'.
  apply does_then; [apply does_wait_for_child_exit|]. by intros [[st|]|e].
Qed.

Lemma does_await_server attempts port : does_sys (await_server_steps attempts port) (await_server attempts port).
Proof.
  induction attempts as [|attempts IH]; [done|]. apply does_call. intros [sock|e]; [done|]. by apply does_call.
Qed.

Lemma does_exchange {X} (m : M OS X) : does_sys (exchange m) m.
Proof. intros r l os. simpl. by destruct (m os) as [[x os']|]. Qed.

Lemma does_create_pod r os spec : does r os (create_pod_steps r spec) (proc_create_pod spec).
Proof.
  unfold does, create_pod_steps, proc_create_pod. destruct (0 <? _); [done|].
  unfold bind, rt_get. simpl. case_bool_decide; [done|].
  destruct (checked_add U16_MAX (next_port r) 1) as [next|]; [|done].
  unfold rt_set, try_bind, map_err, bind, on_sys, sys. simpl. by destruct (spawn _ os) as [[child|e] os'].
Qed.

Lemma does_stop_pod_until r os h grace deadline :
  does r os (stop_pod_until_steps (ph_container_id h) grace deadline) (proc_stop_pod_until h grace deadline).
Proof.
  unfold does, stop_pod_until_steps, proc_stop_pod_until, bind, rt_get, rt_set, on_sys, sys, take_process, put_process.
  rewrite alone_call. cbn [fst snd]. destruct (instant_now os) as [now os1]. cbn [fst snd].
  destruct (deadline <=? now); [done|]. rewrite alone_locked. cbn [fst snd].
  destruct (processes r !! _) as [p|] eqn:Hp; cbn [fst snd].
  2:{ rewrite delete_id by done. by destruct r. }
  rewrite alone_then, does_stop_child. destruct (stop_child _ _ _ _ os1) as [[res os2]|]; [|done].
  rewrite alone_locked. cbn [fst snd processes set_processes].
  rewrite lookup_delete_eq, !bool_decide_eq_true_2 by done. done.
Qed.

Lemma does_remove_pod_until r os h deadline :
  does r os (remove_pod_until_steps (ph_container_id h) deadline) (proc_remove_pod_until h deadline).
Proof.
  unfold does, remove_pod_until_steps, proc_remove_pod_until, try_bind, bind at 1. rewrite alone_then, does_stop_pod_until.
  destruct (proc_stop_pod_until h 0 deadline (r, os)) as [[[[]|e] [r1 os1]]|]; [|done..].
  unfold bind, rt_get, rt_set, on_sys, sys, take_process. rewrite alone_call. cbn [fst snd].
  destruct (instant_now os1) as [now os2]. cbn [fst snd]. destruct (deadline <=? now); [done|].
  rewrite alone_locked. cbn [fst snd]. unfold assert. by case_bool_decide.
Qed.

Lemma does_pod_status r os h : does r os (pod_status_steps (ph_container_id h)) (proc_pod_status h).
Proof.
  unfold does, proc_pod_status, bind, rt_get, on_sys, sys. simpl. destruct (processes r !! _) as [p|]; [|done].
  simpl. by destruct (try_wait (rp_child p) os) as [st os'].
Qed.

(** Reading the clock first. *)
Lemma does_at_now {A} r os (t : Z → T A) m :
  (∀ now os', does r os' (t now) (m now)) →
  does r os (then_do (call instant_now) t) (let* now := on_sys (sys instant_now) in m now).
Proof. intros Hk. unfold does, bind, on_sys, sys. simpl. destruct (instant_now os) as [now os']. apply Hk. Qed.

Lemma does_on_port {X} r os h (t : Z → T (result X RuntimeError)) (m : Z → M OS (result X RuntimeError)) k :
  (∀ port, does_sys (t port) (m port)) → (∀ port os', k port (r, os') = on_sys (m port) (r, os')) →
  does r os (on_port (ph_container_id h) t) (try* port := port_of h in k port).
Proof.
  intros Ht Hk. unfold does, on_port, try_bind, port_of, bind, rt_get, get_port. simpl.
  replace (set_processes (processes r) r) with r by by destruct r.
  destruct (processes r !! ph_container_id h) as [p|]; [|done]. simpl. rewrite Ht, Hk. unfold on_sys. simpl.
  by destruct (m (rp_port p) os) as [[]|].
Qed.

End alone.

(** ** Calls *)

Inductive Call :=
| CreatePod (spec : PodSpec)
| StartPod (h : PodHandle)
| ForwardRun (h : PodHandle) (port : Z) (payload : bytes)
| ProbePod (h : PodHandle) (port : Z) (path : string)
| StopPod (h : PodHandle) (grace_period_ms : Z)
| StopPodUntil (h : PodHandle) (grace_period_ms deadline : Z)
| StatusOf (h : PodHandle)
| StatusUntil (h : PodHandle) (deadline : Z)
| RemovePod (h : PodHandle)
| RemovePodUntil (h : PodHandle) (deadline : Z).

Inductive Answer :=
| AHandle (a : result PodHandle RuntimeError)
| AUnit (a : result unit RuntimeError)
| ABytes (a : result bytes RuntimeError)
| AHealthy (a : result bool RuntimeError)
| AStatus (a : result PodStatus RuntimeError).

Section calls.
  Context {OS : Type} `{!Host OS} `{!System OS}.
  Abbreviation T := (prog (RuntimeWorld OS)).

(** The operation of [Process] a call runs. *)
Definition operation (c : Call) : M (ProcessRuntime * OS) Answer :=
  match c with
  | CreatePod spec => let* a := proc_create_pod spec in ret (AHandle a)
  | StartPod h => let* a := proc_start_pod h in ret (AUnit a)
  | ForwardRun h port payload => let* a := proc_forward_run h port payload in ret (ABytes a)
  | ProbePod h port path => let* a := proc_probe_pod h port path in ret (AHealthy a)
  | StopPod h grace => let* a := proc_stop_pod h grace in ret (AUnit a)
  | StopPodUntil h grace deadline => let* a := proc_stop_pod_until h grace deadline in ret (AUnit a)
  | StatusOf h => let* a := proc_pod_status h in ret (AStatus a)
  | StatusUntil h deadline => let* a := proc_pod_status_until h deadline in ret (AStatus a)
  | RemovePod h => let* a := proc_remove_pod h in ret (AUnit a)
  | RemovePodUntil h deadline => let* a := proc_remove_pod_until h deadline in ret (AUnit a)
  end.

(** The program of the thread that makes it. *)
Definition steps_of (self : ProcessRuntime) (c : Call) : T Answer :=
  match c with
  | CreatePod spec => do* a := create_pod_steps self spec in Halt (AHandle a)
  | StartPod h => do* a := start_pod_steps (ph_container_id h) in Halt (AUnit a)
  | ForwardRun h _ payload => do* a := forward_run_steps self (ph_container_id h) payload in Halt (ABytes a)
  | ProbePod h _ path => do* a := probe_pod_steps (ph_container_id h) path in Halt (AHealthy a)
  | StopPod h grace => do* a := stop_pod_steps (ph_container_id h) grace in Halt (AUnit a)
  | StopPodUntil h grace deadline =>
    do* a := stop_pod_until_steps (ph_container_id h) grace deadline in Halt (AUnit a)
  | StatusOf h => do* a := pod_status_steps (ph_container_id h) in Halt (AStatus a)
  | StatusUntil h deadline => do* a := pod_status_until_steps (ph_container_id h) deadline in Halt (AStatus a)
  | RemovePod h => do* a := remove_pod_steps (ph_container_id h) in Halt (AUnit a)
  | RemovePodUntil h deadline => do* a := remove_pod_until_steps (ph_container_id h) deadline in Halt (AUnit a)
  end.

Lemma does_answer {A B} (g : A → B) r os (t : T A) m :
  does r os t m → does r os (do* a := t in Halt (g a)) (let* a := m in ret (g a)).
Proof. unfold does, bind, ret. intros H. rewrite alone_then, H. by destruct (m (r, os)) as [[a []]|]. Qed.

(** A call that is alone runs the operation of [Process]. *)
Lemma steps_alone r os (c : Call) : does r os (steps_of r c) (operation c).
Proof.
  destruct c; cbn [steps_of operation]; apply does_answer.
  - apply does_create_pod.
  - apply (does_on_port _ _ _ _ (await_server 50)); [apply does_await_server|done].
  - by apply (does_on_port _ _ _ _ (λ p, forward_run_with_deadline p payload (run_deadline r))); [intros p; apply does_exchange|].
  - apply (does_on_port _ _ _ _ (λ p, map_err EInternal (probe_http p path))); [intros p; apply does_exchange|].
    intros p os'. unfold map_err, bind, on_sys. simpl. by destruct (probe_http p path os') as [[]|].
  - apply does_at_now. intros now os'. apply does_stop_pod_until.
  - apply does_stop_pod_until.
  - apply does_pod_status.
  - apply does_at_now. intros now os'. destruct (deadline <=? now); [done|]. apply does_pod_status.
  - apply does_at_now. intros now os'. apply does_remove_pod_until.
  - apply does_remove_pod_until.
Qed.

End calls.
