(* ===== verification/ProcessReturn.v ===== *)
(** * Every call of the process runtime returns

    The threads of [ProcessSteps] under an arbitrary scheduler.  Each program follows a
    thread of [ProcessThreads] (a step of the program is a step of the thread or none at
    all), so the ownership argument made there covers the real calls; what is added is time:
    the polls of a stop end because the clock passes the deadline, whatever the other
    threads do between them. *)

From S2P Require Import Prelude Types RustStr Protocol Traits System Http Process ProcessThreads ProcessSteps.

(** The calls that start a child or use a socket do not turn the monotonic clock back
    ([SystemLaws] says so of the others). *)
Class ClockLaws (OS : Type) `{!Host OS} `{!System OS} `{!SystemLaws OS} : Prop := {
  spawn_clock cmd os : clock os ≤ clock (spawn cmd os).2;
  tcp_connect_clock port timeout os : clock os ≤ clock (tcp_connect port timeout os).2;
  set_timeout_clock sock d os : clock os ≤ clock (set_timeout sock d os).2;
  tcp_write_all_clock sock b os : clock os ≤ clock (tcp_write_all sock b os).2;
  tcp_read_clock sock n os : clock os ≤ clock (tcp_read sock n os).2;
  http_post_clock url d c b os : clock os ≤ clock (http_post url d c b os).2
}.

Section follows.
  Context {OS : Type} `{!Host OS} `{!System OS} `{LAWS : !SystemLaws OS} `{CLOCK : !ClockLaws OS}.
  Abbreviation T := (prog (RuntimeWorld OS)).

Definition shared (w : RuntimeWorld OS) : Shared :=
  mkShared (processes (w_runtime w)) (next_port (w_runtime w)) (w_locked w).

(** The program [t] goes on as a thread in state [a], from [now] on; where it halts, [Q]
    holds.  It is blocked only by a port lock that another thread holds. *)
Fixpoint follows {A} (t : T A) (Q : A → ProcThread → Z → Prop) (a : ProcThread) (now : Z) : Prop :=
  match t with
  | Halt x => Q x a now
  | Crash msg => a = AssertFailed msg
  | Act f k => ∀ w, now ≤ clock (w_os w) → thread_wf (shared w) a →
    match f w with
    | None => w_locked w = true ∧ is_holding a = false
    | Some (x, w') => clock (w_os w) ≤ clock (w_os w') ∧
        ∃ a', (shared w' = shared w ∧ a' = a ∨ thread_moves (shared w) a (shared w') a') ∧
              follows (k x) Q a' (clock (w_os w'))
    end
  end.

Lemma follows_then {A B} (t : T A) (f : A → T B) Q a now :
  follows t (λ x a now, follows (f x) Q a now) a now → follows (then_do t f) Q a now.
Proof.
  revert a now. induction t as [x|msg|X g k IH]; intros a now; simpl; [done..|].
  intros H w Hw Ha. specialize (H w Hw Ha). destruct (g w) as [[x w']|]; [|done].
  destruct H as (Hc & a' & Hm & Hk). split; [done|]. exists a'. split; [done|]. by apply IH.
Qed.

(** Time may pass in between. *)
Lemma follows_later {A} (t : T A) (Q : A → ProcThread → Z → Prop) a now now' :
  (∀ x, Q x a now → Q x a now') → now ≤ now' → follows t Q a now → follows t Q a now'.
Proof.
  intros HQ Hle. destruct t as [x|msg|X g k]; simpl; [apply HQ|done|].
  intros H w Hw. apply H. lia.
Qed.

(** A system call, after which the thread may have moved without touching the runtime. *)
Lemma follows_call {X A} (f : OS → X * OS) (k : X → T A) Q a now :
  (∀ os, now ≤ clock os → clock os ≤ clock (f os).2 ∧
     ∃ a', (a' = a ∨ ∀ sh, thread_moves sh a sh a') ∧ follows (k (f os).1) Q a' (clock (f os).2)) →
  follows (then_do (call f) k) Q a now.
Proof.
  intros H w Hw _. specialize (H (w_os w) Hw). cbn [w_os]. destruct (f (w_os w)) as [x os'].
  destruct H as (Hc & a' & Hm & Hk). split; [done|]. exists a'. split; [|done].
  destruct Hm as [->|Hm]; [by left|]. right. apply Hm.
Qed.

(** The usual case: the thread stays where it is. *)
Lemma follows_stay {X A} (f : OS → X * OS) (k : X → T A) Q a now :
  (∀ os, clock os ≤ clock (f os).2) →
  (∀ os, now ≤ clock os → follows (k (f os).1) Q a (clock (f os).2)) →
  follows (then_do (call f) k) Q a now.
Proof. intros Hc H. apply follows_call. intros os Hos. split; [apply Hc|]. exists a. split; [by left|by apply H]. Qed.

(** A locked region over the process map. *)
Lemma follows_locked {X A} f (k : X → T A) Q a now :
  (∀ m n l now', now ≤ now' → thread_wf (mkShared m n l) a →
     ∃ a', thread_moves (mkShared m n l) a (mkShared (f m).2 n l) a' ∧ follows (k (f m).1) Q a' now') →
  follows (then_do (with_processes f) k) Q a now.
Proof.
  intros H [r l os] Hw Ha. cbn [w_runtime w_locked w_os] in *.
  destruct (H (processes r) (next_port r) l (clock os) Hw Ha) as (a' & Hm & Hk).
  destruct (f (processes r)) as [x m']. cbn [w_os]. split; [lia|]. exists a'. split; [by right|done].
Qed.

Lemma now_forward os : clock os ≤ clock (instant_now os).2.
Proof. apply later_clock, instant_now_adv. Qed.
Lemma wait_forward pid os : clock os ≤ clock (try_wait pid os).2.
Proof. apply later_clock, try_wait_adv. Qed.
Lemma sleep_forward d os : clock os ≤ clock (thread_sleep d os).
Proof. apply later_clock, sleep_adv. Qed.

(** ** Waiting for a child *)

(** Whatever the answer, the thread is where it was and time has not gone back. *)
Abbreviation any_answer Q a now := (∀ r now', now ≤ now' → Q r a now').

Lemma follows_wait_after_term fuel n id pid deadline Q a now :
  deadline - now ≤ Z.of_nat n * TERM_POLL_INTERVAL → (n < fuel)%nat → any_answer Q a now →
  follows (wait_after_term_steps fuel id pid deadline) Q a now.
Proof.
  revert n now. induction fuel as [|fuel IH]; intros n now Hr Hf HQ; [lia|]. cbn [wait_after_term_steps].
  apply follows_stay; [apply wait_forward|]. intros os H0. pose proof (wait_forward pid os).
  destruct (try_wait pid os) as [[[st|]|e] os1]; cbn [fst snd] in *; [apply HQ; lia| |apply HQ; lia].
  apply follows_stay; [apply now_forward|]. intros os2 H2. pose proof (instant_now_law os2) as T2.
  destruct (instant_now os2) as [now2 os3]. cbn [fst snd] in *.
  destruct (Z.ltb_spec now2 deadline); [|apply HQ; lia].
  apply follows_stay; [apply now_forward|]. intros os4 H4. pose proof (instant_now_law os4) as T4.
  destruct (instant_now os4) as [now4 os5]. cbn [fst snd] in *.
  apply follows_stay; [apply sleep_forward|]. intros os6 H6. cbn [fst snd].
  pose proof (sleep_law (Z.min TERM_POLL_INTERVAL (saturating_duration_since deadline now4)) os6) as T6.
  unfold TERM_POLL_INTERVAL, NANOS_PER_MILLI, saturating_duration_since in *.
  apply (IH (n - 1)%nat); [|lia|intros r now' ?; apply HQ; lia].
  destruct n as [|n]; [lia|]. replace (S n - 1)%nat with n by lia. lia.
Qed.

Lemma follows_wait_for_child_exit fuel n pid deadline Q a now :
  deadline - now ≤ Z.of_nat n * POLL_INTERVAL → (n < fuel)%nat → any_answer Q a now →
  follows (wait_for_child_exit_steps fuel pid deadline) Q a now.
Proof.
  revert n now. induction fuel as [|fuel IH]; intros n now Hr Hf HQ; [lia|]. cbn [wait_for_child_exit_steps].
  apply follows_stay; [apply wait_forward|]. intros os H0. pose proof (wait_forward pid os).
  destruct (try_wait pid os) as [[[st|]|e] os1]; cbn [fst snd] in *; [apply HQ; lia| |apply HQ; lia].
  apply follows_stay; [apply now_forward|]. intros os2 H2. pose proof (instant_now_law os2) as T2.
  destruct (instant_now os2) as [now2 os3]. cbn [fst snd] in *. cbv zeta.
  destruct (Z.eqb_spec (saturating_duration_since deadline now2) 0); [apply HQ; lia|].
  apply follows_stay; [apply sleep_forward|]. intros os6 H6. cbn [fst snd].
  pose proof (sleep_law (Z.min POLL_INTERVAL (saturating_duration_since deadline now2)) os6) as T6.
  unfold POLL_INTERVAL, NANOS_PER_MILLI, saturating_duration_since in *.
  apply (IH (n - 1)%nat); [|lia|intros r now' ?; apply HQ; lia].
  destruct n as [|n]; [lia|]. replace (S n - 1)%nat with n by lia. lia.
Qed.

Lemma follows_kill_child id pid deadline Q a now :
  any_answer Q a now → follows (kill_child_steps id pid deadline) Q a now.
Proof.
  intros HQ. apply follows_stay; [intros os; apply later_clock, child_kill_adv|]. intros os H0.
  pose proof (later_clock _ _ (child_kill_adv pid os)).
  destruct (child_kill pid os) as [[[]|e] os1]; cbn [fst snd] in *; [|apply HQ; lia].
  apply follows_stay; [apply now_forward|]. intros os2 H2. pose proof (instant_now_law os2) as T2.
  destruct (instant_now os2) as [now2 os3]. cbn [fst snd] in *. apply follows_then.
  apply (follows_wait_for_child_exit _ 200).
  - unfold POST_KILL_WAIT, POLL_INTERVAL, from_secs, NANOS_PER_SEC, NANOS_PER_MILLI. lia.
  - unfold KILL_FUEL. lia.
  - intros r now' Hn. apply HQ. lia.
Qed.

Lemma follows_stop_child id pid grace deadline Q a now :
  any_answer Q a now → follows (stop_child_steps id pid grace deadline) Q a now.
Proof.
  intros HQ. apply follows_stay; [apply wait_forward|]. intros os H0. pose proof (wait_forward pid os).
  destruct (try_wait pid os) as [[[st|]|e] os1]; cbn [fst snd] in *; [apply HQ; lia| |apply HQ; lia].
  destruct (_ <? pid); [apply HQ; lia|].
  apply follows_stay; [intros os'; apply later_clock, kill_term_adv|]. intros os2 H2.
  pose proof (later_clock _ _ (kill_term_adv pid os2)).
  destruct (kill_term pid os2) as [[[]|e] os3]; cbn [fst snd] in *; [|apply HQ; lia]. cbv zeta.
  apply follows_stay; [apply now_forward|]. intros os4 H4. pose proof (instant_now_law os4) as T4.
  destruct (instant_now os4) as [now4 os5]. cbn [fst snd] in *. apply follows_then.
  apply (follows_wait_after_term _ 3000).
  - unfold MAX_STOP_GRACE_MS, TERM_POLL_INTERVAL, NANOS_PER_MILLI. lia.
  - unfold TERM_FUEL. lia.
  - intros [[]|e] now' Hn; [apply HQ; lia| |apply HQ; lia]. apply follows_kill_child. intros r n Hle. apply HQ. lia.
Qed.

(** ** Stopping and removing *)

Abbreviation stopping removing id := (if removing : bool then OpRemovePod id else OpStopPod id).

(** After a stop: still to be removed, or done. *)
Definition after_stop (removing : bool) (id : string) (res : result unit RuntimeError) : ProcThread :=
  if removing && match res with Ok _ => true | Err _ => false end then Reclaiming id else Returned.

Lemma follows_stop_pod_until removing id grace deadline Q now :
  (∀ res now', now ≤ now' → Q res (after_stop removing id res) now') →
  follows (stop_pod_until_steps id grace deadline) Q (Calling (stopping removing id)) now.
Proof.
  intros HQ. assert (Herr : ∀ e now', now ≤ now' → Q (Err e) Returned now').
  { intros e now' Hn. specialize (HQ (Err e) now' Hn). unfold after_stop in HQ. by rewrite andb_false_r in HQ. }
  apply follows_call. intros os H0. split; [apply now_forward|]. pose proof (now_forward os).
  destruct (instant_now os) as [now1 os1]. cbn [fst snd] in *. destruct (deadline <=? now1).
  { exists Returned. split; [right|apply Herr; lia]. intros []. by apply (mv_late _ _ _ _ id removing). }
  eexists. split; [by left|]. apply follows_locked. intros m n l now2 H2 _. cbn [fst snd].
  destruct (m !! id) as [p|] eqn:Hp.
  2:{ exists Returned. split; [|apply Herr; lia]. rewrite delete_id by done. by apply (mv_unknown _ _ _ _ id removing). }
  exists (Waiting removing id p). split; [by apply mv_take|]. apply follows_then, follows_stop_child.
  intros res now3 H3. apply follows_locked. intros m4 n4 l4 now4 H4 [Hnone _]. cbn [fst snd sh_processes] in *.
  rewrite Hnone. exists (after_stop removing id res). split; [by apply mv_put_back|].
  rewrite bool_decide_eq_true_2 by done. apply HQ. lia.
Qed.

Lemma follows_remove_pod_until id deadline now :
  follows (remove_pod_until_steps id deadline) (λ _ a _, a = Returned) (Calling (OpRemovePod id)) now.
Proof.
  apply follows_then, (follows_stop_pod_until true). intros [[]|e] now1 H1; [|done].
  apply follows_call. intros os H0. split; [apply now_forward|]. destruct (instant_now os) as [now2 os2]. cbn [fst snd].
  destruct (deadline <=? now2); [exists Returned; split; [right|done]; intros []; constructor|].
  eexists. split; [by left|]. apply follows_locked. intros m n l now3 H3 [p Hp]. cbn [fst snd sh_processes] in *.
  rewrite Hp, bool_decide_eq_true_2 by done. exists Returned. split; [by eapply mv_remove|done].
Qed.

(** ** Creating *)

Lemma follows_create_pod self spec now :
  follows (create_pod_steps self spec) (λ _ a _, a = Returned)
    (if 0 <? ps_gpu_count spec then Returned else Calling (OpCreatePod (ps_pod_id spec))) now.
Proof.
  unfold create_pod_steps. destruct (0 <? _); [done|]. intros [r [] os] Hw _; [done|].
  cbn [w_runtime w_locked w_os] in *. cbv zeta.
  case_bool_decide; [split; [done|]; exists Returned; split; [right; constructor|done]|]. unfold checked_add.
  destruct (Z.leb_spec (next_port r + 1) U16_MAX) as [Hle|];
    [|split; [done|]; exists Returned; split; [right; constructor|done]].
  cbn [w_os]. split; [lia|]. exists (HoldingPort (ps_pod_id spec) (next_port r)). split; [right; by constructor|].
  apply follows_stay; [apply spawn_clock|]. intros os1 H1.
  destruct (spawn _ os1) as [[child|e] os2]; cbn [fst snd]; intros [r3 l3 os3] H3 [Hl _];
    cbn [shared sh_port_locked w_locked] in Hl; subst l3; cbn [w_os]; (split; [lia|]); exists Returned;
    (split; [right; constructor|done]).
Qed.

(** ** Looking and talking *)

Lemma follows_pod_status id now :
  follows (pod_status_steps id) (λ _ a _, a = Returned) (Calling (OpPodStatus id)) now.
Proof.
  intros [r l os] Hw _. cbn [w_runtime w_locked w_os] in *.
  destruct (processes r !! id) as [p|]; [|split; [done|]; exists Returned; split; [right; constructor|done]].
  pose proof (wait_forward (rp_child p) os). destruct (try_wait (rp_child p) os) as [st os1]. cbn [w_os snd] in *.
  split; [done|]. exists Returned. split; [right; constructor|done].
Qed.

Lemma follows_pod_status_until id deadline now :
  follows (pod_status_until_steps id deadline) (λ _ a _, a = Returned) (Calling (OpPodStatus id)) now.
Proof.
  apply follows_call. intros os H0. split; [apply now_forward|]. destruct (instant_now os) as [now1 os1]. cbn [fst snd].
  destruct (deadline <=? now1); [exists Returned; split; [right|done]; intros []; constructor|].
  eexists. split; [by left|]. apply follows_pod_status.
Qed.

Lemma follows_await_server attempts port now :
  follows (await_server_steps attempts port) (λ _ a _, a = Returned) Returned now.
Proof.
  revert now. induction attempts as [|attempts IH]; intros now; [done|].
  apply follows_stay; [apply tcp_connect_clock|]. intros os H0. destruct (tcp_connect port None os) as [[sock|e] os1]; [done|].
  apply follows_stay; [apply sleep_forward|]. intros os2 H2. apply IH.
Qed.

Lemma follows_on_port {X} id (f : Z → T (result X RuntimeError)) now :
  (∀ port now', follows (f port) (λ _ a _, a = Returned) Returned now') →
  follows (on_port id f) (λ _ a _, a = Returned) (Calling (OpReadPort id)) now.
Proof.
  intros Hf. apply follows_locked. intros m n l now1 H1 _. exists Returned. split; [constructor|].
  cbn [fst snd]. destruct (m !! id); [apply Hf|done].
Qed.

(** The code of an exchange answers, and the clock does not go back. *)
Abbreviation answers m := (∀ os, wp no_panic m (λ _ os', clock os ≤ clock os') os).

Lemma follows_exchange {X} (m : M OS X) now :
  answers m → follows (exchange m) (λ _ a _, a = Returned) Returned now.
Proof.
  intros Hm. unfold exchange. apply follows_stay; intros os; specialize (Hm os); unfold wp in Hm;
    destruct (m os) as [[x os']|]; done.
Qed.

Lemma answers_try {A B F} (g : string → F) (f : OS → result A string * OS) (k : A → M OS (result B F)) :
  (∀ os, clock os ≤ clock (f os).2) → (∀ a, answers (k a)) → answers (try_bind (map_err g (sys f)) k).
Proof.
  intros Hf Hk os. apply wp_try_bind, wp_map_err, wp_sys. specialize (Hf os).
  destruct (f os) as [[a|e] os']; cbn [fst snd result_map_err] in *; [|done].
  eapply wp_mono; [apply Hk|]. cbn. lia.
Qed.

Lemma answers_remaining {B} started (k : Z → M OS (result B string)) :
  (∀ a, answers (k a)) → answers (try_bind (probe_time_remaining started) k).
Proof.
  intros Hk os. apply wp_try_bind. unfold probe_time_remaining. wp_step. apply wp_sys. apply wp_ret.
  pose proof (now_forward os). destruct (_ <? _); [|done]. eapply wp_mono; [apply Hk|]. cbn. lia.
Qed.

Lemma answers_read_status_line fuel sock started got :
  (length got ≤ HTTP_STATUS_LINE_MAX + 1)%nat → (HTTP_STATUS_LINE_MAX + 1 - length got < fuel)%nat →
  answers (read_status_line fuel sock started got).
Proof.
  revert got. induction fuel as [|fuel IH]; intros got Hg Hf; [lia|]. cbn [read_status_line].
  destruct (Nat.eqb_spec (length got) (HTTP_STATUS_LINE_MAX + 1)); [intros os; apply wp_ret; lia|].
  apply answers_remaining. intros remaining. apply answers_try; [apply set_timeout_clock|]. intros _ os.
  apply wp_try_bind, wp_map_err, wp_sys.
  pose proof (tcp_read_law sock (HTTP_STATUS_LINE_MAX + 1 - length got) os) as Hread.
  pose proof (tcp_read_clock sock (HTTP_STATUS_LINE_MAX + 1 - length got) os) as Hclock.
  destruct (tcp_read sock (HTTP_STATUS_LINE_MAX + 1 - length got) os) as [[b|e] os']; [|done].
  cbn [fst snd result_map_err] in *. specialize (Hread b eq_refl).
  destruct b as [|c b]; [done|]. cbv zeta. cbn [length] in Hread.
  destruct (position _ _); [destruct (_ <? _)%nat; done|].
  eapply wp_mono; [apply IH; rewrite length_app; cbn [length]; lia|]. cbn. lia.
Qed.

Lemma answers_probe port path : answers (map_err EInternal (probe_http port path)).
Proof.
  intros os. apply wp_map_err. revert os. intros os. unfold probe_http. apply wp_try_bind, wp_ret.
  destruct (validate_probe_path path); [|done]. wp_step. apply wp_sys. pose proof (now_forward os).
  eapply wp_mono; [|intros r os'; cbn; intros H'; exact (Z.le_trans _ _ _ H H')]. revert os H. intros os _.
  generalize (instant_now os).2 as os1. intros os1. revert os1.
  apply answers_try; [apply tcp_connect_clock|]. intros sock. apply answers_remaining. intros remaining.
  apply answers_try; [apply set_timeout_clock|]. intros _. apply answers_try; [apply tcp_write_all_clock|]. intros _.
  apply answers_read_status_line; simpl; lia.
Qed.

Lemma answers_forward port payload deadline :
  deadline ≠ 0 → answers (forward_run_with_deadline port payload deadline).
Proof.
  intros Hd os. unfold forward_run_with_deadline. wp_step. apply wp_assert; [by rewrite (proj2 (Z.eqb_neq _ _) Hd)|].
  wp_step. apply wp_sys. apply wp_ret. apply http_post_clock.
Qed.

End follows.

(** ** The threads of the runtime *)

(** The thread a call is, to begin with. *)
Definition thread_of (c : Call) : ProcThread :=
  match c with
  | CreatePod spec => if 0 <? ps_gpu_count spec then Returned else Calling (OpCreatePod (ps_pod_id spec))
  | StartPod h | ForwardRun h _ _ | ProbePod h _ _ => Calling (OpReadPort (ph_container_id h))
  | StopPod h _ | StopPodUntil h _ _ => Calling (OpStopPod (ph_container_id h))
  | StatusOf h | StatusUntil h _ => Calling (OpPodStatus (ph_container_id h))
  | RemovePod h | RemovePodUntil h _ => Calling (OpRemovePod (ph_container_id h))
  end.

(** The handle a call stops or removes. *)
Definition stops (c : Call) : option string :=
  match c with
  | StopPod h _ | StopPodUntil h _ _ | RemovePod h | RemovePodUntil h _ => Some (ph_container_id h)
  | _ => None
  end.

(** A runtime and the calls its callers make at the same time: the processes are named
    after their ports, each below the next one; no handle is stopped twice at once. *)
Record calls_ok (r : ProcessRuntime) (calls : list Call) : Prop := {
  rd_next : 0 ≤ next_port r;
  rd_processes : ∀ id p, processes r !! id = Some p →
    0 ≤ rp_port p < next_port r ∧ ∃ pod, 0 ≤ pod ∧ id = proc_container_id pod (rp_port p);
  rd_deadline : run_deadline r ≠ 0;
  rd_pods : ∀ i spec, calls !! i = Some (CreatePod spec) → 0 ≤ ps_pod_id spec;
  rd_handles : ∀ i j c d id, calls !! i = Some c → calls !! j = Some d →
    stops c = Some id → stops d = Some id → i = j
}.

Section threads.
  Context {OS : Type} `{!Host OS} `{!System OS} `{LAWS : !SystemLaws OS} `{CLOCK : !ClockLaws OS}.
  Abbreviation T := (prog (RuntimeWorld OS)).
  Abbreviation done_with := (λ (_ : Answer) (a : ProcThread) (_ : Z), a = Returned).

Lemma follows_answer {A} (g : A → Answer) (t : T A) a now :
  follows t (λ _ a _, a = Returned) a now → follows (do* x := t in Halt (g x)) done_with a now.
Proof. intros H. apply follows_then. exact H. Qed.

(** Every call follows its thread. *)
Lemma steps_follow self (c : Call) now :
  run_deadline self ≠ 0 → follows (steps_of self c) done_with (thread_of c) now.
Proof.
  intros Hd. destruct c; cbn [steps_of thread_of]; apply follows_answer.
  - apply follows_create_pod.
  - apply follows_on_port. intros p now'. apply follows_await_server.
  - apply follows_on_port. intros p now'. by apply follows_exchange, answers_forward.
  - apply follows_on_port. intros p now'. apply follows_exchange, answers_probe.
  - apply follows_stay; [apply now_forward|]. intros os _. by apply (follows_stop_pod_until false).
  - by apply (follows_stop_pod_until false).
  - apply follows_pod_status.
  - apply follows_pod_status_until.
  - apply follows_stay; [apply now_forward|]. intros os _. apply follows_remove_pod_until.
  - apply follows_remove_pod_until.
Qed.

(** *** Each call has finitely many steps *)

Lemma within_call {X A} (f : OS → X * OS) (k : X → T A) n :
  (∀ x, ends_within (k x) n) → ends_within (then_do (call f) k) (S n).
Proof. intros Hk x. apply Hk. Qed.

Lemma within_locked {X A} f (k : X → T A) n :
  (∀ x, ends_within (k x) n) → ends_within (then_do (with_processes f) k) (S n).
Proof. intros Hk x. apply Hk. Qed.

Lemma within_wait_after_term fuel id pid deadline :
  ends_within (wait_after_term_steps fuel id pid deadline : T _) (4 * fuel).
Proof.
  induction fuel as [|fuel IH]; [done|]. replace (4 * S fuel)%nat with (S (S (S (S (4 * fuel))))) by lia.
  apply within_call. intros [[st|]|e]; [done| |done]. apply within_call. intros now.
  destruct (now <? deadline); [|done]. apply within_call. intros now'. by apply within_call.
Qed.

Lemma within_wait_for_child_exit fuel pid deadline :
  ends_within (wait_for_child_exit_steps fuel pid deadline : T _) (3 * fuel).
Proof.
  induction fuel as [|fuel IH]; [done|]. replace (3 * S fuel)%nat with (S (S (S (3 * fuel)))) by lia.
  apply within_call. intros [[st|]|e]; [done| |done]. apply within_call. intros now. cbv zeta.
  destruct (_ =? 0); [done|]. by apply within_call.
Qed.

Definition STOP_STEPS : nat := S (S (S (4 * TERM_FUEL + S (S (3 * KILL_FUEL + 0))))).

Lemma within_stop_child id pid grace deadline : ends_within (stop_child_steps id pid grace deadline : T _) STOP_STEPS.
Proof.
  apply within_call. intros [[st|]|e]; [done| |done]. destruct (_ <? pid); [done|].
  apply within_call. intros [[]|e]; [|done]. cbv zeta. apply within_call. intros now.
  apply within_then; [apply within_wait_after_term|]. intros [[]|e]; [done| |done].
  apply within_call. intros [[]|e]; [|done]. apply within_call. intros now'.
  apply within_then; [apply within_wait_for_child_exit|done].
Qed.

Lemma within_stop_pod_until id grace deadline :
  ends_within (stop_pod_until_steps id grace deadline : T _) (S (S (STOP_STEPS + 1))).
Proof.
  apply within_call. intros now. destruct (deadline <=? now); [done|]. apply within_locked. intros [p|]; [|done].
  apply within_then; [apply within_stop_child|]. intros res. apply within_locked. intros x. by destruct (bool_decide _).
Qed.

Lemma within_remove_pod_until id deadline :
  ends_within (remove_pod_until_steps id deadline : T _) (S (S (STOP_STEPS + 1)) + 2).
Proof.
  apply within_then; [apply within_stop_pod_until|]. intros [[]|e]; [|done]. apply within_call. intros now.
  destruct (deadline <=? now); [done|]. apply within_locked. intros x. by destruct (bool_decide _).
Qed.

Lemma within_await_server attempts port : ends_within (await_server_steps attempts port : T _) (2 * attempts).
Proof.
  induction attempts as [|attempts IH]; [done|]. replace (2 * S attempts)%nat with (S (S (2 * attempts))) by lia.
  apply within_call. intros [sock|e]; [done|]. by apply within_call.
Qed.

Lemma within_on_port {X} id (f : Z → T (result X RuntimeError)) n :
  (∀ port, ends_within (f port) n) → ends_within (on_port id f) (S n).
Proof. intros Hf [port|]; [apply Hf|done]. Qed.

Definition CALL_STEPS : nat := STOP_STEPS + 200.

Lemma within_answer {A} (g : A → Answer) (t : T A) n :
  (n ≤ CALL_STEPS)%nat → ends_within t n → ends_within (do* x := t in Halt (g x)) CALL_STEPS.
Proof.
  intros Hn Ht. apply (within_le _ (n + 0)); [lia|]. by apply within_then.
Qed.

Lemma steps_within self (c : Call) : ends_within (steps_of self c : T _) CALL_STEPS.
Proof.
  destruct c; cbn [steps_of].
  - apply (within_answer _ _ 3); [unfold CALL_STEPS; lia|]. unfold create_pod_steps. destruct (0 <? _); [done|].
    intros [port|e]; [|done]. by intros [child|e].
  - apply (within_answer _ _ (S (2 * 50))); [unfold CALL_STEPS; lia|]. apply within_on_port. intros p. apply within_await_server.
  - apply (within_answer _ _ 2); [unfold CALL_STEPS; lia|]. apply within_on_port. intros p. by intros [].
  - apply (within_answer _ _ 2); [unfold CALL_STEPS; lia|]. apply within_on_port. intros p. by intros [].
  - eapply within_answer; [|apply within_call; intros now; apply within_stop_pod_until]. unfold CALL_STEPS; lia.
  - eapply within_answer; [|apply within_stop_pod_until]. unfold CALL_STEPS; lia.
  - by apply (within_answer _ _ 1); [unfold CALL_STEPS; lia|].
  - apply (within_answer _ _ 2); [unfold CALL_STEPS; lia|]. apply within_call. intros now. by destruct (deadline <=? now).
  - eapply within_answer; [|apply within_call; intros now; apply within_remove_pod_until]. unfold CALL_STEPS; lia.
  - eapply within_answer; [|apply within_remove_pod_until]. unfold CALL_STEPS; lia.
Qed.

(** *** Threads together *)

Abbreviation Conf := (RuntimeWorld OS * list (T Answer))%type.

(** The programs follow threads that own what they should. *)
Definition tracks (c : Conf) (ths : list ProcThread) : Prop :=
  Forall2 (λ t a, follows t done_with a (clock (w_os c.1))) c.2 ths ∧
  conf_wf (shared c.1, ths) ∧ lock_held (shared c.1, ths).

Lemma tracks_step c c' ths : tracks c ths → threads_step c c' → ∃ ths', tracks c' ths'.
Proof.
  intros (Hf & Hc & Hl) Hs. destruct Hs as [i w ts X f k x w' Hi Hx]. cbn [fst snd] in *.
  destruct (Forall2_lookup_l _ _ _ _ _ Hf Hi) as (a & Ha & Ht).
  specialize (Ht w (Z.le_refl _) (cf_threads _ Hc i a Ha)). rewrite Hx in Ht.
  destruct Ht as (Hclock & a' & Hm & Hk).
  assert (Hf' : Forall2 (λ t a, follows t done_with a (clock (w_os w'))) (<[i:=k x]> ts) (<[i:=a']> ths)).
  { apply Forall2_insert; [|done]. eapply Forall2_impl; [exact Hf|]. intros t b. by apply follows_later. }
  exists (<[i:=a']> ths). split; [exact Hf'|]. cbn [fst].
  destruct Hm as [[-> ->]|Hm]; [by rewrite list_insert_id|].
  assert (Hs : threads_move (shared w, ths) (shared w', <[i:=a']> ths)) by by econstructor.
  split; [by eapply threads_move_wf|by eapply threads_move_lock].
Qed.

Lemma tracks_steps c c' ths : tracks c ths → rtc threads_step c c' → ∃ ths', tracks c' ths'.
Proof.
  intros Ht Hs. revert ths Ht. induction Hs as [|c1 c2 c3 Hstep _ IH]; intros ths Ht; [by exists ths|].
  destruct (tracks_step _ _ _ Ht Hstep) as [ths' Ht']. by eapply IH.
Qed.

Lemma tracks_no_crash c ths i msg : tracks c ths → c.2 !! i ≠ Some (Crash msg).
Proof.
  intros (Hf & Hc & _) Hi. destruct (Forall2_lookup_l _ _ _ _ _ Hf Hi) as (a & Ha & Ht). simpl in Ht. subst a.
  exact (cf_threads _ Hc i _ Ha).
Qed.

(** A thread that has not returned can go on, or waits for one that can. *)
Lemma tracks_progress c ths i t : tracks c ths → c.2 !! i = Some t → ¬ returned t → red threads_step c.
Proof.
  intros Htr. revert i t.
  assert (Hgo : ∀ i t a, c.2 !! i = Some t → ths !! i = Some a → ¬ returned t →
    red threads_step c ∨ w_locked c.1 = true ∧ is_holding a = false).
  { intros i t a Hi Ha Hr. destruct t as [x|msg|X f k]; [by destruct Hr; exists x|by eapply tracks_no_crash in Hi|].
    destruct Htr as (Hf & Hc & Hl). pose proof (Forall2_lookup_lr _ _ _ _ _ _ Hf Hi Ha) as Ht.
    specialize (Ht c.1 (Z.le_refl _) (cf_threads _ Hc i a Ha)). destruct (f c.1) as [[x w']|] eqn:Ef; [|by right].
    left. exists (w', <[i:=k x]> c.2). destruct c as [w ts]. by econstructor. }
  intros i t Hi Hr. destruct Htr as (Hf & Hc & Hl). destruct (Forall2_lookup_l _ _ _ _ _ Hf Hi) as (a & Ha & _).
  destruct (Hgo i t a Hi Ha Hr) as [|[Hlocked _]]; [done|].
  destruct (Hl Hlocked) as (j & b & Hb & Hh). cbn [snd] in Hb.
  destruct (Forall2_lookup_r _ _ _ _ _ Hf Hb) as (u & Hu & Hfu).
  destruct (Hgo j u b Hu Hb) as [|[_ Hno]]; [|done|congruence].
  intros [x ->]. simpl in Hfu. by subst b.
Qed.

Lemma thread_of_target c id : target (thread_of c) = Some id → stops c = Some id.
Proof. by destruct c; simpl; try destruct (0 <? _). Qed.

Lemma ready_tracks r calls os :
  calls_ok r calls → tracks (mkRuntimeWorld r false os, steps_of r <$> calls) (thread_of <$> calls).
Proof.
  intros [Hn Hp Hd Hpods Hh]. split; [|split]; cbn [fst snd].
  - apply Forall2_fmap, Forall2_same_length_lookup_2; [done|]. intros i c d Hc Hd'.
    rewrite Hc in Hd'. injection Hd' as ->. by apply steps_follow.
  - constructor; cbn [fst snd shared sh_processes sh_next_port w_runtime w_locked] in *; [done|exact Hp|..].
    + intros i t. rewrite list_lookup_fmap_Some. intros (c & -> & Hi). destruct c; simpl; try done.
      destruct (0 <? _); simpl; [done|]. by eapply Hpods.
    + intros i j t u id. rewrite !list_lookup_fmap_Some. intros (c & -> & Hi) (d & -> & Hj) E1 E2.
      eapply Hh; eauto using thread_of_target.
    + intros i j t u. rewrite list_lookup_fmap_Some. intros (c & -> & _) _ E. exfalso.
      destruct c; simpl in E; try done. by destruct (0 <? _).
  - done.
Qed.

(** C17: every call of the process runtime returns.  Let any number of threads make any
    calls (no two stopping or removing the same handle), each of them, run alone, the
    operation of [Process].  However the threads are scheduled, between any two system calls
    and locked regions, they make finitely many steps, none panics (no assertion on
    ownership fails, and the polls of a stop end before their fuel does), and as long as
    some thread has not returned, some thread can go on: where none can, all have
    answered. *)
Theorem process_threads_return (r : ProcessRuntime) (calls : list Call) (os : OS) :
  calls_ok r calls →
  (∀ c, does r os (steps_of r c) (operation c)) ∧
  sn threads_step (mkRuntimeWorld r false os, steps_of r <$> calls) ∧
  (∀ conf, rtc threads_step (mkRuntimeWorld r false os, steps_of r <$> calls) conf →
     (∀ i msg, conf.2 !! i ≠ Some (Crash msg)) ∧ (nf threads_step conf → Forall returned conf.2)).
Proof.
  intros Hr. split; [intros c; apply steps_alone|split].
  - apply (bounded_threads_sn (replicate (length calls) CALL_STEPS)). cbn [snd].
    apply Forall2_replicate_r; [by rewrite length_fmap|]. apply Forall_fmap, Forall_true. apply steps_within.
  - intros conf Hs. destruct (tracks_steps _ _ _ (ready_tracks r calls os Hr) Hs) as [ths Ht]. split.
    + intros i msg. by eapply tracks_no_crash.
    + intros Hnf. apply Forall_lookup. intros i t Hi. destruct t as [x|msg|X f k]; [by exists x|..]; exfalso;
        (eapply Hnf, (tracks_progress _ _ _ _ Ht Hi); by intros [x E]).
Qed.

End threads.
