(* ===== verification/ProcessLaws.v ===== *)
(** * The process runtime as a [Runtime]

    [impl Runtime for ProcessRuntime]: the operations of [Process], with the part of the
    system they act on, as an instance of the class the worker is written against.  None of
    them panics, so nothing of the code is lost in the instance, and it owns exactly the
    processes in its table, so that the worker's theorems about containers hold over it. *)

From S2P Require Import Prelude Types RustStr Protocol Traits System Http Process ProcessSafety.

Section instance.
  Context {OS : Type} `{!Host OS} `{!System OS}.
  Abbreviation St := (ProcessRuntime * OS)%type.

(** No operation panics ([process_runtime_exact]). *)
#[export] Instance process_runtime {H} : Runtime St H := {
  pull_image image auth := answer (proc_pull_image image auth);
  create_pod spec := answer (proc_create_pod spec);
  start_pod h := answer (proc_start_pod h);
  forward_run h port payload := answer (proc_forward_run h port payload);
  probe_pod h port path := answer (proc_probe_pod h port path);
  stop_pod h grace := answer (proc_stop_pod h grace);
  pod_status h := answer (proc_pod_status h);
  remove_pod h := answer (proc_remove_pod h);
  stop_pod_until h grace deadline := answer_beside (proc_stop_pod_until h grace deadline);
  pod_status_until h deadline := answer_beside (proc_pod_status_until h deadline);
  remove_pod_until h deadline := answer_beside (proc_remove_pod_until h deadline)
}.

(** ** Every operation returns *)

Section laws.
  Context `{LAWS : !SystemLaws OS}.
  Implicit Types (r : ProcessRuntime) (os : OS).

(** It returns and leaves the table as it is. *)
Definition reads_table {A} (m : M St A) (s : St) : Prop := wp no_panic m (λ _ s', s'.1 = s.1) s.

Lemma reads_port_then {A} h (k : Z → M St (result A RuntimeError)) r os :
  (∀ port, reads_table (k port) (r, os)) → reads_table (try_bind (port_of h) k) (r, os).
Proof.
  intros Hk. apply wp_try_bind. unfold port_of. wp_step. apply wp_rt_get. apply wp_ret.
  destruct (get_port r (ph_container_id h)); simpl; [apply Hk|done].
Qed.

Lemma reads_on_sys {A} (m : M OS A) r os : wp no_panic m (λ _ _, True) os → reads_table (on_sys m) (r, os).
Proof. intros Hm. apply wp_on_sys. by eapply wp_mono; [exact Hm|]. Qed.

Lemma await_server_total attempts port os : wp no_panic (await_server attempts port) (λ _ _, True) os.
Proof.
  revert os. induction attempts as [|attempts IH]; intros os; cbn [await_server]; [done|].
  wp_step. apply wp_sys. destruct (tcp_connect port None os) as [[sock|e] os']; [done|]. simpl.
  wp_step. apply wp_sys. apply IH.
Qed.

Lemma start_reads h r os : reads_table (proc_start_pod h) (r, os).
Proof. apply reads_port_then. intros port. apply reads_on_sys, await_server_total. Qed.

(** [forward_run] needs the deadline its constructors set. *)
Lemma forward_reads_or P h port payload r os :
  (run_deadline r = 0 → P "run deadline must be positive"%string) →
  wp P (proc_forward_run h port payload) (λ _ s', s'.1 = r) (r, os).
Proof.
  intros HP. unfold proc_forward_run. apply wp_try_bind. unfold port_of. wp_step. apply wp_rt_get. apply wp_ret.
  destruct (get_port r (ph_container_id h)) as [p|]; simpl; [|done]. wp_step. apply wp_rt_get. apply wp_on_sys.
  unfold forward_run_with_deadline. wp_step. unfold wp at 1, assert.
  destruct (Z.eqb_spec (run_deadline r) 0); [by apply HP|]. simpl. wp_step. by apply wp_sys.
Qed.

Lemma forward_reads h port payload r os :
  run_deadline r ≠ 0 → reads_table (proc_forward_run h port payload) (r, os).
Proof. intros Hd. by apply forward_reads_or. Qed.

Lemma probe_reads h port path r os : reads_table (proc_probe_pod h port path) (r, os).
Proof.
  apply reads_port_then. intros p. unfold reads_table. apply wp_map_err.
  eapply wp_mono; [apply (reads_on_sys (probe_http p path)), probe_http_total|]. done.
Qed.

Lemma status_reads h r os : reads_table (proc_pod_status h) (r, os).
Proof.
  unfold reads_table, proc_pod_status. wp_step. apply wp_rt_get.
  destruct (processes r !! ph_container_id h) as [p|]; [|done].
  wp_step. apply wp_on_sys, wp_sys. by apply wp_ret.
Qed.

Lemma status_until_reads h deadline r os : reads_table (proc_pod_status_until h deadline) (r, os).
Proof.
  unfold reads_table, proc_pod_status_until. wp_step. apply wp_on_sys, wp_sys.
  destruct (_ <=? _); [done|]. eapply wp_mono; [apply status_reads|done].
Qed.

Lemma stop_until_reads h grace deadline r os : reads_table (proc_stop_pod_until h grace deadline) (r, os).
Proof. eapply wp_mono; [apply stop_pod_until_ok|]. by intros res s' [? _]. Qed.

Lemma stop_reads h grace r os : reads_table (proc_stop_pod h grace) (r, os).
Proof.
  unfold reads_table, proc_stop_pod. wp_step. apply wp_on_sys, wp_sys.
  eapply wp_mono; [apply stop_until_reads|done].
Qed.

(** Removing and creating change it by their own container, if they answer [Ok]. *)
Definition removed (h : PodHandle) (r : ProcessRuntime) (res : result unit RuntimeError) (s' : St) : Prop :=
  match res with
  | Ok _ => processes s'.1 = delete (ph_container_id h) (processes r)
  | Err _ => processes s'.1 = processes r
  end ∧ run_deadline s'.1 = run_deadline r.

Lemma remove_until_removes h deadline r os : wp no_panic (proc_remove_pod_until h deadline) (removed h r) (r, os).
Proof.
  eapply wp_mono; [apply remove_pod_until_ok|]. unfold removed. intros [[]|e] s' [_ Hs]; [destruct Hs as [-> _]|rewrite Hs]; done.
Qed.

Lemma remove_removes h r os : wp no_panic (proc_remove_pod h) (removed h r) (r, os).
Proof. unfold proc_remove_pod. wp_step. apply wp_on_sys, wp_sys. apply remove_until_removes. Qed.

Lemma create_creates spec r os :
  wp no_panic (proc_create_pod spec)
    (λ res s', match res with
               | Ok h => ∃ p, processes s'.1 = <[ph_container_id h := p]> (processes r)
               | Err _ => processes s'.1 = processes r
               end ∧ run_deadline s'.1 = run_deadline r) (r, os).
Proof.
  unfold proc_create_pod. destruct (0 <? ps_gpu_count spec); [done|]. wp_step. apply wp_rt_get. cbv zeta.
  case_bool_decide; [done|]. destruct (checked_add _ _ _) as [next|]; [|done].
  wp_step. apply wp_rt_set. apply wp_try_bind, wp_map_err, wp_on_sys, wp_sys.
  destruct (spawn _ os) as [[child|e] os']; simpl; [|done]. wp_step. apply wp_rt_set. apply wp_ret.
  split; [by eexists|done].
Qed.

(** It owns the processes in its table. *)
Definition process_owns (s : St) (x : string) : Prop := is_Some (processes s.1 !! x).

Lemma reads_owns {A} P (m : M St (result A RuntimeError)) s x :
  wp P m (λ _ s', s'.1 = s.1) s → process_owns (answer m s).2 x → process_owns s x.
Proof. unfold wp, answer, process_owns. destruct (m s) as [[a s']|]; [|done]. simpl. by intros ->. Qed.

Lemma removed_owns m h s x :
  wp no_panic m (removed h s.1) s → process_owns (answer m s).2 x →
  process_owns s x ∧ ((answer m s).1 = Ok tt → x ≠ ph_container_id h).
Proof.
  intros [_ [Hm _]]%wp_answer. unfold process_owns. destruct (answer m s) as [[[]|e] s']; simpl in *; rewrite Hm.
  - rewrite lookup_delete_is_Some. intros [Hne Hx]. split; [done|]. by intros _ ->.
  - done.
Qed.

#[export, refine] Instance process_runtime_laws {H} : RuntimeLaws St H := { owns := process_owns }.
Proof.
  - done.
  - intros spec [r os] x. destruct (wp_answer _ _ _ (create_creates spec r os)) as [_ [Hc _]]. unfold process_owns.
    unfold create_pod, process_runtime. destruct (answer (proc_create_pod spec) (r, os)) as [[h|e] s']; simpl in *.
    + destruct Hc as [p ->]. rewrite lookup_insert_is_Some'. intros [<-|]; [right; by exists h|by left].
    + rewrite Hc. by left.
  - intros h [r os] x Hx. left. eapply reads_owns, Hx. apply start_reads.
  - intros h port payload [r os] x. apply (reads_owns any_panic). by apply forward_reads_or.
  - intros h port path [r os] x. eapply reads_owns, probe_reads.
  - intros h grace [r os] x. eapply reads_owns, stop_reads.
  - intros h [r os] x. eapply reads_owns, status_reads.
  - intros h [r os] x. apply removed_owns, remove_removes.
  - intros h grace deadline [[r os] host] x. cbn [stop_pod_until process_runtime].
    rewrite (proj2 (answer_beside_snd _ _)). eapply reads_owns, stop_until_reads.
  - intros h deadline [[r os] host] x. cbn [pod_status_until process_runtime].
    rewrite (proj2 (answer_beside_snd _ _)). eapply reads_owns, status_until_reads.
  - intros h deadline [[r os] host] x. cbn [remove_pod_until process_runtime].
    rewrite (proj2 (answer_beside_snd _ _)), (proj1 (answer_beside_snd _ _)). apply removed_owns, remove_until_removes.
Defined.

(** ** Nothing is lost in the instance *)

(** Every operation of a runtime with a positive run deadline, as its constructors make
    it, returns, so that the instance answers exactly what the code does. *)
Lemma process_runtime_exact (r : ProcessRuntime) (os : OS) :
  run_deadline r ≠ 0 → let s := (r, os) in
  (∀ spec, proc_create_pod spec s = Done (create_pod (H := unit) spec s)) ∧
  (∀ h, proc_start_pod h s = Done (start_pod (H := unit) h s)) ∧
  (∀ h port payload, proc_forward_run h port payload s = Done (forward_run (H := unit) h port payload s)) ∧
  (∀ h port path, proc_probe_pod h port path s = Done (probe_pod (H := unit) h port path s)) ∧
  (∀ h grace, proc_stop_pod h grace s = Done (stop_pod (H := unit) h grace s)) ∧
  (∀ h, proc_pod_status h s = Done (pod_status (H := unit) h s)) ∧
  (∀ h, proc_remove_pod h s = Done (remove_pod (H := unit) h s)) ∧
  (∀ h grace deadline, proc_stop_pod_until h grace deadline s = Done (answer (proc_stop_pod_until h grace deadline) s)) ∧
  (∀ h deadline, proc_remove_pod_until h deadline s = Done (answer (proc_remove_pod_until h deadline) s)).
Proof.
  intros Hd. cbv zeta. split_and!; intros; eapply wp_answer.
  - apply create_creates.
  - apply start_reads.
  - by apply forward_reads.
  - apply probe_reads.
  - apply stop_reads.
  - apply status_reads.
  - apply remove_removes.
  - apply stop_until_reads.
  - apply remove_until_removes.
Qed.

End laws.

End instance.
