(* ===== verification/Containerd.v ===== *)
(** * The containerd runtime: [worker/src/runtime/containerd.rs]

    Pods as containerd tasks, driven through the [ctr] command.  What [ctr] prints and
    when it fails is the system's ([command_output] of [Host]); everything the worker
    concludes from it is here. *)

From S2P Require Import Prelude Types RustStr RustParse Traits System Http.

Definition DEFAULT_SOCKET : string := "/run/containerd/containerd.sock".
Definition DEFAULT_NAMESPACE : string := "hivemind".
Definition CTR_TIMEOUT_SECS : Z := 30.
Definition AUTH_CONFIG_MAX_BYTES : nat := 4096.
Definition WORKLOAD_IDENTITY_LABEL : string := "hivemind.workload.identity".
Definition MAX_FAMILY_IDS : nat := 64.
Definition MAX_STALE_IDS : nat := 64.

(** The fields of the runtime, with the process-wide [AUTH_CONFIG_SEQUENCE]. *)
Record ContainerdRuntime := mkContainerdRuntime {
  cd_socket_path : string;
  cd_namespace : string;
  cd_runtime_name : string;
  cd_snapshotter : string;
  cd_container_sequence : Z;
  cd_auth_sequence : Z
}.

Definition containerd_new (socket_path namespace runtime_name snapshotter : option string) : ContainerdRuntime :=
  mkContainerdRuntime (default DEFAULT_SOCKET socket_path) (default DEFAULT_NAMESPACE namespace)
    (default "io.containerd.runc.v2"%string runtime_name) (default "overlayfs"%string snapshotter) 0 0.

(** ** Container ids and workload identity *)

Definition container_id_prefix (pod_id : Z) : string := "hivemind-pod-" +:+ fmt_int pod_id.
Definition sequenced_id (pod_id sequence : Z) : string :=
  container_id_prefix pod_id +:+ "-" +:+ fmt_int sequence.

(** [x.to_be_bytes()]. *)
Definition to_be (n : nat) (x : Z) : bytes := reverse (to_le n x).

(** What [hash_identity_bytes] feeds the hasher. *)
Definition identity_bytes (b : bytes) : bytes := to_be 8 (Z.of_nat (length b)) ++ b.

(** Everything [workload_identity] feeds the hasher, in order. *)
Definition identity_preimage (runtime_name snapshotter : string) (spec : PodSpec) : bytes :=
  identity_bytes (as_bytes "hivemind-containerd-workload-v1") ++
  to_be 8 (ps_pod_id spec) ++ to_be 8 (ps_deployment_id spec) ++
  identity_bytes (as_bytes (ps_image spec)) ++ identity_bytes (as_bytes (ps_entrypoint spec)) ++
  to_be 2 (ps_port spec) ++ to_be 1 (ps_gpu_count spec) ++ to_be 1 (gpu_type_as_u8 (ps_gpu_type spec)) ++
  to_be 4 (ps_cpu_millicores spec) ++ to_be 4 (ps_memory_megabytes spec) ++
  to_be 8 (Z.of_nat (length (ps_env_vars spec))) ++
  concat ((λ nv, identity_bytes (as_bytes nv.1) ++ identity_bytes (as_bytes nv.2)) <$> ps_env_vars spec) ++
  to_be 8 (Z.of_nat (length (ps_mounts spec))) ++
  concat ((λ m, identity_bytes (as_bytes (bm_host_path m)) ++ identity_bytes (as_bytes (bm_container_path m)))
            <$> ps_mounts spec) ++
  identity_bytes (as_bytes runtime_name) ++ identity_bytes (as_bytes snapshotter).

Definition is_hexdigit (b : Init.Byte.byte) : bool :=
  let z := b2z b in ((48 <=? z) && (z <=? 57)) || ((65 <=? z) && (z <=? 70)) || ((97 <=? z) && (z <=? 102)).

Definition ascii_lower (c : ascii) : ascii :=
  let z := byte_code c in if (65 <=? z) && (z <=? 90) then ascii_of_N (Z.to_N (z + 32)) else c.
Fixpoint to_ascii_lowercase (s : string) : string :=
  match s with EmptyString => EmptyString | String c s' => String (ascii_lower c) (to_ascii_lowercase s') end.

(** ** Environment, devices, platform *)

Fixpoint join (sep : string) (l : list string) : string :=
  match l with [] => "" | [s] => s | s :: l => s +:+ sep +:+ join sep l end.

Definition gpu_indices (spec : PodSpec) : list string :=
  (λ i, fmt_int (Z.of_nat i)) <$> seq 0 (Z.to_nat (ps_gpu_count spec)).

Definition gpu_env (spec : PodSpec) : list string :=
  if ps_gpu_count spec =? 0 then ["NVIDIA_VISIBLE_DEVICES=none"%string]
  else [("NVIDIA_VISIBLE_DEVICES=" +:+ join "," (gpu_indices spec))%string;
        "NVIDIA_DRIVER_CAPABILITIES=compute,utility"%string].

Definition gpu_device_args (spec : PodSpec) : list string :=
  concat ((λ i, ["--device"%string; ("nvidia.com/gpu=" +:+ i)%string]) <$> gpu_indices spec).

(** ** Registry credentials *)

Definition BASE64_ALPHABET : bytes :=
  as_bytes "ABCDEFGHIJKLMNOPQRSTUVWXYZabcdefghijklmnopqrstuvwxyz0123456789+/".
(** [ALPHABET[(value >> shift) & 0x3f]]. *)
Definition base64_char (value shift : Z) : Init.Byte.byte :=
  default Init.Byte.x3d (BASE64_ALPHABET !! Z.to_nat (Z.land (Z.shiftr value shift) 63)).

(** The four characters of a chunk. *)
Definition base64_chunk (chunk : bytes) : bytes :=
  let at_ i := default 0 (b2z <$> chunk !! i) in
  let value := Z.lor (Z.lor (Z.shiftl (at_ 0%nat) 16) (Z.shiftl (at_ 1%nat) 8)) (at_ 2%nat) in
  [base64_char value 18; base64_char value 12;
   if (1 <? length chunk)%nat then base64_char value 6 else Init.Byte.x3d;
   if (2 <? length chunk)%nat then base64_char value 0 else Init.Byte.x3d].

(** [for chunk in input.chunks(3)]. *)
Fixpoint base64 (input : bytes) : bytes :=
  match input with
  | [] => []
  | [a] => base64_chunk [a]
  | [a; b] => base64_chunk [a; b]
  | a :: b :: c :: rest => base64_chunk [a; b; c] ++ base64 rest
  end.

Definition is_host_byte (b : Init.Byte.byte) : bool :=
  let z := b2z b in
  ((48 <=? z) && (z <=? 57)) || ((65 <=? z) && (z <=? 90)) || ((97 <=? z) && (z <=? 122))
  || (z =? 46) || (z =? 45) || (z =? 58) || (z =? 91) || (z =? 93).

(** [path.join(name)] for a relative [name]. *)
Definition ends_with_slash (path : string) : bool := starts_with "/" (str_rev path).
Definition path_join (path name : string) : string :=
  if str_is_empty path || ends_with_slash path then path +:+ name else path +:+ "/" +:+ name.


Definition hosts_config (registry authorization : string) : string :=
  let url := quoted ("https://" +:+ registry) in
  "server = " +:+ url +:+ newline +:+ newline +:+ "[host." +:+ url +:+ "]" +:+ newline +:+
  "  capabilities = [" +:+ quoted "pull" +:+ ", " +:+ quoted "resolve" +:+ "]" +:+ newline +:+
  "  [host." +:+ url +:+ ".header]" +:+ newline +:+
  "    authorization = " +:+ quoted ("Basic " +:+ authorization) +:+ newline.

Definition credentials_of (auth : ImagePullAuth) : string :=
  of_bytes (base64 (as_bytes (ipa_username auth +:+ ":" +:+ ipa_password auth))).

Definition registry_hosts_toml (auth : ImagePullAuth) : result string RuntimeError :=
  if str_is_empty (ipa_registry auth) || negb (forallb is_host_byte (as_bytes (ipa_registry auth))) then
    Err (EImagePull "registry host contains unsupported characters")
  else
    let config := hosts_config (ipa_registry auth) (credentials_of auth) in
    if (AUTH_CONFIG_MAX_BYTES <? String.length config)%nat then
      Err (EImagePull "registry authentication configuration exceeds size limit")
    else Ok config.

(** ** Errors of [ctr] *)

(** [text.replace(pattern, with)] for a non-empty pattern: left to right, no overlaps. *)
Fixpoint replace_from (fuel : nat) (pattern with_ text : string) : string :=
  match fuel with
  | O => text
  | S fuel =>
    match strip_prefix pattern text with
    | Some rest => with_ +:+ replace_from fuel pattern with_ rest
    | None => match text with
              | EmptyString => EmptyString
              | String c text => String c (replace_from fuel pattern with_ text)
              end
    end
  end.
Definition str_replace (pattern with_ text : string) : string :=
  replace_from (S (String.length text)) pattern with_ text.

Definition redact (redactions : list string) (value : string) : string :=
  foldl (λ text secret, if str_is_empty secret then text else str_replace secret "[REDACTED]" text)
    value redactions.

Definition format_ctr_error (args : list string) (code timeout_ms : Z) (stdout stderr : string)
    (redactions : list string) : string :=
  let command := redact redactions (join " " args) in
  if code =? 124 then "ctr " +:+ command +:+ ": timed out after " +:+ fmt_int timeout_ms +:+ "ms"
  else
    let stdout := redact redactions (trim stdout) in
    let stderr := redact redactions (trim stderr) in
    let head := "ctr " +:+ command +:+ ": exit code " +:+ fmt_int code in
    match str_is_empty stdout, str_is_empty stderr with
    | true, true => head
    | true, false => head +:+ ": stderr: " +:+ stderr
    | false, true => head +:+ ": stdout: " +:+ stdout
    | false, false => head +:+ ": stdout: " +:+ stdout +:+ "; stderr: " +:+ stderr
    end.

(** ** Listings *)

(** The rows of a listing below its header, cut at white space. *)
Definition rows (listing : string) : list (list string) := split_whitespace <$> drop 1 (lines listing).
Definition first_columns (listing : string) : list string := omap head (rows listing).

Definition image_present_in_listing (listing image : string) : bool :=
  existsb (String.eqb image) (first_columns listing).
Definition listing_contains_exact_id (listing container_id : string) : bool :=
  existsb (String.eqb container_id) (first_columns listing).

Fixpoint status_in_rows (rs : list (list string)) (container_id : string) : option PodStatus :=
  match rs with
  | [] => None
  | (id :: pid :: status :: _) :: rs =>
    if String.eqb id container_id then
      Some (if String.eqb status "CREATED" then PCreated
            else if String.eqb status "RUNNING" then PRunning
            else if String.eqb status "STOPPED" then PStopped 0 else PUnknown)
    else status_in_rows rs container_id
  | _ :: rs => status_in_rows rs container_id
  end.
Definition task_status_from_listing (listing container_id : string) : option PodStatus :=
  status_in_rows (rows listing) container_id.

Definition in_family (prefix id : string) : bool :=
  String.eqb id prefix || starts_with (prefix +:+ "-") id.
Definition ids_with_prefix (listing prefix : string) (max_ids : nat) : list string :=
  take max_ids (filter (λ id, in_family prefix id = true) (first_columns listing)).

Definition task_adoptable (status : PodStatus) : bool :=
  match status with PRunning | PCreated => true | _ => false end.

Definition adoptable_ids (task_listing : string) (task_ids container_ids : list string) : list string :=
  filter (λ id, bool_decide (id ∈ container_ids)
                && match task_status_from_listing task_listing id with
                   | Some status => task_adoptable status | None => false end = true) task_ids.

Definition adoptable_container_id_from_listings (pod_id : Z) (task_listing container_listing : string)
    : result (option string) RuntimeError :=
  let prefix := container_id_prefix pod_id in
  let task_ids := ids_with_prefix task_listing prefix (MAX_FAMILY_IDS + 1) in
  let container_ids := ids_with_prefix container_listing prefix (MAX_FAMILY_IDS + 1) in
  if (MAX_FAMILY_IDS <? length task_ids)%nat || (MAX_FAMILY_IDS <? length container_ids)%nat then
    Err (EContainerCreate (prefix +:+ " runtime family exceeds " +:+ fmt_int (Z.of_nat MAX_FAMILY_IDS) +:+ " entries"))
  else
    match adoptable_ids task_listing task_ids container_ids with
    | [] => Ok None
    | [candidate] => Ok (Some candidate)
    | _ => Err (EContainerCreate (prefix +:+ " has multiple adoptable owned tasks"))
    end.

Definition task_already_exists_error (error : string) : bool := contains "already exists" error.

(** [str::parse::<i32>] with the message of its error. *)
Definition parse_i32 (s : string) : result Z string :=
  let digits (neg : bool) (d : string) :=
    if str_is_empty d then Err "invalid digit found in string"%string
    else if negb (forallb is_digit_byte (as_bytes d)) then Err "invalid digit found in string"%string
    else if neg then
      match parse_digits 2147483648 0 d with
      | Some n => Ok (- n) | None => Err "number too small to fit in target type"%string end
    else
      match parse_digits 2147483647 0 d with
      | Some n => Ok n | None => Err "number too large to fit in target type"%string end in
  match s with
  | EmptyString => Err "cannot parse integer from empty string"%string
  | String c d =>
    if Ascii.eqb c "+" then digits false d else if Ascii.eqb c "-" then digits true d else digits false s
  end.

Fixpoint pid_in_rows (rs : list (list string)) (container_id : string) : result Z RuntimeError :=
  match rs with
  | [] => Err (EContainerNotFound container_id)
  | (id :: pid :: _) :: rs =>
    if String.eqb id container_id then
      result_map_err (λ e, EInternal ("parse pid for " +:+ container_id +:+ ": " +:+ e)) (parse_i32 pid)
    else pid_in_rows rs container_id
  | _ :: rs => pid_in_rows rs container_id
  end.

(** [{status:?}]. *)
Definition pod_status_debug (s : PodStatus) : string :=
  match s with
  | PCreated => "Created" | PRunning => "Running" | PUnknown => "Unknown"
  | PStopped x => "Stopped { exit_code: " +:+ fmt_int x +:+ " }"
  end.

(** ** Running [ctr] *)

Section containerd.
  Context {OS : Type} `{!Host OS} `{!System OS}.
  Abbreviation St := (ContainerdRuntime * OS)%type.
  Abbreviation CM A := (M St (result A RuntimeError)).

Definition cd_get : M St ContainerdRuntime := λ s, Done (s.1, s).
(** A call of the system. *)
Definition cd_sys {A} (f : OS → A * OS) : M St A := λ s, let '(a, os) := f s.2 in Done (a, (s.1, os)).
Definition cd_on {A} (m : M OS A) : M St A := λ s,
  match m s.2 with Done (a, os) => Done (a, (s.1, os)) | Panic e => Panic e end.

Definition workload_identity (r : ContainerdRuntime) (spec : PodSpec) : string :=
  sha256_hex (identity_preimage (cd_runtime_name r) (cd_snapshotter r) spec).

Definition workload_identity_from_container_info (info : string) : result string RuntimeError :=
  match json_label info WORKLOAD_IDENTITY_LABEL with
  | Err error => Err (EContainerCreate ("container identity metadata is invalid: " +:+ error))
  | Ok None => Err (EContainerCreate "container lacks immutable workload identity metadata")
  | Ok (Some identity) =>
    if negb (String.length identity =? 64)%nat || negb (forallb is_hexdigit (as_bytes identity)) then
      Err (EContainerCreate "container workload identity metadata is malformed")
    else Ok (to_ascii_lowercase identity)
  end.

Definition default_platform : string :=
  if String.eqb arch "x86_64" then "linux/amd64"
  else if String.eqb arch "aarch64" then "linux/arm64"
  else if String.eqb arch "arm" then "linux/arm/v7" else "linux/amd64".

Definition ctr_command (r : ContainerdRuntime) (timeout_ms : Z) (args : list string) : list string :=
  ["timeout"; fmt_int timeout_ms +:+ "ms"; "ctr"; "-n"; cd_namespace r; "-a"; cd_socket_path r]%string ++ args.

Definition run_ctr_duration (args : list string) (timeout : Z) (redactions : list string)
    : M St (result string string) :=
  assert (negb (timeout =? 0)) "ctr timeout must be positive" ;;;
  let timeout_ms := clamp 1 U64_MAX (as_millis timeout) in
  let* r := cd_get in
  try* output := map_err (λ e, "ctr exec: " +:+ e)%string
    (cd_sys (command_output (ctr_command r timeout_ms args))) in
  if negb (co_success output) then
    fail (format_ctr_error args (default (-1) (co_code output)) timeout_ms (from_utf8_lossy (co_stdout output))
            (from_utf8_lossy (co_stderr output)) redactions)
  else succeed (from_utf8_lossy (co_stdout output)).

Definition run_ctr (args : list string) : M St (result string string) :=
  run_ctr_duration args (from_secs CTR_TIMEOUT_SECS) [].

Definition run_ctr_until (args : list string) (deadline : Z) : M St (result string string) :=
  let* now := cd_sys instant_now in
  let remaining := saturating_duration_since deadline now in
  if remaining =? 0 then fail "ctr shutdown deadline reached"%string
  else run_ctr_duration args remaining [].

Definition image_present (image : string) : M St (result bool string) :=
  try* listing := run_ctr ["images"; "ls"]%string in succeed (image_present_in_listing listing image).

Definition task_status_by_id (container_id : string) : CM (option PodStatus) :=
  try* output := map_err (λ e, EContainerNotFound (container_id +:+ ": " +:+ e)) (run_ctr ["tasks"; "list"]%string) in
  succeed (task_status_from_listing output container_id).

Definition task_shim_dir (r : ContainerdRuntime) (container_id : string) : string :=
  "/run/containerd/io.containerd.runtime.v2.task/" +:+ cd_namespace r +:+ "/" +:+ container_id.

(** ** Cleaning up *)

Definition fmt_bool (b : bool) : string := if b then "true" else "false".
Definition error_text {A} (r : result A string) : string := match r with Ok _ => "ok" | Err e => e end.

Definition cleanup_task_state_until (container_id : string) (deadline : Z) : CM unit :=
  let* kill := run_ctr_until ["tasks"; "kill"; "--signal"; "9"; container_id]%string deadline in
  let* task_delete := run_ctr_until ["tasks"; "delete"; "--force"; container_id]%string deadline in
  let* container_delete := run_ctr_until ["containers"; "delete"; container_id]%string deadline in
  let* r := cd_get in
  let shim_dir := task_shim_dir r container_id in
  let* shim := cd_sys (remove_dir_all shim_dir) in
  let shim_remove := match shim with
                     | Ok _ | Err FsNotFound => Ok tt
                     | Err (FsOther e) => Err e
                     end in
  try* tasks := map_err (λ e, EContainerStop (container_id +:+ " cleanup task verification failed: " +:+ e))
                  (run_ctr_until ["tasks"; "list"]%string deadline) in
  try* containers := map_err (λ e, EContainerStop (container_id +:+ " cleanup container verification failed: " +:+ e))
                       (run_ctr_until ["containers"; "list"]%string deadline) in
  let task_remains := listing_contains_exact_id tasks container_id in
  let container_remains := listing_contains_exact_id containers container_id in
  let* shim_remains := cd_sys (path_exists shim_dir) in
  if task_remains || container_remains || shim_remains then
    fail (EContainerStop (container_id +:+ " cleanup remains unverified: task_remains=" +:+ fmt_bool task_remains
      +:+ " container_remains=" +:+ fmt_bool container_remains +:+ " shim_remains=" +:+ fmt_bool shim_remains
      +:+ "; kill=" +:+ error_text kill +:+ "; task_delete=" +:+ error_text task_delete
      +:+ "; container_delete=" +:+ error_text container_delete +:+ "; shim_remove=" +:+ error_text shim_remove))
  else succeed tt.

Definition cleanup_task_state (container_id : string) : CM unit :=
  let* now := cd_sys instant_now in
  cleanup_task_state_until container_id (now + from_secs (CTR_TIMEOUT_SECS * 5)).

(** [for id in container_ids { if !ids.contains(&id) { .. ids.push(id) } }]. *)
Fixpoint merge_ids (ids container_ids : list string) : option (list string) :=
  match container_ids with
  | [] => Some ids
  | id :: rest =>
    if bool_decide (id ∈ ids) then merge_ids ids rest
    else if (MAX_STALE_IDS <=? length ids)%nat then None
    else merge_ids (ids ++ [id]) rest
  end.

(** [for id in ids { self.cleanup_task_state(&id)?; }]. *)
Fixpoint cleanup_all (ids : list string) : CM unit :=
  match ids with
  | [] => succeed tt
  | id :: ids => try* _ := cleanup_task_state id in cleanup_all ids
  end.

Definition cleanup_container_family (pod_id : Z) : CM unit :=
  let prefix := container_id_prefix pod_id in
  let too_many := EContainerCreate (prefix +:+ " stale runtime family exceeds "
                                    +:+ fmt_int (Z.of_nat MAX_STALE_IDS) +:+ " entries") in
  try* task_listing := map_err (λ e, EContainerCreate (prefix +:+ " task inventory failed: " +:+ e))
                         (run_ctr ["tasks"; "list"]%string) in
  try* container_listing := map_err (λ e, EContainerCreate (prefix +:+ " container inventory failed: " +:+ e))
                              (run_ctr ["containers"; "list"]%string) in
  let ids := ids_with_prefix task_listing prefix (MAX_STALE_IDS + 1) in
  let container_ids := ids_with_prefix container_listing prefix (MAX_STALE_IDS + 1) in
  if (MAX_STALE_IDS <? length ids)%nat || (MAX_STALE_IDS <? length container_ids)%nat then fail too_many
  else
    match merge_ids ids container_ids with
    | None => fail too_many
    | Some ids => cleanup_all ids
    end.

(** ** Adopting a container of an earlier life *)

Definition find_adoptable_container (spec : PodSpec) : CM (option string) :=
  let prefix := container_id_prefix (ps_pod_id spec) in
  try* tasks := map_err (λ e, EContainerCreate (prefix +:+ " task inventory failed: " +:+ e))
                  (run_ctr ["tasks"; "list"]%string) in
  try* containers := map_err (λ e, EContainerCreate (prefix +:+ " container inventory failed: " +:+ e))
                       (run_ctr ["containers"; "list"]%string) in
  try* candidate := ret (adoptable_container_id_from_listings (ps_pod_id spec) tasks containers) in
  match candidate with
  | None => succeed None
  | Some container_id =>
    try* info := map_err (λ e, EContainerCreate (container_id +:+ " workload identity inspection failed: " +:+ e))
                   (run_ctr ["containers"; "info"; container_id]%string) in
    try* actual := ret (workload_identity_from_container_info info) in
    let* r := cd_get in
    if negb (String.eqb actual (workload_identity r spec)) then
      fail (EContainerCreate (container_id +:+ " workload identity mismatch; refusing stale task adoption"))
    else succeed (Some container_id)
  end.

(** ** The operations of the trait: images and creation *)

(** [prepare_registry_hosts]: the protected directory's path; undone on every error. *)
Definition prepare_registry_hosts (auth : ImagePullAuth) : CM string :=
  try* config := ret (registry_hosts_toml auth) in
  let* r := cd_get in
  let sequence := cd_auth_sequence r in
  (λ s, Done (tt, (mkContainerdRuntime (cd_socket_path s.1) (cd_namespace s.1) (cd_runtime_name s.1)
                     (cd_snapshotter s.1) (cd_container_sequence s.1) ((cd_auth_sequence s.1 + 1) mod 2 ^ 64), s.2))) ;;;
  let* dir := (λ s, Done (path_join (temp_dir s.2) ("hivemind-registry-auth-" +:+ fmt_int (process_id s.2)
                          +:+ "-" +:+ fmt_int sequence), s))%string in
  let or_undo {A} (message : string) (m : OS → result A string * OS) : CM A :=
    let* res := cd_sys m in
    match res with
    | Ok a => succeed a
    | Err e => let* _ := cd_sys (remove_dir_all dir) in fail (EImagePull (message +:+ e))
    end in
  try* _ := map_err (λ e, EImagePull ("create protected registry config: " +:+ e)) (cd_sys (create_dir dir)) in
  try* _ := or_undo "protect registry config directory: "%string (set_permissions dir 448) in
  let host_dir := path_join dir (ipa_registry auth) in
  try* _ := or_undo "create registry host config: "%string (create_dir host_dir) in
  try* file := or_undo "create registry hosts config: "%string (open_new (path_join host_dir "hosts.toml") 384) in
  try* _ := or_undo "write registry hosts config: "%string (file_write_all file (as_bytes config)) in
  try* _ := or_undo "sync registry hosts config: "%string (file_sync file) in
  succeed dir.

Definition redactions_of (auth : ImagePullAuth) : list string :=
  [ipa_username auth; ipa_password auth; credentials_of auth].

Definition pull_image_args (r : ContainerdRuntime) (image : string) (hosts_dir platform : option string) : list string :=
  ["images"; "pull"; "--snapshotter"; cd_snapshotter r]%string
  ++ match platform with Some p => ["--platform"%string; p] | None => [] end
  ++ match hosts_dir with Some d => ["--hosts-dir"%string; d] | None => [] end ++ [image].

(** [pull_image] once the registry configuration is there. *)
Definition pull_with_hosts (image : string) (hosts_dir : option string) (redactions : list string) : CM unit :=
  let* r := cd_get in
  let* pulled := run_ctr_duration (pull_image_args r image hosts_dir None) (from_secs 300) redactions in
  match pulled with
  | Ok _ => succeed tt
  | Err e =>
    if contains "no unpack platforms defined" e then
      let* retried := run_ctr_duration (pull_image_args r image hosts_dir (Some default_platform))
                        (from_secs 300) redactions in
      match retried with
      | Ok _ => succeed tt
      | Err retry_err =>
        let* present := image_present image in
        match present with
        | Ok true => succeed tt
        | _ => fail (EImagePull (image +:+ ": " +:+ retry_err))
        end
      end
    else fail (EImagePull (image +:+ ": " +:+ e))
  end.

(** [pull_image]; the registry configuration is dropped on every way out. *)
Definition cd_pull_image (image : string) (auth : option ImagePullAuth) : CM unit :=
  try* present := map_err (λ e, EImagePull (image +:+ ": " +:+ e)) (image_present image) in
  if present then succeed tt
  else
    match auth with
    | None => pull_with_hosts image None []
    | Some auth =>
      try* dir := prepare_registry_hosts auth in
      let* res :=
        if valid_utf8 (as_bytes dir) then pull_with_hosts image (Some dir) (redactions_of auth)
        else fail (EImagePull "registry hosts path is not UTF-8") in
      let* _ := cd_sys (remove_dir_all dir) in
      ret res
    end.

Definition next_container_id (pod_id : Z) : M St string :=
  let* r := cd_get in
  (λ s, Done (tt, (mkContainerdRuntime (cd_socket_path s.1) (cd_namespace s.1) (cd_runtime_name s.1)
                     (cd_snapshotter s.1) ((cd_container_sequence s.1 + 1) mod 2 ^ 64) (cd_auth_sequence s.1), s.2))) ;;;
  let* sequence := add_overflow U64_MAX (cd_container_sequence r) 1 in
  ret (sequenced_id pod_id sequence).

Definition apply_cgroup_limits (spec : PodSpec) (container_id : string) : M St unit :=
  let base := ("/sys/fs/cgroup/system.slice/containerd-" +:+ container_id +:+ ".scope")%string in
  when (0 <? ps_cpu_millicores spec)
    (let* _ := cd_sys (fs_write (base +:+ "/cpu.max") (fmt_int (ps_cpu_millicores spec * 100) +:+ " 100000")) in
     ret tt) ;;;
  when (0 <? ps_memory_megabytes spec)
    (let* _ := cd_sys (fs_write (base +:+ "/memory.max") (fmt_int (ps_memory_megabytes spec * 1024 * 1024))) in
     ret tt).

Definition container_env (spec : PodSpec) : list string :=
  gpu_env spec ++ ((λ nv, nv.1 +:+ "=" +:+ nv.2)%string <$> ps_env_vars spec)
  ++ (if 0 <? ps_port spec then [("PORT=" +:+ fmt_int (ps_port spec))%string] else []).

Definition create_args (r : ContainerdRuntime) (spec : PodSpec) (container_id : string) : list string :=
  ["containers"; "create"; "--runtime"; cd_runtime_name r; "--snapshotter"; cd_snapshotter r]%string
  ++ gpu_device_args spec
  ++ ["--label"; WORKLOAD_IDENTITY_LABEL +:+ "=" +:+ workload_identity r spec]%string
  ++ concat ((λ e, ["--env"%string; e]) <$> container_env spec)
  ++ concat ((λ m, ["--mount"; "type=bind,src=" +:+ bm_host_path m +:+ ",dst=" +:+ bm_container_path m
                               +:+ ",options=rbind:rw"]%string) <$> ps_mounts spec)
  ++ [ps_image spec; container_id] ++ split_whitespace (ps_entrypoint spec).

Definition cd_create_pod (spec : PodSpec) : CM PodHandle :=
  if 0 <? ps_gpu_count spec then
    fail (EContainerCreate "GPU workload rejected: physical device reservation is not implemented")
  else
    try* adopted := find_adoptable_container spec in
    match adopted with
    | Some container_id => succeed (mkPodHandle (ps_pod_id spec) container_id)
    | None =>
      try* _ := cleanup_container_family (ps_pod_id spec) in
      let* container_id := next_container_id (ps_pod_id spec) in
      let* r := cd_get in
      try* _ := map_err (λ e, EContainerCreate (container_id +:+ ": " +:+ e))
                  (run_ctr (create_args r spec container_id)) in
      apply_cgroup_limits spec container_id ;;;
      succeed (mkPodHandle (ps_pod_id spec) container_id)
    end.

(** ** Starting, requests, stopping *)

Definition cd_start_pod (h : PodHandle) : CM unit :=
  let* started := run_ctr ["tasks"; "start"; "--detach"; ph_container_id h]%string in
  match started with
  | Ok _ => succeed tt
  | Err error =>
    if task_already_exists_error error then
      try* status := task_status_by_id (ph_container_id h) in
      match status with
      | Some PRunning => succeed tt
      | _ => fail (EContainerStart (ph_container_id h +:+ ": " +:+ error +:+ "; existing task is not proven running"))
      end
    else fail (EContainerStart (ph_container_id h +:+ ": " +:+ error))
  end.

Definition task_pid (container_id : string) : CM Z :=
  try* output := map_err (λ e, EContainerNotFound (container_id +:+ ": " +:+ e)) (run_ctr ["tasks"; "list"]%string) in
  ret (pid_in_rows (rows output) container_id).

(** [with_task_netns]: [f] in the network namespace of the task, on a thread of its own. *)
Definition with_task_netns {T} (pid : Z) (f : M OS (result T RuntimeError)) : CM T :=
  try* current := map_err (λ e, EInternal ("open current netns: " +:+ e)) (cd_sys (open_netns "/proc/self/ns/net")) in
  try* target := map_err (λ e, EInternal ("open task netns for pid " +:+ fmt_int pid +:+ ": " +:+ e))
                   (cd_sys (open_netns ("/proc/" +:+ fmt_int pid +:+ "/ns/net"))) in
  try* _ := map_err (λ e, EInternal ("setns enter pid " +:+ fmt_int pid +:+ ": " +:+ e)) (cd_sys (setns target)) in
  let* run_result := cd_on f in
  let* restored := map_err (λ e, EInternal ("setns restore: " +:+ e)) (cd_sys (setns current)) in
  ret (match run_result, restored with
       | Ok value, Ok _ => Ok value
       | Err err, Ok _ => Err err
       | Ok _, Err err => Err err
       | Err run_err, Err restore_err =>
         Err (EInternal (runtime_error_to_string run_err +:+ "; " +:+ runtime_error_to_string restore_err))
       end).

Definition cd_forward_run (h : PodHandle) (port : Z) (payload : bytes) : CM bytes :=
  try* pid := task_pid (ph_container_id h) in
  map_err (λ e, match e with
                | EResponseTooLarge _ => e
                | other => EInternal ("forward run " +:+ ph_container_id h +:+ ": " +:+ runtime_error_to_string other)
                end) (with_task_netns pid (post_run port payload)).

Definition cd_probe_pod (h : PodHandle) (port : Z) (path : string) : CM bool :=
  try* pid := task_pid (ph_container_id h) in
  map_err (λ e, EInternal ("probe pod " +:+ ph_container_id h +:+ ": " +:+ runtime_error_to_string e))
    (with_task_netns pid (map_err EInternal (probe_http port path))).

Definition status_or_unknown (h : PodHandle) (output : string) : result PodStatus RuntimeError :=
  ok_or (EContainerNotFound (ph_container_id h)) (task_status_from_listing output (ph_container_id h)).

Definition cd_pod_status (h : PodHandle) : CM PodStatus :=
  try* output := map_err (λ e, EContainerNotFound (ph_container_id h +:+ ": " +:+ e)) (run_ctr ["tasks"; "list"]%string) in
  ret (status_or_unknown h output).

Definition cd_pod_status_until (h : PodHandle) (deadline : Z) : CM PodStatus :=
  try* output := map_err (λ e, EContainerNotFound (ph_container_id h +:+ ": " +:+ e))
                   (run_ctr_until ["tasks"; "list"]%string deadline) in
  ret (status_or_unknown h output).

Definition is_stopped (r : result PodStatus RuntimeError) : bool :=
  match r with Ok (PStopped _) => true | _ => false end.

(** The poll loop of [stop_pod_until]: has the task stopped within the grace? *)
Fixpoint await_stopped (fuel : nat) (h : PodHandle) (grace_deadline deadline : Z) : M St bool :=
  match fuel with
  | O => panic "grace period did not end"
  | S fuel =>
    let* status := cd_pod_status_until h deadline in
    if is_stopped status then ret true
    else
      let* now := cd_sys instant_now in
      if grace_deadline <=? now then ret false
      else
        cd_sys (λ os, (tt, thread_sleep (Z.min (grace_deadline - now) (100 * NANOS_PER_MILLI)) os)) ;;;
        await_stopped fuel h grace_deadline deadline
  end.

(** More than 30 s in steps of 100 ms. *)
Definition STOP_FUEL : nat := 305.

Definition cd_stop_pod_until (h : PodHandle) (grace_period_ms deadline : Z) : CM unit :=
  let id := ph_container_id h in
  let* terminate := run_ctr_until ["tasks"; "kill"; "--signal"; "15"; id]%string deadline in
  let* now := cd_sys instant_now in
  let grace_deadline := Z.min (now + Z.min grace_period_ms MAX_STOP_GRACE_MS * NANOS_PER_MILLI) deadline in
  let* stopped := await_stopped STOP_FUEL h grace_deadline deadline in
  if stopped then succeed tt
  else
    let* kill := run_ctr_until ["tasks"; "kill"; "--signal"; "9"; id]%string deadline in
    let* status := cd_pod_status_until h deadline in
    let tail := ("; TERM=" +:+ error_text terminate +:+ "; KILL=" +:+ error_text kill)%string in
    match status with
    | Ok (PStopped _) => succeed tt
    | Ok status => fail (EContainerStop (id +:+ " remains " +:+ pod_status_debug status +:+ " after TERM/KILL" +:+ tail))
    | Err e => fail (EContainerStop (id +:+ " terminal status unverified after TERM/KILL: "
                                     +:+ runtime_error_to_string e +:+ tail))
    end.

Definition cd_stop_pod (h : PodHandle) (grace_period_ms : Z) : CM unit :=
  let* now := cd_sys instant_now in
  cd_stop_pod_until h grace_period_ms
    (now + Z.min grace_period_ms MAX_STOP_GRACE_MS * NANOS_PER_MILLI + from_secs (CTR_TIMEOUT_SECS * 4)).

Definition cd_remove_pod (h : PodHandle) : CM unit := cleanup_task_state (ph_container_id h).
Definition cd_remove_pod_until (h : PodHandle) (deadline : Z) : CM unit :=
  cleanup_task_state_until (ph_container_id h) deadline.

End containerd.
