(* ===== verification/ContainerdText.v ===== *)
(** * What the containerd runtime writes and reads

    The text the runtime exchanges with [ctr] and the registry: base64, the identity
    recorded on a container, the names of a pod's containers, redaction of secrets. *)

From S2P Require Import Prelude Types RustStr RustParse Traits System Http Containerd.

(** ** Base64 *)

(** The reference decoder of RFC 4648: four digits at a time, [=] only at the end. *)
Definition b64_digit (c : Init.Byte.byte) : option Z := Z.of_nat <$> position (b2z c) BASE64_ALPHABET.

Definition PAD : Init.Byte.byte := Init.Byte.x3d.

Definition b64_group (c1 c2 c3 c4 : Init.Byte.byte) : option bytes :=
  d1 ← b64_digit c1; d2 ← b64_digit c2;
  if bool_decide (c3 = PAD ∧ c4 = PAD) then Some [z2b (d1 * 4 + d2 / 16)]
  else
    d3 ← b64_digit c3;
    if bool_decide (c4 = PAD) then Some [z2b (d1 * 4 + d2 / 16); z2b (d2 mod 16 * 16 + d3 / 4)]
    else
      d4 ← b64_digit c4;
      Some [z2b (d1 * 4 + d2 / 16); z2b (d2 mod 16 * 16 + d3 / 4); z2b (d3 mod 4 * 64 + d4)].

Fixpoint base64_decode (s : bytes) : option bytes :=
  match s with
  | [] => Some []
  | c1 :: c2 :: c3 :: c4 :: rest =>
    g ← b64_group c1 c2 c3 c4;
    if bool_decide (c4 = PAD ∧ rest ≠ []) then None else
    more ← base64_decode rest; Some (g ++ more)
  | _ => None
  end.

(** Each of the 64 digits is read back. *)
Lemma base64_char_digit value shift :
  b64_digit (base64_char value shift) = Some (Z.land (Z.shiftr value shift) 63) ∧ base64_char value shift ≠ PAD.
Proof.
  unfold base64_char. change 63 with (Z.ones 6). rewrite Z.land_ones by lia.
  pose proof (Z.mod_pos_bound (value ≫ shift) (2 ^ 6) ltac:(lia)) as Hb. revert Hb.
  generalize ((value ≫ shift) `mod` 2 ^ 6). intros d Hd.
  assert (Hall : Forall (λ n, b64_digit (default Init.Byte.x3d (BASE64_ALPHABET !! n)) = Some (Z.of_nat n) ∧
                             default Init.Byte.x3d (BASE64_ALPHABET !! n) ≠ PAD) (seq 0 64)).
  { apply (bool_decide_unpack _). vm_compute. exact I. }
  rewrite Forall_forall in Hall. specialize (Hall (Z.to_nat d)).
  rewrite Z2Nat.id in Hall by lia. apply Hall, elem_of_seq. lia.
Qed.

(** The 24 bits of a chunk, and their groups of six. *)
Lemma chunk_value a b c :
  0 ≤ a < 256 → 0 ≤ b < 256 → 0 ≤ c < 256 →
  Z.lor (Z.lor (Z.shiftl a 16) (Z.shiftl b 8)) c = a * 65536 + b * 256 + c.
Proof.
  intros Ha Hb Hc.
  assert (Hor : ∀ x y n, 0 ≤ n → 0 ≤ y < 2 ^ n → Z.lor (x ≪ n) y = x * 2 ^ n + y).
  { intros x y n Hn Hy. rewrite Z.shiftl_mul_pow2 by lia. rewrite <-Z.add_nocarry_lor; [done|].
    rewrite <-Z.shiftl_mul_pow2 by lia. apply Z.bits_inj'. intros k Hk. rewrite Z.land_spec, Z.bits_0.
    destruct (Z.lt_ge_cases k n); [by rewrite Z.shiftl_spec_low|].
    destruct (Z.eq_dec y 0) as [->|]; [by rewrite Z.bits_0, andb_false_r|].
    rewrite (Z.bits_above_log2 y), andb_false_r; [done|lia|]. apply Z.log2_lt_pow2; [lia|].
    assert (2 ^ n ≤ 2 ^ k) by (apply Z.pow_le_mono_r; lia). lia. }
  rewrite <-Z.lor_assoc, (Hor b c 8) by lia. rewrite (Hor a (b * 2 ^ 8 + c) 16) by lia. lia.
Qed.

Lemma six_bits value shift : 0 ≤ shift → Z.land (Z.shiftr value shift) 63 = value / 2 ^ shift mod 64.
Proof. intros. change 63 with (Z.ones 6). by rewrite Z.land_ones, Z.shiftr_div_pow2 by lia. Qed.

Lemma b64_group_digits c1 c2 c3 c4 d1 d2 d3 d4 :
  b64_digit c1 = Some d1 → b64_digit c2 = Some d2 →
  (c3 = PAD ∧ c4 = PAD → b64_group c1 c2 c3 c4 = Some [z2b (d1 * 4 + d2 / 16)]) ∧
  (c3 ≠ PAD → b64_digit c3 = Some d3 → c4 = PAD →
     b64_group c1 c2 c3 c4 = Some [z2b (d1 * 4 + d2 / 16); z2b (d2 mod 16 * 16 + d3 / 4)]) ∧
  (c3 ≠ PAD → b64_digit c3 = Some d3 → c4 ≠ PAD → b64_digit c4 = Some d4 →
     b64_group c1 c2 c3 c4 = Some [z2b (d1 * 4 + d2 / 16); z2b (d2 mod 16 * 16 + d3 / 4); z2b (d3 mod 4 * 64 + d4)]).
Proof.
  intros E1 E2. unfold b64_group. rewrite E1, E2. cbn [mbind option_bind]. split_and!.
  - intros Hp. by rewrite bool_decide_eq_true_2.
  - intros H3 E3 H4. rewrite (bool_decide_eq_false_2 (c3 = _ ∧ _)) by tauto. rewrite E3. cbn [mbind option_bind].
    by rewrite bool_decide_eq_true_2.
  - intros H3 E3 H4 E4. rewrite (bool_decide_eq_false_2 (c3 = _ ∧ _)) by tauto. rewrite E3. cbn [mbind option_bind].
    rewrite bool_decide_eq_false_2 by done. by rewrite E4.
Qed.

(** A byte of the chunk out of two digits. *)
Lemma byte_of_digits b z : b2z b = z → z2b z = b.
Proof. intros <-. apply z2b_b2z. Qed.

Lemma b64_group_chunk chunk :
  (1 ≤ length chunk ≤ 3)%nat →
  ∃ c1 c2 c3 c4, base64_chunk chunk = [c1; c2; c3; c4] ∧ b64_group c1 c2 c3 c4 = Some chunk ∧
    (c4 = PAD ↔ (length chunk < 3)%nat).
Proof.
  intros Hl. unfold base64_chunk. cbv zeta. set (v := Z.lor _ _).
  destruct (base64_char_digit v 18) as [D1 _], (base64_char_digit v 12) as [D2 _],
    (base64_char_digit v 6) as [D3 N3], (base64_char_digit v 0) as [D4 N4].
  rewrite !six_bits in * by lia. change (2 ^ 18) with 262144 in *. change (2 ^ 12) with 4096 in *.
  change (2 ^ 6) with 64 in *. change (2 ^ 0) with 1 in *.
  destruct (b64_group_digits _ _ (if (1 <? length chunk)%nat then base64_char v 6 else PAD)
              (if (2 <? length chunk)%nat then base64_char v 0 else PAD) _ _
              ((v / 64) mod 64) ((v / 1) mod 64) D1 D2) as (G1 & G2 & G3).
  assert (Hat : ∀ i, 0 ≤ default 0 (b2z <$> chunk !! i) < 256).
  { intros i. destruct (chunk !! i); simpl; [apply b2z_range|lia]. }
  pose proof (chunk_value _ _ _ (Hat 0%nat) (Hat 1%nat) (Hat 2%nat) : v = _) as Hv. clearbody v.
  eexists _, _, _, _. split; [reflexivity|].
  destruct chunk as [|a [|b [|c [|]]]]; simpl in Hl; try lia; simpl in Hv, Hat; cbn [length Nat.ltb Nat.leb] in *;
    pose proof (Hat 0%nat) as R0; pose proof (Hat 1%nat) as R1; pose proof (Hat 2%nat) as R2;
    simpl in R0, R1, R2; clear Hat.
  - change Init.Byte.x3d with PAD. rewrite G1 by done. split; [|split; [lia|done]]. repeat f_equal. apply byte_of_digits.
    Z.to_euclidean_division_equations. lia.
  - change Init.Byte.x3d with PAD. rewrite (G2 N3 D3) by done. split; [|split; [lia|done]].
    repeat f_equal; apply byte_of_digits; Z.to_euclidean_division_equations; lia.
  - rewrite (G3 N3 D3 N4 D4) by done. split; [|split; [done|lia]].
    repeat f_equal; apply byte_of_digits; Z.to_euclidean_division_equations; lia.
Qed.

(** Text that can stand between quotes in a TOML file. *)
Definition toml_plain (b : Init.Byte.byte) : bool :=
  let z := b2z b in (32 <=? z) && (z <=? 126) && negb (z =? 34) && negb (z =? 92).

Lemma base64_digits_plain value shift : toml_plain (base64_char value shift) = true.
Proof.
  unfold base64_char. assert (Hall : Forall (λ b, toml_plain b = true) BASE64_ALPHABET)
    by (apply (bool_decide_unpack _); vm_compute; exact I).
  destruct (BASE64_ALPHABET !! _) as [b|] eqn:E; [|done]. rewrite Forall_forall in Hall.
  apply Hall. by apply list_elem_of_lookup_2 in E.
Qed.

Lemma base64_chunk_plain chunk : Forall (λ b, toml_plain b = true) (base64_chunk chunk).
Proof.
  unfold base64_chunk. cbv zeta. repeat constructor; try apply base64_digits_plain;
    [destruct (1 <? _)%nat|destruct (2 <? _)%nat]; try apply base64_digits_plain; done.
Qed.

(** Three bytes at a time. *)
Lemma chunks_ind (P : bytes → Prop) :
  P [] → (∀ a, P [a]) → (∀ a b, P [a; b]) → (∀ a b c l, P l → P (a :: b :: c :: l)) → ∀ l, P l.
Proof.
  intros H0 H1 H2 H3. fix IH 1. intros [|a [|b [|c l]]]; [done|done|done|]. apply H3, IH.
Qed.

Lemma base64_plain input : Forall (λ b, toml_plain b = true) (base64 input).
Proof.
  induction input as [|a|a b|a b c l IH] using chunks_ind; [constructor|apply base64_chunk_plain..|].
  change (base64 (a :: b :: c :: l)) with (base64_chunk [a; b; c] ++ base64 l). apply Forall_app.
  split; [apply base64_chunk_plain|done].
Qed.

(** C23: registry credentials survive the trip.  The RFC 4648 decoder reads
    [base64 input] back to [input], whatever the bytes; and an accepted registry host
    and its credentials consist of bytes that need no escaping inside the quotes of the
    hosts file, so nothing in them can end a quoted value or start another line. *)
Theorem registry_credentials_exact (input : bytes) (auth : ImagePullAuth) :
  base64_decode (base64 input) = Some input ∧
  match registry_hosts_toml auth with
  | Ok config =>
    config = hosts_config (ipa_registry auth) (credentials_of auth) ∧
    forallb toml_plain (as_bytes (ipa_registry auth)) = true ∧
    forallb toml_plain (as_bytes (credentials_of auth)) = true ∧
    base64_decode (as_bytes (credentials_of auth)) =
      Some (as_bytes (ipa_username auth +:+ ":" +:+ ipa_password auth)) ∧
    (String.length config ≤ AUTH_CONFIG_MAX_BYTES)%nat
  | Err _ => True
  end.
Proof.
  assert (Hrt : ∀ b, base64_decode (base64 b) = Some b).
  { assert (Hlast : ∀ chunk, (1 ≤ length chunk ≤ 3)%nat → base64_decode (base64_chunk chunk) = Some chunk).
    { intros chunk Hl. destruct (b64_group_chunk chunk Hl) as (c1 & c2 & c3 & c4 & -> & Eg & _).
      cbn [base64_decode]. rewrite Eg. cbn [mbind option_bind].
      rewrite bool_decide_eq_false_2 by tauto. by rewrite app_nil_r. }
    intros b. induction b as [|a|a b|a b c l IH] using chunks_ind; [done|apply Hlast; simpl; lia..|].
    change (base64 (a :: b :: c :: l)) with (base64_chunk [a; b; c] ++ base64 l).
    destruct (b64_group_chunk [a; b; c]) as (c1 & c2 & c3 & c4 & -> & Eg & Hp); [simpl; lia|].
    cbn [base64_decode app]. rewrite Eg. cbn [mbind option_bind]. simpl in Hp.
    rewrite bool_decide_eq_false_2 by (intros [?%Hp _]; lia). by rewrite IH. }
  split; [apply Hrt|]. unfold registry_hosts_toml. destruct (str_is_empty _ || _) eqn:Eh; [done|].
  apply orb_false_iff in Eh as [_ Eh]. apply negb_false_iff in Eh. cbv zeta.
  destruct (Nat.ltb_spec AUTH_CONFIG_MAX_BYTES (String.length (hosts_config (ipa_registry auth) (credentials_of auth))));
    [done|]. split; [done|]. unfold credentials_of. rewrite !as_of_bytes. split_and!; [| |apply Hrt|done].
  - rewrite forallb_forall in *. intros b Hb%Eh. unfold is_host_byte, toml_plain in *. lia.
  - apply forallb_forall. intros b Hb%list_elem_of_In. pose proof (base64_plain (as_bytes (ipa_username auth +:+ ":" +:+ ipa_password auth))) as Hall.
    rewrite Forall_forall in Hall. by apply Hall.
Qed.

(** ** The identity of a workload *)

(** The ranges of the fields' types; no string is longer than the address space. *)
Definition str_fits (s : string) : Prop := Z.of_nat (length (as_bytes s)) ≤ U64_MAX.

Record spec_fits (spec : PodSpec) : Prop := {
  sf_pod : is_u64 (ps_pod_id spec); sf_deployment : is_u64 (ps_deployment_id spec);
  sf_image : str_fits (ps_image spec); sf_entrypoint : str_fits (ps_entrypoint spec);
  sf_port : is_u16 (ps_port spec); sf_gpus : is_u8 (ps_gpu_count spec);
  sf_cpu : is_u32 (ps_cpu_millicores spec); sf_memory : is_u32 (ps_memory_megabytes spec);
  sf_env : Forall (λ nv, str_fits nv.1 ∧ str_fits nv.2) (ps_env_vars spec);
  sf_env_count : Z.of_nat (length (ps_env_vars spec)) ≤ U64_MAX;
  sf_mounts : Forall (λ m, str_fits (bm_host_path m) ∧ str_fits (bm_container_path m)) (ps_mounts spec);
  sf_mount_count : Z.of_nat (length (ps_mounts spec)) ≤ U64_MAX
}.

(** An encoding whose end shows: what follows does not matter. *)
Definition self_delimiting {A} (valid : A → Prop) (enc : A → bytes) : Prop :=
  ∀ a b k k', valid a → valid b → enc a ++ k = enc b ++ k' → a = b ∧ k = k'.

Lemma to_be_delimits n : self_delimiting (λ x, 0 ≤ x < 2 ^ (Z.of_nat n * 8)) (to_be n).
Proof.
  intros a b k k' Ha Hb E. apply app_inj_1 in E as [E ->];
    [|unfold to_be; by rewrite !length_reverse, !length_to_le]. split; [|done].
  unfold to_be in E. apply (f_equal reverse) in E. rewrite !reverse_involutive in E.
  by rewrite <-(from_to_le n a), <-(from_to_le n b), E.
Qed.

Lemma identity_bytes_delimits : self_delimiting str_fits (λ s, identity_bytes (as_bytes s)).
Proof.
  intros a b k k' Ha Hb E. unfold identity_bytes in E. rewrite <-!app_assoc in E.
  apply to_be_delimits in E as [El E]; [|unfold str_fits in *; change (2 ^ _) with 18446744073709551616; int_lia..].
  apply app_inj_1 in E as [E ->]; [|lia]. split; [by apply as_bytes_inj|done].
Qed.

Lemma pair_delimits {A B} (va : A → Prop) (vb : B → Prop) ea eb :
  self_delimiting va ea → self_delimiting vb eb →
  self_delimiting (λ p, va p.1 ∧ vb p.2) (λ p, ea p.1 ++ eb p.2).
Proof.
  intros Ha Hb [a b] [a' b'] k k' [? ?] [? ?] E. simpl in *. rewrite <-!app_assoc in E.
  apply Ha in E as [-> E]; [|done..]. by apply Hb in E as [-> ->].
Qed.

Lemma list_delimits {A} (valid : A → Prop) enc l l' k k' :
  self_delimiting valid enc → Forall valid l → Forall valid l' → length l = length l' →
  concat (enc <$> l) ++ k = concat (enc <$> l') ++ k' → l = l' ∧ k = k'.
Proof.
  intros He Hl. revert l'. induction Hl as [|a l Ha _ IH]; intros [|a' l'] Hl' Hlen E; try done.
  apply Forall_cons in Hl' as [Ha' Hl']. simpl in E. rewrite <-!app_assoc in E.
  apply He in E as [-> E]; [|done..]. by destruct (IH l' Hl' ltac:(simpl in Hlen; lia) E) as [-> ->].
Qed.

Lemma gpu_type_as_u8_inj g g' : gpu_type_as_u8 g = gpu_type_as_u8 g' → g = g'.
Proof. by destruct g, g'. Qed.

Lemma gpu_type_as_u8_range g : is_u8 (gpu_type_as_u8 g).
Proof. destruct g; simpl; int_lia. Qed.

(** Reads the next field off both sides of [E]. *)
Ltac field_fits :=
  lazymatch goal with
  | |- str_fits _ => assumption
  | |- 0 ≤ gpu_type_as_u8 ?g < _ => pose proof (gpu_type_as_u8_range g); simpl; int_lia
  | |- _ => simpl; int_lia
  end.
Tactic Notation "field" hyp(E) uconstr(lem) "as" simple_intropattern(H) :=
  apply lem in E as [H E]; [|cbn beta; field_fits..].

Lemma identity_preimage_inj rt sn rt' sn' spec spec' :
  spec_fits spec → spec_fits spec' → str_fits rt → str_fits sn → str_fits rt' → str_fits sn' →
  identity_preimage rt sn spec = identity_preimage rt' sn' spec' → spec = spec' ∧ rt = rt' ∧ sn = sn'.
Proof.
  intros S S' Hrt Hsn Hrt' Hsn' E. unfold identity_preimage in E. apply app_inv_head in E.
  destruct S, S'.
  field E (to_be_delimits 8) as Epod. field E (to_be_delimits 8) as Edeployment.
  field E identity_bytes_delimits as Eimage. field E identity_bytes_delimits as Eentry.
  field E (to_be_delimits 2) as Eport. field E (to_be_delimits 1) as Egpus. field E (to_be_delimits 1) as Etype.
  field E (to_be_delimits 4) as Ecpu. field E (to_be_delimits 4) as Ememory.
  field E (to_be_delimits 8) as Ecount.
  apply (list_delimits _ _ _ _ _ _ (pair_delimits _ _ _ _ identity_bytes_delimits identity_bytes_delimits))
    in E as [Eenv E]; [|done|done|lia].
  field E (to_be_delimits 8) as Emcount.
  apply (list_delimits (λ m, str_fits (bm_host_path m) ∧ str_fits (bm_container_path m))) in E as [Emounts E];
    [|intros [h c] [h' c'] k k' [? ?] [? ?] Em; simpl in *; rewrite <-!app_assoc in Em;
      field Em identity_bytes_delimits as ->; field Em identity_bytes_delimits as ->; done|done|done|lia].
  field E identity_bytes_delimits as Ert.
  apply (f_equal (λ b, b ++ [])) in E. field E identity_bytes_delimits as Esn.
  apply gpu_type_as_u8_inj in Etype. split; [|done]. destruct spec, spec'. simpl in *. by subst.
Qed.

(** C21: the identity recorded on a container pins its workload.  If two workloads (pod,
    deployment, image, entrypoint, port, GPUs, CPU, memory, environment, mounts, and the
    containerd runtime and snapshotter they run under) have the same identity then they
    are the same in every field, unless the two encodings collide under SHA-256: no
    ambiguity of the encoding itself can make one workload pass for another. *)
Theorem workload_identity_separates {OS} `{!Host OS} `{!System OS} (r r' : ContainerdRuntime) (spec spec' : PodSpec) :
  spec_fits spec → spec_fits spec' →
  str_fits (cd_runtime_name r) → str_fits (cd_snapshotter r) →
  str_fits (cd_runtime_name r') → str_fits (cd_snapshotter r') →
  workload_identity r spec = workload_identity r' spec' →
  (spec = spec' ∧ cd_runtime_name r = cd_runtime_name r' ∧ cd_snapshotter r = cd_snapshotter r') ∨
  (∃ a b : bytes, a ≠ b ∧ sha256_hex a = sha256_hex b).
Proof.
  intros S S' H1 H2 H3 H4 E. unfold workload_identity in E.
  destruct (decide (identity_preimage (cd_runtime_name r) (cd_snapshotter r) spec =
                    identity_preimage (cd_runtime_name r') (cd_snapshotter r') spec')) as [Ep|Hne]; [|by right; eauto].
  left. by apply identity_preimage_inj in Ep.
Qed.

(** ** The containers of a pod *)

Lemma in_family_spec p id :
  in_family p id = true ↔ id = p ∨ ∃ t, id = p +:+ "-" +:+ t.
Proof.
  unfold in_family. rewrite orb_true_iff, String.eqb_eq, starts_with_split. f_equiv.
  split; intros [t ->]; exists t; by rewrite app_string_assoc.
Qed.

(** Two prefixes without a dash after the common part share no id. *)
Lemma families_disjoint p q id :
  0 ≤ p → 0 ≤ q → in_family (container_id_prefix p) id = true → in_family (container_id_prefix q) id = true → p = q.
Proof.
  intros Hp Hq. rewrite !in_family_spec. unfold container_id_prefix.
  assert (Hfree : ∀ n, 0 ≤ n → free_of "-" (fmt_int n) = true) by (intros; by apply fmt_int_free).
  assert (Hinj : fmt_int p = fmt_int q → p = q).
  { intros E. pose proof (parse_fmt_int (Z.max p q) p ltac:(lia)) as Ep. rewrite E, parse_fmt_int in Ep by lia.
    congruence. }
  assert (Hno : ∀ s t u, free_of "-" s = true → s = t +:+ ("-" +:+ u) → False).
  { intros s t u Hs ->. induction t as [|c t IH]; [done|]. cbn [append free_of] in Hs.
    apply andb_true_iff in Hs as [_ Hs]. by apply IH. }
  intros [->|[t ->]] [E|[u E]]; rewrite ?app_string_assoc in E; apply prefix_inj in E.
  - by apply Hinj.
  - by apply Hno in E; [|apply Hfree].
  - symmetry in E. by apply Hno in E; [|apply Hfree].
  - apply separator_inj in E as [E _]; [by apply Hinj|by apply Hfree..].
Qed.

(** The ids a listing shows for a pod are in its family, at most so many. *)
Lemma ids_with_prefix_family listing p n id : id ∈ ids_with_prefix listing p n → in_family p id = true.
Proof. intros (i & Hid & _)%elem_of_take. apply list_elem_of_lookup_2, list_elem_of_filter in Hid. by destruct Hid. Qed.

(** ** Redaction *)

(** Redaction replaces the user name before the password, so a password that
    contains the user name is not found any more: its remainder stays in the message.
    With the password replaced first nothing of it is left. *)
Theorem redaction_leaks_password_with_username :
  let auth := mkImagePullAuth "registry.example" "bot" "bot-s3cret" in
  redact (redactions_of auth) "denied: bot-s3cret" = "denied: [REDACTED]-s3cret"%string ∧
  redact [ipa_password auth; ipa_username auth] "denied: bot-s3cret" = "denied: [REDACTED]"%string.
Proof. split; vm_compute; reflexivity. Qed.
