(* ===== verification/ContainerdSafety.v ===== *)
(** * The containerd runtime verifies what it answers

    Cleaning up, adopting and stopping are answered [Ok] only on evidence read from
    containerd, and touch nothing but the containers of the pod they are about. *)

From S2P Require Import Prelude Types RustStr RustParse Traits System Http Containerd ContainerdText.

Section rules.
  Context {OS : Type} `{!Host OS} `{!System OS}.
  Implicit Types (os : OS) (r : ContainerdRuntime).
  Abbreviation St := (ContainerdRuntime * OS)%type.

Lemma wp_cd_sys {A} P (f : OS → A * OS) (Q : A → St → Prop) r os :
  Q (f os).1 (r, (f os).2) → wp P (cd_sys f) Q (r, os).
Proof. unfold wp, cd_sys. simpl. by destruct (f os). Qed.

Lemma wp_cd_get P (Q : ContainerdRuntime → St → Prop) r os : Q r (r, os) → wp P cd_get Q (r, os).
Proof. done. Qed.

(** A call of [ctr] returns, in the state its command left. *)
Lemma run_ctr_duration_done args t reds r os :
  t ≠ 0 → ∃ res ms, run_ctr_duration args t reds (r, os) =
                    Done (res, (r, (command_output (ctr_command r ms args) os).2)).
Proof.
  intros Ht. exists (fst (match run_ctr_duration args t reds (r, os) with
                          | Done x => x | Panic e => (Err e, (r, os)) end)), (clamp 1 U64_MAX (as_millis t)).
  unfold run_ctr_duration, assert. rewrite (proj2 (Z.eqb_neq _ _) Ht). cbn [negb].
  unfold try_bind, map_err, cd_get, cd_sys, bind, ret. cbn [snd fst].
  destruct (command_output _ os) as [[output|e] os']; simpl; [|reflexivity].
  by destruct (co_success output).
Qed.

Lemma run_ctr_until_done args deadline r os :
  ∃ res os', run_ctr_until args deadline (r, os) = Done (res, (r, os')) ∧
    (os' = (instant_now os).2 ∨ ∃ ms, os' = (command_output (ctr_command r ms args) (instant_now os).2).2).
Proof.
  unfold run_ctr_until, bind at 1, cd_sys. cbn [snd fst]. destruct (instant_now os) as [now os1]. cbn [fst snd].
  destruct (Z.eqb_spec (saturating_duration_since deadline now) 0) as [|Hne]; [by eexists _, _; split; [|left]|].
  destruct (run_ctr_duration_done args _ [] r os1 Hne) as (res & ms & E). rewrite E.
  eexists _, _. split; [done|]. right. by exists ms.
Qed.

Lemma run_ctr_done args r os :
  ∃ res ms, run_ctr args (r, os) = Done (res, (r, (command_output (ctr_command r ms args) os).2)).
Proof. by apply run_ctr_duration_done. Qed.

Lemma wp_run_ctr_until P args deadline (Q : _ → St → Prop) r os :
  (∀ res os', run_ctr_until args deadline (r, os) = Done (res, (r, os')) → Q res (r, os')) →
  wp P (run_ctr_until args deadline) Q (r, os).
Proof.
  intros HQ. destruct (run_ctr_until_done args deadline r os) as (res & os' & E & _). unfold wp. rewrite E.
  by apply HQ.
Qed.

Lemma wp_run_ctr P args (Q : _ → St → Prop) r os :
  (∀ res os', run_ctr args (r, os) = Done (res, (r, os')) → Q res (r, os')) → wp P (run_ctr args) Q (r, os).
Proof.
  intros HQ. destruct (run_ctr_done args r os) as (res & os' & E). unfold wp. rewrite E. by apply HQ.
Qed.

(** ** Cleaning up *)

Definition tasks_list : list string := ["tasks"; "list"]%string.
Definition containers_list : list string := ["containers"; "list"]%string.

(** The last three looks before [Ok]: no task, no container, no shim directory. *)
Definition seen_gone (r : ContainerdRuntime) (id : string) (deadline : Z) (os' : OS) : Prop :=
  ∃ os1 os2 os3 tasks containers,
    run_ctr_until tasks_list deadline (r, os1) = Done (Ok tasks, (r, os2)) ∧
    run_ctr_until containers_list deadline (r, os2) = Done (Ok containers, (r, os3)) ∧
    (id ∉ first_columns tasks) ∧ (id ∉ first_columns containers) ∧
    path_exists (task_shim_dir r id) os3 = (false, os').

Lemma listing_lacks listing id : listing_contains_exact_id listing id = false ↔ id ∉ first_columns listing.
Proof.
  unfold listing_contains_exact_id. rewrite <-not_true_iff_false, existsb_exists. f_equiv. split.
  - intros (x & Hx%list_elem_of_In & ->%String.eqb_eq). done.
  - intros Hx. exists id. split; [by apply list_elem_of_In|apply String.eqb_refl].
Qed.

Lemma cleanup_task_state_until_ok id deadline r os :
  wp no_panic (cleanup_task_state_until id deadline)
    (λ res s', s'.1 = r ∧ match res with
                          | Ok _ => seen_gone r id deadline s'.2
                          | Err e => ∃ m, e = EContainerStop m
                          end) (r, os).
Proof.
  unfold cleanup_task_state_until. do 3 (wp_step; apply wp_run_ctr_until; intros ? ? _).
  wp_step. apply wp_cd_get. cbv zeta. wp_step. apply wp_cd_sys. cbv zeta.
  apply wp_try_bind, wp_map_err, wp_run_ctr_until. intros [tasks|e] os2 E2; [|by split; [|eexists]].
  apply wp_try_bind, wp_map_err, wp_run_ctr_until. intros [containers|e] os3 E3; [|by split; [|eexists]].
  cbn [result_map_err]. wp_step. apply wp_cd_sys.
  destruct (listing_contains_exact_id tasks id) eqn:Et; [by apply wp_ret; split; [|eexists]|].
  destruct (listing_contains_exact_id containers id) eqn:Ec; [by apply wp_ret; split; [|eexists]|].
  destruct (path_exists (task_shim_dir r id) os3) as [[] os4] eqn:Ep; [by apply wp_ret; split; [|eexists]|].
  apply wp_ret. split; [done|]. apply listing_lacks in Et, Ec. by eexists _, os2, os3, tasks, containers.
Qed.

Lemma cleanup_task_state_ok id r os :
  wp no_panic (cleanup_task_state id)
    (λ res s', s'.1 = r ∧ match res with
                          | Ok _ => ∃ deadline, seen_gone r id deadline s'.2
                          | Err e => ∃ m, e = EContainerStop m
                          end) (r, os).
Proof.
  unfold cleanup_task_state. wp_step. apply wp_cd_sys. eapply wp_mono; [apply cleanup_task_state_until_ok|].
  intros [] s' [? ?]; split; eauto.
Qed.

(** ** What cleaning up touches *)

(** The calls that concern only ids in [owns]. *)
Inductive ctr_about (owns : string → Prop) : list string → Prop :=
| about_tasks : ctr_about owns tasks_list
| about_containers : ctr_about owns containers_list
| about_kill sig id : owns id → ctr_about owns ["tasks"; "kill"; "--signal"; sig; id]%string
| about_task_delete id : owns id → ctr_about owns ["tasks"; "delete"; "--force"; id]%string
| about_container_delete id : owns id → ctr_about owns ["containers"; "delete"; id]%string.

(** [R] relates the system before and after calls that concern only ids in [owns]:
    whatever such calls leave alone can be read off an [R]. *)
Record untouched (r : ContainerdRuntime) (owns : string → Prop) (R : relation OS) : Prop := {
  ut_preorder :: PreOrder R;
  ut_clock os : R os (instant_now os).2;
  ut_ctr args ms os : ctr_about owns args → R os (command_output (ctr_command r ms args) os).2;
  ut_shim_remove id os : owns id → R os (remove_dir_all (task_shim_dir r id) os).2;
  ut_shim_exists id os : owns id → R os (path_exists (task_shim_dir r id) os).2
}.

Section untouched.
  Context (r : ContainerdRuntime) (owns : string → Prop) (R : relation OS) (UT : untouched r owns R).

Lemma ctr_until_untouched args deadline os res os' :
  ctr_about owns args → run_ctr_until args deadline (r, os) = Done (res, (r, os')) → R os os'.
Proof using UT.
  intros Ha E. destruct UT. destruct (run_ctr_until_done args deadline r os) as (res' & os'' & E' & H).
  rewrite E in E'. injection E' as -> <-. destruct H as [->|[ms ->]]; [done|].
  etrans; [apply ut_clock0|]. by apply ut_ctr0.
Qed.

Lemma ctr_untouched args os res os' :
  ctr_about owns args → run_ctr args (r, os) = Done (res, (r, os')) → R os os'.
Proof using UT.
  intros Ha E. destruct (run_ctr_done args r os) as (res' & ms & E'). rewrite E in E'. injection E' as -> ->.
  by apply UT.
Qed.

Lemma cleanup_task_state_untouched id os :
  owns id → wp no_panic (cleanup_task_state id) (λ _ s', s'.1 = r ∧ R os s'.2) (r, os).
Proof using UT.
  intros Ho. pose proof (ut_preorder _ _ _ UT) as PO.
  unfold cleanup_task_state. wp_step. apply wp_cd_sys. pose proof (ut_clock _ _ _ UT os) as R0.
  generalize ((instant_now os).1 + from_secs (CTR_TIMEOUT_SECS * 5)). revert R0. generalize ((instant_now os).2).
  intros os0 R0 deadline. unfold cleanup_task_state_until.
  wp_step. apply wp_run_ctr_until. intros k os1 E1%ctr_until_untouched; [|by constructor].
  wp_step. apply wp_run_ctr_until. intros d os2 E2%ctr_until_untouched; [|by constructor].
  wp_step. apply wp_run_ctr_until. intros c os3 E3%ctr_until_untouched; [|by constructor].
  wp_step. apply wp_cd_get. cbv zeta. wp_step. apply wp_cd_sys. cbv zeta.
  pose proof (ut_shim_remove _ _ _ UT id os3 Ho) as R4. revert R4.
  generalize (remove_dir_all (task_shim_dir r id) os3). intros [sh os4] R4. cbn [fst snd] in *.
  assert (R os os4) by (do 4 (etrans; [eassumption|]); done).
  apply wp_try_bind, wp_map_err, wp_run_ctr_until. intros tasks os5 E5%ctr_until_untouched; [|by constructor].
  assert (R os os5) by by etrans.
  destruct tasks as [tasks|e]; [|by split]. cbn [result_map_err].
  apply wp_try_bind, wp_map_err, wp_run_ctr_until. intros cs os6 E6%ctr_until_untouched; [|by constructor].
  assert (R os os6) by by etrans.
  destruct cs as [cs|e]; [|by split]. cbn [result_map_err].
  wp_step. apply wp_cd_sys. pose proof (ut_shim_exists _ _ _ UT id os6 Ho).
  destruct (_ || _ || _); apply wp_ret; split; try done; by etrans.
Qed.

Lemma cleanup_all_untouched ids os :
  Forall owns ids → wp no_panic (cleanup_all ids) (λ _ s', s'.1 = r ∧ R os s'.2) (r, os).
Proof using UT.
  pose proof (ut_preorder _ _ _ UT) as PO.
  intros Hids. revert os. induction Hids as [|id ids Hid _ IH]; intros os; cbn [cleanup_all]; [by split|].
  apply wp_try_bind. eapply wp_mono; [by apply cleanup_task_state_untouched|].
  intros [[]|e] [r' os'] [Hr HR]; simpl in Hr, HR; subst r'; [|done].
  eapply wp_mono; [apply IH|]. intros ? s' [? ?]. split; [done|by etrans].
Qed.

End untouched.

Lemma merge_ids_Forall P ids more ids' :
  Forall P ids → Forall P more → merge_ids ids more = Some ids' → Forall P ids'.
Proof.
  intros Hi Hm. revert ids Hi. induction Hm as [|id more Hid _ IH]; intros ids Hi; cbn [merge_ids].
  - by intros [= <-].
  - case_bool_decide; [by apply IH|]. destruct (_ <=? _)%nat; [done|]. apply IH.
    apply Forall_app; split; [done|]. by constructor.
Qed.

Lemma cleanup_family_untouched pod r R os :
  untouched r (λ id, in_family (container_id_prefix pod) id = true) R →
  wp no_panic (cleanup_container_family pod) (λ _ s', s'.1 = r ∧ R os s'.2) (r, os).
Proof.
  intros UT. pose proof (ut_preorder _ _ _ UT) as PO. unfold cleanup_container_family. cbv zeta.
  apply wp_try_bind, wp_map_err, wp_run_ctr. intros tasks os1 E1.
  apply (ctr_untouched _ _ _ UT) in E1; [|constructor]. destruct tasks as [tasks|]; [|done].
  apply wp_try_bind, wp_map_err, wp_run_ctr. intros cs os2 E2.
  apply (ctr_untouched _ _ _ UT) in E2; [|constructor].
  assert (R os os2) by by etrans. destruct cs as [cs|]; [|done]. cbn [result_map_err].
  destruct (_ || _); [by apply wp_ret|]. destruct (merge_ids _ _) as [ids|] eqn:Em; [|by apply wp_ret].
  eapply wp_mono; [apply (cleanup_all_untouched _ _ _ UT)|].
  - eapply merge_ids_Forall, Em; apply Forall_forall; intros id; apply ids_with_prefix_family.
  - intros ? s' [? ?]. split; [done|by etrans].
Qed.

(** C16: cleaning up before a pod is created stays within the pod.  Whatever containerd
    and the file system hold, [cleanup_container_family pod] ends, and every command and
    file operation it makes concerns ids of that pod's family only; the families of
    distinct pods share no id (pod 1 does not take pod 12's containers for its own). *)
Theorem cleanup_confined_to_pod (pod : Z) (r : ContainerdRuntime) (R : relation OS) (os : OS) :
  0 ≤ pod → untouched r (λ id, in_family (container_id_prefix pod) id = true) R →
  (∃ res os', cleanup_container_family pod (r, os) = Done (res, (r, os')) ∧ R os os') ∧
  (∀ other id, 0 ≤ other → other ≠ pod → in_family (container_id_prefix other) id = true →
     in_family (container_id_prefix pod) id = false).
Proof.
  intros Hpod UT. split.
  - destruct (proj1 (wp_run _ _ _ _) (cleanup_family_untouched pod r R os UT))
      as [(res & [r' os'] & E & Hr & HR)|(e & _ & [])].
    simpl in Hr, HR. subst r'. by exists res, os'.
  - intros other id Ho Hne Hin. destruct (in_family (container_id_prefix pod) id) eqn:E; [|done].
    exfalso. apply Hne. by eapply families_disjoint.
Qed.

(** ** Adopting and creating *)

Definition adoptable_in (tasks : string) (id : string) : Prop :=
  task_status_from_listing tasks id = Some PRunning ∨ task_status_from_listing tasks id = Some PCreated.

Lemma adoptable_bool tasks id :
  match task_status_from_listing tasks id with Some status => task_adoptable status | None => false end = true ↔
  adoptable_in tasks id.
Proof.
  unfold adoptable_in. destruct (task_status_from_listing tasks id) as [[]|]; simpl; intuition congruence.
Qed.

Lemma ids_with_prefix_all listing p n id :
  (length (ids_with_prefix listing p (n + 1)) ≤ n)%nat →
  id ∈ ids_with_prefix listing p (n + 1) ↔ in_family p id = true ∧ id ∈ first_columns listing.
Proof.
  unfold ids_with_prefix. rewrite length_take. intros Hn. rewrite take_ge by lia.
  by rewrite list_elem_of_filter.
Qed.

(** The candidate is the only container of the pod with a live task. *)
Lemma adoptable_candidate pod tasks containers id :
  adoptable_container_id_from_listings pod tasks containers = Ok (Some id) →
  ∀ id', id' = id ↔ in_family (container_id_prefix pod) id' = true ∧ id' ∈ first_columns tasks ∧
                    id' ∈ first_columns containers ∧ adoptable_in tasks id'.
Proof.
  unfold adoptable_container_id_from_listings. cbv zeta.
  destruct (_ || _) eqn:El; [done|]. apply orb_false_iff in El as [Ht%Nat.ltb_ge Hc%Nat.ltb_ge].
  destruct (adoptable_ids _ _ _) as [|c [|]] eqn:Ea; [done| |done]. intros [= ->] id'.
  rewrite <-list_elem_of_singleton, <-Ea. unfold adoptable_ids. rewrite list_elem_of_filter, andb_true_iff, bool_decide_eq_true.
  rewrite adoptable_bool, !ids_with_prefix_all by done. tauto.
Qed.

(** What the worker saw before it adopted [id] for [spec]. *)
Definition adopted (r : ContainerdRuntime) (spec : PodSpec) (id : string) (os os' : OS) : Prop :=
  ∃ os1 os2 tasks containers info,
    run_ctr tasks_list (r, os) = Done (Ok tasks, (r, os1)) ∧
    run_ctr containers_list (r, os1) = Done (Ok containers, (r, os2)) ∧
    run_ctr ["containers"; "info"; id]%string (r, os2) = Done (Ok info, (r, os')) ∧
    workload_identity_from_container_info info = Ok (workload_identity r spec) ∧
    (∀ id', id' = id ↔ in_family (container_id_prefix (ps_pod_id spec)) id' = true ∧
       id' ∈ first_columns tasks ∧ id' ∈ first_columns containers ∧ adoptable_in tasks id').

Lemma find_adoptable_ok spec r os :
  wp no_panic (find_adoptable_container spec)
    (λ res s', s'.1 = r ∧ match res with Ok (Some id) => adopted r spec id os s'.2 | _ => True end) (r, os).
Proof.
  unfold find_adoptable_container. cbv zeta.
  apply wp_try_bind, wp_map_err, wp_run_ctr. intros [tasks|] os1 E1; [|done]. cbn [result_map_err].
  apply wp_try_bind, wp_map_err, wp_run_ctr. intros [containers|] os2 E2; [|done]. cbn [result_map_err].
  apply wp_try_bind, wp_ret. destruct (adoptable_container_id_from_listings _ _ _) as [[id|]|] eqn:Ea; try done.
  apply wp_try_bind, wp_map_err, wp_run_ctr. intros [info|] os3 E3; [|done]. cbn [result_map_err].
  apply wp_try_bind, wp_ret. destruct (workload_identity_from_container_info info) as [actual|] eqn:Ei; [|done].
  wp_step. apply wp_cd_get. destruct (String.eqb_spec actual (workload_identity r spec)) as [->|]; [|by apply wp_ret].
  apply wp_ret. split; [done|]. exists os1, os2, tasks, containers, info. split_and!; try done.
  by eapply adoptable_candidate.
Qed.

Definition with_sequence (n : Z) (r : ContainerdRuntime) : ContainerdRuntime :=
  mkContainerdRuntime (cd_socket_path r) (cd_namespace r) (cd_runtime_name r) (cd_snapshotter r) n (cd_auth_sequence r).

(** The container was created under a new name, by this command. *)
Definition created (r r' : ContainerdRuntime) (spec : PodSpec) (id : string) (os' : OS) : Prop :=
  r' = with_sequence (cd_container_sequence r + 1) r ∧
  id = sequenced_id (ps_pod_id spec) (cd_container_sequence r + 1) ∧
  ∃ os1 os2 output, run_ctr (create_args r' spec id) (r', os1) = Done (Ok output, (r', os2)) ∧
    apply_cgroup_limits spec id (r', os2) = Done (tt, (r', os')).

Lemma apply_cgroup_limits_done spec id r os :
  ∃ os', apply_cgroup_limits spec id (r, os) = Done (tt, (r, os')).
Proof.
  unfold apply_cgroup_limits, when. cbv zeta.
  destruct (0 <? ps_cpu_millicores spec), (0 <? ps_memory_megabytes spec);
    unfold bind, cd_sys, ret; cbn [fst snd];
    repeat (destruct (fs_write _ _ _) as [? ?]; cbn [fst snd]); eauto.
Qed.

Lemma cd_create_pod_ok spec r os :
  0 ≤ cd_container_sequence r < U64_MAX →
  wp no_panic (cd_create_pod spec) (λ res s',
    match res with
    | Ok h => ps_gpu_count spec ≤ 0 ∧ ph_pod_id h = ps_pod_id spec ∧
              in_family (container_id_prefix (ps_pod_id spec)) (ph_container_id h) = true ∧
              (s'.1 = r ∧ adopted r spec (ph_container_id h) os s'.2 ∨ created r s'.1 spec (ph_container_id h) s'.2)
    | Err _ => s'.1 = r ∨ s'.1 = with_sequence (cd_container_sequence r + 1) r
    end) (r, os).
Proof.
  intros Hseq. unfold cd_create_pod. destruct (Z.ltb_spec 0 (ps_gpu_count spec)); [by apply wp_ret; left|].
  apply wp_try_bind. eapply wp_mono; [apply find_adoptable_ok|].
  intros [[id|]|e] [r1 os1] [Hr Ha]; simpl in Hr, Ha; subst r1; [| |by left].
  { apply wp_ret. cbn [ph_pod_id ph_container_id fst snd]. split_and!; [done|done| |by left].
    destruct Ha as (? & ? & ? & ? & ? & _ & _ & _ & _ & Hid). by apply Hid. }
  apply wp_try_bind. eapply wp_mono; [apply (cleanup_family_untouched _ _ (λ _ _, True)); by repeat split|].
  intros [[]|e] [r2 os2] [Hr _]; simpl in Hr; subst r2; [|by left].
  wp_step. unfold next_container_id. wp_step. apply wp_cd_get. wp_step. unfold wp at 1. cbn [fst snd].
  wp_step. apply wp_add_overflow; [lia|]. apply wp_ret.
  rewrite (Z.mod_small (cd_container_sequence r + 1)) by (change (2 ^ 64) with (U64_MAX + 1); lia).
  change (mkContainerdRuntime _ _ _ _ _ _) with (with_sequence (cd_container_sequence r + 1) r).
  wp_step. apply wp_cd_get. apply wp_try_bind, wp_map_err, wp_run_ctr.
  intros [output|e] os3 E3; cbn [result_map_err]; [|by right].
  wp_step. destruct (apply_cgroup_limits_done spec (sequenced_id (ps_pod_id spec) (cd_container_sequence r + 1))
    (with_sequence (cd_container_sequence r + 1) r) os3) as [os4 E4]. unfold wp at 1. rewrite E4.
  apply wp_ret. cbn [ph_pod_id ph_container_id fst snd]. split_and!; [done|done| |right].
  - apply in_family_spec. right. by eexists.
  - split; [done|]. split; [done|]. by exists os2, os3, output.
Qed.

(** C15: [create_pod] of the containerd runtime gives a pod a container of its own.  It
    always returns; a workload with GPUs is refused.  [Ok] is a container of the pod's
    family: either one that was there, the only one of the family with a created or
    running task, whose recorded identity is that of exactly this workload, or one
    newly created from the workload under a sequence number used for nothing else. *)
Theorem create_pod_adopts_or_creates (spec : PodSpec) (r : ContainerdRuntime) (os : OS) :
  0 ≤ cd_container_sequence r < U64_MAX →
  ∃ res r' os', cd_create_pod spec (r, os) = Done (res, (r', os')) ∧
    match res with
    | Ok h => ps_gpu_count spec ≤ 0 ∧ ph_pod_id h = ps_pod_id spec ∧
              in_family (container_id_prefix (ps_pod_id spec)) (ph_container_id h) = true ∧
              (r' = r ∧ adopted r spec (ph_container_id h) os os' ∨ created r r' spec (ph_container_id h) os')
    | Err _ => r' = r ∨ r' = with_sequence (cd_container_sequence r + 1) r
    end.
Proof.
  intros Hseq. destruct (proj1 (wp_run _ _ _ _) (cd_create_pod_ok spec r os Hseq))
    as [(res & [r' os'] & E & H)|(e & _ & [])]. by exists res, r', os'.
Qed.

End rules.

(** ** Stopping *)

Section stopping.
  Context {OS : Type} `{!Host OS} `{!System OS} `{LAWS : !SystemLaws OS}.
  Implicit Types (os : OS) (r : ContainerdRuntime).

Lemma ctr_until_later args deadline r os res os' :
  run_ctr_until args deadline (r, os) = Done (res, (r, os')) → later os os'.
Proof.
  intros E. destruct (run_ctr_until_done args deadline r os) as (res' & os'' & E' & H).
  rewrite E in E'. injection E' as -> <-. destruct H as [->|[ms ->]]; [apply instant_now_adv|].
  etrans; [apply instant_now_adv|apply command_output_adv].
Qed.

Lemma wp_cd_instant_now (Q : Z → ContainerdRuntime * OS → Prop) r os :
  (∀ now os', later os os' → clock os ≤ now ≤ clock os' → Q now (r, os')) →
  wp no_panic (cd_sys instant_now) Q (r, os).
Proof. intros HQ. apply wp_cd_sys, HQ; [apply instant_now_adv|apply instant_now_law]. Qed.

(** The listing that showed the task stopped, and nothing after it. *)
Definition seen_stopped (r : ContainerdRuntime) (id : string) (deadline : Z) (os' : OS) : Prop :=
  ∃ os1 listing code, run_ctr_until tasks_list deadline (r, os1) = Done (Ok listing, (r, os')) ∧
    task_status_from_listing listing id = Some (PStopped code).

Lemma pod_status_until_ok h deadline r os :
  wp no_panic (cd_pod_status_until h deadline)
    (λ res s', s'.1 = r ∧ later os s'.2 ∧
               (is_stopped res = true → seen_stopped r (ph_container_id h) deadline s'.2)) (r, os).
Proof.
  unfold cd_pod_status_until. apply wp_try_bind, wp_map_err, wp_run_ctr_until. intros [listing|e] os1 E1.
  - cbn [result_map_err]. apply wp_ret. split; [done|]. split; [by eapply ctr_until_later|].
    unfold status_or_unknown. destruct (task_status_from_listing listing (ph_container_id h)) as [[]|] eqn:Es; try done.
    intros _. by eexists _, listing, _.
  - split; [done|]. split; [by eapply ctr_until_later|done].
Qed.

Lemma await_stopped_ok fuel n h grace_deadline deadline r os :
  grace_deadline - clock os ≤ Z.of_nat n * (100 * NANOS_PER_MILLI) → (n < fuel)%nat →
  wp no_panic (await_stopped fuel h grace_deadline deadline)
    (λ res s', s'.1 = r ∧ later os s'.2 ∧
               (res = true → seen_stopped r (ph_container_id h) deadline s'.2)) (r, os).
Proof.
  revert n os. induction fuel as [|fuel IH]; intros n os Hr Hf; [lia|]. cbn [await_stopped].
  wp_step. eapply wp_mono; [apply pod_status_until_ok|]. intros status [r1 os1] (E & L1 & Hs). simpl in E, L1, Hs.
  subst r1. destruct (is_stopped status) eqn:Est.
  { apply wp_ret. split; [done|]. split; [done|]. intros _. by apply Hs. }
  wp_step. apply wp_cd_instant_now. intros now os2 L2 T2. pose proof (later_clock _ _ L1).
  destruct (Z.leb_spec grace_deadline now).
  { apply wp_ret. split; [done|]. split; [by etrans|done]. }
  wp_step. apply wp_cd_sys. cbn [fst snd].
  pose proof (sleep_law (Z.min (grace_deadline - now) (100 * NANOS_PER_MILLI)) os2) as T3.
  pose proof (sleep_adv (Z.min (grace_deadline - now) (100 * NANOS_PER_MILLI)) os2 : later _ _) as L3.
  unfold NANOS_PER_MILLI in *.
  eapply wp_mono; [apply (IH (n - 1)%nat); [|]|]; [|lia|].
  - destruct n as [|n]; [lia|]. replace (S n - 1)%nat with n by lia. lia.
  - intros res s' (? & L4 & ?). split; [done|]. split; [|done].
    etrans; [exact L1|]. etrans; [exact L2|]. by etrans.
Qed.

Lemma cd_stop_pod_until_ok h grace deadline r os :
  wp no_panic (cd_stop_pod_until h grace deadline)
    (λ res s', s'.1 = r ∧ match res with
                          | Ok _ => seen_stopped r (ph_container_id h) deadline s'.2
                          | Err e => ∃ m, e = EContainerStop m
                          end) (r, os).
Proof.
  unfold cd_stop_pod_until. cbv zeta. wp_step. apply wp_run_ctr_until. intros term os1 E1.
  wp_step. apply wp_cd_instant_now. intros now os2 L2 T2. wp_step.
  eapply wp_mono; [apply (await_stopped_ok _ 300)|].
  { unfold MAX_STOP_GRACE_MS, NANOS_PER_MILLI. lia. }
  { unfold STOP_FUEL. lia. }
  intros stopped [r3 os3] (E & _ & Hs). simpl in E, Hs. subst r3.
  destruct stopped; [by apply wp_ret; split; [|apply Hs]|].
  wp_step. apply wp_run_ctr_until. intros kill os4 _.
  wp_step. eapply wp_mono; [apply pod_status_until_ok|]. intros status [r5 os5] (E & _ & Hs5). simpl in E, Hs5.
  subst r5. cbv zeta. destruct status as [[]|e]; apply wp_ret; split; try done; try by eexists. by apply Hs5.
Qed.

(** C14: stopping and removing a container are verified.  Whatever containerd answers,
    [stop_pod_until] ends (the polls are bounded by the grace period) without a panic,
    and answers [Ok] only when the last thing it saw was a listing with the task stopped;
    [remove_pod_until] answers [Ok] only when the last things it saw were listings
    without the task and without the container, and no shim directory.  Every other end
    is a [ContainerStop] error. *)
Theorem containerd_stop_and_remove (h : PodHandle) (grace deadline : Z) (r : ContainerdRuntime) (os : OS) :
  (∃ res os', cd_stop_pod_until h grace deadline (r, os) = Done (res, (r, os')) ∧
     match res with
     | Ok _ => seen_stopped r (ph_container_id h) deadline os'
     | Err e => ∃ m, e = EContainerStop m
     end) ∧
  (∃ res os', cd_remove_pod_until h deadline (r, os) = Done (res, (r, os')) ∧
     match res with
     | Ok _ => seen_gone r (ph_container_id h) deadline os'
     | Err e => ∃ m, e = EContainerStop m
     end).
Proof.
  split.
  - destruct (proj1 (wp_run _ _ _ _) (cd_stop_pod_until_ok h grace deadline r os))
      as [(res & [r' os'] & E & Hr & H)|(e & _ & [])]. simpl in Hr. subst r'. by exists res, os'.
  - destruct (proj1 (wp_run _ _ _ _) (cleanup_task_state_until_ok (ph_container_id h) deadline r os))
      as [(res & [r' os'] & E & Hr & H)|(e & _ & [])]. simpl in Hr. subst r'. by exists res, os'.
Qed.

End stopping.

(** ** Registry credentials on disk *)

Section credentials.
  Context {OS : Type} `{!Host OS} `{!System OS}.
  Implicit Types (os : OS) (r : ContainerdRuntime).

(** [clean]: no credentials on disk; [only d]: none outside the directory [d].  What the
    file system promises about them. *)
Record credential_store (clean : OS → Prop) (only : string → OS → Prop) : Prop := {
  cs_command args os : clean os → clean (command_output args os).2;
  cs_create d os : clean os → only d (create_dir d os).2;
  cs_create_failed d os e : clean os → (create_dir d os).1 = Err e → clean (create_dir d os).2;
  cs_permissions d mode os : only d os → only d (set_permissions d mode os).2;
  cs_create_inside d name os : only d os → only d (create_dir (path_join d name) os).2;
  cs_open_inside d name file mode os : only d os → only d (open_new (path_join (path_join d name) file) mode os).2;
  cs_write d file b os : only d os → only d (file_write_all file b os).2;
  cs_sync d file os : only d os → only d (file_sync file os).2;
  cs_command_only d args os : only d os → only d (command_output args os).2;
  cs_remove d os : only d os → (remove_dir_all d os).1 = Ok tt → clean (remove_dir_all d os).2;
  cs_remove_failed d os : only d os → only d (remove_dir_all d os).2
}.

Context (clean : OS → Prop) (only : string → OS → Prop) (CS : credential_store clean only).

(** No credentials, or the removal of the directory that holds them has just failed. *)
Definition cleaned (os : OS) : Prop :=
  clean os ∨ ∃ dir before e, only dir before ∧ remove_dir_all dir before = (Err e, os) ∧ only dir os.

Lemma cleaned_remove dir os : only dir os → cleaned (remove_dir_all dir os).2.
Proof using CS.
  intros Ho. pose proof (cs_remove _ _ CS dir os Ho) as Hr. pose proof (cs_remove_failed _ _ CS dir os Ho) as Hf.
  destruct (remove_dir_all dir os) as [[[]|e] os'] eqn:E; cbn [fst snd] in *; [left; by apply Hr|].
  right. by exists dir, os, e.
Qed.

(** A step that is undone when it fails. *)
Lemma wp_or_undo {A B} dir message (m : OS → result A string * OS)
    (k : A → M (ContainerdRuntime * OS) (result B RuntimeError)) Q r os :
  (∀ os, only dir os → only dir (m os).2) → only dir os →
  (∀ a os', only dir os' → wp no_panic (k a) Q (r, os')) →
  (∀ e os', cleaned os' → Q (Err e) (r, os')) →
  wp no_panic (try_bind (let* res := cd_sys m in
                         match res with
                         | Ok a => succeed a
                         | Err e => let* _ := cd_sys (remove_dir_all dir) in fail (EImagePull (message +:+ e))
                         end) k) Q (r, os).
Proof using CS.
  intros Hm Ho Hk He. apply wp_try_bind. wp_step. apply wp_cd_sys. specialize (Hm os Ho).
  destruct (m os) as [[a|e] os1]; cbn [fst snd] in *.
  - apply wp_ret. by apply Hk.
  - wp_step. apply wp_cd_sys. apply wp_ret. apply He. by apply cleaned_remove.
Qed.

Lemma prepare_registry_hosts_ok auth r os :
  clean os →
  wp no_panic (prepare_registry_hosts auth)
    (λ res s', match res with Ok dir => only dir s'.2 | Err _ => cleaned s'.2 end) (r, os).
Proof using CS.
  intros Hc. unfold prepare_registry_hosts. apply wp_try_bind, wp_ret.
  destruct (registry_hosts_toml auth) as [config|]; [|by left]. wp_step. apply wp_cd_get. cbv zeta.
  wp_step. unfold wp at 1. cbn [fst snd]. wp_step. unfold wp at 1. cbn [fst snd].
  set (r1 := mkContainerdRuntime _ _ _ _ _ _). generalize (path_join (temp_dir os)
    ("hivemind-registry-auth-" +:+ fmt_int (process_id os) +:+ "-" +:+ fmt_int (cd_auth_sequence r))).
  intros dir. apply wp_try_bind, wp_map_err, wp_cd_sys.
  pose proof (cs_create _ _ CS dir os Hc) as Ho. pose proof (λ e, cs_create_failed _ _ CS dir os e Hc) as Hf.
  destruct (create_dir dir os) as [[[]|e] os1]; cbn [fst snd result_map_err] in *; [|left; by eapply Hf]. clear Hf.
  apply wp_or_undo; [intros; by apply CS|done| |done]. intros _ os2 H2.
  apply wp_or_undo; [intros; by apply CS|done| |done]. intros _ os3 H3.
  apply wp_or_undo; [intros; by apply CS|done| |done]. intros file os4 H4.
  apply wp_or_undo; [intros; by apply CS|done| |done]. intros _ os5 H5.
  apply wp_or_undo; [intros; by apply CS|done| |done]. intros _ os6 H6.
  by apply wp_ret.
Qed.

Lemma pull_with_hosts_keeps (P : OS → Prop) image hosts reds r os :
  (∀ args os, P os → P (command_output args os).2) → P os →
  wp no_panic (pull_with_hosts image hosts reds) (λ _ s', P s'.2) (r, os).
Proof.
  intros HP Hos. unfold pull_with_hosts. wp_step. apply wp_cd_get. wp_step.
  destruct (run_ctr_duration_done (pull_image_args r image hosts None) (from_secs 300) reds r os) as (res & ms & E);
    [done|]. unfold wp at 1. rewrite E. pose proof (HP (ctr_command r ms (pull_image_args r image hosts None)) os Hos) as H1.
  destruct res as [|e]; [by apply wp_ret|]. destruct (contains _ e); [|by apply wp_ret].
  wp_step. revert H1. generalize ((command_output (ctr_command r ms (pull_image_args r image hosts None)) os).2).
  intros os1 H1.
  destruct (run_ctr_duration_done (pull_image_args r image hosts (Some default_platform)) (from_secs 300) reds r os1)
    as (res & ms2 & E2); [done|]. unfold wp at 1. rewrite E2.
  pose proof (HP (ctr_command r ms2 (pull_image_args r image hosts (Some default_platform))) os1 H1) as H2.
  destruct res as [|e2]; [by apply wp_ret|]. wp_step. unfold image_present. apply wp_try_bind.
  match goal with |- wp _ _ _ (_, ?o) => destruct (run_ctr_done ["images"; "ls"]%string r o) as (res & ms3 & E3) end.
  unfold wp at 1. unfold run_ctr in *. rewrite E3.
  destruct res as [listing|]; cbn beta iota; [apply wp_ret; destruct (image_present_in_listing _ _)|]; apply wp_ret;
    by apply HP.
Qed.

Lemma cd_pull_image_ok image auth r os :
  clean os → wp no_panic (cd_pull_image image auth) (λ _ s', cleaned s'.2) (r, os).
Proof using CS.
  intros Hc. unfold cd_pull_image. apply wp_try_bind, wp_map_err. unfold image_present. apply wp_try_bind.
  destruct (run_ctr_done ["images"; "ls"]%string r os) as (res & ms & E). unfold wp at 1. rewrite E.
  pose proof (cs_command _ _ CS (ctr_command r ms ["images"; "ls"]%string) os Hc) as H1.
  destruct res as [listing|]; [|by left]. apply wp_ret. cbn [result_map_err].
  destruct (image_present_in_listing listing image); [by apply wp_ret; left|]. destruct auth as [auth|].
  - apply wp_try_bind. eapply wp_mono; [by apply prepare_registry_hosts_ok|].
    intros [dir|e] [r2 os2] H2; [|done]. cbn [snd] in H2. wp_step.
    assert (Hrm : ∀ res s, only dir s.2 → wp no_panic (let* _ := cd_sys (remove_dir_all dir) in ret res)
                             (λ (_ : result unit RuntimeError) s', cleaned s'.2) s).
    { intros res [r3 os3] H3. wp_step. apply wp_cd_sys. apply wp_ret. by apply cleaned_remove. }
    destruct (valid_utf8 _).
    + eapply wp_mono; [apply (pull_with_hosts_keeps (only dir)); [intros; by apply CS|done]|]. auto.
    + apply wp_ret. by apply Hrm.
  - eapply wp_mono; [apply (pull_with_hosts_keeps clean); [intros; by apply CS|done]|]. intros ? ? ?. by left.
Qed.

(** C22: pulling an image removes the credentials it put on disk.  Whatever fails on the way
    (the protected directory, its permissions, the hosts file, the pull, its retry),
    [pull_image] returns, and its last act on credentials it wrote is to remove the
    directory that holds them.  They are gone then, unless that removal itself failed, which
    the code only logs: in that case they are all still inside that one directory. *)
Theorem pull_image_leaves_no_credentials (image : string) (auth : option ImagePullAuth) (r : ContainerdRuntime) (os : OS) :
  clean os → ∃ res r' os', cd_pull_image image auth (r, os) = Done (res, (r', os')) ∧
    (clean os' ∨ ∃ dir before e, only dir before ∧ remove_dir_all dir before = (Err e, os') ∧ only dir os').
Proof using CS.
  intros Hc. destruct (proj1 (wp_run _ _ _ _) (cd_pull_image_ok image auth r os Hc))
    as [(res & [r' os'] & E & H)|(e & _ & [])]. by exists res, r', os'.
Qed.

End credentials.
