(* ===== verification/Volumes.v ===== *)
(** * JuiceFS volumes: [worker/src/volumes.rs]

    Mounting and unmounting through child processes; the mount table, the
    directories and the children belong to the [Host]. *)

From S2P Require Import Prelude Types RustStr Traits.

Definition MOUNT_BASE : string := "/tmp/hivemind/mounts".
Definition MOUNT_TIMEOUT : Z := from_secs 20.

Record VolumeMount := mkVolumeMount {
  vm_pod_id : Z;
  vm_host_path : string;
  vm_container_path : string
}.

Definition mount_dir_of (pod_id : Z) : string := MOUNT_BASE +:+ "/" +:+ fmt_int pod_id +:+ "/juicefs".
Definition pod_dir_of (pod_id : Z) : string := MOUNT_BASE +:+ "/" +:+ fmt_int pod_id.

Definition nul : string := String Ascii.zero EmptyString.

(** The fifth field of a line of the mount table. *)
Definition mount_point (line : string) : option string := split_whitespace line !! 4%nat.

(** [mountinfo.lines().any(..)]. *)
Definition table_has_mount (mountinfo mount_dir : string) : bool :=
  existsb (λ line, bool_decide (mount_point line = Some mount_dir)) (lines mountinfo).

Section volumes.
  Context {H : Type} `{!Host H}.

Definition mount_juicefs (pod_id : Z) (juicefs_subpath : string) : HM H VolumeMount :=
  if negb (starts_with "/" juicefs_subpath) || contains nul juicefs_subpath then
    hm_err "juicefs subpath must be a valid absolute path"
  else
    let mount_dir := mount_dir_of pod_id in
    let?* _ := hm_map_err (λ e, "mkdir " +:+ mount_dir +:+ ": " +:+ e) (create_dir_all mount_dir) in
    let?* meta_url := (λ h, (ok_or "JUICEFS_META_URL not set"%string (env_var "JUICEFS_META_URL" h), h)) in
    let?* fs_name := hm_lift (λ h, (default "hivemind"%string (env_var "JUICEFS_NAME" h), h)) in
    let timeout := fmt_int (MOUNT_TIMEOUT / NANOS_PER_SEC) +:+ "s" in
    let?* output := hm_map_err (λ e, "bounded juicefs mount exec: " +:+ e)
      (command_output ["timeout"; "--signal=KILL"; timeout; "juicefs"; "mount"; meta_url;
                       mount_dir; "--name"; fs_name; "--subdir"; juicefs_subpath; "-d"]) in
    if negb (co_success output) then
      let stderr := from_utf8_lossy (co_stderr output) in
      if bool_decide (co_code output = Some 124) || bool_decide (co_code output = Some 137) then
        hm_err ("juicefs mount timed out after " +:+ fmt_int (MOUNT_TIMEOUT / NANOS_PER_SEC)
                +:+ "s: " +:+ stderr)
      else hm_err ("juicefs mount failed: " +:+ stderr)
    else hm_ret (mkVolumeMount pod_id mount_dir "/data").

Definition mount_is_active (mount_dir : string) : HM H bool :=
  let?* mountinfo := hm_map_err (λ e, "read mount table: " +:+ e)
    (read_to_string "/proc/self/mountinfo") in
  hm_ret (table_has_mount mountinfo mount_dir).

(** The closure [command_timeout]. *)
Definition command_timeout (deadline : Z) : HM H string :=
  let?* now := hm_lift instant_now in
  let remaining := saturating_duration_since deadline now in
  if remaining =? 0 then hm_err "shutdown deadline reached before volume cleanup"
  else hm_ret (fmt_int (clamp 1 U64_MAX (as_millis remaining)) +:+ "ms").

(** [let _ = Command::new("timeout").args(..).output()]: the result is ignored. *)
Definition run_bounded (deadline : Z) (args : list string) : HM H unit :=
  let?* timeout := command_timeout deadline in
  hm_lift (λ h, (tt, (command_output ("timeout"%string :: timeout :: args) h).2)).

(** The first half of [unmount_juicefs_until]: the mount is gone, or an error. *)
Definition detach_mount (deadline : Z) (mount_dir : string) : HM H unit :=
  let?* active := mount_is_active mount_dir in
  if negb active then hm_ret tt
  else
    let?* _ := run_bounded deadline ["juicefs"; "umount"; mount_dir] in
    let?* active := mount_is_active mount_dir in
    let?* _ := (if active then run_bounded deadline ["fusermount"; "-uz"; mount_dir] else hm_ret tt) in
    let?* active := mount_is_active mount_dir in
    if active then hm_err ("mount remains active at " +:+ mount_dir) else hm_ret tt.

(** [remove_dir_all] with its [NotFound] case. *)
Definition remove_pod_dir (pod_dir : string) : HM H unit := λ h,
  match remove_dir_all pod_dir h with
  | (Ok _, h) => (Ok tt, h)
  | (Err FsNotFound, h) => (Ok tt, h)
  | (Err (FsOther e), h) => (Err ("remove " +:+ pod_dir +:+ ": " +:+ e), h)
  end.

Definition unmount_juicefs_until (pod_id deadline : Z) : HM H unit :=
  let?* now := hm_lift instant_now in
  if deadline <=? now then hm_err "shutdown deadline reached before volume cleanup"
  else
    let?* _ := detach_mount deadline (mount_dir_of pod_id) in
    let pod_dir := pod_dir_of pod_id in
    let?* _ := remove_pod_dir pod_dir in
    let?* remains := hm_lift (path_exists pod_dir) in
    if remains then hm_err ("pod mount directory remains at " +:+ pod_dir) else hm_ret tt.

Definition unmount_juicefs (pod_id : Z) : HM H unit :=
  let?* now := hm_lift instant_now in
  unmount_juicefs_until pod_id (now + from_secs 20).

Definition juicefs_available (h : H) : bool * H :=
  match command_output ["juicefs"; "version"] h with
  | (Ok o, h) => (co_success o, h)
  | (Err _, h) => (false, h)
  end.

End volumes.

(** ** Facts *)

Lemma string_length_app (s t : string) :
  String.length (s +:+ t) = (String.length s + String.length t)%nat.
Proof. induction s as [|a s IH]; [done|]. change (String a s +:+ t) with (String a (s +:+ t)). simpl. by rewrite IH. Qed.

Lemma string_app_inj_r (s t u : string) : s +:+ u = t +:+ u → s = t.
Proof.
  revert t. induction s as [|a s IH]; intros [|b t] E; [done| | |].
  1,2: apply (f_equal String.length) in E; rewrite !string_length_app in E; simpl in E; lia.
  change (String a (s +:+ u) = String b (t +:+ u)) in E. injection E as -> E. f_equal. by apply IH.
Qed.

#[global] Instance pod_dir_of_inj : Inj (=) (=) pod_dir_of.
Proof.
  intros a b E. unfold pod_dir_of in E. apply (inj _), (inj _) in E.
  by apply (inj fmt_int).
Qed.

#[global] Instance mount_dir_of_inj : Inj (=) (=) mount_dir_of.
Proof.
  intros a b E. unfold mount_dir_of in E. apply (inj _), (inj _), string_app_inj_r in E.
  by apply (inj fmt_int).
Qed.

Section facts.
  Context {H : Type} `{!Host H}.






End facts.
