(* ===== verification/Secrets.v ===== *)
(** * Secrets: [worker/src/secrets.rs]

    Plain values pass through; references are fetched from Doppler and cached for
    five minutes.  The HTTPS client and the JSON parser belong to the [Host]. *)

From S2P Require Import Prelude Types RustStr Traits.

Definition CACHE_TTL : Z := from_secs 300.

Record CachedSecret := mkCachedSecret { cs_value : string; cs_fetched_at : Z }.

Record SecretResolver := mkSecretResolver {
  doppler_token : option string;
  doppler_project : option string;
  doppler_config : option string;
  cache : gmap string CachedSecret
}.

Definition set_cache (c : gmap string CachedSecret) (r : SecretResolver) : SecretResolver :=
  mkSecretResolver (doppler_token r) (doppler_project r) (doppler_config r) c.

Section secrets.
  Context {H : Type} `{!Host H}.

Definition secret_resolver_new (h : H) : SecretResolver :=
  mkSecretResolver (env_var "DOPPLER_TOKEN" h) (env_var "DOPPLER_PROJECT" h)
    (env_var "DOPPLER_CONFIG" h) ∅.

Definition secret_url (project config secret_name : string) : string :=
  "https://api.doppler.com/v3/configs/config/secret?project=" +:+ project
  +:+ "&config=" +:+ config +:+ "&name=" +:+ secret_name.

(** The request to Doppler and the update of the cache. *)
Definition fetch_secret (token secret_name : string) (r : SecretResolver) (h : H)
    : option string * SecretResolver * H :=
  let project := default "default"%string (doppler_project r) in
  let config := default "prd"%string (doppler_config r) in
  match http_get (secret_url project config secret_name)
          [("Authorization", "Bearer " +:+ token)]%string h with
  | (Err _, h) => (None, r, h)
  | (Ok body, h) =>
    match json_value_raw body with
    | None => (None, r, h)
    | Some value =>
      let '(now, h) := instant_now h in
      (Some value, set_cache (<[secret_name := mkCachedSecret value now]> (cache r)) r, h)
    end
  end.

(** Past the cache. *)
Definition resolve_uncached (secret_name : string) (r : SecretResolver) (h : H)
    : option string * SecretResolver * H :=
  match doppler_token r with
  | None => (None, r, h)
  | Some token => fetch_secret token secret_name r h
  end.

Definition resolve_secret (secret_name : string) (r : SecretResolver) (h : H)
    : option string * SecretResolver * H :=
  match cache r !! secret_name with
  | Some cached =>
    let '(now, h) := instant_now h in
    if saturating_duration_since now (cs_fetched_at cached) <? CACHE_TTL
    then (Some (cs_value cached), r, h)
    else resolve_uncached secret_name r h
  | None => resolve_uncached secret_name r h
  end.

Definition resolve_plain_or_secret (value : string) (is_secret_ref : bool)
    (r : SecretResolver) (h : H) : option string * SecretResolver * H :=
  if is_secret_ref then
    if str_is_empty value then (None, r, h) else resolve_secret value r h
  else (Some value, r, h).

Fixpoint resolve (entries : list EnvEntry) (r : SecretResolver) (h : H)
    : list (string * string) * SecretResolver * H :=
  match entries with
  | [] => ([], r, h)
  | entry :: entries =>
    let '(value, r, h) :=
      if ee_is_secret_ref entry then resolve_secret (ee_value entry) r h
      else (Some (ee_value entry), r, h) in
    let '(rest, r, h) := resolve entries r h in
    (match value with Some v => (ee_name entry, v) :: rest | None => rest end, r, h)
  end.

End secrets.

(** ** Facts *)

Section facts.
  Context {H : Type} `{!Host H}.

(** A token is needed, so without one nothing is fetched and nothing cached. *)
Lemma resolve_uncached_none name (r : SecretResolver) (h : H) :
  doppler_token r = None → resolve_uncached name r h = (None, r, h).
Proof. unfold resolve_uncached. by intros ->. Qed.

(** What resolving may do to the resolver: only add fresh values to its cache. *)
Lemma resolve_secret_config name (r r' : SecretResolver) (h h' : H) o :
  resolve_secret name r h = (o, r', h') →
  doppler_token r' = doppler_token r ∧ doppler_project r' = doppler_project r ∧
  doppler_config r' = doppler_config r.
Proof.
  unfold resolve_secret, resolve_uncached, fetch_secret. intros E.
  repeat case_match; simplify_eq; done.
Qed.

(** Where an answer comes from: a live entry of the cache, or Doppler, asked with the token; a
    fetched value is cached with the time of its arrival. *)
Definition answered_from (name v : string) (r r' : SecretResolver) (h : H) : Prop :=
  (∃ t, cache r !! name = Some (mkCachedSecret v t) ∧ r' = r ∧ (instant_now h).1 < t + CACHE_TTL) ∨
  (∃ token body h0 h1, doppler_token r = Some token ∧
     http_get (secret_url (default "default"%string (doppler_project r)) (default "prd"%string (doppler_config r)) name)
       [("Authorization", "Bearer " +:+ token)]%string h0 = (Ok body, h1) ∧
     json_value_raw body = Some v ∧
     r' = set_cache (<[name := mkCachedSecret v (instant_now h1).1]> (cache r)) r).

Lemma resolve_uncached_from name v (r r' : SecretResolver) (h h0 h' : H) :
  resolve_uncached name r h0 = (Some v, r', h') → answered_from name v r r' h.
Proof.
  unfold resolve_uncached. destruct (doppler_token r) as [token|] eqn:Et; [|done]. unfold fetch_secret.
  destruct (http_get _ _ h0) as [[body|e] h1] eqn:Eg; [|done].
  destruct (json_value_raw body) as [value|] eqn:Ej; [|done].
  destruct (instant_now h1) as [now h2] eqn:En. intros [= -> <- _]. right.
  exists token, body, h0, h1. split_and!; try done. by rewrite En.
Qed.

Lemma resolve_secret_from name v (r r' : SecretResolver) (h h' : H) :
  resolve_secret name r h = (Some v, r', h') → answered_from name v r r' h.
Proof.
  unfold resolve_secret. destruct (cache r !! name) as [[v0 t]|] eqn:Ec; [|apply resolve_uncached_from].
  destruct (instant_now h) as [now h1] eqn:En. case_match eqn:Hlt; [|apply resolve_uncached_from].
  intros [= -> <- _]. left. exists t. split_and!; [done|done|]. rewrite En. cbn in *.
  apply Z.ltb_lt in Hlt. unfold saturating_duration_since in Hlt. lia.
Qed.

Lemma resolve_secret_cached name v t (r : SecretResolver) (h : H) :
  cache r !! name = Some (mkCachedSecret v t) → t ≤ (instant_now h).1 < t + CACHE_TTL →
  resolve_secret name r h = (Some v, r, (instant_now h).2).
Proof.
  intros Hs Ht. unfold resolve_secret. rewrite Hs. destruct (instant_now h) as [now h1]. simpl in *.
  rewrite (proj2 (Z.ltb_lt _ _)); [done|]. unfold saturating_duration_since, CACHE_TTL, from_secs, NANOS_PER_SEC in *. lia.
Qed.

(** What an answer adds to the environment. *)
Definition binding (name : string) (answer : option string) : list (string * string) :=
  match answer with Some v => [(name, v)] | None => [] end.

Lemma resolve_app es es' (r : SecretResolver) (h : H) :
  resolve (es ++ es') r h =
    let '(o1, r1, h1) := resolve es r h in
    let '(o2, r2, h2) := resolve es' r1 h1 in (o1 ++ o2, r2, h2).
Proof.
  revert r h. induction es as [|e es IH]; intros r h; [by simpl; destruct (resolve es' r h) as [[]]|].
  cbn [app resolve]. destruct (if ee_is_secret_ref e then _ else _) as [[v r1] h1]. rewrite IH.
  destruct (resolve es r1 h1) as [[o1 r2] h2]. destruct (resolve es' r2 h2) as [[o2 r3] h3]. by destruct v.
Qed.

(** C32: secrets.  An answer is a value in the cache for less than five minutes or one that
    Doppler gave for this very name, and once given it answers every lookup of the name for
    five minutes from its arrival, without the network.  An environment is resolved entry by
    entry in order, each with the cache the ones before it left: a plain value is bound as
    it is, a reference is bound to the answer for the secret it names, and one without an
    answer is left out, never passed on as its name; without a token and a cache these are
    exactly the references. *)
Theorem secret_resolution (name : string) (r : SecretResolver) (h : H) :
  (∀ v r' h', resolve_secret name r h = (Some v, r', h') →
     answered_from name v r r' h ∧
     ∃ t, cache r' !! name = Some (mkCachedSecret v t) ∧
       ∀ h2, t ≤ (instant_now h2).1 < t + CACHE_TTL →
         resolve_secret name r' h2 = (Some v, r', (instant_now h2).2)) ∧
  (∀ before e after,
     let '(o1, r1, h1) := resolve before r h in
     let '(answer, r2, h2) := if ee_is_secret_ref e then resolve_secret (ee_value e) r1 h1
                              else (Some (ee_value e), r1, h1) in
     let '(o3, r3, h3) := resolve after r2 h2 in
     resolve (before ++ e :: after) r h = (o1 ++ binding (ee_name e) answer ++ o3, r3, h3)) ∧
  (doppler_token r = None → cache r = ∅ → ∀ entries,
     resolve entries r h =
       ((λ e, (ee_name e, ee_value e)) <$> filter (λ e, ee_is_secret_ref e = false) entries, r, h)).
Proof.
  split; [|split].
  - intros v r' h' Hf%resolve_secret_from. split; [done|].
    destruct Hf as [(t & Hc & -> & _)|(token & body & h0 & h1 & _ & _ & _ & ->)].
    + exists t. split; [done|]. intros h2. by apply resolve_secret_cached.
    + eexists. split; [apply lookup_insert_eq|]. intros h2. apply resolve_secret_cached, lookup_insert_eq.
  - intros before e after. rewrite resolve_app. destruct (resolve before r h) as [[o1 r1] h1]. cbn [resolve].
    destruct (if ee_is_secret_ref e then _ else _) as [[v r2] h2].
    destruct (resolve after r2 h2) as [[o3 r3] h3]. by destruct v.
  - intros Ht Hc entries. induction entries as [|e es IH]; [done|]. cbn [resolve].
    rewrite filter_cons. destruct (ee_is_secret_ref e) eqn:E.
    + unfold resolve_secret. rewrite Hc, lookup_empty, resolve_uncached_none by done. by rewrite IH.
    + by rewrite IH.
Qed.

End facts.
