(* ===== verification/Worker.v ===== *)
(** * The worker: [worker/src/worker.rs]

    State, message handlers, the lifecycle driver and shutdown, as written: a call
    runs in the monad [M Ctx] over the worker, its [Io], its [Runtime], the host and
    the schedule of the lifecycle threads.  [assert!], [expect], [unwrap] and map
    indexing panic when they fail, an unchecked [+] panics when it leaves its type.
    Logging ([eprintln!], [log_pod_event] and the wall-clock spans that feed it) is
    omitted: nothing reads it back. *)

From S2P Require Import Prelude Types RustStr Traits Volumes Secrets Protocol.

Definition HEARTBEAT_INTERVAL_TICKS : Z := 100.
Definition LIFECYCLE_RETRY_MAX : Z := 3.
Definition LIFECYCLE_RETRY_DELAY_TICKS : Z := 25.
Definition LIFECYCLE_FIRST_RETRY_DELAY_TICKS : Z := LIFECYCLE_RETRY_DELAY_TICKS * 2.
Definition STOP_ATTEMPT_MAX : Z := 3.
Definition STOP_RETRY_DELAY_TICKS : Z := 25.
Definition MAX_TRACKED_PODS : nat := 4096.
Definition MAX_TERMINAL_TOMBSTONES : nat := 1024.
Definition DEFAULT_SHUTDOWN_GRACE_MS : Z := 15000.

(** ** State *)

Inductive TrackedPodState :=
| ImagePulling
| Creating
| Starting
| Running
| Stopping
| Stopped (exit_code : Z)
| Failed (reason : string).

#[global] Instance TrackedPodState_eq_dec : EqDecision TrackedPodState.
Proof. solve_decision. Defined.

Record TrackedPod := mkTrackedPod {
  pod_id : Z;
  deployment_id : Z;
  image : string;
  entrypoint : string;
  state : TrackedPodState;
  handle : option PodHandle;
  state_changed_at : Z;
  gpu_count : Z;
  cpu_millicores : Z;
  memory_megabytes : Z;
  grace_period_ms : Z;
  port : Z;
  liveness_path : string;
  readiness_path : string;
  probe_interval_ms : Z;
  last_probe_tick : Z;
  consecutive_failures : Z;
  env_vars : list (string * string);
  juicefs_path : string;
  image_pull_auth : option ImagePullAuth;
  lifecycle_failures : Z;
  lifecycle_retry_after_tick : Z
}.

(** Assignment to one field. *)
Definition set_state (x : TrackedPodState) (p : TrackedPod) : TrackedPod :=
  mkTrackedPod (pod_id p) (deployment_id p) (image p) (entrypoint p) x (handle p)
    (state_changed_at p) (gpu_count p) (cpu_millicores p) (memory_megabytes p) (grace_period_ms
    p) (port p) (liveness_path p) (readiness_path p) (probe_interval_ms p) (last_probe_tick p)
    (consecutive_failures p) (env_vars p) (juicefs_path p) (image_pull_auth p)
    (lifecycle_failures p) (lifecycle_retry_after_tick p).
Definition set_handle (x : option PodHandle) (p : TrackedPod) : TrackedPod :=
  mkTrackedPod (pod_id p) (deployment_id p) (image p) (entrypoint p) (state p) x
    (state_changed_at p) (gpu_count p) (cpu_millicores p) (memory_megabytes p) (grace_period_ms
    p) (port p) (liveness_path p) (readiness_path p) (probe_interval_ms p) (last_probe_tick p)
    (consecutive_failures p) (env_vars p) (juicefs_path p) (image_pull_auth p)
    (lifecycle_failures p) (lifecycle_retry_after_tick p).
Definition set_state_changed_at (x : Z) (p : TrackedPod) : TrackedPod :=
  mkTrackedPod (pod_id p) (deployment_id p) (image p) (entrypoint p) (state p) (handle p) x
    (gpu_count p) (cpu_millicores p) (memory_megabytes p) (grace_period_ms p) (port p)
    (liveness_path p) (readiness_path p) (probe_interval_ms p) (last_probe_tick p)
    (consecutive_failures p) (env_vars p) (juicefs_path p) (image_pull_auth p)
    (lifecycle_failures p) (lifecycle_retry_after_tick p).
Definition set_grace_period_ms (x : Z) (p : TrackedPod) : TrackedPod :=
  mkTrackedPod (pod_id p) (deployment_id p) (image p) (entrypoint p) (state p) (handle p)
    (state_changed_at p) (gpu_count p) (cpu_millicores p) (memory_megabytes p) x (port p)
    (liveness_path p) (readiness_path p) (probe_interval_ms p) (last_probe_tick p)
    (consecutive_failures p) (env_vars p) (juicefs_path p) (image_pull_auth p)
    (lifecycle_failures p) (lifecycle_retry_after_tick p).
Definition set_last_probe_tick (x : Z) (p : TrackedPod) : TrackedPod :=
  mkTrackedPod (pod_id p) (deployment_id p) (image p) (entrypoint p) (state p) (handle p)
    (state_changed_at p) (gpu_count p) (cpu_millicores p) (memory_megabytes p) (grace_period_ms
    p) (port p) (liveness_path p) (readiness_path p) (probe_interval_ms p) x
    (consecutive_failures p) (env_vars p) (juicefs_path p) (image_pull_auth p)
    (lifecycle_failures p) (lifecycle_retry_after_tick p).
Definition set_consecutive_failures (x : Z) (p : TrackedPod) : TrackedPod :=
  mkTrackedPod (pod_id p) (deployment_id p) (image p) (entrypoint p) (state p) (handle p)
    (state_changed_at p) (gpu_count p) (cpu_millicores p) (memory_megabytes p) (grace_period_ms
    p) (port p) (liveness_path p) (readiness_path p) (probe_interval_ms p) (last_probe_tick p) x
    (env_vars p) (juicefs_path p) (image_pull_auth p) (lifecycle_failures p)
    (lifecycle_retry_after_tick p).
Definition set_entrypoint (x : string) (p : TrackedPod) : TrackedPod :=
  mkTrackedPod (pod_id p) (deployment_id p) (image p) x (state p) (handle p) (state_changed_at
    p) (gpu_count p) (cpu_millicores p) (memory_megabytes p) (grace_period_ms p) (port p)
    (liveness_path p) (readiness_path p) (probe_interval_ms p) (last_probe_tick p)
    (consecutive_failures p) (env_vars p) (juicefs_path p) (image_pull_auth p)
    (lifecycle_failures p) (lifecycle_retry_after_tick p).
Definition set_env_vars (x : list (string * string)) (p : TrackedPod) : TrackedPod :=
  mkTrackedPod (pod_id p) (deployment_id p) (image p) (entrypoint p) (state p) (handle p)
    (state_changed_at p) (gpu_count p) (cpu_millicores p) (memory_megabytes p) (grace_period_ms
    p) (port p) (liveness_path p) (readiness_path p) (probe_interval_ms p) (last_probe_tick p)
    (consecutive_failures p) x (juicefs_path p) (image_pull_auth p) (lifecycle_failures p)
    (lifecycle_retry_after_tick p).
Definition set_juicefs_path (x : string) (p : TrackedPod) : TrackedPod :=
  mkTrackedPod (pod_id p) (deployment_id p) (image p) (entrypoint p) (state p) (handle p)
    (state_changed_at p) (gpu_count p) (cpu_millicores p) (memory_megabytes p) (grace_period_ms
    p) (port p) (liveness_path p) (readiness_path p) (probe_interval_ms p) (last_probe_tick p)
    (consecutive_failures p) (env_vars p) x (image_pull_auth p) (lifecycle_failures p)
    (lifecycle_retry_after_tick p).
Definition set_image_pull_auth (x : option ImagePullAuth) (p : TrackedPod) : TrackedPod :=
  mkTrackedPod (pod_id p) (deployment_id p) (image p) (entrypoint p) (state p) (handle p)
    (state_changed_at p) (gpu_count p) (cpu_millicores p) (memory_megabytes p) (grace_period_ms
    p) (port p) (liveness_path p) (readiness_path p) (probe_interval_ms p) (last_probe_tick p)
    (consecutive_failures p) (env_vars p) (juicefs_path p) x (lifecycle_failures p)
    (lifecycle_retry_after_tick p).
Definition set_lifecycle_failures (x : Z) (p : TrackedPod) : TrackedPod :=
  mkTrackedPod (pod_id p) (deployment_id p) (image p) (entrypoint p) (state p) (handle p)
    (state_changed_at p) (gpu_count p) (cpu_millicores p) (memory_megabytes p) (grace_period_ms
    p) (port p) (liveness_path p) (readiness_path p) (probe_interval_ms p) (last_probe_tick p)
    (consecutive_failures p) (env_vars p) (juicefs_path p) (image_pull_auth p) x
    (lifecycle_retry_after_tick p).
Definition set_lifecycle_retry_after_tick (x : Z) (p : TrackedPod) : TrackedPod :=
  mkTrackedPod (pod_id p) (deployment_id p) (image p) (entrypoint p) (state p) (handle p)
    (state_changed_at p) (gpu_count p) (cpu_millicores p) (memory_megabytes p) (grace_period_ms
    p) (port p) (liveness_path p) (readiness_path p) (probe_interval_ms p) (last_probe_tick p)
    (consecutive_failures p) (env_vars p) (juicefs_path p) (image_pull_auth p)
    (lifecycle_failures p) x.

(** [cpu_total] and [memory_total] are the fields [cpu_millicores] and
    [memory_megabytes] of the node. *)
Record Worker := mkWorker {
  node_name : string;
  gpu_type : GpuType;
  gpu_total : Z;
  cpu_total : Z;
  memory_total : Z;
  pods : gmap Z TrackedPod;
  pending_failure_reasons : gmap Z string;
  last_heartbeat_tick : Z;
  registered : bool;
  gpu_allocated : Z;
  cpu_allocated_millicores : Z;
  memory_allocated_megabytes : Z;
  lifecycle_concurrency : Z;
  secret_resolver : SecretResolver
}.

Definition set_pods (x : gmap Z TrackedPod) (w : Worker) : Worker :=
  mkWorker (node_name w) (gpu_type w) (gpu_total w) (cpu_total w) (memory_total w) x
    (pending_failure_reasons w) (last_heartbeat_tick w) (registered w) (gpu_allocated w)
    (cpu_allocated_millicores w) (memory_allocated_megabytes w) (lifecycle_concurrency w)
    (secret_resolver w).
Definition set_pending_failure_reasons (x : gmap Z string) (w : Worker) : Worker :=
  mkWorker (node_name w) (gpu_type w) (gpu_total w) (cpu_total w) (memory_total w) (pods w) x
    (last_heartbeat_tick w) (registered w) (gpu_allocated w) (cpu_allocated_millicores w)
    (memory_allocated_megabytes w) (lifecycle_concurrency w) (secret_resolver w).
Definition set_last_heartbeat_tick (x : Z) (w : Worker) : Worker :=
  mkWorker (node_name w) (gpu_type w) (gpu_total w) (cpu_total w) (memory_total w) (pods w)
    (pending_failure_reasons w) x (registered w) (gpu_allocated w) (cpu_allocated_millicores w)
    (memory_allocated_megabytes w) (lifecycle_concurrency w) (secret_resolver w).
Definition set_registered (x : bool) (w : Worker) : Worker :=
  mkWorker (node_name w) (gpu_type w) (gpu_total w) (cpu_total w) (memory_total w) (pods w)
    (pending_failure_reasons w) (last_heartbeat_tick w) x (gpu_allocated w)
    (cpu_allocated_millicores w) (memory_allocated_megabytes w) (lifecycle_concurrency w)
    (secret_resolver w).
Definition set_gpu_allocated (x : Z) (w : Worker) : Worker :=
  mkWorker (node_name w) (gpu_type w) (gpu_total w) (cpu_total w) (memory_total w) (pods w)
    (pending_failure_reasons w) (last_heartbeat_tick w) (registered w) x
    (cpu_allocated_millicores w) (memory_allocated_megabytes w) (lifecycle_concurrency w)
    (secret_resolver w).
Definition set_cpu_allocated_millicores (x : Z) (w : Worker) : Worker :=
  mkWorker (node_name w) (gpu_type w) (gpu_total w) (cpu_total w) (memory_total w) (pods w)
    (pending_failure_reasons w) (last_heartbeat_tick w) (registered w) (gpu_allocated w) x
    (memory_allocated_megabytes w) (lifecycle_concurrency w) (secret_resolver w).
Definition set_memory_allocated_megabytes (x : Z) (w : Worker) : Worker :=
  mkWorker (node_name w) (gpu_type w) (gpu_total w) (cpu_total w) (memory_total w) (pods w)
    (pending_failure_reasons w) (last_heartbeat_tick w) (registered w) (gpu_allocated w)
    (cpu_allocated_millicores w) x (lifecycle_concurrency w) (secret_resolver w).
Definition set_lifecycle_concurrency (x : Z) (w : Worker) : Worker :=
  mkWorker (node_name w) (gpu_type w) (gpu_total w) (cpu_total w) (memory_total w) (pods w)
    (pending_failure_reasons w) (last_heartbeat_tick w) (registered w) (gpu_allocated w)
    (cpu_allocated_millicores w) (memory_allocated_megabytes w) x (secret_resolver w).
Definition set_secret_resolver (x : SecretResolver) (w : Worker) : Worker :=
  mkWorker (node_name w) (gpu_type w) (gpu_total w) (cpu_total w) (memory_total w) (pods w)
    (pending_failure_reasons w) (last_heartbeat_tick w) (registered w) (gpu_allocated w)
    (cpu_allocated_millicores w) (memory_allocated_megabytes w) (lifecycle_concurrency w) x.

(** [matches!(state, Stopped { .. } | Failed { .. })]. *)
Definition is_terminal (s : TrackedPodState) : bool :=
  match s with Stopped _ | Failed _ => true | _ => false end.

Definition is_running (s : TrackedPodState) : bool :=
  match s with Running => true | _ => false end.

(** [Worker::new]; the resolver reads the environment. *)
Definition new {H} `{!Host H} (h : H) (name : string) (gpu : GpuType)
    (gpus cpu memory : Z) : Worker :=
  mkWorker name gpu gpus cpu memory ∅ ∅ 0 false 0 0 0 4 (secret_resolver_new h).

Definition new_with_lifecycle_concurrency {H} `{!Host H} (h : H) (name : string)
    (gpu : GpuType) (gpus cpu memory concurrency : Z) : Worker :=
  set_lifecycle_concurrency (clamp 1 32 concurrency) (new h name gpu gpus cpu memory).

Definition on_connection_lost (w : Worker) : Worker := set_registered false w.

Definition tracked_pod_status (s : TrackedPodState) : PodStatusReport :=
  match s with
  | Running => RRunning
  | Stopped exit_code => RStopped exit_code
  | Failed reason => RFailed reason
  | ImagePulling => RImagePulling
  | Creating | Starting => RCreating
  | Stopping => RRunning
  end.

(** Accessors. *)
Definition running_count (w : Worker) : nat :=
  length (filter (λ p, is_running (state p) = true) (values (pods w))).
Definition pod_counts (w : Worker) : nat * nat := (running_count w, size (pods w)).
Definition is_registered (w : Worker) : bool := registered w.

(** ** Lifecycle operations of [drive_pods] *)

Inductive LifecycleOp :=
| OpPull (pod_id deployment_id : Z) (image : string) (auth : option ImagePullAuth)
| OpCreate (pod_id deployment_id : Z) (spec : PodSpec)
| OpStart (pod_id deployment_id : Z) (handle : PodHandle)
| OpStop (pod_id : Z) (handle : option PodHandle) (grace_period_ms : Z) (attempt_stop : bool).

Inductive LifecycleResult :=
| ResPull (r : result unit RuntimeError)
| ResCreate (r : result PodHandle RuntimeError)
| ResStart (r : result unit RuntimeError)
| ResStop (r : result Z RuntimeError).

(** Without the wall-clock span, which is only logged. *)
Record LifecycleCompletion := mkCompletion { lc_op : LifecycleOp; lc_result : LifecycleResult }.

Definition op_pod_id (op : LifecycleOp) : Z :=
  match op with
  | OpPull id _ _ _ | OpCreate id _ _ | OpStart id _ _ | OpStop id _ _ _ => id
  end.

(** The sort key: starts first, then by pod. *)
Definition op_key (op : LifecycleOp) : Z * Z :=
  match op with
  | OpStart id _ _ => (0, id)
  | OpPull id _ _ _ | OpCreate id _ _ | OpStop id _ _ _ => (1, id)
  end.

Definition sort_ops (ops : list LifecycleOp) : list LifecycleOp :=
  sort_by (λ a b, lex_leb (op_key a) (op_key b)) ops.

Definition USIZE_MAX : Z := U64_MAX.

Definition phase_concurrency (lifecycle_concurrency : Z) (op : LifecycleOp) : Z :=
  match op with
  | OpStart _ _ _ => Z.max lifecycle_concurrency 1
  | _ => clamp 1 32 (sat_mul USIZE_MAX lifecycle_concurrency 4)
  end.

Section worker.
  Context {IO RT H : Type} `{!Io IO} `{!Host H} `{!Runtime RT H}.

(** ** The lifecycle threads

    A chunk of operations runs on scoped threads.  The shared runtime is what the
    threads race on: each runtime call is one step, and the schedule picks which
    unfinished thread takes the next one. *)

Inductive thread :=
| Spawned (op : LifecycleOp)
| StopAttempted (op : LifecycleOp) (handle : PodHandle) (stop_error : option RuntimeError)
| Finished (c : LifecycleCompletion).

Definition thread_done (t : thread) : bool :=
  match t with Finished _ => true | _ => false end.

Definition result_err {A E} (r : result A E) : option E :=
  match r with Ok _ => None | Err e => Some e end.

(** The verdict on a stop once the status is known. *)
Definition stop_verdict (stop_error : option RuntimeError) (status : result PodStatus RuntimeError)
    : result Z RuntimeError :=
  match status with
  | Ok (PStopped exit_code) => Ok exit_code
  | Ok _ => Err (default (EContainerStop "runtime status is not terminal") stop_error)
  | Err status_error => Err (default status_error stop_error)
  end.

Definition check_stopped (op : LifecycleOp) (h : PodHandle) (stop_error : option RuntimeError) (rt : RT)
    : thread * RT :=
  let '(status, rt) := pod_status h rt in
  (Finished (mkCompletion op (ResStop (stop_verdict stop_error status))), rt).

(** One step of a thread: at most one runtime call. *)
Definition thread_step (t : thread) (rt : RT) : thread * RT :=
  match t with
  | Finished _ => (t, rt)
  | StopAttempted op h stop_error => check_stopped op h stop_error rt
  | Spawned op =>
    match op with
    | OpPull _ _ img auth =>
      let '(r, rt) := pull_image img auth rt in (Finished (mkCompletion op (ResPull r)), rt)
    | OpCreate _ _ spec =>
      let '(r, rt) := create_pod spec rt in (Finished (mkCompletion op (ResCreate r)), rt)
    | OpStart _ _ h =>
      let '(r, rt) := start_pod h rt in (Finished (mkCompletion op (ResStart r)), rt)
    | OpStop _ None _ _ => (Finished (mkCompletion op (ResStop (Ok 0))), rt)
    | OpStop _ (Some h) grace true =>
      let '(r, rt) := stop_pod h grace rt in (StopAttempted op h (result_err r), rt)
    | OpStop _ (Some h) _ false => check_stopped op h None rt
    end
  end.

(** Positions of the unfinished threads. *)
Definition runnable (ts : list thread) : list nat :=
  filter (λ i, match ts !! i with Some t => negb (thread_done t) | None => false end = true)
    (seq 0 (length ts)).

(** The schedule: its head, reduced modulo the number of runnable threads. *)
Definition pick (sched : list nat) (l : list nat) : option (nat * list nat) :=
  match l with
  | [] => None
  | i :: _ =>
    match sched with
    | [] => Some (i, [])
    | n :: sched => Some (nth (n mod length l) l i, sched)
    end
  end.

Fixpoint run_threads (fuel : nat) (sched : list nat) (ts : list thread) (rt : RT)
    : list thread * RT * list nat :=
  match fuel with
  | O => (ts, rt, sched)
  | S fuel =>
    match pick sched (runnable ts) with
    | None => (ts, rt, sched)
    | Some (i, sched) =>
      match ts !! i with
      | None => (ts, rt, sched)
      | Some t => let '(t, rt) := thread_step t rt in run_threads fuel sched (<[i:=t]> ts) rt
      end
    end
  end.

(** [for handle in handles { completions.push(handle.join()..) }]. *)
Fixpoint join_all (ts : list thread) : option (list LifecycleCompletion) :=
  match ts with
  | [] => Some []
  | Finished c :: ts => cons c <$> join_all ts
  | _ :: _ => None
  end.

(** ** The context of a call *)

Record Ctx := mkCtx {
  worker : Worker;
  io : IO;
  rt : RT;
  host : H;
  sched : list nat
}.

Abbreviation W := (M Ctx).

Definition with_worker (f : Worker → Worker) (c : Ctx) : Ctx :=
  mkCtx (f (worker c)) (io c) (rt c) (host c) (sched c).

Definition worker_get {A} (f : Worker → A) : W A := λ c, Done (f (worker c), c).
Definition worker_set (f : Worker → Worker) : W unit := λ c, Done (tt, with_worker f c).

(** [io.send(msg)]. *)
Definition send (msg : WorkerMessage) : W unit := λ c,
  match io_send msg (io c) with
  | Done io' => Done (tt, mkCtx (worker c) io' (rt c) (host c) (sched c))
  | Panic e => Panic e
  end.

Definition send_status (id : Z) (status : PodStatusReport) : W unit :=
  send (PodStatusEvent (mkPodStatusEventMsg id status)).

Definition recv : W (option ControlMessage) := λ c,
  match io_recv (io c) with
  | Done (m, io') => Done (m, mkCtx (worker c) io' (rt c) (host c) (sched c))
  | Panic e => Panic e
  end.

Definition runtime {A} (f : RT → A * RT) : W A := λ c,
  let '(a, rt') := f (rt c) in Done (a, mkCtx (worker c) (io c) rt' (host c) (sched c)).
Definition on_host {A} (f : H → A * H) : W A := λ c,
  let '(a, h') := f (host c) in Done (a, mkCtx (worker c) (io c) (rt c) h' (sched c)).
Definition runtime_until {A} (f : RT * H → A * (RT * H)) : W A := λ c,
  let '(a, (rt', h')) := f (rt c, host c) in
  Done (a, mkCtx (worker c) (io c) rt' h' (sched c)).

(** [self.pods.get(&id)], [self.pods[&id]] and [self.pods.get_mut(&id)] under an
    [unwrap] or [expect]. *)
Definition get_pod (id : Z) : W (option TrackedPod) := worker_get (λ w, pods w !! id).
Definition expect_pod (id : Z) (msg : string) : W TrackedPod :=
  let* o := get_pod id in expect o msg.
Definition index_pod (id : Z) : W TrackedPod := expect_pod id "no entry found for key".
Definition put_pod (id : Z) (p : TrackedPod) : W unit :=
  worker_set (λ w, set_pods (<[id:=p]> (pods w)) w).
Definition update_pod (id : Z) (msg : string) (f : TrackedPod → TrackedPod) : W unit :=
  let* p := expect_pod id msg in put_pod id (f p).

(** ** Terminal pods *)

Definition terminal_entries (w : Worker) : list (Z * Z) :=
  sort_by lex_leb
    ((λ p, (state_changed_at p, pod_id p)) <$>
      filter (λ p, is_terminal (state p) = true) (values (pods w))).

Definition prune_terminal_pods_to (limit : nat) : W unit :=
  assert (limit <=? MAX_TERMINAL_TOMBSTONES)%nat "assertion failed: limit <= MAX_TERMINAL_TOMBSTONES" ;;;
  let* terminal := worker_get terminal_entries in
  let remove_count := (length terminal - limit)%nat in
  for_each (take remove_count terminal) (λ entry,
    let id := entry.2 in
    let* p := expect_pod id "terminal pod must exist" in
    worker_set (λ w, set_pods (delete id (pods w)) w) ;;;
    assert (bool_decide (handle p = None)) "terminal tombstone cannot own a runtime" ;;;
    let* pending := worker_get pending_failure_reasons in
    assert (bool_decide (pending !! id = None))
      "assertion failed: !self.pending_failure_reasons.contains_key(&pod_id)").

Definition scrub (p : TrackedPod) : TrackedPod :=
  set_image_pull_auth None (set_juicefs_path "" (set_env_vars [] (set_entrypoint "" p))).

Definition scrub_terminal_pod_data (id : Z) : W unit :=
  let* p := expect_pod id "terminal pod must exist" in
  assert (is_terminal (state p)) "assertion failed: matches!(pod.state, ..)" ;;;
  assert (bool_decide (handle p = None)) "assertion failed: pod.handle.is_none()" ;;;
  put_pod id (scrub p).

Definition reject_start (id : Z) (reason : string) : W unit := send_status id (RFailed reason).

Definition release (p : TrackedPod) (w : Worker) : Worker :=
  set_memory_allocated_megabytes (sat_sub (memory_allocated_megabytes w) (memory_megabytes p))
    (set_cpu_allocated_millicores (sat_sub (cpu_allocated_millicores w) (cpu_millicores p))
      (set_gpu_allocated (sat_sub (gpu_allocated w) (gpu_count p)) w)).

Definition release_pod_resources (id : Z) : W unit :=
  let* o := get_pod id in
  match o with
  | None => ret tt
  | Some p => worker_set (release p)
  end.

(** ** Messages *)

(** The record [handle_start_pod] inserts. *)
Definition tracked_pod_of (cmd : StartPodCmd) (now : Z) (env : list (string * string))
    (auth : option ImagePullAuth) : TrackedPod :=
  mkTrackedPod (sp_pod_id cmd) (sp_deployment_id cmd) (sp_image cmd) (sp_entrypoint cmd)
    ImagePulling None now (sp_gpu_count cmd) (sp_cpu_millicores cmd) (sp_memory_megabytes cmd)
    0 (sp_port cmd) (sp_liveness_path cmd) (sp_readiness_path cmd) 10000 now 0 env
    (sp_juicefs_path cmd) auth 0 0.

(** Runs the resolver on the host. *)
Definition with_resolver {A} (f : SecretResolver → H → A * SecretResolver * H) : W A := λ c,
  let '(a, r, h) := f (secret_resolver (worker c)) (host c) in
  Done (a, mkCtx (set_secret_resolver r (worker c)) (io c) (rt c) h (sched c)).

Definition pull_auth_of (cmd : StartPodCmd) (password : string) : option ImagePullAuth :=
  if negb (str_is_empty (sp_image_pull_username cmd)) || negb (str_is_empty password) then
    Some (mkImagePullAuth (sp_image_pull_registry cmd) (sp_image_pull_username cmd) password)
  else None.

(** The part of [handle_start_pod] after admission: allocate, resolve, insert. *)
Definition admit_pod (cmd : StartPodCmd) (now : Z) : W unit :=
  let* w := worker_get (λ w, w) in
  let* gpu := add_overflow U8_MAX (gpu_allocated w) (sp_gpu_count cmd) in
  worker_set (set_gpu_allocated gpu) ;;;
  let* cpu := add_overflow U32_MAX (cpu_allocated_millicores w) (sp_cpu_millicores cmd) in
  worker_set (set_cpu_allocated_millicores cpu) ;;;
  let* mem := add_overflow U32_MAX (memory_allocated_megabytes w) (sp_memory_megabytes cmd) in
  worker_set (set_memory_allocated_megabytes mem) ;;;
  let* env := with_resolver (resolve (sp_env_vars cmd)) in
  let* password := with_resolver
    (resolve_plain_or_secret (sp_image_pull_password cmd) (sp_image_pull_password_is_secret cmd)) in
  put_pod (sp_pod_id cmd)
    (tracked_pod_of cmd now env (pull_auth_of cmd (default ""%string password))) ;;;
  send_status (sp_pod_id cmd) RImagePulling.

(** The admission test: why a start is refused, if it is. *)
Definition start_rejection (w : Worker) (cmd : StartPodCmd) : option string :=
  if (MAX_TRACKED_PODS <=? size (pods w))%nat then
    Some "worker tracked-pod capacity exhausted"%string
  else if (0 <? sp_gpu_count cmd) && negb (bool_decide (sp_gpu_type cmd = gpu_type w)) then
    Some "requested GPU type does not match worker GPU type"%string
  else if gpu_total w <? sat_add U8_MAX (gpu_allocated w) (sp_gpu_count cmd) then
    Some "insufficient GPU capacity"%string
  else if cpu_total w <? sat_add U32_MAX (cpu_allocated_millicores w) (sp_cpu_millicores cmd) then
    Some "insufficient CPU capacity"%string
  else if memory_total w <? sat_add U32_MAX (memory_allocated_megabytes w) (sp_memory_megabytes cmd) then
    Some "insufficient memory capacity"%string
  else None.

Definition handle_start_pod (cmd : StartPodCmd) (now : Z) : W unit :=
  let* existing := get_pod (sp_pod_id cmd) in
  match existing with
  | Some p => send_status (sp_pod_id cmd) (tracked_pod_status (state p))
  | None =>
    prune_terminal_pods_to MAX_TERMINAL_TOMBSTONES ;;;
    let* w := worker_get (λ w, w) in
    match start_rejection w cmd with
    | Some reason => reject_start (sp_pod_id cmd) reason
    | None => admit_pod cmd now
    end
  end.

(** States a stop command acts on. *)
Definition stoppable (s : TrackedPodState) : bool :=
  match s with ImagePulling | Creating | Starting | Running => true | _ => false end.

Definition begin_stop (grace now : Z) (p : TrackedPod) : TrackedPod :=
  set_lifecycle_retry_after_tick 0 (set_lifecycle_failures 0
    (set_grace_period_ms (Z.min grace MAX_STOP_GRACE_MS)
      (set_state_changed_at now (set_state Stopping p)))).

Definition handle_stop_pod (cmd : StopPodCmd) (now : Z) : W unit :=
  let* o := get_pod (st_pod_id cmd) in
  match o with
  | None => ret tt
  | Some p =>
    when (stoppable (state p)) (put_pod (st_pod_id cmd) (begin_stop (st_grace_period_ms cmd) now p))
  end.

Definition handle_probe_pod (cmd : ProbePodCmd) : W unit :=
  let* o := get_pod (pp_pod_id cmd) in
  match o with
  | None => ret tt
  | Some p => send_status (pp_pod_id cmd) (tracked_pod_status (state p))
  end.

(** [iter.min_by_key(|pod| pod.pod_id)]. *)
Definition min_by_pod_id (l : list TrackedPod) : option TrackedPod :=
  foldl (λ best p, match best with
    | None => Some p
    | Some b => if pod_id p <? pod_id b then Some p else best
    end) None l.

Definition routable (deployment : Z) (p : TrackedPod) : bool :=
  (deployment_id p =? deployment) && is_running (state p) && (0 <? port p)
  && bool_decide (is_Some (handle p)).

Definition run_response (request_id status : Z) (payload : bytes) : WorkerMessage :=
  RunResponse (mkRunResponseMsg request_id status payload).

Definition run_error_status (e : RuntimeError) : Z :=
  match e with EResponseTooLarge _ => RUN_STATUS_RESPONSE_TOO_LARGE | _ => RUN_STATUS_FORWARDING_FAILED end.

Definition handle_run_request (cmd : RunRequestCmd) : W unit :=
  let* w := worker_get (λ w, w) in
  match min_by_pod_id (filter (λ p, routable (rr_deployment_id cmd) p = true) (values (pods w))) with
  | Some p =>
    let* h := expect (handle p) "running pod handle must exist" in
    let* r := runtime (forward_run h (port p) (rr_payload cmd)) in
    match r with
    | Ok response => send (run_response (rr_request_id cmd) 0 response)
    | Err e => send (run_response (rr_request_id cmd) (run_error_status e)
                       (as_bytes (runtime_error_to_string e)))
    end
  | None =>
    send (run_response (rr_request_id cmd) RUN_STATUS_NO_RUNNING_POD
      (as_bytes ("no running pod for deployment " +:+ fmt_int (rr_deployment_id cmd))))
  end.

Definition handle_message (msg : ControlMessage) (now : Z) : W unit :=
  match msg with
  | StartPod cmd => handle_start_pod cmd now
  | StopPod cmd => handle_stop_pod cmd now
  | ProbePod cmd => handle_probe_pod cmd
  | RunRequest cmd => handle_run_request cmd
  end.

(** ** Failing and stopping a pod *)

Definition schedule_stop_retry (id now : Z) : W unit :=
  let* p := expect_pod id "failed stop pod must remain tracked" in
  assert (bool_decide (state p = Stopping)) "assertion `left == right` failed" ;;;
  put_pod id
    (set_lifecycle_retry_after_tick (sat_add U64_MAX now STOP_RETRY_DELAY_TICKS)
      (set_lifecycle_failures (Z.min (sat_add U8_MAX (lifecycle_failures p) 1) STOP_ATTEMPT_MAX) p)).

Definition retry_lifecycle_pod (id now : Z) : W bool :=
  let* o := get_pod id in
  match o with
  | None => ret false
  | Some p =>
    if LIFECYCLE_RETRY_MAX <=? sat_add U8_MAX (lifecycle_failures p) 1 then ret false
    else
      let* failures := add_overflow U8_MAX (lifecycle_failures p) 1 in
      assert (failures <? 64) "attempt to shift left with overflow" ;;;
      let delay := sat_mul U64_MAX LIFECYCLE_RETRY_DELAY_TICKS (Z.shiftl 1 failures) in
      put_pod id (set_lifecycle_retry_after_tick (sat_add U64_MAX now delay)
                   (set_lifecycle_failures failures p)) ;;;
      ret true
  end.

(** The terminal step shared by [fail_pod] and [complete_pod_stop]: release, scrub,
    prune, report. *)
Definition finish_pod (id : Z) (status : PodStatusReport) : W unit :=
  release_pod_resources id ;;;
  scrub_terminal_pod_data id ;;;
  prune_terminal_pods_to MAX_TERMINAL_TOMBSTONES ;;;
  send_status id status.

(** The deferred branch of [fail_pod]: cleanup is still owed. *)
Definition defer_failure (id : Z) (reason : string) (now : Z) : W unit :=
  update_pod id "failed pod must exist" (begin_stop 0 now) ;;;
  let* previous := worker_get (λ w, pending_failure_reasons w !! id) in
  worker_set (λ w, set_pending_failure_reasons (<[id:=reason]> (pending_failure_reasons w)) w) ;;;
  assert (bool_decide (previous = None)) "pod failure cleanup may only begin once" ;;;
  let* w := worker_get (λ w, w) in
  assert (size (pending_failure_reasons w) <=? size (pods w))%nat
    "assertion failed: self.pending_failure_reasons.len() <= self.pods.len()".

Definition fail_pod (id : Z) (reason : string) (now : Z) : W unit :=
  let* p := expect_pod id "failed pod must exist" in
  let needs_runtime_cleanup := bool_decide (is_Some (handle p)) in
  let* volume_cleanup :=
    (if needs_runtime_cleanup then ret (Ok tt) else on_host (unmount_juicefs id)) in
  if needs_runtime_cleanup || negb (result_is_ok volume_cleanup) then defer_failure id reason now
  else
    update_pod id "failed pod must exist"
      (λ p, set_state_changed_at now (set_state (Failed reason) p)) ;;;
    finish_pod id (RFailed reason).

(** The end of [complete_pod_stop], once nothing is owed. *)
Definition settle_stop (id exit_code now : Z) : W unit :=
  let* failure_reason := worker_get (λ w, pending_failure_reasons w !! id) in
  worker_set (λ w, set_pending_failure_reasons (delete id (pending_failure_reasons w)) w) ;;;
  let final := match failure_reason with Some r => Failed r | None => Stopped exit_code end in
  update_pod id "stopping pod must exist"
    (λ p, set_lifecycle_retry_after_tick 0 (set_state_changed_at now (set_state final p))) ;;;
  finish_pod id (match failure_reason with Some r => RFailed r | None => RStopped exit_code end).

Definition unmount_and_settle (id exit_code now : Z) : W unit :=
  let* cleanup := on_host (unmount_juicefs id) in
  match cleanup with
  | Err _ => schedule_stop_retry id now
  | Ok _ => settle_stop id exit_code now
  end.

Definition complete_pod_stop (id exit_code now : Z) : W unit :=
  let* o := get_pod id in
  assert (bool_decide (state <$> o = Some Stopping)) "only a stopping pod may complete stop" ;;;
  let* p := index_pod id in
  match handle p with
  | None => unmount_and_settle id exit_code now
  | Some h =>
    let* removed := runtime (remove_pod h) in
    match removed with
    | Err _ => schedule_stop_retry id now
    | Ok _ =>
      update_pod id "stopping pod must remain tracked" (set_handle None) ;;;
      unmount_and_settle id exit_code now
    end
  end.

(** ** [drive_pods], first phase: one pod *)

Definition drive_creating (id now : Z) (p : TrackedPod) : W (list LifecycleOp) :=
  if now <? lifecycle_retry_after_tick p then ret []
  else
    let* gpu := worker_get gpu_type in
    let* mounts :=
      (if str_is_empty (juicefs_path p) then ret (Ok [])
       else
         let* vol := on_host (mount_juicefs id (juicefs_path p)) in
         ret (result_map (λ vol, [mkBindMount (vm_host_path vol) (vm_container_path vol)]) vol)) in
    match mounts with
    | Ok mounts =>
      let spec := mkPodSpec id (deployment_id p) (image p) (entrypoint p) (port p) (gpu_count p)
        gpu (cpu_millicores p) (memory_megabytes p) (env_vars p) mounts in
      ret [OpCreate id (deployment_id p) spec]
    | Err error => fail_pod id ("juicefs mount failed: " +:+ error) now ;;; ret []
    end.

Definition drive_starting (id now : Z) (p : TrackedPod) : list LifecycleOp :=
  if now <? lifecycle_retry_after_tick p then []
  else match handle p with Some h => [OpStart id (deployment_id p) h] | None => [] end.

Definition drive_stopping (id now : Z) (p : TrackedPod) : list LifecycleOp :=
  if now <? lifecycle_retry_after_tick p then []
  else [OpStop id (handle p) (grace_period_ms p) (lifecycle_failures p <? STOP_ATTEMPT_MAX)].

(** The state of a running pod whose runtime reports an exit. *)
Definition exited (now : Z) (p : TrackedPod) : TrackedPod :=
  set_lifecycle_retry_after_tick 0 (set_lifecycle_failures STOP_ATTEMPT_MAX
    (set_grace_period_ms 0 (set_state_changed_at now (set_state Stopping p)))).

(** Independent verification of a running pod. *)
Definition verify_running (id now : Z) (h : PodHandle) : W bool :=
  let* status := runtime (pod_status h) in
  match status with
  | Ok PRunning => ret true
  | Ok (PStopped exit_code) =>
    update_pod id "called `Option::unwrap()` on a `None` value" (exited now) ;;;
    complete_pod_stop id exit_code now ;;; ret false
  | Ok (PCreated | PUnknown) =>
    fail_pod id "runtime no longer proves pod is running" now ;;; ret false
  | Err error =>
    fail_pod id ("runtime status verification failed: " +:+ runtime_error_to_string error) now ;;;
    ret false
  end.

(** The liveness probe of a verified pod. *)
Definition probe_running (id now : Z) : W unit :=
  let* p := index_pod id in
  let* should_probe :=
    (if negb (str_is_empty (liveness_path p)) && (0 <? port p) then
       let* due := add_overflow U64_MAX (last_probe_tick p) (probe_interval_ms p) in
       ret (due <=? now)
     else ret false) in
  when should_probe (
    let* h := expect (handle p) "running pod must retain its runtime handle" in
    update_pod id "called `Option::unwrap()` on a `None` value" (set_last_probe_tick now) ;;;
    let* probe := runtime (probe_pod h (port p) (liveness_path p)) in
    match probe with
    | Ok true =>
      update_pod id "called `Option::unwrap()` on a `None` value" (set_consecutive_failures 0)
    | Ok false | Err _ =>
      let* p := expect_pod id "called `Option::unwrap()` on a `None` value" in
      let failures := sat_add U8_MAX (consecutive_failures p) 1 in
      put_pod id (set_consecutive_failures failures p) ;;;
      when (3 <=? failures) (fail_pod id "liveness probe failed" now)
    end).

Definition drive_running (id now : Z) (p : TrackedPod) : W (list LifecycleOp) :=
  let* h := expect (handle p) "running pod must retain its runtime handle" in
  let* runtime_verified := verify_running id now h in
  when runtime_verified (probe_running id now) ;;; ret [].

Definition drive_pod (now id : Z) : W (list LifecycleOp) :=
  let* p := index_pod id in
  match state p with
  | ImagePulling => ret [OpPull id (deployment_id p) (image p) (image_pull_auth p)]
  | Creating => drive_creating id now p
  | Starting => ret (drive_starting id now p)
  | Running => drive_running id now p
  | Stopping => ret (drive_stopping id now p)
  | Stopped _ | Failed _ => ret []
  end.

(** ** Second phase: the chunks *)

Definition run_chunk (chunk : list LifecycleOp) : W (list LifecycleCompletion) := λ c,
  let '(ts, rt', sched') :=
    run_threads (2 * length chunk) (sched c) (Spawned <$> chunk) (rt c) in
  match join_all ts with
  | Some cs => Done (cs, mkCtx (worker c) (io c) rt' (host c) sched')
  | None => Panic "lifecycle threads did not finish"
  end.

(** [while offset < lifecycle_ops.len()]; the fuel is the number of operations. *)
Fixpoint run_chunks (fuel : nat) (ops : list LifecycleOp) : W (list LifecycleCompletion) :=
  match ops with
  | [] => ret []
  | op :: _ =>
    match fuel with
    | O => panic "lifecycle loop did not finish"
    | S fuel =>
      let* concurrency := worker_get (λ w, phase_concurrency (lifecycle_concurrency w) op) in
      let n := Z.to_nat concurrency in
      let* done := run_chunk (take n ops) in
      let* more := run_chunks fuel (drop n ops) in
      ret (done ++ more)
    end
  end.

(** ** Third phase: one completion *)

Definition complete_pull (id now : Z) (r : LifecycleResult) : W unit :=
  match r with
  | ResPull (Ok _) =>
    update_pod id "called `Option::unwrap()` on a `None` value"
      (λ p, set_state_changed_at now (set_state Creating p)) ;;;
    send_status id RCreating
  | ResPull (Err e) => fail_pod id (runtime_error_to_string e) now
  | _ => panic "pull op returned wrong result"
  end.

Definition complete_create (id now : Z) (r : LifecycleResult) : W unit :=
  match r with
  | ResCreate (Ok h) =>
    update_pod id "called `Option::unwrap()` on a `None` value"
      (λ p, set_lifecycle_retry_after_tick 0 (set_state_changed_at now
              (set_state Starting (set_handle (Some h) p))))
  | ResCreate (Err e) => fail_pod id (runtime_error_to_string e) now
  | _ => panic "create op returned wrong result"
  end.

(** A failed start: recreate after a delay, or give up. *)
Definition recover_start (id now : Z) (h : PodHandle) (e : RuntimeError) : W unit :=
  let* again := retry_lifecycle_pod id now in
  if again then
    let* removed := runtime (remove_pod h) in
    match removed with
    | Ok _ =>
      let* o := get_pod id in
      match o with
      | Some p => put_pod id (set_state_changed_at now (set_state Creating (set_handle None p)))
      | None => ret tt
      end
    | Err cleanup_error =>
      fail_pod id (runtime_error_to_string e +:+ "; failed start cleanup remains unverified: "
                   +:+ runtime_error_to_string cleanup_error) now
    end
  else fail_pod id (runtime_error_to_string e) now.

Definition complete_start (id now : Z) (h : PodHandle) (r : LifecycleResult) : W unit :=
  match r with
  | ResStart (Ok _) =>
    update_pod id "called `Option::unwrap()` on a `None` value"
      (λ p, set_lifecycle_retry_after_tick 0 (set_lifecycle_failures 0
              (set_state_changed_at now (set_state Running p)))) ;;;
    send_status id RRunning
  | ResStart (Err e) => recover_start id now h e
  | _ => panic "start op returned wrong result"
  end.

Definition complete_stop (id now : Z) (r : LifecycleResult) : W unit :=
  match r with
  | ResStop (Ok exit_code) => complete_pod_stop id exit_code now
  | ResStop (Err _) => schedule_stop_retry id now
  | _ => panic "stop op returned wrong result"
  end.

(** [if self.pods.get(&pod_id).map(|p| &p.state) != Some(&s) { continue; }]. *)
Definition if_state (id : Z) (s : TrackedPodState) (m : W unit) : W unit :=
  let* o := get_pod id in
  when (bool_decide (state <$> o = Some s)) m.

Definition process_completion (now : Z) (c : LifecycleCompletion) : W unit :=
  match lc_op c with
  | OpPull id _ _ _ => if_state id ImagePulling (complete_pull id now (lc_result c))
  | OpCreate id _ _ => if_state id Creating (complete_create id now (lc_result c))
  | OpStart id _ h => if_state id Starting (complete_start id now h (lc_result c))
  | OpStop id _ _ _ => if_state id Stopping (complete_stop id now (lc_result c))
  end.

Definition sorted_pod_ids (w : Worker) : list Z := sort_by Z.leb (keys (pods w)).

Definition drive_pods (now : Z) : W unit :=
  let* pod_ids := worker_get sorted_pod_ids in
  let* lifecycle_ops := for_collect pod_ids (drive_pod now) in
  let ops := sort_ops lifecycle_ops in
  let* completions := run_chunks (length ops) ops in
  for_each completions (process_completion now).

(** ** The tick *)

(** [while let Some(msg) = io.recv() { .. }]. *)
Fixpoint recv_loop (fuel : nat) (now : Z) : W unit :=
  match fuel with
  | O => panic "receive loop did not finish"
  | S fuel =>
    let* msg := recv in
    match msg with
    | None => ret tt
    | Some msg => handle_message msg now ;;; recv_loop fuel now
    end
  end.

Definition register (now : Z) : W unit :=
  let* w := worker_get (λ w, w) in
  when (negb (registered w)) (
    send (NodeRegister (mkNodeRegisterMsg (node_name w) (cpu_total w) (memory_total w)
            (gpu_type w) (gpu_total w))) ;;;
    worker_set (λ w, set_last_heartbeat_tick now (set_registered true w))).

Definition heartbeat (now : Z) : W unit :=
  let* w := worker_get (λ w, w) in
  let* due := add_overflow U64_MAX (last_heartbeat_tick w) HEARTBEAT_INTERVAL_TICKS in
  when (due <=? now) (
    send (NodeHeartbeat (mkNodeHeartbeatMsg now (Z.of_nat (running_count w))
            (sat_sub (gpu_total w) (gpu_allocated w)))) ;;;
    worker_set (set_last_heartbeat_tick now)).

(** [tick]; [fuel] bounds the messages received in one tick. *)
Definition tick (fuel : nat) : W unit :=
  let* now := (λ c : Ctx, Done (io_now (io c), c)) in
  register now ;;; recv_loop fuel now ;;; drive_pods now ;;; heartbeat now.

(** ** Shutdown *)

(** [for _ in 0..stop_attempts]: stop and verify until the exit is proved, the
    attempts are used up or the deadline has passed. *)
Fixpoint shutdown_stop (attempts : nat) (h : PodHandle) (requested_grace deadline : Z) : W (option Z) :=
  match attempts with
  | O => ret None
  | S attempts =>
    let* now := on_host instant_now in
    let remaining_ms := Z.min U64_MAX (as_millis (saturating_duration_since deadline now)) in
    if remaining_ms =? 0 then ret None
    else
      let* _ := runtime_until (stop_pod_until h (Z.min requested_grace remaining_ms) deadline) in
      let* status := runtime_until (pod_status_until h deadline) in
      match status with
      | Ok (PStopped exit_code) => ret (Some exit_code)
      | _ => shutdown_stop attempts h requested_grace deadline
      end
  end.

(** The exit code of a pod with a live handle, if it can be proved. *)
Definition shutdown_verify (h : PodHandle) (grace failures deadline : Z) : W (option Z) :=
  let requested_grace := if 0 <? grace then grace else DEFAULT_SHUTDOWN_GRACE_MS in
  let stop_attempts := sat_sub STOP_ATTEMPT_MAX failures in
  let* verified := shutdown_stop (Z.to_nat stop_attempts) h requested_grace deadline in
  if stop_attempts =? 0 then
    let* status := runtime_until (pod_status_until h deadline) in
    ret (match status with Ok (PStopped exit_code) => Some exit_code | _ => verified end)
  else ret verified.

(** A pod whose cleanup is still owed when shutdown gives up on it. *)
Definition retain (p : TrackedPod) : TrackedPod :=
  set_lifecycle_retry_after_tick U64_MAX (set_lifecycle_failures STOP_ATTEMPT_MAX
    (set_state Stopping p)).

(** The last steps for a verified pod: volume, report, untrack. *)
Definition shutdown_settle (id deadline exit_code : Z) (was_terminal : bool) : W unit :=
  let* unmounted := on_host (unmount_juicefs_until id deadline) in
  match unmounted with
  | Err _ => update_pod id "shutdown pod must remain tracked" retain
  | Ok _ =>
    let* failure_reason := worker_get (λ w, pending_failure_reasons w !! id) in
    worker_set (λ w, set_pending_failure_reasons (delete id (pending_failure_reasons w)) w) ;;;
    (if was_terminal then
       assert (bool_decide (failure_reason = None)) "assertion failed: failure_reason.is_none()"
     else
       release_pod_resources id ;;;
       send_status id (match failure_reason with
                       | Some reason => RFailed reason | None => RStopped exit_code end)) ;;;
    worker_set (λ w, set_pods (delete id (pods w)) w)
  end.

Definition shutdown_pod (deadline id : Z) (p : TrackedPod) : W unit :=
  let was_terminal := is_terminal (state p) in
  let* verified :=
    match state p, handle p with
    | Stopped exit_code, _ => ret (Some exit_code)
    | _, None => ret (Some 0)
    | _, Some h => shutdown_verify h (grace_period_ms p) (lifecycle_failures p) deadline
    end in
  match verified with
  | None => when (negb was_terminal) (update_pod id "shutdown pod must remain tracked" retain)
  | Some exit_code =>
    match handle p with
    | None => shutdown_settle id deadline exit_code was_terminal
    | Some h =>
      let* removed := runtime_until (remove_pod_until h deadline) in
      match removed with
      | Err _ => update_pod id "shutdown pod must remain tracked" retain
      | Ok _ =>
        update_pod id "shutdown pod must remain tracked" (set_handle None) ;;;
        shutdown_settle id deadline exit_code was_terminal
      end
    end
  end.

(** The loop over the pods, with its [break] at the deadline. *)
Fixpoint shutdown_loop (deadline : Z) (ids : list Z) : W unit :=
  match ids with
  | [] => ret tt
  | id :: ids =>
    let* now := on_host instant_now in
    if deadline <=? now then ret tt
    else
      let* o := get_pod id in
      match o with
      | None => ret tt
      | Some p => shutdown_pod deadline id p
      end ;;;
      shutdown_loop deadline ids
  end.

Definition shutdown_with_deadline (shutdown_budget : Z) : W bool :=
  assert (negb (shutdown_budget =? 0)) "shutdown budget must be positive" ;;;
  let* start := on_host instant_now in
  let* pod_ids := worker_get sorted_pod_ids in
  shutdown_loop (start + shutdown_budget) pod_ids ;;;
  let* w := worker_get (λ w, w) in
  if bool_decide (pods w = ∅) then
    assert (bool_decide (pending_failure_reasons w = ∅))
      "assertion failed: self.pending_failure_reasons.is_empty()" ;;;
    ret true
  else ret false.

Definition shutdown : W bool := shutdown_with_deadline (from_secs 20).

End worker.
