(* ===== verification/WorkerInv.v ===== *)
(** * The worker's invariant

    [winv] is what holds of a worker between calls: every tracked pod is well
    formed for its state, a deferred failure belongs to a stopping pod, the
    allocated GPUs, CPU and memory are exactly the sums over the live pods and
    within the node's capacity, and the tables are bounded.  The lemmas below are
    the frame rules the handlers' proofs use. *)

From S2P Require Import Prelude Types RustStr Traits Volumes Secrets Protocol Worker.

(** Ticks are kept this far from the end of [u64] so that deadlines can be added. *)
Definition TICK_MAX : Z := U64_MAX - 10000.

Definition handle_fits (s : TrackedPodState) (h : option PodHandle) : Prop :=
  match s with
  | Starting | Running => is_Some h
  | Stopping => True
  | ImagePulling | Creating | Stopped _ | Failed _ => h = None
  end.

Record pod_wf (k : Z) (p : TrackedPod) : Prop := {
  pw_id : pod_id p = k;
  pw_handle : handle_fits (state p) (handle p);
  pw_scrub : is_terminal (state p) = true → scrub p = p;
  pw_gpu : is_u8 (gpu_count p);
  pw_cpu : is_u32 (cpu_millicores p);
  pw_mem : is_u32 (memory_megabytes p);
  pw_failures : 0 ≤ lifecycle_failures p ≤ STOP_ATTEMPT_MAX;
  pw_grace : 0 ≤ grace_period_ms p ≤ MAX_STOP_GRACE_MS;
  pw_probe : 0 ≤ last_probe_tick p ≤ TICK_MAX;
  pw_interval : probe_interval_ms p = 10000;
  pw_consecutive : is_u8 (consecutive_failures p)
}.

(** What a live pod holds; a tombstone holds nothing. *)
Definition live (f : TrackedPod → Z) (p : TrackedPod) : Z :=
  if is_terminal (state p) then 0 else f p.

Definition terminal_pod (p : TrackedPod) : bool := is_terminal (state p).

Definition terminal_count (w : Worker) : Z := map_sum (count_of terminal_pod) (pods w).

Record winv_upto (n : Z) (w : Worker) : Prop := {
  wi_pods : map_Forall pod_wf (pods w);
  wi_pending : ∀ k r, pending_failure_reasons w !! k = Some r →
    ∃ p, pods w !! k = Some p ∧ state p = Stopping;
  wi_gpu : gpu_allocated w = map_sum (live gpu_count) (pods w);
  wi_cpu : cpu_allocated_millicores w = map_sum (live cpu_millicores) (pods w);
  wi_mem : memory_allocated_megabytes w = map_sum (live memory_megabytes) (pods w);
  wi_gpu_total : gpu_allocated w ≤ gpu_total w < U8_MAX;
  wi_cpu_total : cpu_allocated_millicores w ≤ cpu_total w < U32_MAX;
  wi_mem_total : memory_allocated_megabytes w ≤ memory_total w < U32_MAX;
  wi_size : (size (pods w) ≤ MAX_TRACKED_PODS)%nat;
  wi_terminal : terminal_count w ≤ n;
  wi_concurrency : 1 ≤ lifecycle_concurrency w ≤ 32;
  wi_heartbeat : 0 ≤ last_heartbeat_tick w ≤ TICK_MAX
}.

Abbreviation winv := (winv_upto (Z.of_nat MAX_TERMINAL_TOMBSTONES)).

(** ** Removing tombstones *)

Definition remove_ids (ids : list Z) (m : gmap Z TrackedPod) : gmap Z TrackedPod :=
  foldl (λ m id, delete id m) m ids.

Lemma lookup_remove_ids ids m k :
  remove_ids ids m !! k = if bool_decide (k ∈ ids) then None else m !! k.
Proof.
  revert m. induction ids as [|id ids IH]; intros m; simpl; [done|].
  rewrite IH. destruct (decide (k ∈ ids)) as [Hk|Hk].
  - rewrite !bool_decide_eq_true_2; [done|by constructor|done].
  - rewrite (bool_decide_eq_false_2 (k ∈ ids)) by done.
    destruct (decide (k = id)) as [->|Hne].
    + rewrite bool_decide_eq_true_2 by constructor. apply lookup_delete_eq.
    + rewrite bool_decide_eq_false_2 by (by rewrite elem_of_cons; intros [?|?]).
      by apply lookup_delete_ne.
Qed.

Lemma remove_ids_sum (f : TrackedPod → Z) ids m :
  NoDup ids → (∀ id, id ∈ ids → ∃ p, m !! id = Some p ∧ f p = 0) →
  map_sum f (remove_ids ids m) = map_sum f m.
Proof.
  revert m. induction ids as [|id ids IH]; intros m Hnd Hids; simpl; [done|].
  apply NoDup_cons in Hnd as [Hid Hnd]. destruct (Hids id) as (p & Hp & Hf); [set_solver|].
  rewrite IH; [|done|].
  - rewrite (map_sum_delete f m id p Hp). lia.
  - intros k Hk. destruct (Hids k) as (q & Hq & Hfq); [set_solver|]. exists q.
    by rewrite lookup_delete_ne by set_solver.
Qed.

Lemma remove_ids_count (pr : TrackedPod → bool) ids m :
  NoDup ids → (∀ id, id ∈ ids → ∃ p, m !! id = Some p ∧ pr p = true) →
  map_sum (count_of pr) (remove_ids ids m) = map_sum (count_of pr) m - Z.of_nat (length ids).
Proof.
  revert m. induction ids as [|id ids IH]; intros m Hnd Hids; simpl; [lia|].
  apply NoDup_cons in Hnd as [Hid Hnd]. destruct (Hids id) as (p & Hp & Hf); [set_solver|].
  rewrite IH; [|done|].
  - rewrite (map_sum_delete _ m id p Hp).
    assert (count_of pr p = 1) by (unfold count_of; by rewrite Hf). lia.
  - intros k Hk. destruct (Hids k) as (q & Hq & Hfq); [set_solver|]. exists q.
    by rewrite lookup_delete_ne by set_solver.
Qed.

Lemma size_remove_ids ids m : (size (remove_ids ids m) ≤ size m)%nat.
Proof.
  revert m. induction ids as [|id ids IH]; intros m; simpl; [done|].
  etrans; [apply IH|]. rewrite map_size_delete. destruct (m !! id); simpl; lia.
Qed.

(** ** The entries [prune_terminal_pods_to] sorts *)

Definition prune_ids (limit : nat) (w : Worker) : list Z :=
  (take (length (terminal_entries w) - limit) (terminal_entries w)).*2.

Lemma elem_of_terminal_entries w t id :
  (t, id) ∈ terminal_entries w ↔
  ∃ k p, pods w !! k = Some p ∧ is_terminal (state p) = true ∧
    t = state_changed_at p ∧ id = pod_id p.
Proof.
  unfold terminal_entries. rewrite elem_of_sort_by, list_elem_of_fmap. split.
  - intros (p & [= -> ->] & [Ht [k Hk]%elem_of_values]%list_elem_of_filter). eauto 10.
  - intros (k & p & Hk & Ht & -> & ->). exists p. split; [done|].
    apply list_elem_of_filter. split; [done|]. apply elem_of_values. eauto.
Qed.

Lemma length_terminal_entries w : Z.of_nat (length (terminal_entries w)) = terminal_count w.
Proof.
  unfold terminal_entries, terminal_count, map_sum. rewrite sum_with_count.
  by rewrite length_sort_by, length_fmap.
Qed.

Lemma NoDup_map_to_list_ids (m : gmap Z TrackedPod) :
  map_Forall (λ k p, pod_id p = k) m → NoDup (pod_id <$> values m).
Proof.
  intros Hm. unfold values. rewrite <-list_fmap_compose.
  erewrite list_fmap_ext; [apply (NoDup_fst_map_to_list m)|].
  intros i [k p] Hi. simpl. apply (Hm k p). apply elem_of_map_to_list.
  by eapply list_elem_of_lookup_2.
Qed.

Lemma NoDup_filter_fmap {A B} (f : A → B) (P : A → Prop) `{!∀ x, Decision (P x)} l :
  NoDup (f <$> l) → NoDup (f <$> filter P l).
Proof.
  induction l as [|x l IH]; [done|]. rewrite fmap_cons, NoDup_cons. intros [Hx Hl].
  rewrite filter_cons. destruct (decide (P x)); [|auto].
  rewrite fmap_cons, NoDup_cons. split; [|auto].
  intros (y & Hy & Hin)%list_elem_of_fmap. apply list_elem_of_filter in Hin as [_ Hin].
  apply Hx. rewrite Hy. by apply list_elem_of_fmap_2.
Qed.

Lemma NoDup_terminal_ids w :
  map_Forall (λ k p, pod_id p = k) (pods w) → NoDup (terminal_entries w).*2.
Proof.
  intros Hid. unfold terminal_entries. rewrite sort_by_perm, <-list_fmap_compose.
  change (snd ∘ λ p, (state_changed_at p, pod_id p)) with pod_id.
  by apply NoDup_filter_fmap, NoDup_map_to_list_ids.
Qed.

Lemma winv_ids n w : winv_upto n w → map_Forall (λ k p, pod_id p = k) (pods w).
Proof. intros Hw k p Hp. exact (pw_id _ _ (wi_pods _ _ Hw k p Hp)). Qed.

Lemma NoDup_prune_ids n limit w : winv_upto n w → NoDup (prune_ids limit w).
Proof.
  intros Hw. unfold prune_ids. rewrite fmap_take.
  eapply sublist_NoDup; [|apply sublist_take]. by eapply NoDup_terminal_ids, winv_ids.
Qed.

Lemma prune_ids_terminal n limit w id :
  winv_upto n w → id ∈ prune_ids limit w →
  ∃ p, pods w !! id = Some p ∧ is_terminal (state p) = true.
Proof.
  intros Hw. unfold prune_ids. intros ([t k] & -> & Hin)%list_elem_of_fmap.
  apply elem_of_take in Hin as (i & Hi & _). apply list_elem_of_lookup_2 in Hi.
  apply elem_of_terminal_entries in Hi as (k' & p & Hp & Ht & _ & ->). simpl.
  exists p. split; [|done]. by rewrite (winv_ids _ _ Hw k' p Hp).
Qed.

(** The worker after pruning. *)
Definition pruned (limit : nat) (w : Worker) : Worker :=
  set_pods (remove_ids (prune_ids limit w) (pods w)) w.

Lemma pruned_id limit w : terminal_count w ≤ Z.of_nat limit → pruned limit w = w.
Proof.
  intros Hl. unfold pruned, prune_ids. rewrite <-length_terminal_entries in Hl.
  replace (length (terminal_entries w) - limit)%nat with 0%nat by lia. by destruct w.
Qed.

Lemma length_prune_ids limit w :
  length (prune_ids limit w) = (length (terminal_entries w) - limit)%nat.
Proof. unfold prune_ids. rewrite length_fmap, length_take. lia. Qed.

Lemma live_terminal f p : is_terminal (state p) = true → live f p = 0.
Proof. unfold live. by intros ->. Qed.

Lemma winv_pruned n limit w : winv_upto n w → winv_upto (Z.of_nat limit) (pruned limit w).
Proof.
  intros Hw. pose proof (NoDup_prune_ids n limit w Hw) as Hnd.
  pose proof (λ id, prune_ids_terminal n limit w id Hw) as Hterm.
  assert (Hsum : ∀ f, map_sum (live f) (remove_ids (prune_ids limit w) (pods w)) =
                      map_sum (live f) (pods w)).
  { intros f. apply remove_ids_sum; [done|]. intros id (p & Hp & Ht)%Hterm.
    exists p. by rewrite live_terminal. }
  destruct Hw. constructor; unfold pruned; simpl; rewrite ?Hsum; try done.
  - intros k p. rewrite lookup_remove_ids. case_bool_decide; [done|]. apply wi_pods0.
  - intros k r Hr. destruct (wi_pending0 k r Hr) as (p & Hp & Hs). exists p.
    rewrite lookup_remove_ids, bool_decide_eq_false_2; [done|].
    intros (q & Hq & Ht)%Hterm. simplify_eq. by rewrite Hs in Ht.
  - pose proof (size_remove_ids (prune_ids limit w) (pods w)). lia.
  - unfold terminal_count. simpl. rewrite remove_ids_count; [|done|by apply Hterm].
    fold (terminal_count w). rewrite <-length_terminal_entries, length_prune_ids. lia.
Qed.

(** What an update of a pod must leave alone for the accounts to stay exact. *)
Record same_account (p q : TrackedPod) : Prop := {
  sa_gpu : gpu_count q = gpu_count p;
  sa_cpu : cpu_millicores q = cpu_millicores p;
  sa_mem : memory_megabytes q = memory_megabytes p
}.

Lemma same_account_refl p : same_account p p.
Proof. done. Qed.
#[global] Hint Resolve same_account_refl : core.

Lemma live_same f p q :
  is_terminal (state q) = is_terminal (state p) → f q = f p → live f q = live f p.
Proof. unfold live. by intros -> ->. Qed.

(** A live pod is replaced by a live pod, a tombstone by a tombstone. *)
Lemma winv_update n w k p q :
  winv_upto n w → pods w !! k = Some p → pod_wf k q →
  is_terminal (state q) = is_terminal (state p) → same_account p q →
  (is_Some (pending_failure_reasons w !! k) → state q = Stopping) →
  winv_upto n (set_pods (<[k:=q]> (pods w)) w).
Proof.
  intros Hw Hp Hq Ht [Hg Hc Hm] Hpend.
  assert (Hsum : ∀ f, f q = f p → map_sum (live f) (<[k:=q]> (pods w)) = map_sum (live f) (pods w)).
  { intros f Hf. rewrite (map_sum_update _ _ _ p) by done. rewrite (live_same f p q) by done. lia. }
  destruct Hw. constructor; simpl; rewrite ?Hsum; try done.
  - by apply map_Forall_insert_2.
  - intros k' r Hr. destruct (decide (k' = k)) as [->|Hne].
    + exists q. rewrite lookup_insert_eq. split; [done|]. apply Hpend. by eexists.
    + rewrite lookup_insert_ne by done. eauto.
  - rewrite map_size_insert, Hp. done.
  - unfold terminal_count in *. simpl. rewrite (map_sum_update _ _ _ p) by done.
    assert (count_of terminal_pod q = count_of terminal_pod p) as ->.
    { unfold count_of, terminal_pod. by rewrite Ht. }
    lia.
Qed.

(** The worker once pod [k] has become the tombstone [q]. *)
Definition entombed (k : Z) (q : TrackedPod) (w : Worker) : Worker :=
  set_pods (<[k:=scrub q]> (pods w)) (release q w).

Lemma winv_range n w :
  winv_upto n w → ∀ k p, pods w !! k = Some p →
  0 ≤ gpu_count p ∧ 0 ≤ cpu_millicores p ∧ 0 ≤ memory_megabytes p.
Proof. intros Hw k p Hp. destruct (wi_pods _ _ Hw k p Hp). unfold in_range in *. lia. Qed.

Lemma live_le_sum n w f k p :
  winv_upto n w → pods w !! k = Some p → is_terminal (state p) = false →
  (∀ k p, pods w !! k = Some p → 0 ≤ f p) → f p ≤ map_sum (live f) (pods w).
Proof.
  intros Hw Hp Ht Hf. replace (f p) with (live f p) by (unfold live; by rewrite Ht).
  apply (map_sum_lookup_le _ _ k); [|done]. intros k' p' Hp'. unfold live.
  case_match; [lia|eauto].
Qed.

Lemma live_scrub f q : is_terminal (state q) = true → live f (scrub q) = 0.
Proof. intros Hq. by apply live_terminal. Qed.

Lemma winv_entombed n w k p q :
  winv_upto n w → pods w !! k = Some p → is_terminal (state p) = false →
  is_terminal (state q) = true → pod_wf k (scrub q) → same_account p q →
  pending_failure_reasons w !! k = None →
  winv_upto (n + 1) (entombed k q w).
Proof.
  intros Hw Hp Hlive Hq Hwf [Hg Hc Hm] Hpend.
  pose proof (winv_range _ _ Hw) as Hr.
  assert (Hle : ∀ f, (∀ k p, pods w !! k = Some p → 0 ≤ f p) → f p ≤ map_sum (live f) (pods w)).
  { intros f Hf. by eapply live_le_sum. }
  assert (Hsum : ∀ f, map_sum (live f) (<[k:=scrub q]> (pods w)) = map_sum (live f) (pods w) - f p).
  { intros f. rewrite (map_sum_update _ _ _ p), live_scrub by done. unfold live. rewrite Hlive. lia. }
  pose proof (Hle gpu_count ltac:(intros; by eapply Hr)) as Lg.
  pose proof (Hle cpu_millicores ltac:(intros; by eapply Hr)) as Lc.
  pose proof (Hle memory_megabytes ltac:(intros; by eapply Hr)) as Lm.
  destruct (Hr k p Hp) as (? & ? & ?).
  destruct Hw. constructor; unfold entombed; simpl; unfold sat_sub; rewrite ?Hsum; try done; try lia.
  - by apply map_Forall_insert_2.
  - intros k' r Hr'. destruct (decide (k' = k)) as [->|Hne]; [congruence|].
    rewrite lookup_insert_ne by done. eauto.
  - rewrite map_size_insert, Hp. done.
  - unfold terminal_count in *. simpl. rewrite (map_sum_update _ _ _ p) by done.
    unfold count_of at 2, terminal_pod at 2. rewrite Hlive.
    unfold count_of at 2, terminal_pod at 2. simpl. rewrite Hq. lia.
Qed.

(** Forgetting a deferred failure. *)
Lemma winv_pending_delete n w k :
  winv_upto n w →
  winv_upto n (set_pending_failure_reasons (delete k (pending_failure_reasons w)) w).
Proof.
  intros []. constructor; simpl; try done.
  intros k' r [_ Hr]%lookup_delete_Some. eauto.
Qed.

Lemma winv_pending_insert n w k p r :
  winv_upto n w → pods w !! k = Some p → state p = Stopping →
  winv_upto n (set_pending_failure_reasons (<[k:=r]> (pending_failure_reasons w)) w).
Proof.
  intros [] Hp Hs. constructor; simpl; try done.
  intros k' r' [[<- <-]|[_ Hr]]%lookup_insert_Some; eauto.
Qed.

Lemma winv_pending_size n w :
  winv_upto n w → (size (pending_failure_reasons w) ≤ size (pods w))%nat.
Proof.
  intros Hw. rewrite <-!size_dom. apply subseteq_size. intros k.
  rewrite !elem_of_dom. intros [r Hr]. destruct (wi_pending _ _ Hw k r Hr) as (p & Hp & _).
  by eexists.
Qed.

Lemma winv_mono n n' w : winv_upto n w → n ≤ n' → winv_upto n' w.
Proof. intros [] Hn. constructor; try done. lia. Qed.

(** A deferred failure excludes every state but [Stopping]. *)
Lemma winv_not_pending n w k p :
  winv_upto n w → pods w !! k = Some p → state p ≠ Stopping → pending_failure_reasons w !! k = None.
Proof.
  intros Hw Hp Hs. destruct (pending_failure_reasons w !! k) as [r|] eqn:E; [|done].
  destruct (wi_pending _ _ Hw k r E) as (p' & Hp' & Hs'). congruence.
Qed.

(** ** Well-formedness of the field updates the handlers make *)

Lemma pod_wf_begin_stop k p grace now :
  pod_wf k p → is_terminal (state p) = false → 0 ≤ grace → pod_wf k (begin_stop grace now p).
Proof. intros [] Ht Hg. constructor; simpl; try done; unfold MAX_STOP_GRACE_MS, STOP_ATTEMPT_MAX; lia. Qed.

Lemma pod_wf_scrub k q :
  is_terminal (state q) = true → handle q = None → pod_wf k (set_state Stopping q) → pod_wf k (scrub q).
Proof.
  intros Ht Hh []. constructor; simpl in *; try done.
  unfold handle_fits. destruct (state q); simpl in *; congruence.
Qed.

Lemma pod_wf_retry k p failures tick :
  pod_wf k p → 0 ≤ failures ≤ STOP_ATTEMPT_MAX → is_terminal (state p) = false →
  pod_wf k (set_lifecycle_retry_after_tick tick (set_lifecycle_failures failures p)).
Proof. intros [] Hf Ht. constructor; simpl; try done. congruence. Qed.

(** A live pod moved to a live state its handle fits. *)
Lemma pod_wf_move k p q :
  pod_wf k p → is_terminal (state q) = false → handle_fits (state q) (handle q) →
  pod_id q = pod_id p → gpu_count q = gpu_count p → cpu_millicores q = cpu_millicores p →
  memory_megabytes q = memory_megabytes p →
  0 ≤ lifecycle_failures q ≤ STOP_ATTEMPT_MAX → 0 ≤ grace_period_ms q ≤ MAX_STOP_GRACE_MS →
  0 ≤ last_probe_tick q ≤ TICK_MAX → probe_interval_ms q = probe_interval_ms p →
  is_u8 (consecutive_failures q) → pod_wf k q.
Proof. intros [] Ht Hh Hi Hg Hc Hm ????. constructor; try congruence; done. Qed.

(** ** The life of a pod

    The abstract specification of the lifecycle: [life_step] is one step of a tracked pod.
    Nothing follows a terminal state.  A slot is filled only while messages are received
    and emptied only while pods are driven ([pod_edge]), so what a tick does to a slot is
    one life at most ([one_life]): a pod that is there before and after it is the same. *)

Inductive life_step : TrackedPodState → TrackedPodState → Prop :=
| edge_pulled : life_step ImagePulling Creating
| edge_created : life_step Creating Starting
| edge_started : life_step Starting Running
| edge_recreate : life_step Starting Creating
| edge_stop s : stoppable s = true → life_step s Stopping
| edge_fail_pull r : life_step ImagePulling (Failed r)
| edge_fail_create r : life_step Creating (Failed r)
| edge_stopped x : life_step Stopping (Stopped x)
| edge_failed r : life_step Stopping (Failed r).

Inductive phase := Receiving | Driving.

Inductive pod_edge : phase → option TrackedPodState → option TrackedPodState → Prop :=
| edge_step ph s s' : life_step s s' → pod_edge ph (Some s) (Some s')
| edge_admit : pod_edge Receiving None (Some ImagePulling)
| edge_forget s : is_terminal s = true → pod_edge Driving (Some s) None.

Create HintDb edgedb.
#[export] Hint Constructors life_step pod_edge : edgedb.
#[export] Hint Resolve rtc_refl rtc_once : edgedb.

Definition one_life (s s' : option TrackedPodState) : Prop :=
  match s, s' with
  | Some a, Some b => rtc life_step a b
  | None, Some b => rtc life_step ImagePulling b
  | Some a, None => ∃ t, is_terminal t = true ∧ rtc life_step a t
  | None, None => True
  end.

Lemma rtc_life_edge ph s s' : rtc life_step s s' → rtc (pod_edge ph) (Some s) (Some s').
Proof. induction 1 as [|s1 s2 s3 Hs _ IH]; [done|]. eapply rtc_l; [by apply edge_step|done]. Qed.

(** What is tracked stays tracked while messages are received. *)
Lemma receiving_life s s' :
  rtc (pod_edge Receiving) s s' →
  match s, s' with
  | Some a, Some b => rtc life_step a b
  | Some a, None => False
  | None, Some b => rtc life_step ImagePulling b
  | None, None => True
  end.
Proof.
  induction 1 as [s|s1 s2 s3 Hs _ IH]; [by destruct s|].
  inversion Hs; subst; destruct s3; try done. by eapply rtc_l.
Qed.

(** What is not tracked stays so while pods are driven. *)
Lemma driving_life s s' :
  rtc (pod_edge Driving) s s' →
  match s, s' with
  | Some a, Some b => rtc life_step a b
  | Some a, None => ∃ t, is_terminal t = true ∧ rtc life_step a t
  | None, Some b => False
  | None, None => True
  end.
Proof.
  induction 1 as [s|s1 s2 s3 Hs _ IH]; [by destruct s|].
  inversion Hs as [ph a b Hab| |a Ha]; subst; destruct s3 as [z|]; try done.
  - by eapply rtc_l.
  - destruct IH as (t & ? & ?). exists t. split; [done|by eapply rtc_l].
  - by exists a.
Qed.

Lemma one_life_tick s m s' :
  rtc (pod_edge Receiving) s m → rtc (pod_edge Driving) m s' → one_life s s'.
Proof.
  intros Hr%receiving_life Hd%driving_life. destruct s as [a|], m as [x|], s' as [b|]; try done; cbn [one_life].
  - by etrans.
  - destruct Hd as (t & ? & ?). exists t. split; [done|by etrans].
  - by etrans.
Qed.

Definition pstate (w : Worker) (k : Z) : option TrackedPodState := state <$> pods w !! k.

(** Every slot moves along the edges of a phase. *)
Definition moves (ph : phase) (w w' : Worker) : Prop := ∀ k, rtc (pod_edge ph) (pstate w k) (pstate w' k).

#[export] Instance moves_preorder ph : PreOrder (moves ph).
Proof. split; [by intros w k|]. intros w1 w2 w3 H1 H2 k. etrans; [apply H1|apply H2]. Qed.

Lemma moves_pods ph w w' : pods w' = pods w → moves ph w w'.
Proof. intros E k. unfold pstate. by rewrite E. Qed.

Lemma moves_slot ph id q w w' :
  pods w' = <[id:=q]> (pods w) → rtc (pod_edge ph) (pstate w id) (Some (state q)) → moves ph w w'.
Proof.
  intros E Hq k. unfold pstate in *. rewrite E. destruct (decide (k = id)) as [->|Hne].
  - by rewrite lookup_insert_eq.
  - by rewrite lookup_insert_ne.
Qed.

Lemma moves_insert ph id p q w w' :
  pods w !! id = Some p → pods w' = <[id:=q]> (pods w) → rtc life_step (state p) (state q) → moves ph w w'.
Proof.
  intros Hp E Hq. eapply moves_slot; [exact E|]. unfold pstate. rewrite Hp. by apply rtc_life_edge.
Qed.

Lemma moves_pruned n limit w : winv_upto n w → moves Driving w (pruned limit w).
Proof.
  intros Hw k. unfold pstate, pruned. simpl. rewrite lookup_remove_ids.
  case_bool_decide as Hk; [|done]. destruct (prune_ids_terminal _ _ _ _ Hw Hk) as (p & -> & Ht).
  by apply rtc_once, edge_forget.
Qed.

(** Every slot lives one life at most. *)
Definition lives (w w' : Worker) : Prop := ∀ k, one_life (pstate w k) (pstate w' k).

Lemma lives_refl w : lives w w.
Proof. intros k. unfold one_life. by destruct (pstate w k). Qed.
