(* ===== verification/Keeps.v ===== *)
(** * Code that keeps an invariant

    [keeps I R m]: run from a state in [I], [m] stays in [I] if it returns, and its result
    is in [R].  The rules follow the structure of the worker's handlers; what an invariant
    has to show itself is what happens to it when pods are read and written and when the
    runtime is called. *)

From S2P Require Import Prelude Types RustStr Traits Volumes Secrets Protocol Worker.

Section generic.
  Context {S : Type} (I : S → Prop).

Definition keeps {A} (R : A → Prop) (m : M S A) : Prop :=
  ∀ s, I s → wp any_panic m (λ a s', I s' ∧ R a) s.

Lemma keeps_ret {A} (R : A → Prop) a : R a → keeps R (ret a).
Proof. by intros Ha s Hs. Qed.

Lemma keeps_bind {A B} (R : A → Prop) (R' : B → Prop) m (f : A → M S B) :
  keeps R m → (∀ a, R a → keeps R' (f a)) → keeps R' (bind m f).
Proof.
  intros Hm Hf s Hs. apply wp_bind. eapply wp_mono; [by apply Hm|]. intros a s' [? ?]. by apply Hf.
Qed.

Lemma keeps_weaken {A} (R R' : A → Prop) m : keeps R m → (∀ a, R a → R' a) → keeps R' m.
Proof. intros Hm HR s Hs. eapply wp_mono; [by apply Hm|]. intros a s' [? ?]. auto. Qed.

Lemma keeps_wp {A} (m : M S A) s : keeps (λ _, True) m → I s → wp any_panic m (λ _ s', I s') s.
Proof. intros Hm Hs. eapply wp_mono; [by apply Hm|]. by intros a s' [? _]. Qed.

Lemma keeps_panic {A} (R : A → Prop) e : keeps R (panic e).
Proof. done. Qed.

Lemma keeps_assert b msg : keeps (λ _, b = true) (assert b msg).
Proof. intros s Hs. by destruct b. Qed.

Lemma keeps_add max a b : keeps (λ _, True) (add_overflow max a b).
Proof. intros s Hs. by apply wp_any_add. Qed.

Lemma keeps_expect {A} (o : option A) msg : keeps (λ a, o = Some a) (expect o msg).
Proof. intros s Hs. by destruct o. Qed.

Lemma keeps_when b m : keeps (λ _, True) m → keeps (λ _, True) (when b m).
Proof. intros Hm. destruct b; [done|by apply keeps_ret]. Qed.

Lemma keeps_for_each {A} (l : list A) body :
  (∀ x, x ∈ l → keeps (λ _, True) (body x)) → keeps (λ _, True) (for_each l body).
Proof.
  induction l as [|x l IH]; intros Hl; cbn [for_each]; [by apply keeps_ret|].
  eapply keeps_bind; [apply Hl; by left|]. intros _ _. apply IH. intros y Hy. apply Hl. by right.
Qed.

Lemma keeps_for_collect {A B} (l : list A) (body : A → M S (list B)) (R : B → Prop) :
  (∀ x, x ∈ l → keeps (Forall R) (body x)) → keeps (Forall R) (for_collect l body).
Proof.
  induction l as [|x l IH]; intros Hl; cbn [for_collect]; [by apply keeps_ret|].
  eapply keeps_bind; [apply Hl; by left|]. intros bs Hbs.
  eapply keeps_bind; [apply IH; intros y Hy; apply Hl; by right|]. intros cs Hcs.
  apply keeps_ret. by apply Forall_app.
Qed.

End generic.

(** ** Invariants of the worker and its runtime *)

Section context.
  Context {IO RT H : Type} `{!Io IO} `{!Host H} `{!Runtime RT H}.
  Abbreviation C := (@Ctx IO RT H).
  Context (I : C → Prop).

(** [I] reads nothing but the pods and the runtime. *)
Definition reads_pods : Prop :=
  ∀ c c' : C, I c → pods (worker c') = pods (worker c) → rt c' = rt c → I c'.
Hypothesis HI : reads_pods.

Lemma keeps_worker_get {A} (f : Worker → A) : keeps I (λ _, True) (worker_get f).
Proof. by intros c Hc. Qed.

Lemma keeps_worker_set f : (∀ w, pods (f w) = pods w) → keeps I (λ _, True) (worker_set f).
Proof using HI. intros Hf c Hc. split; [|done]. by apply (HI c); [|apply Hf|]. Qed.

Lemma keeps_send msg : keeps I (λ _, True) (send msg).
Proof using HI. intros c Hc. unfold wp, send. destruct (io_send msg (io c)); [|done]. split; [by apply (HI c)|done]. Qed.

Lemma keeps_recv : keeps I (λ _, True) recv.
Proof using HI. intros c Hc. unfold wp, recv. destruct (io_recv (io c)) as [[]|]; [|done]. split; [by apply (HI c)|done]. Qed.

Lemma keeps_on_host {A} (f : H → A * H) : keeps I (λ _, True) (on_host f).
Proof using HI. intros c Hc. unfold wp, on_host. destruct (f (host c)). split; [by apply (HI c)|done]. Qed.

Lemma keeps_with_resolver {A} (f : SecretResolver → H → A * SecretResolver * H) :
  keeps I (λ _, True) (with_resolver f).
Proof using HI.
  intros c Hc. unfold wp, with_resolver. destruct (f _ _) as [[]]. split; [by apply (HI c)|done].
Qed.

End context.

(** ** Running a handler from a known state *)

Lemma any_assert {S} b msg (Q : unit → S → Prop) s : (b = true → Q tt s) → wp any_panic (assert b msg) Q s.
Proof. intros HQ. destruct b; [by apply HQ|done]. Qed.

Lemma any_expect {S A} (o : option A) msg (Q : A → S → Prop) s :
  (∀ a, o = Some a → Q a s) → wp any_panic (expect o msg) Q s.
Proof. intros HQ. destruct o; [by apply HQ|done]. Qed.

Section known.
  Context {IO RT H : Type} `{!Io IO} `{!Host H} `{!Runtime RT H}.
  Implicit Types c : @Ctx IO RT H.

Lemma any_worker_get {A} (f : Worker → A) Q c : Q (f (worker c)) c → wp any_panic (worker_get f) Q c.
Proof. done. Qed.

Lemma any_worker_set f Q c : Q tt (with_worker f c) → wp any_panic (worker_set f) Q c.
Proof. done. Qed.

Lemma any_get_pod id Q c : Q (pods (worker c) !! id) c → wp any_panic (get_pod id) Q c.
Proof. done. Qed.

Lemma any_put_pod id p Q c :
  Q tt (with_worker (λ w, set_pods (<[id:=p]> (pods w)) w) c) → wp any_panic (put_pod id p) Q c.
Proof. done. Qed.

Lemma any_expect_pod id msg Q c :
  (∀ p, pods (worker c) !! id = Some p → Q p c) → wp any_panic (expect_pod id msg) Q c.
Proof. intros HQ. apply wp_bind, any_get_pod, any_expect. exact HQ. Qed.

Lemma any_update_pod id msg f Q c :
  (∀ p, pods (worker c) !! id = Some p → Q tt (with_worker (λ w, set_pods (<[id:=f p]> (pods w)) w) c)) →
  wp any_panic (update_pod id msg f) Q c.
Proof. intros HQ. apply wp_bind, any_expect_pod. intros p Hp. by apply any_put_pod, HQ. Qed.

Lemma any_send msg (Q : unit → @Ctx IO RT H → Prop) c :
  (∀ c', worker c' = worker c → rt c' = rt c → Q tt c') → wp any_panic (send msg) Q c.
Proof. intros HQ. unfold wp, send. destruct (io_send msg (io c)); [by apply HQ|done]. Qed.

Lemma any_runtime {A} (f : RT → A * RT) (Q : A → @Ctx IO RT H → Prop) c :
  (∀ c', worker c' = worker c → rt c' = (f (rt c)).2 → Q (f (rt c)).1 c') → wp any_panic (runtime f) Q c.
Proof. intros HQ. unfold wp, runtime. destruct (f (rt c)). by apply HQ. Qed.

Lemma any_runtime_until {A} (f : RT * H → A * (RT * H)) (Q : A → @Ctx IO RT H → Prop) c :
  (∀ h c', worker c' = worker c → rt c' = (f (rt c, h)).2.1 → Q (f (rt c, h)).1 c') →
  wp any_panic (runtime_until f) Q c.
Proof.
  intros HQ. unfold wp, runtime_until. specialize (HQ (host c)). destruct (f (rt c, host c)) as [a [r h]].
  by apply HQ.
Qed.

Lemma any_on_host {A} (f : H → A * H) (Q : A → @Ctx IO RT H → Prop) c :
  (∀ a c', worker c' = worker c → rt c' = rt c → Q a c') → wp any_panic (on_host f) Q c.
Proof. intros HQ. unfold wp, on_host. destruct (f (host c)). by apply HQ. Qed.

End known.

(** One step; [t] is for the reads and writes of pods and the calls of the runtime. *)
Ltac keep1 HI t :=
  lazymatch goal with
  | |- keeps _ _ (ret _) => apply keeps_ret; try done
  | |- keeps _ _ (panic _) => apply keeps_panic
  | |- keeps _ _ (bind (assert _ _) _) => eapply keeps_bind; [apply keeps_assert|intros ? ?]
  | |- keeps _ _ (bind (expect _ _) _) => eapply keeps_bind; [apply keeps_expect|intros ? ?]
  | |- keeps _ _ (assert _ _) => eapply keeps_weaken; [apply keeps_assert|done]
  | |- keeps _ _ (expect _ _) => eapply keeps_weaken; [apply keeps_expect|done]
  | |- keeps _ _ (add_overflow _ _ _) => apply keeps_add
  | |- keeps _ _ (worker_get _) => apply keeps_worker_get
  | |- keeps _ _ (send _) => apply (keeps_send _ HI)
  | |- keeps _ _ (send_status _ _) => apply (keeps_send _ HI)
  | |- keeps _ _ (on_host _) => apply (keeps_on_host _ HI)
  | |- keeps _ _ (with_resolver _) => apply (keeps_with_resolver _ HI)
  | |- keeps _ _ (when _ _) => apply keeps_when
  | |- keeps _ _ (worker_set _) => apply (keeps_worker_set _ HI); [done..]
  | |- keeps _ _ (if ?b then _ else _) => destruct b
  | |- _ => t
  end.

(** What is left when no rule applies. *)
Ltac keep_cut :=
  lazymatch goal with
  | |- keeps _ _ (bind _ _) => eapply (keeps_bind _ (λ _, True)); [|intros ? _]
  | |- keeps _ _ (match ?x with _ => _ end) => destruct x eqn:?
  end.
