(* ===== verification/ContainerdLaws.v ===== *)
(** * The containerd runtime as a [Runtime]

    [impl Runtime for ContainerdRuntime] as an instance of the class the worker is written
    against.  What it owns are the tasks containerd runs: only [ctr tasks start] makes one,
    and a removal is answered [Ok] only after a listing without it, so that the worker's
    theorems about containers hold over it. *)

From S2P Require Import Prelude Types RustStr RustParse Traits System Http Containerd ContainerdText ContainerdSafety.
From S2P Require Import Keeps.

(** ** What containerd promises *)

(** The containerd behind a runtime, by namespace and socket. *)
Definition ctr_address (r : ContainerdRuntime) : string * string := (cd_namespace r, cd_socket_path r).

(** The subcommands of [ctr] the runtime uses that start nothing. *)
Definition idle_verbs : list (list string) :=
  [["tasks"; "list"]; ["tasks"; "kill"]; ["tasks"; "delete"]; ["containers"; "list"]; ["containers"; "info"];
   ["containers"; "create"]; ["containers"; "delete"]; ["images"; "ls"]; ["images"; "pull"]]%string.

(** The calls of the system that are not commands. *)
Inductive ordinary {OS} `{!Host OS} `{!System OS} : ∀ {A}, (OS → A * OS) → Prop :=
| ord_now : ordinary instant_now
| ord_sleep d : ordinary (λ os, (tt, thread_sleep d os))
| ord_remove_dir d : ordinary (remove_dir_all d)
| ord_exists d : ordinary (path_exists d)
| ord_create_dir d : ordinary (create_dir d)
| ord_permissions d mode : ordinary (set_permissions d mode)
| ord_open d mode : ordinary (open_new d mode)
| ord_file_write file b : ordinary (file_write_all file b)
| ord_file_sync file : ordinary (file_sync file)
| ord_fs_write path s : ordinary (fs_write path s)
| ord_open_netns path : ordinary (open_netns path)
| ord_setns ns : ordinary (setns ns)
| ord_connect port timeout : ordinary (tcp_connect port timeout)
| ord_timeout sock d : ordinary (set_timeout sock d)
| ord_write sock b : ordinary (tcp_write_all sock b)
| ord_read sock n : ordinary (tcp_read sock n)
| ord_post url d c b : ordinary (http_post url d c b).

(** Nobody else starts tasks in the worker's namespace, [ctr tasks start] starts the one it
    names, and [ctr tasks list] lists them all. *)
Class CtrLaws (OS : Type) `{!Host OS} `{!System OS} := {
  has_task : string * string → OS → string → Prop;
  task_listed r ms os out x :
    (command_output (ctr_command r ms tasks_list) os).1 = Ok out → co_success out = true →
    has_task (ctr_address r) (command_output (ctr_command r ms tasks_list) os).2 x →
    x ∈ first_columns (from_utf8_lossy (co_stdout out));
  task_idle r ms args os x :
    take 2 args ∈ idle_verbs → has_task (ctr_address r) (command_output (ctr_command r ms args) os).2 x →
    has_task (ctr_address r) os x;
  task_started r ms id os x :
    has_task (ctr_address r) (command_output (ctr_command r ms ["tasks"; "start"; "--detach"; id]%string) os).2 x →
    has_task (ctr_address r) os x ∨ x = id;
  task_ordinary {A} (f : OS → A * OS) a os x : ordinary f → has_task a (f os).2 x → has_task a os x
}.

Section instance.
  Context {OS : Type} `{!Host OS} `{!System OS}.
  Abbreviation St := (ContainerdRuntime * OS)%type.

(** No operation panics ([containerd_runtime_exact]). *)
#[export] Instance containerd_runtime {H} : Runtime St H := {
  pull_image image auth := answer (cd_pull_image image auth);
  create_pod spec := answer (cd_create_pod spec);
  start_pod h := answer (cd_start_pod h);
  forward_run h port payload := answer (cd_forward_run h port payload);
  probe_pod h port path := answer (cd_probe_pod h port path);
  stop_pod h grace := answer (cd_stop_pod h grace);
  pod_status h := answer (cd_pod_status h);
  remove_pod h := answer (cd_remove_pod h);
  stop_pod_until h grace deadline := answer_beside (cd_stop_pod_until h grace deadline);
  pod_status_until h deadline := answer_beside (cd_pod_status_until h deadline);
  remove_pod_until h deadline := answer_beside (cd_remove_pod_until h deadline)
}.

(** ** Which operations start tasks *)

Section tasks.
  Context `{CTR : !CtrLaws OS} (P : string → Prop).
  Abbreviation anything := (λ _, True).

Definition runs_task (s : St) (x : string) : Prop := has_task (ctr_address s.1) s.2 x.

(** All tasks are in [P]. *)
Definition within (s : St) : Prop := ∀ x, runs_task s x → P x.
Definition within_at (a : string * string) (os : OS) : Prop := ∀ x, has_task a os x → P x.

Lemma keeps_seq {S A B} (I : S → Prop) (m : M S A) (f : A → M S B) :
  keeps I anything m → (∀ a, keeps I anything (f a)) → keeps I anything (bind m f).
Proof. intros Hm Hf. by eapply keeps_bind; [exact Hm|]. Qed.

Lemma keeps_try {S A B E} (I : S → Prop) (m : M S (result A E)) (f : A → M S (result B E)) :
  keeps I anything m → (∀ a, keeps I anything (f a)) → keeps I anything (try_bind m f).
Proof. intros Hm Hf. apply keeps_seq; [done|]. intros [a|e]; [apply Hf|by apply keeps_ret]. Qed.

Lemma keeps_map_err {S A E F} (I : S → Prop) (g : E → F) (m : M S (result A E)) :
  keeps I anything m → keeps I anything (map_err g m).
Proof. intros Hm. apply keeps_seq; [done|]. intros r. by apply keeps_ret. Qed.

Lemma keeps_sys {A} a (f : OS → A * OS) : ordinary f → keeps (within_at a) anything (sys f).
Proof. intros Hf os Hos. apply wp_sys. split; [|done]. intros x Hx. apply Hos. by eapply task_ordinary. Qed.

Lemma keeps_cd_sys {A} (f : OS → A * OS) : ordinary f → keeps within anything (cd_sys f).
Proof.
  intros Hf [r os] Hs. apply wp_cd_sys. split; [|done]. intros x Hx. apply Hs. unfold runs_task in *. cbn [fst snd] in *.
  by eapply task_ordinary.
Qed.

Lemma keeps_cd_get : keeps within anything cd_get.
Proof. by intros s Hs. Qed.

Lemma keeps_cd_on {A} (m : M OS A) : (∀ a, keeps (within_at a) anything m) → keeps within anything (cd_on m).
Proof.
  intros Hm [r os] Hs. specialize (Hm (ctr_address r) os Hs). unfold wp, cd_on in *. cbn [fst snd].
  by destruct (m os) as [[a os']|].
Qed.

Lemma keeps_ctr_duration args t reds : take 2 args ∈ idle_verbs → keeps within anything (run_ctr_duration args t reds).
Proof.
  intros Ha [r os] Hs. destruct (decide (t = 0)) as [->|Ht]; [done|].
  destruct (run_ctr_duration_done args t reds r os Ht) as (res & ms & E). unfold wp. rewrite E. split; [|done].
  intros x Hx. apply Hs. by eapply task_idle.
Qed.

Lemma keeps_ctr args : take 2 args ∈ idle_verbs → keeps within anything (run_ctr args).
Proof. apply keeps_ctr_duration. Qed.

Lemma keeps_ctr_until args deadline : take 2 args ∈ idle_verbs → keeps within anything (run_ctr_until args deadline).
Proof.
  intros Ha. apply keeps_seq; [apply keeps_cd_sys; constructor|]. intros now. cbv zeta.
  destruct (_ =? 0); [by apply keeps_ret|by apply keeps_ctr_duration].
Qed.

Lemma keeps_start_ctr id : P id → keeps within anything (run_ctr ["tasks"; "start"; "--detach"; id]%string).
Proof.
  intros Hid [r os] Hs. destruct (run_ctr_done ["tasks"; "start"; "--detach"; id]%string r os) as (res & ms & E).
  unfold wp. rewrite E. split; [|done]. intros x [Hx| ->]%task_started; [by apply Hs|done].
Qed.

(** One step of code that starts nothing. *)
Ltac idle_verb := apply (bool_decide_eq_true (_ ∈ _)); reflexivity.
Ltac idle1 :=
  lazymatch goal with
  | |- keeps _ _ (bind _ _) => apply keeps_seq; [|intros ?]
  | |- keeps _ _ (try_bind _ _) => apply keeps_try; [|intros ?]
  | |- keeps _ _ (map_err _ _) => apply keeps_map_err
  | |- keeps _ _ (cd_sys _) => apply keeps_cd_sys; constructor
  | |- keeps _ _ (sys _) => apply keeps_sys; constructor
  | |- keeps _ _ cd_get => apply keeps_cd_get
  | |- keeps _ _ (ret _) => by apply keeps_ret
  | |- keeps _ _ (succeed _) => by apply keeps_ret
  | |- keeps _ _ (fail _) => by apply keeps_ret
  | |- keeps _ _ (panic _) => apply keeps_panic
  | |- keeps _ _ (assert _ _) => eapply keeps_weaken; [apply keeps_assert|done]
  | |- keeps _ _ (add_overflow _ _ _) => apply keeps_add
  | |- keeps _ _ (when _ _) => apply keeps_when
  | |- keeps _ _ (run_ctr _) => apply keeps_ctr; idle_verb
  | |- keeps _ _ (run_ctr_until _ _) => apply keeps_ctr_until; idle_verb
  | |- keeps _ _ (run_ctr_duration _ _ _) => apply keeps_ctr_duration; idle_verb
  | |- keeps _ _ (match ?x with _ => _ end) => destruct x
  | |- keeps _ _ (let _ := _ in _) => cbv zeta
  end.
Ltac idle := repeat idle1.

Lemma keeps_cleanup id deadline : keeps within anything (cleanup_task_state_until id deadline).
Proof. unfold cleanup_task_state_until. idle. Qed.

Lemma keeps_cleanup_now id : keeps within anything (cleanup_task_state id).
Proof. unfold cleanup_task_state. idle1; [idle|]. apply keeps_cleanup. Qed.

Lemma keeps_cleanup_all ids : keeps within anything (cleanup_all ids).
Proof.
  induction ids as [|id ids IH]; cbn [cleanup_all]; [idle|]. idle1; [apply keeps_cleanup_now|exact IH].
Qed.

Lemma keeps_create spec : keeps within anything (cd_create_pod spec).
Proof.
  unfold cd_create_pod, find_adoptable_container, cleanup_container_family, next_container_id, apply_cgroup_limits.
  idle; [apply keeps_cleanup_all|by intros s Hs].
Qed.

Lemma keeps_pull_with image hosts reds : keeps within anything (pull_with_hosts image hosts reds).
Proof. unfold pull_with_hosts, image_present, pull_image_args. idle. Qed.

Lemma keeps_prepare auth : keeps within anything (prepare_registry_hosts auth).
Proof. unfold prepare_registry_hosts. idle; by intros s Hs. Qed.

Lemma keeps_pull image auth : keeps within anything (cd_pull_image image auth).
Proof.
  unfold cd_pull_image, image_present. idle; auto using keeps_prepare, keeps_pull_with.
Qed.

Lemma keeps_start h : P (ph_container_id h) → keeps within anything (cd_start_pod h).
Proof. intros Hh. unfold cd_start_pod, task_status_by_id. idle1; [by apply keeps_start_ctr|]. idle. Qed.

Lemma keeps_netns {T} pid (f : M OS (result T RuntimeError)) :
  (∀ a, keeps (within_at a) anything f) → keeps within anything (with_task_netns pid f).
Proof. intros Hf. unfold with_task_netns. idle. by apply keeps_cd_on. Qed.

Lemma keeps_read_status a fuel sock started got : keeps (within_at a) anything (read_status_line fuel sock started got).
Proof.
  revert got. induction fuel as [|fuel IH]; intros got; cbn [read_status_line]; unfold probe_time_remaining; idle; apply IH.
Qed.

Lemma keeps_probe h port path : keeps within anything (cd_probe_pod h port path).
Proof.
  unfold cd_probe_pod, task_pid. idle. apply keeps_netns. intros a0. unfold probe_http, probe_time_remaining. idle.
  apply keeps_read_status.
Qed.

Lemma keeps_forward h port payload : keeps within anything (cd_forward_run h port payload).
Proof.
  unfold cd_forward_run, task_pid. idle. apply keeps_netns. intros a0. unfold post_run, forward_run_with_deadline. idle.
Qed.

Lemma keeps_status h : keeps within anything (cd_pod_status h).
Proof. unfold cd_pod_status. idle. Qed.

Lemma keeps_status_until h deadline : keeps within anything (cd_pod_status_until h deadline).
Proof. unfold cd_pod_status_until. idle. Qed.

Lemma keeps_await fuel h grace_deadline deadline : keeps within anything (await_stopped fuel h grace_deadline deadline).
Proof.
  induction fuel as [|fuel IH]; cbn [await_stopped]; [idle|]. idle1; [apply keeps_status_until|]. idle; apply IH.
Qed.

Lemma keeps_stop_until h grace deadline : keeps within anything (cd_stop_pod_until h grace deadline).
Proof. unfold cd_stop_pod_until. idle; auto using keeps_await, keeps_status_until. Qed.

Lemma keeps_stop h grace : keeps within anything (cd_stop_pod h grace).
Proof. unfold cd_stop_pod. idle. apply keeps_stop_until. Qed.

End tasks.

(** ** What it owns *)

Section laws.
  Context `{CTR : !CtrLaws OS} (inherited : string → Prop).

(** The tasks that run, apart from those of earlier lives of the worker. *)
Definition containerd_owns (s : St) (x : string) : Prop := runs_task s x ∧ ¬ inherited x.

Lemma keeps_owns {A} (Q : string → Prop) (m : M St (result A RuntimeError)) s x :
  (∀ P : string → Prop, (∀ y, Q y → P y) → keeps (within P) (λ _, True) m) → containerd_owns (answer m s).2 x →
  containerd_owns s x ∨ Q x.
Proof.
  intros Hm [Hx Hi]. specialize (Hm (λ y, runs_task s y ∨ Q y) (λ y Hy, or_intror Hy) s (λ y Hy, or_introl Hy)).
  unfold wp, answer in *. destruct (m s) as [[a s']|e]; [|by left].
  destruct Hm as [Hm _]. cbn [snd] in Hx. destruct (Hm x Hx); [left|right]; done.
Qed.

Lemma keeps_owns_only {A} (m : M St (result A RuntimeError)) s x :
  (∀ P : string → Prop, keeps (within P) (λ _, True) m) → containerd_owns (answer m s).2 x → containerd_owns s x.
Proof.
  intros Hm Hx. by destruct (keeps_owns (λ _, False) m s x (λ P _, Hm P) Hx).
Qed.

(** An [Ok] of [ctr] is what its command printed. *)
Lemma ctr_until_printed args deadline r os text os' :
  run_ctr_until args deadline (r, os) = Done (Ok text, (r, os')) →
  ∃ os0 ms out, command_output (ctr_command r ms args) os0 = (Ok out, os') ∧ co_success out = true ∧
    text = from_utf8_lossy (co_stdout out).
Proof.
  unfold run_ctr_until, bind at 1, cd_sys. cbn [fst snd]. destruct (instant_now os) as [now os1].
  destruct (_ =? 0); [done|]. unfold run_ctr_duration, assert. destruct (negb _); [|done].
  unfold bind at 1, ret at 1. unfold try_bind, map_err, cd_get, cd_sys, bind, ret. cbn [fst snd].
  destruct (command_output _ os1) as [[out|e] os2] eqn:Eo; [|done]. cbn [result_map_err].
  destruct (co_success out) eqn:Es; cbn [negb]; [|done]. unfold succeed, ret. intros [= <- <-]. by eexists os1, _, out.
Qed.

(** A listing without the task, and then nothing that starts one. *)
Lemma seen_gone_no_task r id deadline os' : seen_gone r id deadline os' → ¬ has_task (ctr_address r) os' id.
Proof.
  intros (os1 & os2 & os3 & tasks & containers & Et & Ec & Hid & _ & Ep) Hx.
  replace os' with (path_exists (task_shim_dir r id) os3).2 in Hx by by rewrite Ep.
  apply (task_ordinary (path_exists _)) in Hx; [|constructor].
  assert (H2 : has_task (ctr_address r) os2 id).
  { pose proof (keeps_ctr_until (λ y, has_task (ctr_address r) os2 y) containers_list deadline
      ltac:(apply (bool_decide_eq_true (_ ∈ _)); reflexivity) (r, os2) (λ y Hy, Hy)) as Hk.
    unfold wp in Hk. rewrite Ec in Hk. by apply (proj1 Hk). }
  apply ctr_until_printed in Et as (os0 & ms & out & Eo & Hs & ->). apply Hid.
  eapply (task_listed r ms os0); [by rewrite Eo|done|by rewrite Eo].
Qed.

Lemma gone_owns m h s x :
  (∀ P : string → Prop, keeps (within P) (λ _, True) m) →
  wp no_panic m (λ res s', s'.1 = s.1 ∧ match res with
                                        | Ok _ => ∃ deadline, seen_gone s.1 (ph_container_id h) deadline s'.2
                                        | Err e => ∃ t, e = EContainerStop t
                                        end) s →
  containerd_owns (answer m s).2 x →
  containerd_owns s x ∧ ((answer m s).1 = Ok tt → x ≠ ph_container_id h).
Proof.
  intros Hk [_ [Hr Hm]]%wp_answer Hx. split; [by eapply keeps_owns_only|]. intros E ->. rewrite E in Hm.
  destruct Hm as [deadline Hg%seen_gone_no_task]. destruct Hx as [Hx _]. unfold runs_task in Hx. by rewrite Hr in Hx.
Qed.

(** Over every set of inherited tasks; none on a freshly booted node. *)
#[local, refine] Instance containerd_runtime_laws {H} : RuntimeLaws St H := { owns := containerd_owns }.
Proof.
  - intros image auth s x. apply keeps_owns_only. intros P. apply keeps_pull.
  - intros spec s x Hx. left. eapply keeps_owns_only, Hx. intros P. apply keeps_create.
  - intros h s x. apply (keeps_owns (λ y, y = ph_container_id h)). intros P HP. by apply keeps_start, HP.
  - intros h port payload s x. apply keeps_owns_only. intros P. apply keeps_forward.
  - intros h port path s x. apply keeps_owns_only. intros P. apply keeps_probe.
  - intros h grace s x. apply keeps_owns_only. intros P. apply keeps_stop.
  - intros h s x. apply keeps_owns_only. intros P. apply keeps_status.
  - intros h [r os] x. apply gone_owns; [intros P; apply keeps_cleanup_now|]. apply cleanup_task_state_ok.
  - intros h grace deadline [s host] x. cbn [stop_pod_until containerd_runtime].
    rewrite (proj2 (answer_beside_snd _ _)). apply keeps_owns_only. intros P. apply keeps_stop_until.
  - intros h deadline [s host] x. cbn [pod_status_until containerd_runtime].
    rewrite (proj2 (answer_beside_snd _ _)). apply keeps_owns_only. intros P. apply keeps_status_until.
  - intros h deadline [[r os] host] x. cbn [remove_pod_until containerd_runtime].
    rewrite (proj2 (answer_beside_snd _ _)), (proj1 (answer_beside_snd _ _)).
    apply gone_owns; [intros P; apply keeps_cleanup|].
    eapply wp_mono; [apply cleanup_task_state_until_ok|]. intros [] s' [? ?]; split; eauto.
Defined.

End laws.

(** ** Nothing is lost in the instance *)

Section exact.
  Context `{LAWS : !SystemLaws OS}.

Abbreviation returns m s := (wp no_panic m (λ _ _, True) s).

Lemma ctr_returns {A} args (k : result string string → M St A) r os :
  (∀ res os', returns (k res) (r, os')) → returns (bind (run_ctr args) k) (r, os).
Proof. intros Hk. apply wp_bind, wp_run_ctr. intros res os' _. apply Hk. Qed.

Lemma sys_returns {A B F} (g : string → F) (f : OS → result A string * OS) (k : A → M St (result B F)) r os :
  (∀ a os', returns (k a) (r, os')) → returns (try_bind (map_err g (cd_sys f)) k) (r, os).
Proof. intros Hk. apply wp_try_bind, wp_map_err, wp_cd_sys. destruct (f os) as [[a|e] os']; [apply Hk|done]. Qed.

Lemma netns_returns {T} pid (f : M OS (result T RuntimeError)) r os :
  (∀ os, returns f os) → returns (with_task_netns pid f) (r, os).
Proof.
  intros Hf. unfold with_task_netns. apply sys_returns. intros current os1. apply sys_returns. intros target os2.
  apply sys_returns. intros [] os3. specialize (Hf os3). unfold wp, bind, cd_on in *. cbn [fst snd].
  destruct (f os3) as [[res os4]|]; [|done]. unfold map_err, cd_sys, bind, ret. cbn [fst snd].
  by destruct (setns current os4) as [[] ?].
Qed.

Lemma pid_returns {A} id (k : Z → M St (result A RuntimeError)) r os :
  (∀ pid os', returns (k pid) (r, os')) → returns (try_bind (task_pid id) k) (r, os).
Proof.
  intros Hk. unfold task_pid. apply wp_try_bind, wp_try_bind, wp_map_err, wp_run_ctr. intros [out|] os1 _; [|done].
  apply wp_ret. destruct (pid_in_rows _ _); [apply Hk|done].
Qed.

Lemma map_err_returns {St A E F} (g : E → F) (m : M St (result A E)) s : returns m s → returns (map_err g m) s.
Proof. intros Hm. by apply wp_map_err. Qed.

Lemma start_returns h r os : returns (cd_start_pod h) (r, os).
Proof.
  apply ctr_returns. intros [|e] os'; [done|]. destruct (task_already_exists_error e); [|done].
  unfold task_status_by_id. apply wp_try_bind, wp_try_bind, wp_map_err, wp_run_ctr. intros [out|] os2 _; [|done].
  apply wp_ret. by destruct (task_status_from_listing _ _) as [[]|].
Qed.

Lemma status_returns h r os : returns (cd_pod_status h) (r, os).
Proof. unfold cd_pod_status. apply wp_try_bind, wp_map_err, wp_run_ctr. by intros [] os' _. Qed.

Lemma forward_returns h port payload r os : returns (cd_forward_run h port payload) (r, os).
Proof.
  apply pid_returns. intros pid os1. apply map_err_returns, netns_returns. intros os2. unfold post_run, forward_run_with_deadline.
  wp_step. unfold wp at 1, assert. simpl. wp_step. by apply wp_sys.
Qed.

Lemma probe_returns h port path r os : returns (cd_probe_pod h port path) (r, os).
Proof.
  apply pid_returns. intros pid os1. apply map_err_returns, netns_returns. intros os2.
  apply map_err_returns, probe_http_total.
Qed.

Lemma pull_returns image auth r os : returns (cd_pull_image image auth) (r, os).
Proof. eapply wp_mono; [by apply (cd_pull_image_ok (λ _, True) (λ _ _, True))|done]. Qed.

Lemma stop_returns h grace r os : returns (cd_stop_pod h grace) (r, os).
Proof.
  unfold cd_stop_pod. wp_step. apply wp_cd_instant_now. intros now os' _ _.
  eapply wp_mono; [apply cd_stop_pod_until_ok|done].
Qed.

(** Every operation returns while the container sequence has room, so that the instance
    answers exactly what the code does. *)
Lemma containerd_runtime_exact (r : ContainerdRuntime) (os : OS) :
  0 ≤ cd_container_sequence r < U64_MAX → let s := (r, os) in
  (∀ image auth, cd_pull_image image auth s = Done (pull_image (H := unit) image auth s)) ∧
  (∀ spec, cd_create_pod spec s = Done (create_pod (H := unit) spec s)) ∧
  (∀ h, cd_start_pod h s = Done (start_pod (H := unit) h s)) ∧
  (∀ h port payload, cd_forward_run h port payload s = Done (forward_run (H := unit) h port payload s)) ∧
  (∀ h port path, cd_probe_pod h port path s = Done (probe_pod (H := unit) h port path s)) ∧
  (∀ h grace, cd_stop_pod h grace s = Done (stop_pod (H := unit) h grace s)) ∧
  (∀ h, cd_pod_status h s = Done (pod_status (H := unit) h s)) ∧
  (∀ h, cd_remove_pod h s = Done (remove_pod (H := unit) h s)) ∧
  (∀ h grace deadline, cd_stop_pod_until h grace deadline s = Done (answer (cd_stop_pod_until h grace deadline) s)) ∧
  (∀ h deadline, cd_remove_pod_until h deadline s = Done (answer (cd_remove_pod_until h deadline) s)).
Proof.
  intros Hseq. cbv zeta. split_and!; intros; eapply wp_answer.
  - apply pull_returns.
  - by apply cd_create_pod_ok.
  - apply start_returns.
  - apply forward_returns.
  - apply probe_returns.
  - apply stop_returns.
  - apply status_returns.
  - apply cleanup_task_state_ok.
  - apply cd_stop_pod_until_ok.
  - apply cleanup_task_state_until_ok.
Qed.

End exact.
End instance.
