(* ===== verification/Metrics.v ===== *)
(** * Metrics and health: [worker/src/metrics.rs]

    The answer [MetricsServer::poll] gives to an accepted connection, as a function of
    the request read and the worker; accepting, time-outs and the buffered writer are
    the system's. *)

From S2P Require Import Prelude Types RustStr Worker WorkerInv.

Definition nl : string := String "010" EmptyString.
Definition crlf : string := String "013" nl.
Definition dq : string := String "034" EmptyString.

(** [poll] reads at most this much of a request. *)
Definition REQ_BUF : nat := 512.

(** The counters of the loop over the pods. *)
Record StateCounts := mkStateCounts {
  n_image_pulling : Z; n_creating : Z; n_starting : Z; n_running : Z; n_stopping : Z; n_failed : Z
}.

(** [n += 1] on a [u32]. *)
Definition inc_u32 (n : Z) : outcome Z :=
  if n + 1 <=? U32_MAX then Done (n + 1) else Panic "attempt to add with overflow".

Definition count_state (s : TrackedPodState) (k : StateCounts) : outcome StateCounts :=
  let '(mkStateCounts a b c d e f) := k in
  match s with
  | ImagePulling => let! a := inc_u32 a in Done (mkStateCounts a b c d e f)
  | Creating => let! b := inc_u32 b in Done (mkStateCounts a b c d e f)
  | Starting => let! c := inc_u32 c in Done (mkStateCounts a b c d e f)
  | Running => let! d := inc_u32 d in Done (mkStateCounts a b c d e f)
  | Stopping => let! e := inc_u32 e in Done (mkStateCounts a b c d e f)
  | Failed _ => let! f := inc_u32 f in Done (mkStateCounts a b c d e f)
  | Stopped _ => Done k
  end.

Fixpoint count_states (ps : list TrackedPod) (k : StateCounts) : outcome StateCounts :=
  match ps with [] => Done k | p :: ps => let! k := count_state (state p) k in count_states ps k end.

(** A metric: its help line, its type line. *)
Definition header (name help kind : string) : string :=
  "# HELP " +:+ name +:+ " " +:+ help +:+ nl +:+ "# TYPE " +:+ name +:+ " " +:+ kind +:+ nl.
Definition sample (name : string) (value : Z) : string := name +:+ " " +:+ fmt_int value +:+ nl.
Definition metric (name help kind : string) (value : Z) : string :=
  header name help kind +:+ sample name value.
Definition state_sample (st : string) (value : Z) : string :=
  sample ("hivemind_worker_pods{state=" +:+ dq +:+ st +:+ dq +:+ "}") value.

Definition format_metrics (w : Worker) (uptime_secs : Z) : outcome string :=
  let '(running, total) := pod_counts w in
  let gpu_free := sat_sub (gpu_total w) (gpu_allocated w) in
  let! k := count_states (values (pods w)) (mkStateCounts 0 0 0 0 0 0) in
  Done (
    metric "hivemind_worker_pods_running" "Number of pods in Running state" "gauge" (Z.of_nat running) +:+
    metric "hivemind_worker_pods_total" "Total tracked pods" "gauge" (Z.of_nat total) +:+
    header "hivemind_worker_pods" "Per-state pod counts" "gauge" +:+
    state_sample "image_pulling" (n_image_pulling k) +:+
    state_sample "creating" (n_creating k) +:+
    state_sample "starting" (n_starting k) +:+
    state_sample "running" (n_running k) +:+
    state_sample "stopping" (n_stopping k) +:+
    state_sample "failed" (n_failed k) +:+
    metric "hivemind_worker_gpu_free" "Available GPUs" "gauge" gpu_free +:+
    metric "hivemind_worker_gpu_total" "Total GPUs on node" "gauge" (gpu_total w) +:+
    metric "hivemind_worker_gpu_allocated" "GPUs allocated to pods" "gauge" (gpu_allocated w) +:+
    metric "hivemind_worker_connected" "Whether agent is registered with control plane" "gauge"
      (if is_registered w then 1 else 0) +:+
    metric "hivemind_worker_uptime_seconds" "Worker process uptime" "counter" uptime_secs).

Definition HEALTHZ : string :=
  "HTTP/1.1 200 OK" +:+ crlf +:+ "Content-Length: 2" +:+ crlf +:+ "Connection: close" +:+ crlf +:+ crlf +:+ "ok".

Definition metrics_response (body : string) : string :=
  "HTTP/1.1 200 OK" +:+ crlf +:+ "Content-Type: text/plain; version=0.0.4; charset=utf-8" +:+ crlf +:+
  "Content-Length: " +:+ fmt_int (Z.of_nat (String.length body)) +:+ crlf +:+
  "Connection: close" +:+ crlf +:+ crlf +:+ body.

(** [poll] once a connection is accepted: [request] is what the peer sent, [[]] if
    reading failed. *)
Definition poll (request : bytes) (w : Worker) (uptime_secs : Z) : outcome bytes :=
  let req_buf := take REQ_BUF request in
  let req := if valid_utf8 req_buf then of_bytes req_buf else ""%string in
  if contains "GET /healthz" req then Done (as_bytes HEALTHZ)
  else let! body := format_metrics w uptime_secs in Done (as_bytes (metrics_response body)).

(** ** The counters *)

(** How many pods of a list are in a state of a given kind. *)
Definition count_if (f : TrackedPodState → bool) (ps : list TrackedPod) : Z :=
  Z.of_nat (length (filter (λ p, f (state p) = true) ps)).

Definition is_image_pulling (s : TrackedPodState) : bool := match s with ImagePulling => true | _ => false end.
Definition is_creating (s : TrackedPodState) : bool := match s with Creating => true | _ => false end.
Definition is_starting (s : TrackedPodState) : bool := match s with Starting => true | _ => false end.
Definition is_stopping (s : TrackedPodState) : bool := match s with Stopping => true | _ => false end.
Definition is_failed (s : TrackedPodState) : bool := match s with Failed _ => true | _ => false end.

(** The counters [k] advanced by the pods of [ps]. *)
Definition counted (ps : list TrackedPod) (k : StateCounts) : StateCounts :=
  mkStateCounts (n_image_pulling k + count_if is_image_pulling ps) (n_creating k + count_if is_creating ps)
    (n_starting k + count_if is_starting ps) (n_running k + count_if is_running ps)
    (n_stopping k + count_if is_stopping ps) (n_failed k + count_if is_failed ps).

Lemma count_if_cons f p ps : count_if f (p :: ps) = (if f (state p) then 1 else 0) + count_if f ps.
Proof. unfold count_if. rewrite filter_cons. destruct (f (state p)); simpl; [lia|done]. Qed.

Lemma count_if_bounds f ps : 0 ≤ count_if f ps ≤ Z.of_nat (length ps).
Proof. unfold count_if. pose proof (length_filter (λ p, f (state p) = true) ps). lia. Qed.

Definition counts_below (m : Z) (k : StateCounts) : Prop :=
  n_image_pulling k ≤ m ∧ n_creating k ≤ m ∧ n_starting k ≤ m ∧ n_running k ≤ m ∧ n_stopping k ≤ m ∧
  n_failed k ≤ m.

Lemma inc_u32_ok n : n < U32_MAX → inc_u32 n = Done (n + 1).
Proof. intros. unfold inc_u32. by rewrite (proj2 (Z.leb_le _ _)) by lia. Qed.

Lemma count_states_ok ps k :
  counts_below (U32_MAX - Z.of_nat (length ps)) k → count_states ps k = Done (counted ps k).
Proof.
  revert k. induction ps as [|p ps IH]; intros [a b c d e f] Hk.
  - simpl. unfold counted, count_if. simpl. by rewrite !Z.add_0_r.
  - unfold counts_below in Hk. cbn [length n_image_pulling n_creating n_starting n_running n_stopping n_failed] in Hk.
    unfold counted. rewrite !count_if_cons. cbn [count_states count_state]. cbv beta iota.
    assert (Hstep : ∀ k, counts_below (U32_MAX - Z.of_nat (length ps)) k →
      count_states ps k = Done (counted ps k)) by exact IH.
    destruct (state p); cbn [is_image_pulling is_creating is_starting is_running is_stopping is_failed];
      rewrite ?inc_u32_ok by lia; cbn [outcome_bind]; (rewrite Hstep by (unfold counts_below; simpl; lia));
      unfold counted; simpl; f_equal; f_equal; lia.
Qed.

(** A scrape of a worker that keeps its invariant never panics, and both gauges of
    running pods agree. *)
Lemma poll_ok request w uptime : winv w → ∃ answer, poll request w uptime = Done answer.
Proof.
  intros Hw. unfold poll. case_match; [eauto|]. unfold format_metrics, pod_counts.
  rewrite count_states_ok; [simpl; eauto|].
  unfold counts_below, values. rewrite length_fmap, length_map_to_list. simpl.
  pose proof (wi_size _ _ Hw) as Hs. unfold MAX_TRACKED_PODS in Hs. unfold U32_MAX. lia.
Qed.

Lemma running_gauges_agree w : count_if is_running (values (pods w)) = Z.of_nat (running_count w).
Proof. reflexivity. Qed.
