(* ===== verification/WorkerThreads.v ===== *)
(** * The lifecycle threads always finish

    Whatever the schedule and whatever the runtime answers, a chunk of lifecycle
    threads runs to completion within two runtime calls per operation, and the
    completions are those of the operations, in their order. *)

From S2P Require Import Prelude Types Traits Volumes Secrets Protocol Worker.

(** The result constructor of an operation. *)
Definition result_matches (op : LifecycleOp) (r : LifecycleResult) : bool :=
  match op, r with
  | OpPull _ _ _ _, ResPull _ | OpCreate _ _ _, ResCreate _
  | OpStart _ _ _, ResStart _ | OpStop _ _ _ _, ResStop _ => true
  | _, _ => false
  end.

Definition completion_ok (c : LifecycleCompletion) : Prop :=
  result_matches (lc_op c) (lc_result c) = true.

Definition thread_op (t : thread) : LifecycleOp :=
  match t with Spawned op | StopAttempted op _ _ => op | Finished c => lc_op c end.

Definition is_stop (op : LifecycleOp) : bool := match op with OpStop _ _ _ _ => true | _ => false end.

Definition thread_ok (t : thread) : Prop :=
  match t with
  | Spawned _ => True
  | StopAttempted op _ _ => is_stop op = true
  | Finished c => completion_ok c
  end.

(** Runtime calls a thread still makes. *)
Definition steps_left (t : thread) : Z :=
  match t with
  | Spawned (OpStop _ (Some _) _ true) => 2
  | Spawned _ | StopAttempted _ _ _ => 1
  | Finished _ => 0
  end.

Section threads.
  Context {IO RT H : Type} `{!Io IO} `{!Host H} `{!Runtime RT H}.

Lemma thread_step_ok (t : thread) (r : RT) :
  thread_ok t → thread_done t = false →
  let '(t', _) := thread_step t r in
  thread_ok t' ∧ thread_op t' = thread_op t ∧ steps_left t' = steps_left t - 1.
Proof.
  intros Hok Hd. destruct t as [op|op h e|c]; [|simpl in Hok|done].
  - destruct op as [| | |id [h|] g []]; simpl; unfold check_stopped; repeat case_match; by simplify_eq.
  - simpl. unfold check_stopped. repeat case_match; simplify_eq. simpl.
    unfold completion_ok. simpl. by destruct op.
Qed.

Lemma steps_left_nonneg t : 0 ≤ steps_left t.
Proof. destruct t as [[| | |? [] ? []]| |]; simpl; lia. Qed.

Lemma steps_left_done t : steps_left t = 0 → thread_done t = true.
Proof. by destruct t as [[| | |? [] ? []]| |]. Qed.

Lemma steps_left_pos t : thread_done t = false → 0 < steps_left t.
Proof. pose proof (steps_left_nonneg t). intros Hd. destruct (Z.eq_dec (steps_left t) 0) as [E|]; [|lia].
  apply steps_left_done in E. congruence. Qed.

Lemma sum_with_insert {A} (f : A → Z) (l : list A) i x y :
  l !! i = Some x → sum_with f (<[i:=y]> l) = sum_with f l - f x + f y.
Proof.
  revert i. induction l as [|z l IH]; intros [|i] Hi; simplify_eq/=; [lia|].
  rewrite (IH i) by done. lia.
Qed.

Lemma elem_of_runnable ts i :
  i ∈ runnable ts ↔ ∃ t, ts !! i = Some t ∧ thread_done t = false.
Proof.
  unfold runnable. rewrite list_elem_of_filter, elem_of_seq. split.
  - intros [Ht _]. destruct (ts !! i) as [t|]; [|done]. exists t. split; [done|].
    by apply negb_true_iff.
  - intros (t & Ht & Hd). rewrite Ht, Hd. split; [done|]. apply lookup_lt_Some in Ht. lia.
Qed.

Lemma pick_elem sched l i sched' : pick sched l = Some (i, sched') → i ∈ l.
Proof.
  destruct l as [|j l]; [done|]. destruct sched as [|n sched]; cbn [pick].
  - intros [= -> _]. constructor.
  - pose proof (Nat.mod_upper_bound n (length (j :: l)) ltac:(done)) as Hlt.
    revert Hlt. generalize (n mod length (j :: l))%nat. intros m Hlt Hp.
    assert (i = nth m (j :: l) j) as -> by congruence.
    apply list_elem_of_In, (nth_In (j :: l) j Hlt).
Qed.

Lemma pick_None sched l : pick sched l = None → l = [].
Proof. destruct l; [done|]. by destruct sched. Qed.

(** Every schedule: with as much fuel as calls are left, every thread finishes. *)
Lemma run_threads_ok fuel sched ts (r : RT) :
  Forall thread_ok ts → sum_with steps_left ts ≤ Z.of_nat fuel →
  let '(ts', _, _) := run_threads fuel sched ts r in
  Forall thread_ok ts' ∧ thread_op <$> ts' = thread_op <$> ts ∧ Forall (λ t, thread_done t = true) ts'.
Proof.
  revert sched ts r. induction fuel as [|fuel IH]; intros sched ts r Hok Hf; simpl.
  - split; [done|]. split; [done|]. clear Hok. induction ts as [|t ts IHt]; [done|].
    pose proof (steps_left_nonneg t). simpl in Hf.
    assert (0 ≤ sum_with steps_left ts).
    { clear. induction ts as [|t ts IHt]; simpl; [lia|]. pose proof (steps_left_nonneg t). lia. }
    constructor; [apply steps_left_done; lia|]. apply IHt. lia.
  - destruct (pick sched (runnable ts)) as [[i sched']|] eqn:Ep.
    + apply pick_elem, elem_of_runnable in Ep as (t & Ht & Hd). rewrite Ht.
      pose proof (Forall_lookup_1 _ _ _ _ Hok Ht) as Htok.
      pose proof (thread_step_ok t r Htok Hd) as Hstep.
      destruct (thread_step t r) as [t' r']. destruct Hstep as (Hok' & Hop & Hs).
      specialize (IH sched' (<[i:=t']> ts) r').
      destruct (run_threads fuel sched' (<[i:=t']> ts) r') as [[ts' ?] ?].
      destruct IH as (? & Hops & ?).
      * by apply Forall_insert.
      * rewrite (sum_with_insert _ _ _ t) by done. lia.
      * split; [done|]. split; [|done]. rewrite Hops, list_fmap_insert, Hop.
        apply list_insert_id. by rewrite list_lookup_fmap, Ht.
    + apply pick_None in Ep. split; [done|]. split; [done|]. apply Forall_lookup. intros i t Ht.
      destruct (thread_done t) eqn:Hd; [done|].
      assert (i ∈ runnable ts) as Hi by (apply elem_of_runnable; eauto).
      rewrite Ep in Hi. by apply not_elem_of_nil in Hi.
Qed.

Lemma join_all_ok ts :
  Forall thread_ok ts → Forall (λ t, thread_done t = true) ts →
  ∃ cs, join_all ts = Some cs ∧ lc_op <$> cs = thread_op <$> ts ∧ Forall completion_ok cs.
Proof.
  induction ts as [|t ts IH]; intros Hok Hd; [by exists []|].
  apply Forall_cons in Hok as [Ht Hok]. apply Forall_cons in Hd as [Hdt Hd].
  destruct t as [| |c]; [done|done|]. destruct (IH Hok Hd) as (cs & Hj & Ho & Hcs).
  exists (c :: cs). cbn [join_all]. rewrite Hj, !fmap_cons, Ho. split; [done|]. split; [done|].
  by constructor.
Qed.

Lemma sum_steps_spawned (ops : list LifecycleOp) :
  sum_with steps_left (Spawned <$> ops) ≤ Z.of_nat (2 * length ops).
Proof.
  induction ops as [|op ops IH]; [done|]. cbn [fmap list_fmap sum_with foldr length].
  assert (steps_left (Spawned op) ≤ 2) by (destruct op as [| | |? [] ? []]; simpl; lia).
  unfold sum_with in IH. lia.
Qed.

(** What a call leaves alone. *)
Record same_but_runtime (c c' : @Ctx IO RT H) : Prop := {
  sbr_worker : worker c' = worker c;
  sbr_io : io c' = io c;
  sbr_host : host c' = host c
}.

Definition chunk_post (ops : list LifecycleOp) (c : @Ctx IO RT H)
    (cs : list LifecycleCompletion) (c' : @Ctx IO RT H) : Prop :=
  lc_op <$> cs = ops ∧ Forall completion_ok cs ∧ same_but_runtime c c'.

Lemma run_chunk_ok chunk (c : @Ctx IO RT H) :
  ∃ cs c', run_chunk chunk c = Done (cs, c') ∧ chunk_post chunk c cs c'.
Proof.
  unfold run_chunk.
  pose proof (run_threads_ok (2 * length chunk) (sched c) (Spawned <$> chunk) (rt c)) as Hrun.
  destruct (run_threads (2 * length chunk) (sched c) (Spawned <$> chunk) (rt c)) as [[ts r] s].
  destruct Hrun as (Hok & Hops & Hd).
  - apply Forall_fmap, Forall_true. done.
  - apply sum_steps_spawned.
  - destruct (join_all_ok ts Hok Hd) as (cs & -> & Ho & Hcs). do 2 eexists. split; [done|].
    split; [|done]. rewrite Ho, Hops, <-list_fmap_compose. apply list_fmap_id.
Qed.

Lemma phase_concurrency_pos n op : 1 ≤ phase_concurrency n op.
Proof. unfold phase_concurrency. destruct op; int_lia. Qed.

(** At most thirty-two threads run at once. *)
Lemma phase_concurrency_le n op : n ≤ 32 → phase_concurrency n op ≤ 32.
Proof. intros Hn. unfold phase_concurrency. destruct op; int_lia. Qed.

Lemma same_but_runtime_trans c1 c2 c3 :
  same_but_runtime c1 c2 → same_but_runtime c2 c3 → same_but_runtime c1 c3.
Proof. intros [] []. constructor; congruence. Qed.

Lemma run_chunks_ok fuel ops (c : @Ctx IO RT H) :
  (length ops ≤ fuel)%nat →
  ∃ cs c', run_chunks fuel ops c = Done (cs, c') ∧ chunk_post ops c cs c'.
Proof.
  revert ops c. induction fuel as [|fuel IH]; intros [|op ops] c Hl; simpl in Hl;
    [by exists [], c|lia|by exists [], c|].
  cbn [run_chunks]. unfold bind at 1, worker_get at 1.
  pose proof (phase_concurrency_pos (lifecycle_concurrency (worker c)) op) as Hpos.
  set (n := Z.to_nat (phase_concurrency (lifecycle_concurrency (worker c)) op)).
  assert (1 ≤ n)%nat by (subst n; lia).
  destruct (run_chunk_ok (take n (op :: ops)) c) as (cs1 & c1 & E1 & Ho1 & Hc1 & Hs1).
  destruct (IH (drop n (op :: ops)) c1) as (cs2 & c2 & E2 & Ho2 & Hc2 & Hs2).
  { rewrite length_drop. simpl. lia. }
  exists (cs1 ++ cs2), c2. unfold bind. rewrite E1, E2. split; [done|]. split.
  - rewrite fmap_app, Ho1, Ho2. apply take_drop.
  - split; [by apply Forall_app|]. by eapply same_but_runtime_trans.
Qed.

(** C8: for every schedule of the threads and every runtime, the lifecycle
    operations of a tick all complete: the loop over the chunks and the threads of
    each chunk terminate, there is exactly one completion per operation, in order and
    of the operation's own kind, no chunk starts more than 32 threads, and the worker,
    its [Io] and the host are untouched meanwhile. *)
Theorem lifecycle_ops_complete (ops : list LifecycleOp) (c : @Ctx IO RT H) :
  lifecycle_concurrency (worker c) ≤ 32 →
  (∀ op, (length (take (Z.to_nat (phase_concurrency (lifecycle_concurrency (worker c)) op)) ops) ≤ 32)%nat) ∧
  ∃ cs c', run_chunks (length ops) ops c = Done (cs, c') ∧
    lc_op <$> cs = ops ∧ Forall completion_ok cs ∧ same_but_runtime c c'.
Proof.
  intros Hn. split; [|by apply run_chunks_ok]. intros op. rewrite length_take.
  pose proof (phase_concurrency_le _ op Hn). pose proof (phase_concurrency_pos (lifecycle_concurrency (worker c)) op).
  lia.
Qed.

End threads.
