(* ===== verification/WorkerSafety.v ===== *)
(** * The worker never fails an assertion

    Every handler preserves the worker's invariant and panics only where its [Io]
    does ([io_panics]): no [assert!], [expect], [unwrap], index or unchecked
    addition of [worker.rs] fails.  The lifecycle driver needs room for the
    tombstones of the pods it may terminate ([drive_load]). *)

From S2P Require Import Prelude Types RustStr Traits Volumes Secrets Protocol Worker WorkerInv WorkerThreads.

Section safety.
  Context {IO RT H : Type} `{!Io IO} `{!Host H} `{!Runtime RT H} `{LAWS : !IoLaws IO}.
  Abbreviation C := (@Ctx IO RT H).
  Implicit Types c : C.

Definition cinv (c : C) : Prop := winv (worker c) ∧ io_wf (io c).

(** Nothing is received while a handler runs, the clock of the tick stands, and
    every pod slot moves along the edges of the lifecycle. *)
Record ext_in (ph : phase) (c c' : C) : Prop := {
  ext_pending : (io_pending (io c') ≤ io_pending (io c))%nat;
  ext_now : io_now (io c') = io_now (io c);
  ext_moves : moves ph (worker c) (worker c')
}.

Abbreviation ext := (ext_in Driving).

#[local] Instance ext_preorder ph : PreOrder (ext_in ph).
Proof.
  split; [by split|]. intros c1 c2 c3 [] []. split; [lia|congruence|by etrans].
Qed.

Lemma ext_intro ph c c' : io c' = io c → moves ph (worker c) (worker c') → ext_in ph c c'.
Proof. intros E Hm. by split; rewrite ?E. Qed.

Lemma ext_io ph c c' : pods (worker c') = pods (worker c) → io c' = io c → ext_in ph c c'.
Proof. intros Hp E. by apply ext_intro, moves_pods. Qed.

(** [ext_in] only reads the worker and the [Io]. *)
Lemma ext_from ph c0 c c' : worker c = worker c0 → io c = io c0 → ext_in ph c c' → ext_in ph c0 c'.
Proof. intros Hw Hio []. rewrite Hw, Hio in *. by split. Qed.

(** ** Rules for the primitives *)

Abbreviation P := io_panics.

Lemma wp_worker_get {A} (f : Worker → A) Q c : Q (f (worker c)) c → wp P (worker_get f) Q c.
Proof. done. Qed.

Lemma wp_worker_set f Q c : Q tt (with_worker f c) → wp P (worker_set f) Q c.
Proof. done. Qed.

Lemma wp_get_pod id Q c : Q (pods (worker c) !! id) c → wp P (get_pod id) Q c.
Proof. done. Qed.

Lemma wp_expect_pod id msg p Q c :
  pods (worker c) !! id = Some p → Q p c → wp P (expect_pod id msg) Q c.
Proof.
  intros Hp HQ. unfold expect_pod. apply wp_bind, wp_get_pod. by apply (wp_expect _ _ _ _ p).
Qed.

Lemma wp_put_pod id p Q c :
  Q tt (with_worker (λ w, set_pods (<[id:=p]> (pods w)) w) c) → wp P (put_pod id p) Q c.
Proof. done. Qed.

Lemma wp_update_pod id msg f p Q c :
  pods (worker c) !! id = Some p →
  Q tt (with_worker (λ w, set_pods (<[id:=f p]> (pods w)) w) c) → wp P (update_pod id msg f) Q c.
Proof. intros Hp HQ. unfold update_pod. apply wp_bind. by eapply wp_expect_pod. Qed.

Lemma wp_send msg Q c :
  emittable msg → io_wf (io c) →
  (∀ c', worker c' = worker c → io_wf (io c') → (∀ ph, ext_in ph c c') → Q tt c') → wp P (send msg) Q c.
Proof.
  intros Hm Hio HQ. unfold wp, send. pose proof (io_send_law msg (io c) Hio Hm) as L.
  destruct (io_send msg (io c)); [|done]. apply HQ; simpl; [done|apply L|].
  by destruct L as (_ & ? & ?); split.
Qed.

Lemma wp_runtime {A} (f : RT → A * RT) Q c :
  (∀ a c', worker c' = worker c → io c' = io c → Q a c') → wp P (runtime f) Q c.
Proof. intros HQ. unfold wp, runtime. destruct (f (rt c)). by apply HQ. Qed.

Lemma wp_on_host {A} (f : H → A * H) Q c :
  (∀ a c', worker c' = worker c → io c' = io c → Q a c') → wp P (on_host f) Q c.
Proof. intros HQ. unfold wp, on_host. destruct (f (host c)). by apply HQ. Qed.

Lemma wp_runtime_until {A} (f : RT * H → A * (RT * H)) Q c :
  (∀ a c', worker c' = worker c → io c' = io c → Q a c') → wp P (runtime_until f) Q c.
Proof. intros HQ. unfold wp, runtime_until. destruct (f (rt c, host c)) as [a [??]]. by apply HQ. Qed.

Lemma wp_with_resolver {A} (f : SecretResolver → H → A * SecretResolver * H) Q c :
  (∀ a r c', worker c' = set_secret_resolver r (worker c) → io c' = io c → Q a c') →
  wp P (with_resolver f) Q c.
Proof.
  intros HQ. unfold wp, with_resolver.
  destruct (f (secret_resolver (worker c)) (host c)) as [[a r] h]. by apply (HQ a r).
Qed.

(** ** Pruning *)

(** The body of the pruning loop. *)
Lemma prune_loop (l : list (Z * Z)) c :
  NoDup l.*2 →
  (∀ id, id ∈ l.*2 → ∃ p, pods (worker c) !! id = Some p ∧ handle p = None) →
  (∀ id, id ∈ l.*2 → pending_failure_reasons (worker c) !! id = None) →
  for_each l (λ entry : Z * Z,
    let id := entry.2 in
    let* p := expect_pod id "terminal pod must exist" in
    worker_set (λ w, set_pods (delete id (pods w)) w) ;;;
    assert (bool_decide (handle p = None)) "terminal tombstone cannot own a runtime" ;;;
    let* pending := worker_get pending_failure_reasons in
    assert (bool_decide (pending !! id = None))
      "assertion failed: !self.pending_failure_reasons.contains_key(&pod_id)") c
  = Done (tt, with_worker (λ w, set_pods (remove_ids l.*2 (pods w)) w) c).
Proof.
  revert c. induction l as [|[t id] l IH]; intros c Hnd Hpods Hpend.
  { by destruct c as [[] ? ? ? ?]. }
  apply NoDup_cons in Hnd as [Hid Hnd].
  destruct (Hpods id) as (p & Hp & Hh); [by constructor|].
  cbn [for_each]. unfold bind at 1, expect_pod, get_pod, worker_get, worker_set, bind. simpl.
  rewrite Hp. simpl. rewrite bool_decide_eq_true_2 by done. simpl.
  rewrite bool_decide_eq_true_2 by (apply Hpend; by constructor). simpl.
  etrans; [apply IH|done]; [done| |].
  - intros k Hk. destruct (Hpods k) as (q & Hq & Hhq); [by constructor|]. exists q. simpl.
    rewrite lookup_delete_ne; [done|]. by intros ->.
  - intros k Hk. apply Hpend. by constructor.
Qed.

Lemma prune_eq n limit c :
  winv_upto n (worker c) → (limit ≤ MAX_TERMINAL_TOMBSTONES)%nat →
  prune_terminal_pods_to limit c = Done (tt, with_worker (pruned limit) c).
Proof.
  intros Hw Hl. unfold prune_terminal_pods_to, bind at 1, assert at 1.
  rewrite (proj2 (Nat.leb_le _ _)) by done. simpl. unfold bind at 1, worker_get at 1.
  etrans; [apply prune_loop|done].
  - by eapply (NoDup_prune_ids n limit).
  - intros id Hid. destruct (prune_ids_terminal n limit _ id Hw Hid) as (p & Hp & Ht).
    exists p. split; [done|]. pose proof (pw_handle _ _ (wi_pods _ _ Hw id p Hp)) as Hh.
    by destruct (state p).
  - intros id Hid. destruct (prune_ids_terminal n limit _ id Hw Hid) as (p & Hp & Ht).
    eapply winv_not_pending; [done..|]. by intros Hs; rewrite Hs in Ht.
Qed.

Lemma prune_ok n c :
  winv_upto n (worker c) →
  wp P (prune_terminal_pods_to MAX_TERMINAL_TOMBSTONES)
    (λ _ c', worker c' = pruned MAX_TERMINAL_TOMBSTONES (worker c) ∧ io c' = io c) c.
Proof. intros Hw. unfold wp. by rewrite (prune_eq n). Qed.

(** ** Becoming a tombstone *)

(** What ending pod [id] may change: it alone while tombstones are not yet at
    their bound, and at most one tombstone more. *)
Definition touches (id : Z) (c c' : C) : Prop :=
  ext c c' ∧ terminal_count (worker c') ≤ terminal_count (worker c) + 1 ∧
  (terminal_count (worker c) < Z.of_nat MAX_TERMINAL_TOMBSTONES →
   ∀ k, k ≠ id → pods (worker c') !! k = pods (worker c) !! k).

Lemma terminal_count_pruned n limit w :
  winv_upto n w → terminal_count (pruned limit w) ≤ terminal_count w.
Proof.
  intros Hw. unfold terminal_count, pruned. simpl.
  rewrite remove_ids_count; [lia|by eapply NoDup_prune_ids|].
  intros id Hid. by eapply prune_ids_terminal.
Qed.

Lemma entombed_self k q w :
  pods w !! k = Some q → entombed k q (set_pods (<[k:=q]> (pods w)) w) = entombed k q w.
Proof. intros _. unfold entombed. simpl. by rewrite insert_insert_eq. Qed.

(** From the state [w] with the pod already marked terminal. *)
Lemma finish_pod_ok id q status c :
  io_wf (io c) → pods (worker c) !! id = Some q → is_terminal (state q) = true → handle q = None →
  (∃ n, winv_upto n (entombed id q (worker c))) →
  wp P (finish_pod id status)
    (λ _ c', worker c' = pruned MAX_TERMINAL_TOMBSTONES (entombed id q (worker c)) ∧
             io_wf (io c') ∧ ext c c') c.
Proof.
  intros Hio Hq Ht Hh [n Hw]. unfold finish_pod, release_pod_resources.
  wp_step. wp_step. apply wp_get_pod. rewrite Hq. apply wp_worker_set.
  wp_step. unfold scrub_terminal_pod_data. wp_step. eapply (wp_expect_pod id _ q); [done|].
  wp_step. apply wp_assert; [done|]. wp_step. apply wp_assert; [by rewrite bool_decide_eq_true_2|].
  apply wp_put_pod. wp_step. eapply wp_mono; [apply (prune_ok n); exact Hw|].
  intros _ c1 [Hw1 Hio1]. apply wp_send; [done|by rewrite Hio1|].
  intros c2 Hw2 Hio2 He. split; [by rewrite Hw2, Hw1|]. split; [done|].
  transitivity c1; [|done]. apply ext_intro; [done|]. rewrite Hw1.
  transitivity (entombed id q (worker c)); [|by eapply moves_pruned].
  by eapply (moves_insert _ id q).
Qed.

(** The whole of it, from the live pod [p]. *)
Lemma entomb_ok id p q status c0 c :
  winv (worker c0) → io_wf (io c) → ext c0 c →
  pods (worker c0) !! id = Some p → is_terminal (state p) = false →
  pending_failure_reasons (worker c) !! id = None →
  worker c = set_pods (<[id:=q]> (pods (worker c0)))
    (set_pending_failure_reasons (pending_failure_reasons (worker c)) (worker c0)) →
  (∀ k r, pending_failure_reasons (worker c) !! k = Some r →
     pending_failure_reasons (worker c0) !! k = Some r) →
  is_terminal (state q) = true → pod_wf id (scrub q) → same_account p q → handle q = None →
  wp P (finish_pod id status) (λ _ c', cinv c' ∧ touches id c0 c') c.
Proof.
  intros Hw0 Hio He Hp Hlive Hnone Hwc Hsub Hq Hwf Hsame Hh.
  set (w1 := set_pending_failure_reasons (pending_failure_reasons (worker c)) (worker c0)) in *.
  assert (Hpods1 : pods w1 = pods (worker c0)) by done.
  assert (Hw1 : winv_upto (terminal_count (worker c0)) w1).
  { pose proof (wi_pending _ _ Hw0) as Hpend0. destruct Hw0. constructor; try done.
    intros k r Hr. apply (Hpend0 k r). by apply Hsub. }
  assert (Hent : entombed id q (worker c) = entombed id q w1).
  { rewrite Hwc. unfold entombed. simpl. by rewrite insert_insert_eq. }
  pose proof (winv_entombed _ w1 id p q Hw1 Hp Hlive Hq Hwf Hsame Hnone) as Hw2.
  eapply wp_mono; [apply (finish_pod_ok id q)|]; try done.
  - rewrite Hwc. simpl. apply lookup_insert_eq.
  - eexists. rewrite Hent. exact Hw2.
  - intros _ c' (Hwc' & Hio' & He'). rewrite Hent in Hwc'. unfold cinv. rewrite Hwc'.
    split; [split; [by eapply winv_pruned|done]|]. split; [by etrans|]. rewrite Hwc'.
    split.
    + etrans; [by eapply terminal_count_pruned|]. exact (wi_terminal _ _ Hw2).
    + intros Hroom k Hk. rewrite pruned_id.
      * simpl. by rewrite lookup_insert_ne.
      * pose proof (wi_terminal _ _ Hw2). lia.
Qed.

(** Updating one pod in place. *)
Lemma step_update id p q c c' :
  cinv c → pods (worker c) !! id = Some p →
  worker c' = set_pods (<[id:=q]> (pods (worker c))) (worker c) → io c' = io c → pod_wf id q →
  is_terminal (state q) = is_terminal (state p) → same_account p q →
  (is_Some (pending_failure_reasons (worker c) !! id) → state q = Stopping) →
  rtc life_step (state p) (state q) →
  cinv c' ∧ touches id c c'.
Proof.
  intros [Hw Hio] Hp Ew Eio Hq Ht Hs Hpend Hedge. unfold cinv, touches. rewrite Ew, Eio.
  split; [split; [by eapply winv_update|done]|].
  split; [apply ext_intro; [done|]; rewrite Ew; by eapply (moves_insert _ id p)|]. split.
  - unfold terminal_count. simpl. rewrite (map_sum_update _ _ _ p) by done.
    assert (count_of terminal_pod q = count_of terminal_pod p) as ->.
    { unfold count_of, terminal_pod. by rewrite Ht. }
    lia.
  - intros _ k Hk. simpl. by rewrite lookup_insert_ne.
Qed.

Lemma schedule_stop_retry_ok id p now c :
  cinv c → pods (worker c) !! id = Some p → state p = Stopping →
  wp P (schedule_stop_retry id now) (λ _ c', cinv c' ∧ touches id c c') c.
Proof.
  intros Hc Hp Hs. unfold schedule_stop_retry. wp_step. eapply wp_expect_pod; [done|].
  wp_step. apply wp_assert; [by rewrite bool_decide_eq_true_2|]. apply wp_put_pod.
  pose proof (wi_pods _ _ (proj1 Hc) id p Hp) as Hwf.
  eapply step_update; [done|done|reflexivity|done| |done|by split|by intros _|done].
  apply pod_wf_retry; [done| |by rewrite Hs].
  pose proof (pw_failures _ _ Hwf). unfold STOP_ATTEMPT_MAX in *. int_lia.
Qed.

Lemma cinv_worker c c' : cinv c → worker c' = worker c → io c' = io c → cinv c'.
Proof. unfold cinv. by intros ? -> ->. Qed.

Lemma touches_from id c0 c c' :
  worker c = worker c0 → io c = io c0 → touches id c c' → touches id c0 c'.
Proof. unfold touches. intros Hw Hio (? & ? & ?). rewrite Hw in *. by split; [eapply ext_from|]. Qed.

Lemma touches_pods id c c1 c2 :
  touches id c c1 → pods (worker c2) = pods (worker c1) → io c2 = io c1 → touches id c c2.
Proof.
  intros (He & Ht & Ho) Hp Hio. split; [etrans; [done|by apply ext_io]|].
  unfold terminal_count in *. by rewrite Hp.
Qed.

Lemma defer_failure_ok id p reason now c :
  cinv c → pods (worker c) !! id = Some p → is_terminal (state p) = false → state p ≠ Stopping →
  wp P (defer_failure id reason now) (λ _ c', cinv c' ∧ touches id c c') c.
Proof.
  intros Hc Hp Ht Hs. unfold defer_failure. wp_step. eapply wp_update_pod; [done|].
  pose proof (wi_pods _ _ (proj1 Hc) id p Hp) as Hwf.
  pose proof (winv_not_pending _ _ _ _ (proj1 Hc) Hp Hs) as Hnone.
  set (q := begin_stop 0 now p).
  destruct (step_update id p q c
    (with_worker (λ w, set_pods (<[id:=q]> (pods w)) w) c)) as [Hc1 Ht1];
    [done|done|done|done|by apply pod_wf_begin_stop|by rewrite Ht|by split|by intros _|..].
  { apply rtc_once, edge_stop. by destruct (state p). }
  wp_step. apply wp_worker_get. wp_step. apply wp_worker_set.
  wp_step. apply wp_assert; [by rewrite bool_decide_eq_true_2|].
  wp_step. apply wp_worker_get.
  assert (Hw2 : winv (set_pending_failure_reasons (<[id:=reason]> (pending_failure_reasons (worker c)))
    (set_pods (<[id:=q]> (pods (worker c))) (worker c)))).
  { apply (winv_pending_insert _ _ id q reason (proj1 Hc1)); [apply lookup_insert_eq|done]. }
  apply wp_assert.
  - apply Nat.leb_le. exact (winv_pending_size _ _ Hw2).
  - split; [split; [exact Hw2|apply Hc1]|by eapply touches_pods].
Qed.

Lemma fail_pod_ok id p reason now c :
  cinv c → pods (worker c) !! id = Some p → is_terminal (state p) = false → state p ≠ Stopping →
  wp P (fail_pod id reason now) (λ _ c', cinv c' ∧ touches id c c') c.
Proof.
  intros Hc Hp Ht Hs. unfold fail_pod. wp_step. eapply wp_expect_pod; [done|].
  pose proof (wi_pods _ _ (proj1 Hc) id p Hp) as Hwf.
  destruct (handle p) as [h|] eqn:Eh.
  { rewrite bool_decide_eq_true_2 by done. wp_step. wp_step. by eapply defer_failure_ok. }
  rewrite bool_decide_eq_false_2 by (by intros [? ?]). wp_step. apply wp_on_host.
  intros [[]|e] c1 Hw1 Hio1; cbn [result_is_ok orb negb].
  - wp_step. rewrite <-Hw1 in Hp. eapply wp_update_pod; [done|].
    rewrite Hw1 in Hp.
    eapply (entomb_ok id p (set_state_changed_at now (set_state (Failed reason) p))).
    + apply Hc.
    + simpl. rewrite Hio1. apply Hc.
    + apply ext_intro; [done|]. eapply (moves_insert _ id p); [done|by simpl; rewrite Hw1|].
      pose proof (pw_handle _ _ Hwf) as Hh. rewrite Eh in Hh.
      apply rtc_once. simpl. destruct (state p); try done; try (by destruct Hh); auto with edgedb.
    + exact Hp.
    + exact Ht.
    + simpl. rewrite Hw1. eapply winv_not_pending; [apply Hc|done..].
    + simpl. rewrite Hw1. by destruct (worker c).
    + intros k r. simpl. by rewrite Hw1.
    + done.
    + apply pod_wf_scrub; [done|done|]. eapply pod_wf_move; [exact Hwf|..]; simpl; by destruct Hwf.
    + by split.
    + exact Eh.
  - eapply wp_mono; [eapply (defer_failure_ok id p)|].
    + by eapply cinv_worker.
    + by rewrite Hw1.
    + done.
    + done.
    + intros _ c' [? ?]. split; [done|]. by eapply touches_from.
Qed.

Lemma settle_stop_ok id p exit_code now c :
  cinv c → pods (worker c) !! id = Some p → state p = Stopping → handle p = None →
  wp P (settle_stop id exit_code now) (λ _ c', cinv c' ∧ touches id c c') c.
Proof.
  intros Hc Hp Hs Hh. unfold settle_stop. wp_step. apply wp_worker_get.
  wp_step. apply wp_worker_set. wp_step. eapply wp_update_pod; [exact Hp|].
  pose proof (wi_pods _ _ (proj1 Hc) id p Hp) as Hwf.
  set (final := match pending_failure_reasons (worker c) !! id with
                | Some r => Failed r | None => Stopped exit_code end).
  assert (Hf : is_terminal final = true) by (subst final; by case_match).
  clearbody final. eapply (entomb_ok id p
    (set_lifecycle_retry_after_tick 0 (set_state_changed_at now (set_state final p)))).
  - apply Hc.
  - apply Hc.
  - apply ext_intro; [done|]. eapply (moves_insert _ id p); [done|done|]. simpl. rewrite Hs.
    apply rtc_once. destruct final; try done; auto with edgedb.
  - exact Hp.
  - by rewrite Hs.
  - apply lookup_delete_eq.
  - reflexivity.
  - intros k r Hr. simpl in Hr. by apply lookup_delete_Some in Hr as [_ ?].
  - exact Hf.
  - apply pod_wf_scrub; [done|done|]. eapply pod_wf_move; [exact Hwf|..]; simpl; by destruct Hwf.
  - by split.
  - exact Hh.
Qed.

Lemma unmount_and_settle_ok id p exit_code now c :
  cinv c → pods (worker c) !! id = Some p → state p = Stopping → handle p = None →
  wp P (unmount_and_settle id exit_code now) (λ _ c', cinv c' ∧ touches id c c') c.
Proof.
  intros Hc Hp Hs Hh. unfold unmount_and_settle. wp_step. apply wp_on_host.
  intros r c1 Hw1 Hio1. pose proof (cinv_worker c c1 Hc Hw1 Hio1) as Hc1.
  rewrite <-Hw1 in Hp. destruct r.
  - eapply wp_mono; [by eapply settle_stop_ok|]. intros _ c' [? ?]. split; [done|].
    by eapply touches_from.
  - eapply wp_mono; [by eapply schedule_stop_retry_ok|]. intros _ c' [? ?]. split; [done|].
    by eapply touches_from.
Qed.

(** Two steps on the same pod, the first of which ends nothing. *)
Lemma touches_after id c0 c c' :
  ext c0 c → terminal_count (worker c) = terminal_count (worker c0) →
  (∀ k, k ≠ id → pods (worker c) !! k = pods (worker c0) !! k) →
  touches id c c' → touches id c0 c'.
Proof.
  intros He Ht Ho (He' & Ht' & Ho'). split; [by etrans|]. rewrite <-Ht. split; [done|].
  intros Hroom k Hk. rewrite <-Ho by done. by apply Ho'.
Qed.

Lemma terminal_count_update id p q w :
  pods w !! id = Some p → is_terminal (state q) = is_terminal (state p) →
  terminal_count (set_pods (<[id:=q]> (pods w)) w) = terminal_count w.
Proof.
  intros Hp Ht. unfold terminal_count. simpl. rewrite (map_sum_update _ _ _ p) by done.
  unfold count_of, terminal_pod. rewrite Ht. lia.
Qed.

(** Update pod [id] in place, then go on with [m]. *)
Lemma wp_update_then {A} id p q (m : M C A) Q c :
  cinv c → pods (worker c) !! id = Some p → pod_wf id q →
  is_terminal (state q) = is_terminal (state p) → same_account p q →
  (is_Some (pending_failure_reasons (worker c) !! id) → state q = Stopping) →
  rtc life_step (state p) (state q) →
  (∀ c1, cinv c1 → pods (worker c1) !! id = Some q → (∀ c', touches id c1 c' → touches id c c') →
     ext c c1 → wp P m Q c1) →
  wp P m Q (with_worker (λ w, set_pods (<[id:=q]> (pods w)) w) c).
Proof.
  intros Hc Hp Hq Ht Hs Hpend Hedge Hm.
  assert (He : ext c (with_worker (λ w, set_pods (<[id:=q]> (pods w)) w) c)).
  { apply ext_intro; [done|]. by eapply (moves_insert _ id p). }
  apply Hm; [by eapply step_update|apply lookup_insert_eq| |done].
  intros c'. apply touches_after; [done|by eapply terminal_count_update|].
  intros k Hk. simpl. by rewrite lookup_insert_ne.
Qed.

Lemma complete_pod_stop_ok id p exit_code now c :
  cinv c → pods (worker c) !! id = Some p → state p = Stopping →
  wp P (complete_pod_stop id exit_code now) (λ _ c', cinv c' ∧ touches id c c') c.
Proof.
  intros Hc Hp Hs. unfold complete_pod_stop. wp_step. apply wp_get_pod.
  wp_step. apply wp_assert; [rewrite Hp; simpl; by rewrite Hs|].
  wp_step. eapply wp_expect_pod; [done|].
  destruct (handle p) as [h|] eqn:Eh; [|by eapply unmount_and_settle_ok].
  wp_step. apply wp_runtime. intros r c1 Hw1 Hio1.
  pose proof (cinv_worker c c1 Hc Hw1 Hio1) as Hc1. rewrite <-Hw1 in Hp.
  pose proof (wi_pods _ _ (proj1 Hc1) id p Hp) as Hwf.
  destruct r as [[]|e].
  - wp_step. eapply wp_update_pod; [done|].
    eapply wp_update_then; [done|done| |done|by split|done|done|].
    + eapply pod_wf_move; [exact Hwf|..]; simpl; rewrite ?Hs; by destruct Hwf.
    + intros c2 Hc2 Hp2 Ht2 _.
      eapply wp_mono; [by eapply unmount_and_settle_ok|]. intros _ c' [? ?].
      split; [done|]. by eapply touches_from, Ht2.
  - eapply wp_mono; [by eapply schedule_stop_retry_ok|]. intros _ c' [? ?]. split; [done|].
    by eapply touches_from.
Qed.

(** ** [drive_pods], first phase *)

(** Pods the first phase may end. *)
Definition risky (s : TrackedPodState) : bool :=
  match s with Creating | Running => true | _ => false end.

Lemma touches_refl id c : touches id c c.
Proof. split; [done|]. split; [lia|done]. Qed.

Lemma touches_worker id c c' : worker c' = worker c → io c' = io c → touches id c c'.
Proof. intros Hw Hio. apply (touches_from id c c' c' Hw Hio), touches_refl. Qed.

Lemma drive_creating_ok id p now c :
  cinv c → pods (worker c) !! id = Some p → state p = Creating →
  wp P (drive_creating id now p) (λ _ c', cinv c' ∧ touches id c c') c.
Proof.
  intros Hc Hp Hs. unfold drive_creating.
  case_match; [by split; [|apply touches_refl]|].
  wp_step. apply wp_worker_get. wp_step.
  apply (wp_mono P _ (λ _ c', worker c' = worker c ∧ io c' = io c)).
  { case_match; [by apply wp_ret|]. wp_step. apply wp_on_host.
    intros a c' ? ?. by apply wp_ret. }
  intros r c1 [Hw1 Hio1]. pose proof (cinv_worker c c1 Hc Hw1 Hio1) as Hc1.
  destruct r as [mounts|error].
  - apply wp_ret. split; [done|]. by apply touches_worker.
  - wp_step. eapply wp_mono; [eapply (fail_pod_ok id p)|].
    + done.
    + by rewrite Hw1.
    + by rewrite Hs.
    + by rewrite Hs.
    + intros _ c' [? ?]. apply wp_ret. split; [done|]. by eapply touches_from.
Qed.

Lemma verify_running_ok id p now h c :
  cinv c → pods (worker c) !! id = Some p → state p = Running →
  wp P (verify_running id now h)
    (λ b c', if b : bool then worker c' = worker c ∧ io c' = io c
             else cinv c' ∧ touches id c c') c.
Proof.
  intros Hc Hp Hs. unfold verify_running. wp_step. apply wp_runtime. intros r c1 Hw1 Hio1.
  pose proof (cinv_worker c c1 Hc Hw1 Hio1) as Hc1.
  assert (Hfail : ∀ reason, wp P (fail_pod id reason now ;;; ret false)
    (λ b c', if b : bool then worker c' = worker c ∧ io c' = io c
             else cinv c' ∧ touches id c c') c1).
  { intros reason. wp_step. eapply wp_mono; [eapply (fail_pod_ok id p)|].
    - done.
    - by rewrite Hw1.
    - by rewrite Hs.
    - by rewrite Hs.
    - intros _ c' [? ?]. apply wp_ret. split; [done|]. by eapply touches_from. }
  destruct r as [[| |exit_code|]|e]; [apply Hfail|by apply wp_ret| |apply Hfail|apply Hfail].
  rewrite <-Hw1 in Hp. pose proof (wi_pods _ _ (proj1 Hc1) id p Hp) as Hwf.
  wp_step. eapply wp_update_pod; [done|].
  eapply wp_update_then; [done|done| |by rewrite Hs|by split|done|by rewrite Hs; auto with edgedb|].
  - eapply pod_wf_move; [exact Hwf|..]; simpl; unfold STOP_ATTEMPT_MAX, MAX_STOP_GRACE_MS;
      first [lia | by destruct Hwf].
  - intros c2 Hc2 Hp2 Ht2 _. wp_step. eapply wp_mono; [by eapply complete_pod_stop_ok|].
    intros _ c' [? ?]. apply wp_ret. split; [done|]. by eapply touches_from, Ht2.
Qed.

Lemma failures_wf id p n :
  pod_wf id p → state p = Running → is_u8 n → pod_wf id (set_consecutive_failures n p).
Proof. intros [] Hs Hn. constructor; simpl; try done. by rewrite Hs. Qed.

(** A probe that found the pod unhealthy. *)
Lemma unhealthy_ok id p now c :
  cinv c → 0 ≤ now ≤ TICK_MAX → pods (worker c) !! id = Some p → state p = Running →
  wp P (let* p := expect_pod id "called `Option::unwrap()` on a `None` value" in
        let failures := sat_add U8_MAX (consecutive_failures p) 1 in
        put_pod id (set_consecutive_failures failures p) ;;;
        when (3 <=? failures) (fail_pod id "liveness probe failed" now))
    (λ _ c', cinv c' ∧ touches id c c') c.
Proof.
  intros Hc Hnow Hp Hs. pose proof (wi_pods _ _ (proj1 Hc) id p Hp) as Hwf.
  pose proof (winv_not_pending _ _ _ _ (proj1 Hc) Hp) as Hnp. rewrite Hs in Hnp.
  wp_step. eapply wp_expect_pod; [done|]. cbv zeta. wp_step. apply wp_put_pod.
  eapply wp_update_then; [done|done| |done|by split|by rewrite Hnp by done; intros []|done|].
  { apply failures_wf; [done|done|]. pose proof (pw_consecutive _ _ Hwf). int_lia. }
  intros c1 Hc1 Hp1 Ht1 He1. apply wp_when; intros _; [|by split; [|apply Ht1, touches_refl]].
  eapply wp_mono; [eapply (fail_pod_ok id); [done|done|by simpl; rewrite Hs..]|].
  intros _ c' [? ?]. split; [done|by apply Ht1].
Qed.

Lemma probe_running_ok id p now c :
  cinv c → 0 ≤ now ≤ TICK_MAX → pods (worker c) !! id = Some p → state p = Running →
  wp P (probe_running id now) (λ _ c', cinv c' ∧ touches id c c') c.
Proof.
  intros Hc Hnow Hp Hs. unfold probe_running. wp_step. eapply wp_expect_pod; [done|].
  pose proof (wi_pods _ _ (proj1 Hc) id p Hp) as Hwf.
  pose proof (winv_not_pending _ _ _ _ (proj1 Hc) Hp) as Hnp. rewrite Hs in Hnp.
  wp_step. apply (wp_mono P _ (λ _ c', c' = c)).
  { case_match; [|by apply wp_ret]. wp_step. apply wp_add_overflow; [|by apply wp_ret].
    pose proof (pw_probe _ _ Hwf). rewrite (pw_interval _ _ Hwf). unfold TICK_MAX in *. lia. }
  intros b ? ->. apply wp_when; [intros _|intros _; by split; [|apply touches_refl]].
  pose proof (pw_handle _ _ Hwf) as Hh. rewrite Hs in Hh. destruct Hh as [h Hh].
  wp_step. eapply wp_expect; [done|]. wp_step. eapply wp_update_pod; [done|].
  eapply wp_update_then; [done|done| |done|by split|by rewrite Hnp by done; intros []|done|].
  { destruct Hwf. constructor; simpl; try done. by rewrite Hs. }
  intros c1 Hc1 Hp1 Ht1 He1. wp_step. apply wp_runtime. intros r c2 Hw2 Hio2.
  pose proof (cinv_worker c1 c2 Hc1 Hw2 Hio2) as Hc2. rewrite <-Hw2 in Hp1.
  set (p1 := set_last_probe_tick now p) in *.
  pose proof (wi_pods _ _ (proj1 Hc2) id p1 Hp1) as Hwf1.
  assert (Hnp1 : pending_failure_reasons (worker c2) !! id = None).
  { apply (winv_not_pending _ _ _ p1 (proj1 Hc2) Hp1). by simpl; rewrite Hs. }
  assert (Hback : ∀ c', touches id c2 c' → touches id c c').
  { intros c' Ht. apply Ht1. by eapply touches_from. }
  destruct r as [[]|e]; [|eapply wp_mono; [by apply (unhealthy_ok id p1)|intros _ c' [? ?]; split; [done|by apply Hback]]..].
  eapply wp_update_pod; [done|].
  destruct (step_update id p1 (set_consecutive_failures 0 p1) c2 (with_worker (λ w,
    set_pods (<[id:=set_consecutive_failures 0 p1]> (pods w)) w) c2)) as [Hc3 Ht3];
    [done|done|reflexivity|reflexivity|by apply failures_wf|done|by split|by rewrite Hnp1; intros []|done|].
  split; [exact Hc3|by apply Hback].
Qed.

(** Driving one pod: it alone is touched, and only if its state is [risky]. *)
Lemma drive_pod_ok id p now c :
  cinv c → 0 ≤ now ≤ TICK_MAX → pods (worker c) !! id = Some p →
  wp P (drive_pod now id)
    (λ _ c', cinv c' ∧ touches id c c' ∧ (risky (state p) = false → c' = c)) c.
Proof.
  intros Hc Hnow Hp. unfold drive_pod. wp_step. eapply wp_expect_pod; [done|].
  pose proof (wi_pods _ _ (proj1 Hc) id p Hp) as Hwf.
  destruct (state p) eqn:Es; simpl.
  1,3,5,6,7: by (apply wp_ret; split; [|split; [apply touches_refl|]]).
  - eapply wp_mono; [by eapply drive_creating_ok|]. intros _ c' []. by split_and!.
  - pose proof (pw_handle _ _ Hwf) as Hh. rewrite Es in Hh. destruct Hh as [h Hh].
    unfold drive_running. wp_step. eapply wp_expect; [done|]. wp_step.
    eapply wp_mono; [by eapply verify_running_ok|]. intros [] c1; simpl.
    + intros [Hw1 Hio1]. wp_step. eapply wp_mono; [eapply (probe_running_ok id p)|].
      * by eapply cinv_worker.
      * done.
      * by rewrite Hw1.
      * done.
      * intros _ c' []. apply wp_ret. split_and!; [done| |done]. by eapply touches_from.
    + intros []. wp_step. wp_step. wp_step. by split_and!.
Qed.

(** Room for the tombstones the first phase may add. *)
Definition risky_in (w : Worker) (ids : list Z) : Z :=
  sum_with (λ id, match pods w !! id with
                  | Some p => if risky (state p) then 1 else 0 | None => 0 end) ids.

Lemma risky_in_same w w' ids :
  (∀ id, id ∈ ids → pods w' !! id = pods w !! id) → risky_in w' ids = risky_in w ids.
Proof. intros Hs. apply sum_with_ext. intros id Hid. by rewrite Hs. Qed.

Lemma risky_in_nonneg w ids : 0 ≤ risky_in w ids.
Proof.
  unfold risky_in. induction ids as [|id ids IH]; [done|]. cbn [sum_with foldr].
  fold (sum_with (λ id, match pods w !! id with
                  | Some p => if risky (state p) then 1 else 0 | None => 0 end) ids).
  repeat case_match; lia.
Qed.

(** The invariant of the first loop. *)
Record driving (c0 : C) (ids : list Z) (c : C) : Prop := {
  dr_inv : cinv c;
  dr_ext : ext c0 c;
  dr_nodup : NoDup ids;
  dr_tracked : ∀ id, id ∈ ids → is_Some (pods (worker c) !! id);
  dr_room : terminal_count (worker c) + risky_in (worker c) ids ≤ Z.of_nat MAX_TERMINAL_TOMBSTONES
}.

Lemma driving_step c0 id ids now c :
  0 ≤ now ≤ TICK_MAX → driving c0 (id :: ids) c →
  wp P (drive_pod now id) (λ _ c', driving c0 ids c') c.
Proof.
  intros Hnow [Hc He Hnd Htr Hroom].
  apply NoDup_cons in Hnd as [Hid Hnd]. destruct (Htr id) as [p Hp]; [by constructor|].
  pose proof (risky_in_nonneg (worker c) ids) as Hnn.
  assert (Hr : risky_in (worker c) (id :: ids) =
    (if risky (state p) then 1 else 0) + risky_in (worker c) ids).
  { unfold risky_in. simpl. by rewrite Hp. }
  rewrite Hr in Hroom. eapply wp_mono; [by eapply drive_pod_ok|].
  intros _ c' (Hc' & (He' & Ht' & Ho') & Hq).
  destruct (risky (state p)) eqn:Er.
  - assert (Hsame : ∀ k, k ∈ ids → pods (worker c') !! k = pods (worker c) !! k).
    { intros k Hk. apply Ho'; [lia|]. by intros ->. }
    constructor; [done|by etrans|done| |].
    + intros k Hk. rewrite Hsame by done. apply Htr. by constructor.
    + rewrite (risky_in_same (worker c)) by done. lia.
  - rewrite Hq by done. constructor; try done.
    intros k Hk. apply Htr. by constructor.
Qed.

(** ** Third phase *)

Abbreviation keeps := (λ (_ : unit) c', cinv c').

Lemma touches_ext id c c' : touches id c c' → ext c c'.
Proof. by intros []. Qed.

(** A handler whose last act is a report. *)
Lemma wp_send_keeps msg c0 c :
  emittable msg → cinv c → ext c0 c → wp P (send msg) (λ _ c', cinv c' ∧ ext c0 c') c.
Proof.
  intros Hm [Hw Hio] He. apply wp_send; [done|done|]. intros c' Hw' Hio' He'.
  split; [split; [by rewrite Hw'|done]|by etrans].
Qed.

(** The update of a live pod to a live state its handle fits, its failures bounded. *)
Lemma wp_move_then {A} id p q (m : M C A) Q c :
  cinv c → pods (worker c) !! id = Some p → state p ≠ Stopping → is_terminal (state p) = false →
  pod_wf id q → is_terminal (state q) = false → same_account p q →
  rtc life_step (state p) (state q) →
  (∀ c1, cinv c1 → pods (worker c1) !! id = Some q → ext c c1 → wp P m Q c1) →
  wp P m Q (with_worker (λ w, set_pods (<[id:=q]> (pods w)) w) c).
Proof.
  intros Hc Hp Hns Hlive Hq Ht Hs Hedge Hm. eapply wp_update_then; [done..|by rewrite Ht|done| |done|].
  - rewrite (winv_not_pending _ _ _ _ (proj1 Hc) Hp Hns). by intros [].
  - intros c1 ? ? _ ?. by apply Hm.
Qed.

Lemma step_move ph id p q c0 c :
  cinv c → ext_in ph c0 c → pods (worker c) !! id = Some p → state p ≠ Stopping →
  is_terminal (state p) = false → pod_wf id q → is_terminal (state q) = false → same_account p q →
  rtc life_step (state p) (state q) →
  cinv (with_worker (λ w, set_pods (<[id:=q]> (pods w)) w) c) ∧
  ext_in ph c0 (with_worker (λ w, set_pods (<[id:=q]> (pods w)) w) c).
Proof.
  intros Hc He Hp Hns Hlive Hq Ht Hs Hedge.
  destruct (step_update id p q c (with_worker (λ w, set_pods (<[id:=q]> (pods w)) w) c))
    as [Hc1 _]; [done..|by rewrite Hlive|done| |done|].
  { rewrite (winv_not_pending _ _ _ _ (proj1 Hc) Hp Hns). by intros []. }
  split; [done|]. etrans; [done|]. apply ext_intro; [done|]. by eapply (moves_insert _ id p).
Qed.

Lemma fail_pod_keeps id p reason now c0 c :
  cinv c → ext c0 c → pods (worker c) !! id = Some p → is_terminal (state p) = false →
  state p ≠ Stopping → wp P (fail_pod id reason now) (λ _ c', cinv c' ∧ ext c0 c') c.
Proof.
  intros Hc He Hp Ht Hs. eapply wp_mono; [by eapply fail_pod_ok|].
  intros _ c' [? ?%touches_ext]. split; [done|by etrans].
Qed.

Lemma complete_pull_ok id p now r c :
  cinv c → pods (worker c) !! id = Some p → state p = ImagePulling →
  wp P (complete_pull id now (ResPull r)) (λ _ c', cinv c' ∧ ext c c') c.
Proof.
  intros Hc Hp Hs. pose proof (wi_pods _ _ (proj1 Hc) id p Hp) as Hwf.
  destruct r as [[]|e]; simpl; [|by eapply fail_pod_keeps; rewrite ?Hs].
  wp_step. eapply wp_update_pod; [done|].
  eapply wp_move_then; [done|done|by rewrite Hs|by rewrite Hs| |done|by split
    |by rewrite Hs; auto with edgedb|].
  - pose proof (pw_handle _ _ Hwf) as Hh. rewrite Hs in Hh.
    eapply pod_wf_move; [exact Hwf|..]; simpl; by destruct Hwf.
  - intros c1 ? ? ?. by apply wp_send_keeps.
Qed.

Lemma complete_create_ok id p now r c :
  cinv c → pods (worker c) !! id = Some p → state p = Creating →
  wp P (complete_create id now (ResCreate r)) (λ _ c', cinv c' ∧ ext c c') c.
Proof.
  intros Hc Hp Hs. pose proof (wi_pods _ _ (proj1 Hc) id p Hp) as Hwf.
  destruct r as [h|e]; simpl; [|by eapply fail_pod_keeps; rewrite ?Hs].
  eapply wp_update_pod; [done|].
  eapply step_move; [done|done|done|by rewrite Hs|by rewrite Hs| |done|by split
    |by rewrite Hs; auto with edgedb].
  eapply pod_wf_move; [exact Hwf|..]; simpl; by destruct Hwf.
Qed.

Lemma retry_lifecycle_pod_ok id p now c :
  cinv c → pods (worker c) !! id = Some p → state p = Starting →
  wp P (retry_lifecycle_pod id now)
    (λ b c', if b : bool
             then cinv c' ∧ ext c c' ∧ ∃ q, pods (worker c') !! id = Some q ∧ state q = Starting
             else c' = c) c.
Proof.
  intros Hc Hp Hs. unfold retry_lifecycle_pod. wp_step. apply wp_get_pod. rewrite Hp.
  pose proof (wi_pods _ _ (proj1 Hc) id p Hp) as Hwf.
  pose proof (pw_failures _ _ Hwf) as Hf. unfold STOP_ATTEMPT_MAX, LIFECYCLE_RETRY_MAX in *.
  destruct (Z.leb_spec 3 (sat_add U8_MAX (lifecycle_failures p) 1)) as [|Hlt]; [by apply wp_ret|].
  wp_step. apply wp_add_overflow; [int_lia|]. wp_step. apply wp_assert; [int_lia|].
  wp_step. apply wp_put_pod. eapply wp_move_then; [done|done|by rewrite Hs|by rewrite Hs| | |by split|done|].
  - apply pod_wf_retry; [done| |by rewrite Hs]. unfold STOP_ATTEMPT_MAX. int_lia.
  - simpl. by rewrite Hs.
  - intros c1 Hc1 Hp1 He1. apply wp_ret. split; [done|]. split; [done|]. eauto.
Qed.

Lemma recover_start_ok id p now h e c :
  cinv c → pods (worker c) !! id = Some p → state p = Starting →
  wp P (recover_start id now h e) (λ _ c', cinv c' ∧ ext c c') c.
Proof.
  intros Hc Hp Hs. unfold recover_start. wp_step.
  eapply wp_mono; [by eapply retry_lifecycle_pod_ok|]. intros [] c1; simpl.
  - intros (Hc1 & He1 & q & Hq & Hqs). wp_step. apply wp_runtime. intros r c2 Hw2 Hio2.
    pose proof (cinv_worker c1 c2 Hc1 Hw2 Hio2) as Hc2.
    assert (He2 : ext c c2) by (etrans; [done|by apply ext_io; [rewrite Hw2|]]). rewrite <-Hw2 in Hq.
    pose proof (wi_pods _ _ (proj1 Hc2) id q Hq) as Hwf.
    destruct r as [[]|e']; [|by eapply fail_pod_keeps; rewrite ?Hqs].
    wp_step. apply wp_get_pod. rewrite Hq. apply wp_put_pod.
    eapply step_move; [done|done|done|by rewrite Hqs|by rewrite Hqs| |done|by split
      |by rewrite Hqs; auto with edgedb].
    eapply pod_wf_move; [exact Hwf|..]; simpl; by destruct Hwf.
  - intros ->. by eapply fail_pod_keeps; rewrite ?Hs.
Qed.

Lemma complete_start_ok id p now h r c :
  cinv c → pods (worker c) !! id = Some p → state p = Starting →
  wp P (complete_start id now h (ResStart r)) (λ _ c', cinv c' ∧ ext c c') c.
Proof.
  intros Hc Hp Hs. pose proof (wi_pods _ _ (proj1 Hc) id p Hp) as Hwf.
  destruct r as [[]|e]; simpl; [|by eapply recover_start_ok].
  wp_step. eapply wp_update_pod; [done|].
  eapply wp_move_then; [done|done|by rewrite Hs|by rewrite Hs| |done|by split
    |by rewrite Hs; auto with edgedb|].
  - pose proof (pw_handle _ _ Hwf) as Hh. rewrite Hs in Hh.
    eapply pod_wf_move; [exact Hwf|..]; simpl; unfold STOP_ATTEMPT_MAX; first [lia|by destruct Hwf].
  - intros c1 ? ? ?. by apply wp_send_keeps.
Qed.

Lemma complete_stop_ok id p now r c :
  cinv c → pods (worker c) !! id = Some p → state p = Stopping →
  wp P (complete_stop id now (ResStop r)) (λ _ c', cinv c' ∧ ext c c') c.
Proof.
  intros Hc Hp Hs. destruct r; simpl.
  - eapply wp_mono; [by eapply complete_pod_stop_ok|]. by intros _ c' [? ?%touches_ext].
  - eapply wp_mono; [by eapply schedule_stop_retry_ok|]. by intros _ c' [? ?%touches_ext].
Qed.

Lemma wp_if_state id s m c (Q : unit → C → Prop) :
  (∀ p, pods (worker c) !! id = Some p → state p = s → wp P m Q c) → Q tt c → wp P (if_state id s m) Q c.
Proof.
  intros Hm HQ. unfold if_state. wp_step. apply wp_get_pod. apply wp_when; [|done].
  rewrite bool_decide_eq_true. destruct (pods (worker c) !! id) as [p|]; [|done].
  intros [= Hs]. by eapply Hm.
Qed.

Lemma process_completion_ok now k c :
  cinv c → completion_ok k → wp P (process_completion now k) (λ _ c', cinv c' ∧ ext c c') c.
Proof.
  intros Hc Hk. destruct k as [op r]. unfold completion_ok in Hk. simpl in Hk.
  destruct op, r; try done; unfold process_completion; simpl; (apply wp_if_state; [|done]);
    intros p Hp Hs.
  - by eapply complete_pull_ok.
  - by eapply complete_create_ok.
  - by eapply complete_start_ok.
  - by eapply complete_stop_ok.
Qed.

(** ** Messages *)

(** Tombstones, and pods whose tombstone the next [drive_pods] may add. *)
Definition loaded (p : TrackedPod) : bool := is_terminal (state p) || risky (state p).
Definition drive_load (w : Worker) : Z := map_sum (count_of loaded) (pods w).

Lemma drive_load_pruned n limit w : winv_upto n w → drive_load (pruned limit w) ≤ drive_load w.
Proof.
  intros Hw. unfold drive_load, pruned. simpl.
  rewrite remove_ids_count; [lia|by eapply NoDup_prune_ids|].
  intros id Hid. destruct (prune_ids_terminal _ _ _ _ Hw Hid) as (p & Hp & Ht).
  exists p. split; [done|]. unfold loaded. by rewrite Ht.
Qed.

(** The worker with a freshly admitted pod. *)
Definition admitted (p : TrackedPod) (r : SecretResolver) (w : Worker) : Worker :=
  set_pods (<[pod_id p:=p]> (pods w)) (set_secret_resolver r
    (set_memory_allocated_megabytes (memory_allocated_megabytes w + memory_megabytes p)
      (set_cpu_allocated_millicores (cpu_allocated_millicores w + cpu_millicores p)
        (set_gpu_allocated (gpu_allocated w + gpu_count p) w)))).

Lemma winv_admitted n w p r :
  winv_upto n w → pods w !! pod_id p = None → pod_wf (pod_id p) p → state p = ImagePulling →
  (size (pods w) < MAX_TRACKED_PODS)%nat →
  gpu_allocated w + gpu_count p ≤ gpu_total w →
  cpu_allocated_millicores w + cpu_millicores p ≤ cpu_total w →
  memory_allocated_megabytes w + memory_megabytes p ≤ memory_total w →
  winv_upto n (admitted p r w).
Proof.
  intros Hw Hnew Hp Hs Hsize Hg Hc Hm. pose proof (wi_pending _ _ Hw) as Hpend. destruct Hw.
  assert (Hlive : ∀ f, live f p = f p) by (intros f; unfold live; by rewrite Hs).
  constructor; unfold admitted; simpl; rewrite ?map_sum_insert, ?Hlive by done; try done; try lia.
  - by apply map_Forall_insert_2.
  - intros k x Hr. destruct (Hpend k x Hr) as (q & Hq & Hqs). exists q.
    rewrite lookup_insert_ne; [done|]. intros <-. congruence.
  - rewrite map_size_insert, Hnew. unfold MAX_TRACKED_PODS in *. simpl. lia.
  - unfold terminal_count in *. simpl. rewrite map_sum_insert by done.
    assert (count_of terminal_pod p = 0) by (unfold count_of, terminal_pod; by rewrite Hs). lia.
Qed.

(** A refusal leaves the capacity test false. *)
Lemma start_rejection_None w cmd :
  winv w → start_rejection w cmd = None →
  (size (pods w) < MAX_TRACKED_PODS)%nat ∧
  gpu_allocated w + sp_gpu_count cmd ≤ gpu_total w ∧
  cpu_allocated_millicores w + sp_cpu_millicores cmd ≤ cpu_total w ∧
  memory_allocated_megabytes w + sp_memory_megabytes cmd ≤ memory_total w.
Proof.
  intros Hw. pose proof (wi_gpu_total _ _ Hw). pose proof (wi_cpu_total _ _ Hw).
  pose proof (wi_mem_total _ _ Hw). unfold start_rejection.
  destruct (Nat.leb_spec MAX_TRACKED_PODS (size (pods w))); [done|].
  destruct ((0 <? sp_gpu_count cmd) && negb (bool_decide (sp_gpu_type cmd = gpu_type w))); [done|].
  unfold sat_add.
  destruct (Z.ltb_spec (gpu_total w) (Z.min U8_MAX (gpu_allocated w + sp_gpu_count cmd))); [done|].
  destruct (Z.ltb_spec (cpu_total w)
    (Z.min U32_MAX (cpu_allocated_millicores w + sp_cpu_millicores cmd))); [done|].
  destruct (Z.ltb_spec (memory_total w)
    (Z.min U32_MAX (memory_allocated_megabytes w + sp_memory_megabytes cmd))); [done|].
  intros _. split; [done|]. lia.
Qed.

Lemma tracked_pod_of_wf cmd now env auth :
  start_cmd_wf cmd → 0 ≤ now ≤ TICK_MAX → pod_wf (sp_pod_id cmd) (tracked_pod_of cmd now env auth).
Proof. intros [] Hn. constructor; simpl; try done. Qed.

(** Handlers keep the invariant, and never add to the load. *)
Definition handled (c c' : C) : Prop :=
  cinv c' ∧ ext_in Receiving c c' ∧ drive_load (worker c') ≤ drive_load (worker c).

Lemma wp_send_handled msg c : emittable msg → cinv c → wp P (send msg) (λ _ c', handled c c') c.
Proof.
  intros Hm [Hw Hio]. apply wp_send; [done|done|]. intros c' Hw' Hio' He'.
  unfold handled, cinv. rewrite Hw'. split_and!; try done.
Qed.

Lemma admit_pod_ok cmd now c :
  cinv c → start_cmd_wf cmd → 0 ≤ now ≤ TICK_MAX → pods (worker c) !! sp_pod_id cmd = None →
  start_rejection (worker c) cmd = None → wp P (admit_pod cmd now) (λ _ c', handled c c') c.
Proof.
  intros [Hw Hio] Hcmd Hnow Hnew Hrej.
  destruct (start_rejection_None _ _ Hw Hrej) as (Hsize & Hg & Hcpu & Hmem).
  pose proof (wi_gpu_total _ _ Hw). pose proof (wi_cpu_total _ _ Hw). pose proof (wi_mem_total _ _ Hw).
  unfold admit_pod. wp_step. apply wp_worker_get.
  wp_step. apply wp_add_overflow; [lia|]. wp_step. apply wp_worker_set.
  wp_step. apply wp_add_overflow; [lia|]. wp_step. apply wp_worker_set.
  wp_step. apply wp_add_overflow; [lia|]. wp_step. apply wp_worker_set.
  wp_step. apply wp_with_resolver. intros env r1 c1 Hw1 Hio1.
  wp_step. apply wp_with_resolver. intros password r2 c2 Hw2 Hio2.
  wp_step. apply wp_put_pod.
  set (p := tracked_pod_of cmd now env (pull_auth_of cmd (default ""%string password))).
  set (c3 := with_worker _ c2).
  assert (Hw3 : worker c3 = admitted p r2 (worker c)).
  { subst c3. simpl. rewrite Hw2, Hw1. unfold admitted. reflexivity. }
  assert (Hinv : winv (admitted p r2 (worker c))).
  { apply winv_admitted; [exact Hw|exact Hnew| |reflexivity|exact Hsize|exact Hg|exact Hcpu|exact Hmem].
    exact (tracked_pod_of_wf cmd now env _ Hcmd Hnow). }
  eapply wp_mono; [apply wp_send_handled; [done|]|].
  - split; [by rewrite Hw3|]. simpl. by rewrite Hio2, Hio1.
  - intros _ c' (Hc' & He' & Hl'). split; [done|]. split.
    + transitivity c3; [|done]. apply ext_intro; [by simpl; rewrite Hio2, Hio1|]. rewrite Hw3.
      eapply (moves_slot _ (pod_id p)); [done|]. unfold pstate. cbn [pod_id p tracked_pod_of]. rewrite Hnew. by apply rtc_once, edge_admit.
    + rewrite Hw3 in Hl'. unfold drive_load, admitted in Hl'. simpl in Hl'.
      rewrite map_sum_insert in Hl' by done. done.
Qed.

Lemma handle_start_pod_ok cmd now c :
  cinv c → start_cmd_wf cmd → 0 ≤ now ≤ TICK_MAX →
  wp P (handle_start_pod cmd now) (λ _ c', handled c c') c.
Proof.
  intros Hc Hcmd Hnow. unfold handle_start_pod. wp_step. apply wp_get_pod.
  destruct (pods (worker c) !! sp_pod_id cmd) as [p|] eqn:Ep; [by apply wp_send_handled|].
  wp_step. eapply wp_mono; [eapply prune_ok, (proj1 Hc)|]. intros _ c1 [Hw1 Hio1].
  assert (Hc1 : cinv c1).
  { split; [rewrite Hw1; eapply winv_pruned, (proj1 Hc)|rewrite Hio1; apply Hc]. }
  assert (Hback : ∀ c', handled c1 c' → handled c c').
  { intros c' (? & He & Hl). split; [done|]. split.
    - transitivity c1; [|done]. apply ext_io; [|done]. by rewrite Hw1, pruned_id by apply (proj1 Hc).
    - rewrite Hw1 in Hl. etrans; [done|]. eapply drive_load_pruned, (proj1 Hc). }
  wp_step. apply wp_worker_get.
  destruct (start_rejection (worker c1) cmd) as [reason|] eqn:Er.
  - eapply wp_mono; [by apply wp_send_handled|]. auto.
  - eapply wp_mono; [apply admit_pod_ok; try done|auto].
    rewrite Hw1. unfold pruned. simpl. rewrite lookup_remove_ids. by case_bool_decide.
Qed.

Lemma handle_stop_pod_ok cmd now c :
  cinv c → 0 ≤ st_grace_period_ms cmd → wp P (handle_stop_pod cmd now) (λ _ c', handled c c') c.
Proof.
  intros Hc Hg. unfold handle_stop_pod. wp_step. apply wp_get_pod.
  assert (Hrefl : handled c c) by (split_and!; [done|done|lia]).
  destruct (pods (worker c) !! st_pod_id cmd) as [p|] eqn:Hp; [|by apply wp_ret].
  apply wp_when; [|done]. intros Hst. apply wp_put_pod.
  pose proof (wi_pods _ _ (proj1 Hc) _ p Hp) as Hwf.
  assert (Hlive : is_terminal (state p) = false) by by destruct (state p).
  assert (Hns : state p ≠ Stopping) by by destruct (state p).
  destruct (step_move Receiving (st_pod_id cmd) p (begin_stop (st_grace_period_ms cmd) now p) c c) as [Hc1 He1];
    [done|done|done|done|done|by apply pod_wf_begin_stop|done|by split|by apply rtc_once, edge_stop|].
  split; [done|]. split; [done|]. unfold drive_load. simpl. rewrite (map_sum_update _ _ _ p) by done.
  assert (0 ≤ count_of loaded p) by (unfold count_of; case_match; lia).
  change (count_of loaded (begin_stop (st_grace_period_ms cmd) now p)) with 0. lia.
Qed.

Lemma handle_probe_pod_ok cmd c : cinv c → wp P (handle_probe_pod cmd) (λ _ c', handled c c') c.
Proof.
  intros Hc. unfold handle_probe_pod. wp_step. apply wp_get_pod.
  destruct (pods (worker c) !! pp_pod_id cmd); [by apply wp_send_handled|].
  apply wp_ret. split_and!; [done|done|lia].
Qed.

Lemma min_by_pod_id_elem l p : min_by_pod_id l = Some p → p ∈ l.
Proof.
  unfold min_by_pod_id.
  assert (∀ o, foldl (λ best p, match best with
    | None => Some p
    | Some b => if pod_id p <? pod_id b then Some p else best
    end) o l = Some p → p ∈ l ∨ o = Some p) as Hf.
  { induction l as [|q l IH]; intros o; simpl; [by right|]. intros [Hp|Ho]%IH.
    - left. by constructor.
    - destruct o as [b|]; [case_match|]; simplify_eq; [left; constructor|by right|left; constructor]. }
  intros [?|?]%Hf; done.
Qed.

Lemma handle_run_request_ok cmd c : cinv c → wp P (handle_run_request cmd) (λ _ c', handled c c') c.
Proof.
  intros Hc. unfold handle_run_request. wp_step. apply wp_worker_get.
  destruct (min_by_pod_id _) as [p|] eqn:Em; [|by apply wp_send_handled].
  apply min_by_pod_id_elem, list_elem_of_filter in Em as [Hr _].
  unfold routable in Hr. rewrite !andb_true_iff, bool_decide_eq_true in Hr.
  destruct Hr as [_ [h Hh]]. wp_step. eapply wp_expect; [done|].
  wp_step. apply wp_runtime. intros r c1 Hw1 Hio1.
  assert (Hback : ∀ c', handled c1 c' → handled c c').
  { intros c' (? & He & Hl). split; [done|]. split; [by eapply ext_from|]. by rewrite Hw1 in Hl. }
  pose proof (cinv_worker c c1 Hc Hw1 Hio1).
  destruct r as [|e]; (eapply wp_mono; [apply wp_send_handled; [|done]|auto]); [done|].
  unfold emittable, run_response, run_error_status. simpl. by destruct e.
Qed.

Lemma handle_message_ok msg now c :
  cinv c → control_wf msg → 0 ≤ now ≤ TICK_MAX →
  wp P (handle_message msg now) (λ _ c', handled c c') c.
Proof.
  intros Hc Hm Hnow. destruct msg; simpl.
  - by apply handle_start_pod_ok.
  - apply handle_stop_pod_ok; [done|]. destruct Hm as [_ Hm]. int_lia.
  - by apply handle_probe_pod_ok.
  - by apply handle_run_request_ok.
Qed.

(** ** [drive_pods] and [tick] *)

Lemma drive_load_split w :
  drive_load w = terminal_count w + risky_in w (sorted_pod_ids w).
Proof.
  unfold drive_load, terminal_count, risky_in, sorted_pod_ids.
  rewrite (sum_with_perm _ _ _ (sort_by_perm Z.leb (keys (pods w)))).
  rewrite (sum_with_keys (λ p, if risky (state p) then 1 else 0) (pods w)).
  unfold map_sum. rewrite <-sum_with_plus. apply sum_with_ext. intros p _.
  unfold count_of, loaded, terminal_pod. destruct (state p); done.
Qed.

Lemma driving_start c :
  cinv c → drive_load (worker c) ≤ Z.of_nat MAX_TERMINAL_TOMBSTONES →
  driving c (sorted_pod_ids (worker c)) c.
Proof.
  intros Hc Hl. constructor; [done|done|apply NoDup_sort_by, NoDup_keys| |].
  - intros id. unfold sorted_pod_ids. by rewrite elem_of_sort_by, elem_of_keys.
  - by rewrite <-drive_load_split.
Qed.

(** The second and third phase. *)
Lemma drive_ops_ok now ops c0 c :
  cinv c → ext c0 c →
  wp P (let* completions := run_chunks (length (sort_ops ops)) (sort_ops ops) in
        for_each completions (process_completion now)) (λ _ c', cinv c' ∧ ext c0 c') c.
Proof.
  intros Hc He. wp_step.
  destruct (run_chunks_ok (length (sort_ops ops)) (sort_ops ops) c) as (cs & c2 & Er & _ & Hcs & Hs);
    [done|]. unfold wp at 1. rewrite Er. destruct Hs as [Hw2 Hio2 _].
  pose proof (cinv_worker c c2 Hc Hw2 Hio2) as Hc2.
  eapply wp_mono; [apply (wp_for_each P _ (λ cs c', cinv c' ∧ ext c0 c' ∧ Forall completion_ok cs))|].
  - split; [done|]. split; [|done]. etrans; [done|by apply ext_io; [rewrite Hw2|]].
  - intros k ks c3 (Hc3 & He3 & Hk). apply Forall_cons in Hk as [Hk Hks].
    eapply wp_mono; [by apply process_completion_ok|]. intros _ c4 [? ?].
    split; [done|]. split; [by etrans|done].
  - by intros _ c4 (? & ? & _).
Qed.

Lemma drive_pods_ok now c :
  cinv c → 0 ≤ now ≤ TICK_MAX → drive_load (worker c) ≤ Z.of_nat MAX_TERMINAL_TOMBSTONES →
  wp P (drive_pods now) (λ _ c', cinv c' ∧ ext c c') c.
Proof.
  intros Hc Hnow Hl. unfold drive_pods. wp_step. apply wp_worker_get. wp_step.
  eapply wp_mono; [apply (wp_for_collect P _ (driving c) (λ _, True))|].
  - by apply driving_start.
  - intros id ids c1 Hd. eapply wp_mono; [by apply driving_step|]. intros ops c2 Hd2.
    split; [done|]. by apply Forall_true.
  - intros ops c1 [[Hc1 He1 _ _ _] _]. by apply drive_ops_ok.
Qed.

(** Without room for the tombstones, a pod may be gone when its turn comes. *)
Definition NO_ENTRY : string := "no entry found for key".
Definition tick_panics (e : string) : Prop := io_panics e ∨ e = NO_ENTRY.

Lemma drive_pod_any id now c0 c :
  cinv c → ext c0 c → 0 ≤ now ≤ TICK_MAX →
  wp tick_panics (drive_pod now id) (λ _ c', cinv c' ∧ ext c0 c') c.
Proof.
  intros Hc He Hnow. destruct (pods (worker c) !! id) as [p|] eqn:Hp.
  - eapply wp_weaken; [|by left]. eapply wp_mono; [by eapply drive_pod_ok|].
    intros _ c' (? & ?%touches_ext & _). split; [done|by etrans].
  - unfold wp, drive_pod, index_pod, expect_pod, get_pod, worker_get, bind, expect. rewrite Hp. by right.
Qed.

Lemma drive_pods_any now c :
  cinv c → 0 ≤ now ≤ TICK_MAX → wp tick_panics (drive_pods now) (λ _ c', cinv c' ∧ ext c c') c.
Proof.
  intros Hc Hnow. unfold drive_pods. wp_step. unfold worker_get, wp at 1. wp_step.
  eapply wp_mono; [apply (wp_for_collect tick_panics _ (λ _ c', cinv c' ∧ ext c c') (λ _, True))|].
  - done.
  - intros id ids c1 [Hc1 He1]. eapply wp_mono; [by apply drive_pod_any|]. intros ops c2 ?.
    split; [done|]. by apply Forall_true.
  - intros ops c1 [[Hc1 He1] _]. eapply wp_weaken; [by apply drive_ops_ok|by left].
Qed.

Lemma recv_loop_ok fuel now c :
  cinv c → 0 ≤ now ≤ TICK_MAX → (io_pending (io c) < fuel)%nat →
  wp P (recv_loop fuel now) (λ _ c', handled c c') c.
Proof.
  revert c. induction fuel as [|fuel IH]; intros c Hc Hnow Hf; [lia|].
  cbn [recv_loop]. wp_step. unfold wp at 1, recv.
  pose proof (io_recv_law (io c) (proj2 Hc)) as L.
  destruct (io_recv (io c)) as [[[msg|] io']|e]; [| |done].
  - destruct L as (Hm & Hio' & Hlt & Hnow'). set (c1 := mkCtx _ io' _ _ _).
    assert (Hc1 : cinv c1) by (split; [apply Hc|done]).
    wp_step. eapply wp_mono; [by apply handle_message_ok|]. intros _ c2 (Hc2 & He2 & Hl2).
    eapply wp_mono; [apply IH; [done|done|]|].
    + pose proof (ext_pending _ _ _ He2) as Hp2. simpl in Hp2. lia.
    + intros _ c3 (Hc3 & He3 & Hl3). split; [done|]. split; [|simpl in Hl2; lia].
      transitivity c1; [|by etrans]. split; simpl; [lia|done|done].
  - destruct L as (Hio' & Hle & Hnow'). apply wp_ret. split; [split; [apply Hc|done]|].
    split; [by split|]. simpl. lia.
Qed.

(** A change of the registration and heartbeat fields. *)
Lemma winv_heartbeat n w b now :
  winv_upto n w → 0 ≤ now ≤ TICK_MAX → winv_upto n (set_last_heartbeat_tick now (set_registered b w)).
Proof. intros [] Hn. by constructor. Qed.

Lemma winv_beat n w now :
  winv_upto n w → 0 ≤ now ≤ TICK_MAX → winv_upto n (set_last_heartbeat_tick now w).
Proof. intros [] Hn. by constructor. Qed.

Lemma register_ok now c :
  cinv c → 0 ≤ now ≤ TICK_MAX → wp P (register now) (λ _ c', handled c c') c.
Proof.
  intros Hc Hnow. unfold register. wp_step. apply wp_worker_get. apply wp_when.
  - intros _. wp_step. eapply wp_mono; [by apply wp_send_handled|].
    intros _ c1 ([Hw1 Hio1] & He1 & Hl1). apply wp_worker_set.
    split; [split; [by apply winv_heartbeat|done]|]. split; [|done].
    transitivity c1; [done|by apply ext_io].
  - intros _. split_and!; [done|done|lia].
Qed.

Lemma heartbeat_ok now c :
  cinv c → 0 ≤ now ≤ TICK_MAX → wp P (heartbeat now) (λ _ c', cinv c' ∧ ext c c') c.
Proof.
  intros Hc Hnow. unfold heartbeat. wp_step. apply wp_worker_get.
  pose proof (wi_heartbeat _ _ (proj1 Hc)) as Hhb. unfold TICK_MAX in Hhb.
  wp_step. apply wp_add_overflow; [unfold HEARTBEAT_INTERVAL_TICKS; lia|]. apply wp_when; [|done].
  intros _. wp_step. eapply wp_mono; [by apply (wp_send_keeps _ c)|].
  intros _ c1 ([Hw1 Hio1] & He1). apply wp_worker_set.
  split; [split; [by apply winv_beat|done]|]. transitivity c1; [done|by apply ext_io].
Qed.

(** A tick receives, then drives. *)
Record ticked (c c' : C) : Prop := {
  tk_lives : lives (worker c) (worker c');
  tk_pending : (io_pending (io c') ≤ io_pending (io c))%nat;
  tk_now : io_now (io c') = io_now (io c)
}.

Lemma ticked_phases c c1 c' : ext_in Receiving c c1 → ext_in Driving c1 c' → ticked c c'.
Proof. intros [? ? Hr] [? ? Hd]. split; [intros k; exact (one_life_tick _ _ _ (Hr k) (Hd k))|lia|congruence]. Qed.

(** What surrounds the lifecycle driver in a tick. *)
Lemma tick_around Pn fuel c :
  (∀ e, P e → Pn e) →
  cinv c → 0 ≤ io_now (io c) ≤ TICK_MAX → (io_pending (io c) < fuel)%nat →
  (∀ c1, cinv c1 → drive_load (worker c1) ≤ drive_load (worker c) →
     wp Pn (drive_pods (io_now (io c))) (λ _ c', cinv c' ∧ ext c1 c') c1) →
  wp Pn (tick fuel) (λ _ c', cinv c' ∧ ticked c c') c.
Proof.
  intros HP Hc Hnow Hf Hd. unfold tick. wp_step. unfold wp at 1.
  wp_step. eapply wp_mono; [eapply wp_weaken; [by apply register_ok|done]|]. intros _ c1 (Hc1 & He1 & Hl1).
  wp_step. eapply wp_mono; [eapply wp_weaken; [apply recv_loop_ok; [done|done|]|done]|].
  { destruct He1. lia. }
  intros _ c2 (Hc2 & He2 & Hl2). wp_step.
  eapply wp_mono; [apply Hd; [done|lia]|]. intros _ c3 [Hc3 He3].
  eapply wp_mono; [eapply wp_weaken; [by apply heartbeat_ok|done]|]. intros _ c4 [Hc4 He4]. split; [done|].
  apply (ticked_phases _ c2); [etrans; [exact He1|exact He2]|etrans; [exact He3|exact He4]].
Qed.

Lemma tick_ok fuel c :
  cinv c → 0 ≤ io_now (io c) ≤ TICK_MAX → (io_pending (io c) < fuel)%nat →
  drive_load (worker c) ≤ Z.of_nat MAX_TERMINAL_TOMBSTONES →
  wp P (tick fuel) (λ _ c', cinv c' ∧ ticked c c') c.
Proof.
  intros Hc Hnow Hf Hl. apply tick_around; [done..|]. intros c1 ? ?. apply drive_pods_ok; [done|done|lia].
Qed.

Lemma tick_any fuel c :
  cinv c → 0 ≤ io_now (io c) ≤ TICK_MAX → (io_pending (io c) < fuel)%nat →
  wp tick_panics (tick fuel) (λ _ c', cinv c' ∧ ticked c c') c.
Proof.
  intros Hc Hnow Hf. apply tick_around; [by left|done..|]. intros c1 ? ?. by apply drive_pods_any.
Qed.

(** ** Without room *)

(** The ids of the tombstones. *)
Definition terminal_ids (w : Worker) : gset Z := dom (filter (λ kp, terminal_pod kp.2 = true) (pods w)).

Lemma elem_of_terminal_ids w k :
  k ∈ terminal_ids w ↔ ∃ p, pods w !! k = Some p ∧ is_terminal (state p) = true.
Proof.
  unfold terminal_ids. rewrite elem_of_dom. unfold is_Some.
  setoid_rewrite map_lookup_filter_Some. done.
Qed.

(** A tombstone stays as it is while pods are driven, or is forgotten. *)
Lemma tombstone_stays c c' k p q :
  ext c c' → pods (worker c) !! k = Some p → is_terminal (state p) = true →
  pods (worker c') !! k = Some q → is_terminal (state q) = true.
Proof.
  intros He Hp Ht Hq. pose proof (driving_life _ _ (ext_moves _ _ _ He k)) as Hl. unfold pstate in Hl.
  rewrite Hp, Hq in Hl. cbn in Hl. inversion Hl as [|s1 s2 s3 Hs]; subst; [congruence|].
  exfalso. revert Ht. by inversion Hs as [| | | |s Hst| | | |]; subst; destruct (state p).
Qed.

(** When a pod becomes the 1025th tombstone, another is forgotten. *)
Lemma tombstone_forgotten c c' a q :
  cinv c' → ext c c' → terminal_count (worker c) = Z.of_nat MAX_TERMINAL_TOMBSTONES →
  a ∉ terminal_ids (worker c) → pods (worker c') !! a = Some q → is_terminal (state q) = true →
  ∃ y, y ∈ terminal_ids (worker c) ∧ pods (worker c') !! y = None.
Proof.
  intros [Hw' _] He Hfull Ha Hq Ht. set (T := terminal_ids (worker c)). set (T' := terminal_ids (worker c')).
  assert (Hn : ¬ T ⊆ T').
  { intros Hsub. assert (Hs : {[a]} ∪ T ⊆ T').
    { apply union_least; [|done]. apply singleton_subseteq_l, elem_of_terminal_ids. by exists q. }
    apply subseteq_size in Hs. rewrite size_union, size_singleton in Hs by by apply disjoint_singleton_l.
    pose proof (wi_terminal _ _ Hw') as Hle. unfold terminal_count in Hle, Hfull.
    rewrite map_sum_count_dom in Hle, Hfull. unfold T, T', terminal_ids in Hs. lia. }
  destruct (set_choose_or_empty (T ∖ T')) as [[y [Hy Hy']%elem_of_difference]|He0].
  2:{ exfalso. apply Hn. intros y Hy. destruct (decide (y ∈ T')) as [|Hy']; [done|]. exfalso.
      by apply (not_elem_of_empty (C := gset Z) y), He0, elem_of_difference. }
  exists y. split; [done|].
  destruct (pods (worker c') !! y) as [q'|] eqn:Eq; [|done]. exfalso. apply Hy'.
  apply elem_of_terminal_ids in Hy as (p & Hp & Htp). apply elem_of_terminal_ids. exists q'. split; [done|].
  by eapply tombstone_stays.
Qed.

(** The driver does not get past an id that is gone. *)
Lemma drive_gone now ids y c :
  cinv c → 0 ≤ now ≤ TICK_MAX → y ∈ ids → pods (worker c) !! y = None →
  wp tick_panics (for_collect ids (drive_pod now)) (λ _ _, False) c.
Proof.
  intros Hc Hnow Hy Hnone. revert c Hc Hnone. induction ids as [|id ids IH]; intros c Hc Hnone.
  { by apply elem_of_nil in Hy. }
  cbn [for_collect]. wp_step. destruct (decide (id = y)) as [->|Hne].
  - unfold wp, drive_pod, index_pod, expect_pod, get_pod, worker_get, bind, expect. rewrite Hnone. by right.
  - eapply wp_mono; [by apply (drive_pod_any id now c c)|]. intros ops c1 [Hc1 He1]. wp_step.
    eapply wp_mono; [apply IH; [|done|]|done]; [apply elem_of_cons in Hy as [Hy|Hy]; [congruence|done]|].
    pose proof (driving_life _ _ (ext_moves _ _ _ He1 y)) as Hl. unfold pstate in Hl. rewrite Hnone in Hl.
    cbn in Hl. by destruct (pods (worker c1) !! y).
Qed.

(** C37: without room among the tombstones the lifecycle driver panics.  Let 1024
    tombstones be tracked when the turn of pod [a] comes, all with larger ids, and let
    driving [a] turn it into a tombstone (its container has exited, or its volume cannot be
    mounted).  Then one of the 1024 is forgotten, the snapshot of ids the driver goes
    through still names it, and [drive_pods] panics: at [self.pods] indexed with that id, or
    before that where sending does.  This on every worker that satisfies the invariant,
    with every runtime, host and schedule. *)
Theorem drive_panics_without_room (now a : Z) (before rest : list Z) (ops ops' : list LifecycleOp)
    (p q : TrackedPod) (c c0 c1 : C) :
  winv (worker c) → io_wf (io c) → 0 ≤ now ≤ TICK_MAX →
  sorted_pod_ids (worker c) = before ++ a :: rest →
  for_collect before (drive_pod now) c = Done (ops, c0) →
  terminal_count (worker c0) = Z.of_nat MAX_TERMINAL_TOMBSTONES →
  (∀ k, k ∈ terminal_ids (worker c0) → k ∈ rest) →
  pods (worker c0) !! a = Some p → is_terminal (state p) = false →
  drive_pod now a c0 = Done (ops', c1) → pods (worker c1) !! a = Some q → is_terminal (state q) = true →
  ∃ e, drive_pods now c = Panic e ∧ (e = NO_ENTRY ∨ io_panics e).
Proof.
  intros Hw Hio Hnow Hids Eb Hfull Hrest Hp Hlive Ed Hq Ht.
  assert (Hc0 : cinv c0).
  { assert (Hwp : wp tick_panics (for_collect before (drive_pod now)) (λ _ c', cinv c') c).
    { eapply wp_mono; [apply (wp_for_collect _ _ (λ _ c', cinv c' ∧ ext c c') (λ _, True)); [by split|]|by intros ? ? [[]]].
      intros id ids c' [Hc' He']. eapply wp_mono; [by apply drive_pod_any|]. intros bs c2 ?. split; [done|by apply Forall_true]. }
    unfold wp in Hwp. by rewrite Eb in Hwp. }
  assert (Hd : cinv c1 ∧ ext c0 c1).
  { pose proof (drive_pod_any a now c0 c0 Hc0 (reflexivity _) Hnow) as Hwp. unfold wp in Hwp. by rewrite Ed in Hwp. }
  destruct Hd as [Hc1 He]. destruct (tombstone_forgotten c0 c1 a q Hc1 He Hfull) as (y & Hy & Hgone); [|done|done|].
  { intros (p' & Hp' & Ht')%elem_of_terminal_ids. congruence. }
  pose proof (drive_gone now rest y c1 Hc1 Hnow (Hrest y Hy) Hgone) as Hwp. unfold wp in Hwp.
  unfold drive_pods, bind, worker_get. rewrite Hids, for_collect_app, Eb. cbn [for_collect]. unfold bind. rewrite Ed.
  destruct (for_collect rest (drive_pod now) c1) as [[]|e]; [done|]. exists e. split; [done|]. by destruct Hwp; auto.
Qed.

(** C1: a tick of the worker is safe.  From a worker that satisfies the
    invariant, [tick] terminates, and it fails no assertion, [expect], [unwrap] or
    addition of its own: it can only fail where sending does, or, when there is no room
    for the tombstones this tick may add, at the one index of the lifecycle driver; this
    for every runtime, every host and every schedule of the lifecycle threads.  The
    invariant holds afterwards: allocated resources are exactly the sums over the live
    pods and within the node's capacity. *)
Theorem tick_safe (fuel : nat) (c : C) :
  winv (worker c) → io_wf (io c) → 0 ≤ io_now (io c) ≤ TICK_MAX → (io_pending (io c) < fuel)%nat →
  (∃ c', tick fuel c = Done (tt, c') ∧ winv (worker c') ∧ io_wf (io c')) ∨
  (∃ e, tick fuel c = Panic e ∧
     (io_panics e ∨ e = NO_ENTRY ∧ Z.of_nat MAX_TERMINAL_TOMBSTONES < drive_load (worker c))).
Proof.
  intros Hw Hio Hnow Hf.
  destruct (Z.le_gt_cases (drive_load (worker c)) (Z.of_nat MAX_TERMINAL_TOMBSTONES)) as [Hl|Hl].
  - destruct (proj1 (wp_run _ _ _ _) (tick_ok fuel c (conj Hw Hio) Hnow Hf Hl))
      as [([] & c' & E & [Hw' Hio'] & _)|(e & E & He)]; [left|right]; eauto 6.
  - destruct (proj1 (wp_run _ _ _ _) (tick_any fuel c (conj Hw Hio) Hnow Hf))
      as [([] & c' & E & [Hw' Hio'] & _)|(e & E & [He|He])]; [left|right|right]; eauto 7.
Qed.

(** The lifecycle is respected.  Whatever the control plane sends, the runtime answers and
    the threads' schedule, over a tick every slot lives one life at most: a pod runs only
    after it was pulled, created and started, is stopped only after stopping, leaves the
    table only from a terminal state, and is not replaced by another under its id. *)
Theorem tick_follows_lifecycle (fuel : nat) (c c' : C) :
  winv (worker c) → io_wf (io c) → 0 ≤ io_now (io c) ≤ TICK_MAX → (io_pending (io c) < fuel)%nat →
  tick fuel c = Done (tt, c') → ∀ k, one_life (pstate (worker c) k) (pstate (worker c') k).
Proof.
  intros Hw Hio Hnow Hf Et.
  pose proof (tick_any fuel c (conj Hw Hio) Hnow Hf) as Hwp. unfold wp in Hwp. rewrite Et in Hwp.
  apply Hwp.
Qed.

Lemma winv_new (h : H) name gpu gpus cpu memory concurrency :
  0 ≤ gpus < U8_MAX → 0 ≤ cpu < U32_MAX → 0 ≤ memory < U32_MAX →
  winv (new_with_lifecycle_concurrency h name gpu gpus cpu memory concurrency).
Proof.
  intros Hg Hc Hm.
  constructor; unfold new_with_lifecycle_concurrency, new; simpl; try done; rewrite ?map_sum_empty; try lia.
  - rewrite map_size_empty. lia.
  - int_lia.
Qed.

(** The worker's life: created, ticked, disconnected, while the world around it
    (its [Io], the runtime, the host, the scheduler) changes at will. *)
Inductive reachable : C → Prop :=
| reach_new c h name gpu gpus cpu memory concurrency :
    0 ≤ gpus < U8_MAX → 0 ≤ cpu < U32_MAX → 0 ≤ memory < U32_MAX → io_wf (io c) →
    worker c = new_with_lifecycle_concurrency (h : H) name gpu gpus cpu memory concurrency →
    reachable c
| reach_world c c' : reachable c → worker c' = worker c → io_wf (io c') → reachable c'
| reach_lost c : reachable c → reachable (with_worker on_connection_lost c)
| reach_tick fuel c c' :
    reachable c → 0 ≤ io_now (io c) ≤ TICK_MAX → (io_pending (io c) < fuel)%nat →
    tick fuel c = Done (tt, c') → reachable c'.

Lemma reachable_cinv c : reachable c → cinv c.
Proof.
  induction 1 as [c h name gpu gpus cpu memory n Hg Hc Hm Hio Hw|c c' _ [Hw _] E Hio|c _ [Hw Hio]
    |fuel c c' _ Hc Hnow Hf Et].
  - split; [rewrite Hw; by apply winv_new|done].
  - split; [by rewrite E|done].
  - split; [|done]. destruct Hw. by constructor.
  - pose proof (tick_any fuel c Hc Hnow Hf) as Hwp. unfold wp in Hwp. rewrite Et in Hwp. apply Hwp.
Qed.

(** What a tombstone keeps. *)
Definition scrubbed (p : TrackedPod) : Prop :=
  handle p = None ∧ entrypoint p = ""%string ∧ env_vars p = [] ∧ juicefs_path p = ""%string ∧
  image_pull_auth p = None.

Lemma pod_wf_scrubbed k p : pod_wf k p → is_terminal (state p) = true → scrubbed p.
Proof.
  intros Hwf Ht. pose proof (pw_scrub _ _ Hwf Ht) as Hs. pose proof (pw_handle _ _ Hwf) as Hh.
  unfold scrubbed. rewrite <-Hs. simpl. split_and!; try done. by destruct (state p).
Qed.

(** C2: in every reachable state the node is never over-committed and its tables
    are bounded: the allocated GPUs, CPU and memory are exactly what the live pods
    asked for and at most the node's capacity; at most 4096 pods and 1024 tombstones
    are tracked; a tombstone owns no runtime handle and keeps no entrypoint,
    environment, volume path or registry credential. *)
Theorem reachable_accounting (c : C) :
  reachable c →
  let w := worker c in
  (gpu_allocated w = map_sum (live gpu_count) (pods w) ∧ gpu_allocated w ≤ gpu_total w) ∧
  (cpu_allocated_millicores w = map_sum (live cpu_millicores) (pods w) ∧
     cpu_allocated_millicores w ≤ cpu_total w) ∧
  (memory_allocated_megabytes w = map_sum (live memory_megabytes) (pods w) ∧
     memory_allocated_megabytes w ≤ memory_total w) ∧
  (size (pods w) ≤ MAX_TRACKED_PODS)%nat ∧ terminal_count w ≤ Z.of_nat MAX_TERMINAL_TOMBSTONES ∧
  (∀ k p, pods w !! k = Some p → is_terminal (state p) = true → scrubbed p).
Proof.
  intros [Hw _]%reachable_cinv. cbv zeta.
  split_and!; try apply Hw. intros k p Hp. eapply pod_wf_scrubbed, (wi_pods _ _ Hw k p Hp).
Qed.

End safety.
