(* ===== verification/WorkerLiveness.v ===== *)
(** * Pods get to run

    With a runtime that does not fail and no new commands, a pod the worker has accepted
    is pulled, created and started in three ticks, whatever the other pods do meanwhile. *)

From S2P Require Import Prelude Types RustStr Traits Volumes Secrets Protocol Worker Keeps WorkerInv WorkerThreads WorkerSafety.

(** ** Work on one pod leaves the others alone *)

(** The pod a message is for. *)
Definition message_pod (msg : ControlMessage) : Z :=
  match msg with
  | StartPod cmd => sp_pod_id cmd
  | StopPod cmd => st_pod_id cmd
  | ProbePod cmd => pp_pod_id cmd
  | RunRequest _ => 0
  end.

Section spared.
  Context {IO RT H : Type} `{!Io IO} `{!Host H} `{!Runtime RT H}.
  Abbreviation C := (@Ctx IO RT H).
  Context (D : gset Z) (id : Z) (p : TrackedPod).

(** Every pod is filed under its own id, and under no other id than those of [D]. *)
Definition filed (k : Z) (q : TrackedPod) : Prop := pod_id q = k ∧ k ∈ D.

(** Pod [id] is [p]. *)
Definition holds (c : C) : Prop := map_Forall filed (pods (worker c)) ∧ pods (worker c) !! id = Some p.

(** [m] leaves it so, and its result is in [R]. *)
Abbreviation spares := (keeps holds).
Abbreviation anything := (λ _, True).

Lemma holds_reads : reads_pods holds.
Proof. intros c c' Hc E _. unfold holds. by rewrite E. Qed.

Lemma spares_runtime {A} (f : RT → A * RT) : spares anything (runtime f).
Proof. intros c Hc. unfold wp, runtime. by destruct (f (rt c)). Qed.

(** What is looked up is named by its key. *)
Lemma spares_get_pod k : spares (λ o, ∀ q, o = Some q → filed k q) (get_pod k).
Proof. intros c [Hk Hp]. split; [done|]. intros q Hq. by apply (Hk k q). Qed.

Lemma spares_expect_pod k msg : spares (filed k) (expect_pod k msg).
Proof.
  eapply keeps_bind; [apply spares_get_pod|]. intros [q|] Hq; [|apply keeps_panic].
  apply keeps_ret. by apply Hq.
Qed.

Lemma spares_put_pod k q : k ≠ id → filed k q → spares anything (put_pod k q).
Proof.
  intros Hne Hq c [Hk Hp]. split; [|done]. split; simpl.
  - by apply map_Forall_insert_2.
  - by rewrite lookup_insert_ne.
Qed.

Lemma spares_update_pod k msg f :
  k ≠ id → (∀ q, pod_id (f q) = pod_id q) → spares anything (update_pod k msg f).
Proof.
  intros Hne Hf. eapply keeps_bind; [apply spares_expect_pod|]. intros q [? ?].
  apply spares_put_pod; [done|]. split; [by rewrite Hf|done].
Qed.

Lemma filed_via k q q' : filed k q → pod_id q' = pod_id q → filed k q'.
Proof. unfold filed. intros [? ?] ->. done. Qed.

Lemma spares_delete k : k ≠ id → spares anything (worker_set (λ w, set_pods (delete k (pods w)) w)).
Proof.
  intros Hne c [Hk Hp]. split; [|done]. split; simpl; [by apply map_Forall_delete|by rewrite lookup_delete_ne].
Qed.

(** One step through code that works on another pod. *)
Ltac spare1 :=
  keep1 holds_reads ltac:(idtac; lazymatch goal with
  | |- keeps _ _ (bind (get_pod _) _) => eapply keeps_bind; [apply spares_get_pod|intros ? ?]
  | |- keeps _ _ (bind (expect_pod _ _) _) => eapply keeps_bind; [apply spares_expect_pod|intros ? ?]
  | |- keeps _ _ (bind (index_pod _) _) => eapply keeps_bind; [apply spares_expect_pod|intros ? ?]
  | |- keeps _ _ (runtime _) => apply spares_runtime
  | |- keeps _ _ (put_pod _ _) => apply spares_put_pod; [assumption|eapply filed_via; [eauto|reflexivity]]
  | |- keeps _ _ (update_pod _ _ _) => apply spares_update_pod; [assumption|done]
  | |- _ => keep_cut
  end).
Ltac spare := cbv zeta; repeat (spare1; cbv zeta; cbn beta).

Hypothesis Hlive : is_terminal (state p) = false.

(** Pruning forgets tombstones only. *)
Lemma spares_prune limit : spares anything (prune_terminal_pods_to limit).
Proof using Hlive.
  unfold prune_terminal_pods_to. spare1. intros c Hc. wp_step. unfold worker_get at 1, wp at 1. cbv zeta.
  assert (Hnot : id ∉ (take (length (terminal_entries (worker c)) - limit) (terminal_entries (worker c))).*2).
  { intros ([t k] & Ek & Hin)%list_elem_of_fmap. simpl in Ek. subst k.
    apply elem_of_take in Hin as (i & Hi & _). apply list_elem_of_lookup_2, elem_of_terminal_entries in Hi
      as (k & q & Hq & Ht & _ & Eid). destruct Hc as [Hk Hp]. destruct (Hk k q Hq) as [Ek _].
    assert (k = id) as -> by congruence. congruence. }
  revert Hnot. generalize (take (length (terminal_entries (worker c)) - limit) (terminal_entries (worker c))).
  intros l Hnot. apply keeps_for_each; [|done]. intros [t k] Hx. cbn [snd].
  assert (k ≠ id). { intros ->. apply Hnot. by apply (list_elem_of_fmap_2 snd _ (t, id)). }
  spare1. spare1; [by apply spares_delete|spare].
Qed.

Section other.
  Context (k : Z) (Hne : k ≠ id).

Lemma spares_release : spares anything (release_pod_resources k).
Proof. unfold release_pod_resources. spare. Qed.

Lemma spares_finish_pod status : spares anything (finish_pod k status).
Proof using Hlive Hne.
  unfold finish_pod, scrub_terminal_pod_data. spare1; [apply spares_release|]. spare1; [spare|].
  spare1; [apply spares_prune|spare].
Qed.

Lemma spares_schedule_stop_retry now : spares anything (schedule_stop_retry k now).
Proof using Hne. unfold schedule_stop_retry. spare. Qed.

Lemma spares_fail_pod reason now : spares anything (fail_pod k reason now).
Proof using Hlive Hne.
  unfold fail_pod, defer_failure. spare. apply spares_finish_pod.
Qed.

Lemma spares_settle now exit_code : spares anything (unmount_and_settle k exit_code now).
Proof using Hlive Hne.
  unfold unmount_and_settle, settle_stop. spare; [apply spares_finish_pod|apply spares_schedule_stop_retry].
Qed.

Lemma spares_complete_pod_stop exit_code now : spares anything (complete_pod_stop k exit_code now).
Proof using Hlive Hne.
  unfold complete_pod_stop. spare; first [apply spares_settle|apply spares_schedule_stop_retry].
Qed.

Lemma keeps_retry now : spares anything (retry_lifecycle_pod k now).
Proof using Hne. unfold retry_lifecycle_pod. spare. Qed.

Lemma spares_recover_start now h e : spares anything (recover_start k now h e).
Proof using Hlive Hne.
  unfold recover_start. spare; first [apply keeps_retry|apply spares_fail_pod].
Qed.

Lemma spares_process_completion now c : op_pod_id (lc_op c) = k → spares anything (process_completion now c).
Proof using Hlive Hne.
  intros Hk. unfold process_completion, if_state, complete_pull, complete_create, complete_start, complete_stop.
  destruct c as [op r]. destruct op; simpl in *; subst; spare;
    first [apply spares_fail_pod|apply spares_recover_start|apply spares_complete_pod_stop|apply spares_schedule_stop_retry].
Qed.

Lemma spares_verify now h : spares anything (verify_running k now h).
Proof using Hlive Hne.
  unfold verify_running. spare; first [apply spares_complete_pod_stop|apply spares_fail_pod].
Qed.

Lemma spares_probe now : spares anything (probe_running k now).
Proof using Hlive Hne. unfold probe_running. spare; apply spares_fail_pod. Qed.

(** Driving another pod asks for operations on that one only. *)
Abbreviation of_k := (Forall (λ op, op_pod_id op = k)).

Lemma spares_drive_pod now : spares of_k (drive_pod now k).
Proof using Hlive Hne.
  unfold drive_pod, drive_creating, drive_running, drive_starting, drive_stopping. spare;
    first [apply spares_verify|apply spares_probe|apply spares_fail_pod|repeat case_match; by repeat constructor].
Qed.

End other.

(** What surrounds the driver in a tick does not touch the pods either. *)
Lemma spares_register now : spares anything (register now).
Proof. unfold register. spare. Qed.

Lemma spares_heartbeat now : spares anything (heartbeat now).
Proof. unfold heartbeat. spare. Qed.

(** Nor does a message for another pod. *)
Lemma spares_handle_message msg now :
  message_pod msg ∈ D → message_pod msg ≠ id → spares anything (handle_message msg now).
Proof using Hlive.
  intros HD Hne. destruct msg as [cmd|cmd|cmd|cmd]; simpl in *; unfold handle_start_pod, reject_start, admit_pod,
    handle_stop_pod, handle_probe_pod, handle_run_request; spare.
  - apply spares_prune.
  - done.
Qed.

End spared.

(** ** A pod that is served *)

Section advance.
  Context {IO RT H : Type} `{!Io IO} `{!Host H} `{!Runtime RT H} `{LAWS : !IoLaws IO}.
  Abbreviation C := (@Ctx IO RT H).

(** The runtime and the volumes do what pod [p] needs. *)
Record served (p : TrackedPod) : Prop := {
  sv_pull (r : RT) : ∃ r', pull_image (image p) (image_pull_auth p) r = (Ok tt, r');
  sv_create spec (r : RT) : ps_pod_id spec = pod_id p → ∃ h r', create_pod spec r = (Ok h, r');
  sv_start hd (r : RT) : ∃ r', start_pod hd r = (Ok tt, r');
  sv_mount (h : H) : juicefs_path p ≠ "" →
    ∃ v h', mount_juicefs (pod_id p) (juicefs_path p) h = (Ok v, h')
}.

(** Where the next tick takes a pod. *)
Definition next_state (s : TrackedPodState) : TrackedPodState :=
  match s with ImagePulling => Creating | Creating => Starting | Starting => Running | s => s end.

Definition on_the_way (s : TrackedPodState) : bool :=
  match s with ImagePulling | Creating | Starting => true | _ => false end.

(** The operation that takes it there, and its success. *)
Definition ready (p : TrackedPod) (op : LifecycleOp) : Prop :=
  match state p, op with
  | ImagePulling, OpPull _ _ img auth => img = image p ∧ auth = image_pull_auth p
  | Creating, OpCreate _ _ spec => ps_pod_id spec = pod_id p
  | Starting, OpStart _ _ _ => True
  | _, _ => False
  end.

Definition succeeded (r : LifecycleResult) : bool :=
  match r with ResPull (Ok _) | ResCreate (Ok _) | ResStart (Ok _) | ResStop (Ok _) => true | _ => false end.

(** What has changed of the pod when it has moved on. *)
Record moved_on (p q : TrackedPod) : Prop := {
  mo_state : state q = next_state (state p);
  mo_id : pod_id q = pod_id p;
  mo_image : image q = image p;
  mo_auth : image_pull_auth q = image_pull_auth p;
  mo_path : juicefs_path q = juicefs_path p;
  mo_retry : lifecycle_retry_after_tick q = 0 ∨ lifecycle_retry_after_tick q = lifecycle_retry_after_tick p
}.

(** *** The threads *)

Section threads.
  Context (p : TrackedPod) (Hsv : served p).

Definition promising (c : LifecycleCompletion) : Prop := ready p (lc_op c) → succeeded (lc_result c) = true.
Definition thread_promising (t : thread) : Prop :=
  match t with
  | Finished c => promising c
  | StopAttempted op _ _ => is_stop op = true
  | Spawned _ => True
  end.

Lemma promising_stop op r : is_stop op = true → promising (mkCompletion op r).
Proof. unfold promising, ready. destruct op; try done. by destruct (state p). Qed.

Lemma thread_step_promising t (r : RT) : thread_promising t → thread_promising (thread_step t r).1.
Proof using Hsv.
  destruct t as [op|op h e|c]; [intros _| |done]; simpl.
  - destruct op as [i d img auth|i d spec|i d hd|i [hd|] g []]; simpl.
    + destruct (pull_image img auth r) as [res r'] eqn:E. simpl. unfold promising, ready. simpl.
      destruct (state p); try done. intros [-> ->]. destruct (sv_pull _ Hsv r) as [? E']. rewrite E in E'. by simplify_eq.
    + destruct (create_pod spec r) as [res r'] eqn:E. simpl. unfold promising, ready. simpl.
      destruct (state p); try done. intros Hid. destruct (sv_create _ Hsv spec r Hid) as (? & ? & E'). rewrite E in E'. by simplify_eq.
    + destruct (start_pod hd r) as [res r'] eqn:E. simpl. unfold promising, ready. simpl.
      destruct (state p); try done. intros _. destruct (sv_start _ Hsv hd r) as [? E']. rewrite E in E'. by simplify_eq.
    + by destruct (stop_pod hd g r) as [res r'].
    + unfold check_stopped. destruct (pod_status hd r) as [st r']. simpl. by apply promising_stop.
    + by apply promising_stop.
    + by apply promising_stop.
  - intros Hs. unfold check_stopped. destruct (pod_status h r) as [st r']. simpl. by apply promising_stop.
Qed.

Lemma run_threads_promising fuel sched ts (r : RT) :
  Forall thread_promising ts → Forall thread_promising (run_threads fuel sched ts r).1.1.
Proof using Hsv.
  revert sched ts r. induction fuel as [|fuel IH]; intros sched ts r Hts; [done|]. cbn [run_threads].
  destruct (pick sched (runnable ts)) as [[i sched']|]; [|done].
  destruct (ts !! i) as [t|] eqn:Ht; [|done].
  pose proof (thread_step_promising t r (Forall_lookup_1 _ _ _ _ Hts Ht)) as Hstep.
  destruct (thread_step t r) as [t' r']. apply IH. by apply Forall_insert.
Qed.

Lemma join_all_promising ts cs : Forall thread_promising ts → join_all ts = Some cs → Forall promising cs.
Proof.
  revert cs. induction ts as [|[| |k] ts IH]; intros cs Hts Hj; simplify_eq/=; [done|].
  apply Forall_cons in Hts as [Hk Hts]. destruct (join_all ts) as [ks|]; [|done].
  simplify_eq/=. constructor; [done|]. by apply IH.
Qed.

Lemma run_chunk_promising chunk (c : C) cs c' : run_chunk chunk c = Done (cs, c') → Forall promising cs.
Proof using Hsv.
  unfold run_chunk. pose proof (run_threads_promising (2 * length chunk) (sched c) (Spawned <$> chunk) (rt c)) as Hrun.
  destruct (run_threads (2 * length chunk) (sched c) (Spawned <$> chunk) (rt c)) as [[ts r] s].
  destruct (join_all ts) as [ks|] eqn:Hj; [|done]. intros [= <- _]. eapply join_all_promising; [|done].
  apply Hrun, Forall_fmap, Forall_true. done.
Qed.

Lemma run_chunks_promising fuel ops (c : C) cs c' :
  run_chunks fuel ops c = Done (cs, c') → Forall promising cs.
Proof using Hsv.
  revert ops c cs c'. induction fuel as [|fuel IH]; intros [|op ops] c cs c'; cbn [run_chunks];
    [by intros [= <- _]|done|by intros [= <- _]|].
  unfold bind at 1, worker_get at 1, bind at 1.
  destruct (run_chunk _ c) as [[cs1 c1]|] eqn:E1; [|done]. unfold bind.
  destruct (run_chunks fuel _ c1) as [[cs2 c2]|] eqn:E2; [|done]. intros [= <- _].
  apply Forall_app. split; [by eapply run_chunk_promising|by eapply IH].
Qed.

End threads.

(** *** One tick *)

Section phases.
  Implicit Types c : C.
  Context (D : gset Z) (id : Z) (p : TrackedPod) (now : Z).
  Context (Hsv : served p) (Hid : pod_id p = id) (Hway : on_the_way (state p) = true).

Lemma way_live : is_terminal (state p) = false.
Proof using Hway. by destruct (state p). Qed.

Lemma next_differs q : moved_on p q → state q ≠ state p.
Proof using Hway. intros [-> _ _ _ _ _]. by destruct (state p). Qed.

Lemma moved_live q : moved_on p q → is_terminal (state q) = false.
Proof using Hway. intros [-> _ _ _ _ _]. by destruct (state p). Qed.

  Context (Hfit : handle_fits (state p) (handle p)) (Hdue : lifecycle_retry_after_tick p ≤ now).

(** First phase: the pod asks for its own operation. *)
Lemma drive_self :
  keeps (holds D id p) (λ ops, ∃ op, ops = [op] ∧ op_pod_id op = id ∧ ready p op) (drive_pod now id).
Proof using All.
  intros c Hc. unfold drive_pod, index_pod, expect_pod, get_pod, ready.
  wp_step. wp_step. unfold wp at 1, worker_get at 1. rewrite (proj2 Hc). simpl. unfold wp at 1, ret at 1.
  assert (Hgo : (now <? lifecycle_retry_after_tick p) = false) by lia.
  destruct (state p) eqn:Es; try done; simpl in Hfit.
  - apply wp_ret. split; [done|]. by eexists.
  - unfold drive_creating. rewrite Hgo. wp_step. unfold wp at 1, worker_get at 1.
    destruct (str_is_empty (juicefs_path p)) eqn:Ee; wp_step.
    + wp_step. wp_step. split; [done|]. by eexists.
    + wp_step. destruct (sv_mount p Hsv (host c)) as (v & h' & E).
      { intros E0. by rewrite E0 in Ee. }
      rewrite Hid in E. unfold wp at 1, on_host. rewrite E. wp_step. simpl. wp_step.
      split; [exact Hc|]. by eexists.
  - wp_step. split; [done|]. unfold drive_starting. rewrite Hgo. destruct Hfit as [h ->]. by eexists.
Qed.

Lemma drive_all ids :
  keeps (holds D id p) (λ ops, (∀ op, op ∈ ops → op_pod_id op = id → ready p op) ∧
                        (id ∈ ids → ∃ op, op ∈ ops ∧ op_pod_id op = id)) (for_collect ids (drive_pod now)).
Proof using All.
  induction ids as [|k ids IH]; cbn [for_collect].
  { apply keeps_ret. split; [by intros ? ?%not_elem_of_nil|by intros ?%not_elem_of_nil]. }
  eapply (keeps_bind _ (λ ops, (∀ op, op ∈ ops → op_pod_id op = id → ready p op) ∧
                        (id = k → ∃ op, op ∈ ops ∧ op_pod_id op = id))).
  - destruct (decide (k = id)) as [->|Hne].
    + eapply keeps_weaken; [apply drive_self|]. intros ops (op & -> & Ho & Hr). split.
      * by intros ? ->%list_elem_of_singleton.
      * intros _. exists op. by rewrite list_elem_of_singleton.
    + eapply keeps_weaken; [by apply spares_drive_pod, Hne; apply way_live|]. intros ops Hops.
      rewrite Forall_forall in Hops. split; [|congruence].
      intros op Hop E. by rewrite (Hops op Hop) in E.
  - intros ops [Ho1 Ho2]. eapply keeps_bind; [apply IH|]. intros more [Hm1 Hm2]. apply keeps_ret. split.
    + intros op [?|?]%elem_of_app; eauto.
    + intros [Hk|Hin]%elem_of_cons.
      * destruct (Ho2 Hk) as (op & ? & ?). exists op. split; [apply elem_of_app; by left|done].
      * destruct (Hm2 Hin) as (op & ? & ?). exists op. split; [apply elem_of_app; by right|done].
Qed.

(** Third phase: its completion moves it on, the others' leave it alone. *)
Lemma holds_update f msg (c : C) :
  pod_id (f p) = pod_id p → holds D id p c → wp any_panic (update_pod id msg f) (λ _ c', holds D id (f p) c') c.
Proof using Hid.
  intros Hf [Hk Hp]. unfold wp, update_pod, expect_pod, get_pod, worker_get, bind, expect. rewrite Hp. simpl. split; simpl.
  - apply map_Forall_insert_2; [|done]. destruct (Hk id p Hp) as [_ ?]. split; [congruence|done].
  - apply lookup_insert_eq.
Qed.

(** Whatever else the pod's handler does after the update leaves it as updated. *)
Lemma moves_then f msg (m : M C unit) c :
  moved_on p (f p) → handle_fits (state (f p)) (handle (f p)) → keeps (holds D id (f p)) (λ _, True) m →
  holds D id p c →
  wp any_panic (update_pod id msg f ;;; m)
    (λ _ c', ∃ q, moved_on p q ∧ handle_fits (state q) (handle q) ∧ holds D id q c') c.
Proof using Hid.
  intros Hm Hh Hs Hc. wp_step. eapply wp_mono; [apply holds_update; [apply Hm|done]|]. intros [] c1 Hc1.
  eapply wp_mono; [by apply Hs|]. intros [] c2 [Hc2 _]. by exists (f p).
Qed.

Lemma complete_self k (c : C) :
  completion_ok k → op_pod_id (lc_op k) = id → ready p (lc_op k) → succeeded (lc_result k) = true →
  holds D id p c →
  wp any_panic (process_completion now k)
    (λ _ c', ∃ q, moved_on p q ∧ handle_fits (state q) (handle q) ∧ holds D id q c') c.
Proof using Hid Hway Hfit.
  intros Hk Ho Hr Hs Hc. pose proof (proj2 Hc) as Hp. destruct k as [op res].
  unfold completion_ok, ready in *. simpl in *.
  destruct (state p) eqn:Es, op, res as [[]|[]|[]|]; try done; simpl in Ho, Hfit;
    unfold process_completion, if_state; simpl; rewrite Ho; wp_step; unfold get_pod, worker_get, wp at 1;
    rewrite Hp; simpl; rewrite Es, bool_decide_eq_true_2 by done; simpl.
  - apply moves_then; [split; simpl; rewrite ?Es; by auto|done|apply (keeps_send _ (holds_reads _ _ _))|done].
  - eapply wp_mono; [by apply holds_update|]. intros [] c1 Hc1.
    eexists; split; [|split; [|exact Hc1]]; [split; simpl; rewrite ?Es; by auto|by eexists].
  - apply moves_then; [split; simpl; rewrite ?Es; by auto|done|apply (keeps_send _ (holds_reads _ _ _))|done].
Qed.

(** A completion of the stage the pod has left is skipped. *)
Lemma stale_completion q k : moved_on p q → ready p (lc_op k) → op_pod_id (lc_op k) = id →
  keeps (holds D id q) (λ _, True) (process_completion now k).
Proof using Hway.
  clear Hfit. intros Hm Hr Ho c [Hf Hq]. pose proof (next_differs q Hm) as Hne.
  destruct k as [op res]. unfold ready, process_completion, if_state in *. simpl in *.
  destruct (state p) eqn:Es, op; try done; simpl in Ho; rewrite Ho; wp_step; unfold get_pod, worker_get, wp at 1;
    rewrite Hq; simpl; rewrite bool_decide_eq_false_2 by congruence; exact (conj (conj Hf Hq) I).
Qed.

Definition fair (k : LifecycleCompletion) : Prop :=
  completion_ok k ∧ (op_pod_id (lc_op k) = id → ready p (lc_op k) ∧ succeeded (lc_result k) = true).

Lemma rest_spares q ks : moved_on p q → Forall fair ks →
  keeps (holds D id q) (λ _, True) (for_each ks (process_completion now)).
Proof using Hway.
  intros Hm Hks. apply keeps_for_each. intros k Hk. rewrite Forall_forall in Hks.
  destruct (Hks k Hk) as [_ Hr]. destruct (decide (op_pod_id (lc_op k) = id)) as [E|Hne].
  - by apply stale_completion; [|apply Hr|].
  - eapply spares_process_completion; [by apply moved_live|exact Hne|done].
Qed.

Lemma completions_move_on ks (c : C) :
  Forall fair ks → (∃ k, k ∈ ks ∧ op_pod_id (lc_op k) = id) → holds D id p c →
  wp any_panic (for_each ks (process_completion now))
    (λ _ c', ∃ q, moved_on p q ∧ handle_fits (state q) (handle q) ∧ holds D id q c') c.
Proof using Hid Hway Hfit.
  intros Hks Hex. revert c. induction ks as [|k ks IH]; intros c Hc.
  { destruct Hex as (? & []%not_elem_of_nil & _). }
  apply Forall_cons in Hks as [[Hok Hk] Hks]. cbn [for_each]. wp_step.
  destruct (decide (op_pod_id (lc_op k) = id)) as [E|Hne].
  - destruct (Hk E) as [Hr Hs]. eapply wp_mono; [by apply complete_self|]. intros [] c1 (q & Hm & Hh & Hq).
    eapply wp_mono; [by eapply rest_spares|]. intros [] c2 [Hc2 _]. by exists q.
  - eapply wp_mono; [eapply (spares_process_completion D id p way_live); [exact Hne|done|done]|].
    intros [] c1 [Hc1 _]. apply IH; [done| |done]. destruct Hex as (k' & [->|Hin]%elem_of_cons & Hk'); [done|eauto].
Qed.

Lemma drive_pods_moves_on (c : C) :
  holds D id p c → 
  wp any_panic (drive_pods now)
    (λ _ c', ∃ q, moved_on p q ∧ handle_fits (state q) (handle q) ∧ holds D id q c') c.
Proof using All.
  intros Hc. unfold drive_pods. wp_step. unfold wp at 1, worker_get at 1. wp_step.
  eapply wp_mono; [by apply (drive_all (sorted_pod_ids (worker c)))|]. intros ops c1 (Hc1 & Hready & Hex).
  wp_step. destruct (run_chunks_ok (length (sort_ops ops)) (sort_ops ops) c1) as (ks & c2 & Er & Hops & Hok & Hs);
    [done|]. pose proof (run_chunks_promising p Hsv _ _ _ _ _ Er) as Hpr.
  unfold wp at 1. rewrite Er. apply completions_move_on.
  - apply Forall_forall. intros k Hk. rewrite Forall_forall in Hok, Hpr. split; [by apply Hok|]. intros E.
    assert (Hr : ready p (lc_op k)); [|by split; [|apply Hpr]]. apply Hready; [|done].
    apply (elem_of_sort_by (λ a b, lex_leb (op_key a) (op_key b))). unfold sort_ops in Hops. rewrite <-Hops.
    by apply list_elem_of_fmap_2.
  - destruct Hex as (op & Hop & E).
    { unfold sorted_pod_ids. rewrite elem_of_sort_by, elem_of_keys, (proj2 Hc). by eexists. }
    apply (elem_of_sort_by (λ a b, lex_leb (op_key a) (op_key b))) in Hop. unfold sort_ops in Hops.
    rewrite <-Hops in Hop. apply list_elem_of_fmap in Hop as (k & -> & Hk). by exists k.
  - destruct Hs as [Hw _ _]. unfold holds. by rewrite Hw.
Qed.

End phases.

(** A tick in which nothing is received. *)
Lemma recv_quiet fuel now (c : C) :
  io_wf (io c) → io_pending (io c) = 0%nat →
  wp any_panic (recv_loop fuel now) (λ _ c', worker c' = worker c) c.
Proof.
  intros Hio Hp. destruct fuel as [|fuel]; [done|]. cbn [recv_loop]. wp_step. unfold wp at 1, recv.
  pose proof (io_recv_law (io c) Hio) as L.
  destruct (io_recv (io c)) as [[[msg|] io']|e]; [lia|done|done].
Qed.

Lemma tick_moves_on D id p fuel (c : C) :
  cinv c → io_pending (io c) = 0%nat → 0 ≤ io_now (io c) ≤ TICK_MAX →
  served p → pod_id p = id → on_the_way (state p) = true → handle_fits (state p) (handle p) →
  lifecycle_retry_after_tick p ≤ io_now (io c) → holds D id p c →
  wp any_panic (tick fuel)
    (λ _ c', ∃ q, moved_on p q ∧ handle_fits (state q) (handle q) ∧ holds D id q c') c.
Proof.
  intros Hc Hq Hnow Hsv Hid Hway Hfit Hdue Hh. unfold tick. wp_step. unfold wp at 1. wp_step.
  eapply wp_mono; [eapply wp_and; [eapply wp_weaken; [by apply register_ok|done]|by apply spares_register]|].
  intros [] c1 [(Hc1 & He1 & _) [Hh1 _]]. wp_step.
  eapply wp_mono; [apply recv_quiet; [apply Hc1|]|]. { destruct He1. lia. }
  intros [] c2 Hw2. wp_step.
  eapply wp_mono; [eapply (drive_pods_moves_on D id p); [done..|]|]. { unfold holds. by rewrite Hw2. }
  intros [] c3 (q & Hm & Hf & Hh3). eapply wp_mono; [by apply spares_heartbeat|].
  intros [] c4 [Hh4 _]. by exists q.
Qed.

Lemma filed_load D (w : Worker) : map_Forall (filed D) (pods w) → drive_load w ≤ Z.of_nat (size D).
Proof.
  intros Hf. unfold drive_load. etrans; [apply map_sum_count_le_size|]. apply Nat2Z.inj_le.
  rewrite <-size_dom. apply subseteq_size. intros k (q & Hq)%elem_of_dom. by apply (Hf k q).
Qed.

Lemma served_moved p q : served p → moved_on p q → served q.
Proof. intros [] [_ E1 E2 E3 E4 _]. split; rewrite ?E1, ?E2, ?E3, ?E4; auto. Qed.

(** ** Liveness *)

(** Between two ticks the world may do anything but send a command; the clock is past [t]. *)
Record quiet (t : Z) (c c1 : C) : Prop := {
  qu_worker : worker c1 = worker c;
  qu_io : io_wf (io c1);
  qu_pending : io_pending (io c1) = 0%nat;
  qu_now : t ≤ io_now (io c1) ≤ TICK_MAX
}.

(** [n] ticks from [c] on, each of them returns (or the [Io] panics), and then [Q] holds. *)
Fixpoint after_ticks (t : Z) (n : nat) (Q : C → Prop) (c : C) : Prop :=
  match n with
  | O => Q c
  | S n => ∀ c1 fuel, quiet t c c1 → (0 < fuel)%nat → wp io_panics (tick fuel) (λ _, after_ticks t n Q) c1
  end.

(** Ticks a pod still needs to run. *)
Definition ticks_to_run (s : TrackedPodState) : nat :=
  match s with ImagePulling => 3 | Creating => 2 | Starting => 1 | _ => 0 end.

Definition runs (id : Z) (c : C) : Prop :=
  ∃ q, pods (worker c) !! id = Some q ∧ state q = Running ∧ is_Some (handle q).

Lemma after_ticks_run D t id p (c : C) :
  (size D ≤ MAX_TERMINAL_TOMBSTONES)%nat → 0 ≤ t → winv (worker c) → served p → pod_id p = id →
  (on_the_way (state p) = true ∨ state p = Running) → handle_fits (state p) (handle p) →
  lifecycle_retry_after_tick p ≤ t → holds D id p c →
  after_ticks t (ticks_to_run (state p)) (runs id) c.
Proof.
  intros HD Ht. remember (ticks_to_run (state p)) as n eqn:En. revert p c En.
  induction n as [|n IH]; intros p c En Hw Hsv Hid Hs Hfit Hdue Hh.
  - destruct Hs as [Hs|Hs]; [by destruct (state p)|]. exists p. rewrite Hs in Hfit.
    by split; [apply Hh|].
  - intros c1 fuel [Ew Hio Hq Hnow] Hfuel.
    assert (Hc1 : cinv c1) by (split; [by rewrite Ew|done]).
    assert (Hh1 : holds D id p c1) by (unfold holds; by rewrite Ew).
    assert (Hway : on_the_way (state p) = true) by (destruct Hs as [|Hs]; [done|by rewrite Hs in En]).
    eapply wp_mono; [apply wp_and; [apply (tick_ok fuel c1); [done|lia|lia|]|]|].
    + etrans; [by apply (filed_load D), Hh1|lia].
    + eapply (tick_moves_on D id p); try done; lia.
    + intros [] c2 [[[Hw2 _] _] (q & Hm & Hf & Hh2)]. apply (IH q); try done.
      * rewrite (mo_state _ _ Hm). by destruct (state p); simplify_eq/=.
      * by eapply served_moved.
      * by rewrite (mo_id _ _ Hm).
      * rewrite (mo_state _ _ Hm). destruct (state p); auto.
      * destruct (mo_retry _ _ Hm) as [->| ->]; lia.
Qed.

(** C5: a pod the worker has accepted gets to run.  Let at most 1024 pods be tracked, let the
    runtime pull, create and start this pod in every state, let its volume, if it has one, be
    mountable on every host, and let no new command arrive.  Then a pod that is being pulled,
    created or started runs three, two or one ticks later, ticks before its retry delay is
    over not counted: each of these ticks returns (unless the [Io] panics), whatever the
    threads' schedule, whatever the other pods do, fail or leave behind meanwhile, and
    whatever else changes in the host, the runtime and the clock between the ticks. *)
Theorem accepted_pod_runs (t id : Z) (p : TrackedPod) (c : C) :
  winv (worker c) → (size (pods (worker c)) ≤ MAX_TERMINAL_TOMBSTONES)%nat →
  pods (worker c) !! id = Some p → on_the_way (state p) = true → served p →
  0 ≤ t → lifecycle_retry_after_tick p ≤ t →
  after_ticks t (ticks_to_run (state p)) (runs id) c.
Proof.
  intros Hw Hsize Hp Hway Hsv Ht Hdue. pose proof (wi_pods _ _ Hw id p Hp) as Hwf.
  apply (after_ticks_run (dom (pods (worker c))) t id p);
    [by rewrite size_dom|done|done|done|by eapply pw_id|by left|by eapply pw_handle|done|].
  split; [|done]. intros k q Hq. split; [by apply (wi_pods _ _ Hw k q Hq)|]. by apply elem_of_dom_2 in Hq.
Qed.

End advance.
