(* ===== verification/Ownership.v ===== *)
(** * No container is forgotten

    [RuntimeLaws] is what the worker relies on when it gives containers up: a runtime owns
    containers, owns a new one only when it says so, and no longer owns one it says it
    removed.  Over such a runtime every container is always the handle of a tracked pod, so
    that a shutdown that answers [true] leaves nothing running. *)

From S2P Require Import Prelude Types RustStr Traits Volumes Secrets Protocol Worker Keeps WorkerInv.
From S2P Require Import WorkerThreads WorkerSafety WorkerLiveness.

(** ** One pod's container *)

Section account.
  Context {IO RT H : Type} `{!Io IO} `{!Host H} `{!Runtime RT H} `{!RuntimeLaws RT H}.
  Abbreviation C := (@Ctx IO RT H).
  (** The containers others account for, and the pod at work. *)
  Context (S : string → Prop) (j : Z).

Definition handle_of (w : Worker) : option PodHandle := pods w !! j ≫= handle.

(** Pod [j] holds [ho], and every container is its own or one of the others'. *)
Definition acct (ho : option PodHandle) (c : C) : Prop :=
  handle_of (worker c) = ho ∧ ∀ x, owns (rt c) x → S x ∨ ph_container_id <$> ho = Some x.

(** The same for whatever handle it holds. *)
Definition accounted (c : C) : Prop := ∃ ho, acct ho c.

Abbreviation anything := (λ _, True).

Lemma acct_reads ho : reads_pods (acct ho).
Proof. intros c c' [Hh Ho] Ep Er. split; [unfold handle_of; by rewrite Ep|by rewrite Er]. Qed.

Lemma keeps_accounted {A} (R : A → Prop) (m : M C A) : (∀ ho, keeps (acct ho) R m) → keeps accounted R m.
Proof.
  intros Hm c [ho Hc]. eapply wp_mono; [by apply Hm|]. intros a c' [? ?]. split; [by exists ho|done].
Qed.

Section rules.
  Context (ho : option PodHandle).

Lemma acct_get_pod : keeps (acct ho) (λ o, o ≫= handle = ho) (get_pod j).
Proof. intros c Hc. split; [done|apply Hc]. Qed.

Lemma acct_expect_pod msg : keeps (acct ho) (λ p, handle p = ho) (expect_pod j msg).
Proof.
  eapply keeps_bind; [apply acct_get_pod|]. intros [q|] Hq; [|apply keeps_panic]. by apply keeps_ret.
Qed.

Lemma acct_put_pod q : handle q = ho → keeps (acct ho) anything (put_pod j q).
Proof.
  intros Hq c [Hh Ho]. split; [|done]. split; [|done]. unfold handle_of. simpl. by rewrite lookup_insert_eq.
Qed.

Lemma acct_update_pod msg f : (∀ q, handle (f q) = handle q) → keeps (acct ho) anything (update_pod j msg f).
Proof.
  intros Hf. eapply keeps_bind; [apply acct_expect_pod|]. intros q Hq. apply acct_put_pod. by rewrite Hf.
Qed.

(** A call after which the runtime owns no more than before. *)
Lemma acct_runtime {A} (f : RT → A * RT) :
  (∀ r x, owns (f r).2 x → owns r x) → keeps (acct ho) anything (runtime f).
Proof.
  intros Hf c [Hh Ho]. unfold wp, runtime. specialize (Hf (rt c)). destruct (f (rt c)) as [a r'].
  split; [|done]. split; [done|]. simpl in *. auto.
Qed.

Ltac own1 :=
  keep1 (acct_reads ho) ltac:(idtac; lazymatch goal with
  | |- keeps _ _ (bind (get_pod _) _) => eapply keeps_bind; [apply acct_get_pod|intros ? ?]
  | |- keeps _ _ (bind (expect_pod _ _) _) => eapply keeps_bind; [apply acct_expect_pod|intros ? ?]
  | |- keeps _ _ (bind (index_pod _) _) => eapply keeps_bind; [apply acct_expect_pod|intros ? ?]
  | |- keeps _ _ (put_pod _ _) => apply acct_put_pod; simpl in *; try congruence
  | |- keeps _ _ (update_pod _ _ _) => apply acct_update_pod; [done]
  | |- _ => keep_cut
  end).
Ltac own := cbv zeta; repeat (own1; cbv zeta; cbn beta).

(** Pruning forgets only pods without a container. *)
Lemma acct_prune limit : keeps (acct ho) anything (prune_terminal_pods_to limit).
Proof.
  unfold prune_terminal_pods_to. own1. own1; [own|]. cbv zeta. apply keeps_for_each. intros [t k] _. cbn [snd].
  intros c [Hh Ho]. wp_step. apply any_expect_pod. intros p Hp. wp_step. apply any_worker_set.
  wp_step. apply any_assert. intros Hn%bool_decide_eq_true. wp_step. apply any_worker_get. apply any_assert.
  intros _. split; [|done]. split; [|done].
  unfold handle_of in *. simpl. destruct (decide (k = j)) as [->|Hne].
  - rewrite lookup_delete_eq. rewrite Hp in Hh. simpl in *. congruence.
  - by rewrite lookup_delete_ne.
Qed.

Lemma acct_finish_pod status : keeps (acct ho) anything (finish_pod j status).
Proof.
  unfold finish_pod, release_pod_resources, scrub_terminal_pod_data. own. apply acct_prune.
Qed.

Lemma acct_schedule_stop_retry now : keeps (acct ho) anything (schedule_stop_retry j now).
Proof. unfold schedule_stop_retry. own. Qed.

Lemma acct_fail_pod reason now : keeps (acct ho) anything (fail_pod j reason now).
Proof. unfold fail_pod, defer_failure. own. apply acct_finish_pod. Qed.

Lemma acct_settle now exit_code : keeps (acct ho) anything (unmount_and_settle j exit_code now).
Proof.
  unfold unmount_and_settle, settle_stop. own; [apply acct_finish_pod|apply acct_schedule_stop_retry].
Qed.

Lemma acct_retry now : keeps (acct ho) anything (retry_lifecycle_pod j now).
Proof. unfold retry_lifecycle_pod. own. Qed.

Lemma acct_probe now : keeps (acct ho) anything (probe_running j now).
Proof.
  unfold probe_running. own; first [apply acct_fail_pod|apply acct_runtime; intros; by eapply own_probe].
Qed.

Lemma acct_handle_message msg now : message_pod msg = j → keeps (acct ho) anything (handle_message msg now).
Proof.
  intros Hj. destruct msg as [cmd|cmd|cmd|cmd]; simpl in *; unfold handle_start_pod, reject_start, admit_pod,
    handle_stop_pod, handle_probe_pod, handle_run_request; rewrite ?Hj; own; try apply acct_prune.
  apply acct_runtime. intros. by eapply own_forward.
Qed.

(** Shutdown. *)
Lemma acct_runtime_until {A} (f : RT * H → A * (RT * H)) :
  (∀ s x, owns (f s).2.1 x → owns s.1 x) → keeps (acct ho) anything (runtime_until f).
Proof.
  intros Hf c [Hh Ho]. apply any_runtime_until. intros h c' Ew Er. split; [|done]. split; [by rewrite Ew|].
  intros x. rewrite Er. intros Hx%Hf. auto.
Qed.

Lemma acct_shutdown_stop attempts h grace deadline :
  keeps (acct ho) anything (shutdown_stop attempts h grace deadline).
Proof.
  induction attempts as [|attempts IH]; cbn [shutdown_stop]; [by apply keeps_ret|]. own; try exact IH;
    apply acct_runtime_until; intros; [by eapply own_stop_until|by eapply own_status_until].
Qed.

Lemma acct_shutdown_verify h grace failures deadline :
  keeps (acct ho) anything (shutdown_verify h grace failures deadline).
Proof.
  unfold shutdown_verify. own; [apply acct_shutdown_stop|].
  apply acct_runtime_until; intros; by eapply own_status_until.
Qed.

End rules.

(** *** Giving a container up, and getting one *)

(** The runtime owns nothing but what the others account for. *)
Definition let_go (c : C) : Prop := ∀ x, owns (rt c) x → S x.

Lemma let_go_update f msg c :
  (∀ q, handle (f q) = None) → let_go c → wp any_panic (update_pod j msg f) (λ _ c', acct None c') c.
Proof.
  intros Hf Hc. apply any_update_pod. intros p _. split; [|intros x Hx; left; by apply Hc].
  unfold handle_of. simpl. rewrite lookup_insert_eq. simpl. apply Hf.
Qed.

(** [remove_pod] of its own container. *)
Lemma acct_remove h c :
  acct (Some h) c →
  wp any_panic (runtime (remove_pod h)) (λ r c', acct (Some h) c' ∧ (r = Ok tt → let_go c')) c.
Proof.
  intros [Hh Ho]. apply any_runtime. intros c' Ew Er.
  assert (Hless : ∀ x, owns (rt c') x → owns (rt c) x ∧ ((remove_pod h (rt c)).1 = Ok tt → x ≠ ph_container_id h)).
  { intros x. rewrite Er. apply own_remove. }
  split; [split; [by rewrite Ew|]|].
  - intros x [? _]%Hless. auto.
  - intros Hr x [Hx Hne]%Hless. destruct (Ho x Hx) as [|[= <-]]; [done|]. by destruct (Hne Hr).
Qed.

Lemma accounted_complete_pod_stop exit_code now : keeps accounted anything (complete_pod_stop j exit_code now).
Proof.
  intros c [ho Hc]. unfold complete_pod_stop. wp_step. apply any_get_pod. wp_step. apply any_assert. intros _.
  wp_step. apply any_expect_pod. intros p Hp. pose proof (proj1 Hc) as Hh. unfold handle_of in Hh.
  rewrite Hp in Hh. simpl in Hh. rewrite Hh. destruct ho as [h|].
  - wp_step. eapply wp_mono; [by apply acct_remove|]. intros [[]|e] c1 [Hc1 Hr].
    + wp_step. eapply wp_mono; [apply let_go_update; [done|by apply Hr]|]. intros [] c2 Hc2.
      eapply wp_mono; [by apply (acct_settle None)|]. intros [] c3 [? _]. split; [by exists None|done].
    + eapply wp_mono; [by eapply acct_schedule_stop_retry|]. intros [] c2 [? _]. split; [by eexists|done].
  - eapply wp_mono; [by apply (acct_settle None)|]. intros [] c3 [? _]. split; [by exists None|done].
Qed.

Lemma accounted_verify now h : keeps accounted anything (verify_running j now h).
Proof.
  eapply keeps_bind; [apply keeps_accounted; intros ho; apply acct_runtime; intros; by eapply own_status|].
  intros [[]|e] _;
    try (eapply keeps_bind; [apply keeps_accounted; intros ho; first [apply acct_update_pod; done|apply acct_fail_pod]|];
         intros [] _); try by apply keeps_ret.
  eapply keeps_bind; [apply accounted_complete_pod_stop|]. intros [] _. by apply keeps_ret.
Qed.

Lemma accounted_drive_running now p : keeps accounted anything (drive_running j now p).
Proof.
  eapply keeps_bind; [apply keeps_expect|]. intros h _. eapply keeps_bind; [apply accounted_verify|]. intros b _.
  eapply keeps_bind; [apply keeps_when, keeps_accounted; intros ho; apply acct_probe|]. intros [] _.
  by apply keeps_ret.
Qed.

(** A start that failed. *)
Lemma accounted_recover_start now h e c :
  acct (Some h) c → wp any_panic (recover_start j now h e) (λ _ c', accounted c') c.
Proof.
  intros Hc. unfold recover_start. wp_step. eapply wp_mono; [by apply (acct_retry (Some h))|].
  intros [] c1 [Hc1 _].
  - wp_step. eapply wp_mono; [by apply acct_remove|]. intros [[]|e'] c2 [Hc2 Hr].
    + wp_step. apply any_get_pod. destruct (pods (worker c2) !! j) as [p|] eqn:Hp.
      * apply any_put_pod. exists None. split; [unfold handle_of; simpl; by rewrite lookup_insert_eq|].
        intros x Hx. left. by apply (Hr eq_refl).
      * apply wp_ret. by exists (Some h).
    + eapply wp_mono; [by apply (acct_fail_pod (Some h))|]. intros [] c3 [? _]. by exists (Some h).
  - eapply wp_mono; [by apply (acct_fail_pod (Some h))|]. intros [] c3 [? _]. by exists (Some h).
Qed.

(** A new container becomes its pod's. *)
Lemma accounted_complete_create now h c :
  (∀ x, owns (rt c) x → S x ∨ x = ph_container_id h) →
  wp any_panic (complete_create j now (ResCreate (Ok h))) (λ _ c', accounted c') c.
Proof.
  intros Ho. apply any_update_pod. intros p Hp. exists (Some h). split.
  - unfold handle_of. simpl. by rewrite lookup_insert_eq.
  - intros x [| ->]%Ho; [by left|by right].
Qed.

(** Shutdown unties a pod that holds no container. *)
Lemma acct_shutdown_settle deadline exit_code was_terminal :
  keeps (acct None) anything (shutdown_settle j deadline exit_code was_terminal).
Proof.
  unfold shutdown_settle. eapply keeps_bind; [apply (keeps_on_host _ (acct_reads None))|]. intros [[]|e] _.
  - eapply keeps_bind; [apply keeps_worker_get|]. intros reason _.
    eapply keeps_bind; [by apply (keeps_worker_set _ (acct_reads None))|]. intros [] _.
    eapply (keeps_bind _ anything).
    + destruct was_terminal; [by eapply keeps_weaken; [apply keeps_assert|]|].
      eapply (keeps_bind _ anything); [|intros [] _; apply (keeps_send _ (acct_reads None))].
      unfold release_pod_resources. eapply keeps_bind; [apply acct_get_pod|].
      intros [p|] _; [by apply (keeps_worker_set _ (acct_reads None))|by apply keeps_ret].
    + intros [] _ c [Hh Ho]. split; [|done]. split; [|done]. unfold handle_of. simpl. by rewrite lookup_delete_eq.
  - by apply acct_update_pod.
Qed.

Lemma acct_remove_until h deadline c :
  acct (Some h) c →
  wp any_panic (runtime_until (remove_pod_until h deadline))
    (λ r c', acct (Some h) c' ∧ (r = Ok tt → let_go c')) c.
Proof.
  intros [Hh Ho]. apply any_runtime_until. intros hst c' Ew Er.
  assert (Hless : ∀ x, owns (rt c') x → owns (rt c) x ∧
    ((remove_pod_until h deadline (rt c, hst)).1 = Ok tt → x ≠ ph_container_id h)).
  { intros x. rewrite Er. apply own_remove_until. }
  split; [split; [by rewrite Ew|]|].
  - intros x [? _]%Hless. auto.
  - intros Hr x [Hx Hne]%Hless. destruct (Ho x Hx) as [|[= <-]]; [done|]. by destruct (Hne Hr).
Qed.

Lemma accounted_shutdown_pod deadline p c :
  pods (worker c) !! j = Some p → accounted c →
  wp any_panic (shutdown_pod deadline j p) (λ _ c', accounted c') c.
Proof.
  intros Hp [ho Hc]. assert (Hho : handle p = ho) by (destruct Hc as [<- _]; unfold handle_of; by rewrite Hp).
  unfold shutdown_pod. wp_step.
  eapply (wp_mono _ _ (λ _ c', acct ho c' ∧ True)).
  { destruct (handle p) as [h|]; [|destruct (state p); by apply wp_ret].
    destruct (state p); first [by apply acct_shutdown_verify|by apply wp_ret]. }
  intros v c1 [Hc1 _].
  assert (Hretain : wp any_panic (update_pod j "shutdown pod must remain tracked" retain) (λ _ c', accounted c') c1).
  { eapply wp_mono; [by apply (acct_update_pod ho)|]. intros ? ? [? _]. by exists ho. }
  destruct v as [exit_code|]; [|apply wp_when; [by intros _|intros _; by exists ho]].
  destruct (handle p) as [h|] eqn:Hh; subst ho.
  - wp_step. eapply wp_mono; [by apply acct_remove_until|]. intros [[]|e] c2 [Hc2 Hr].
    + wp_step. eapply wp_mono; [apply let_go_update; [done|by apply Hr]|]. intros [] c3 Hc3.
      eapply wp_mono; [by apply acct_shutdown_settle|]. intros ? ? [? _]. by exists None.
    + eapply wp_mono; [by apply (acct_update_pod (Some h))|]. intros ? ? [? _]. by exists (Some h).
  - eapply wp_mono; [by apply acct_shutdown_settle|]. intros ? ? [? _]. by exists None.
Qed.

End account.

(** ** Every container *)

Section orphans.
  Context {IO RT H : Type} `{!Io IO} `{!Host H} `{!Runtime RT H} `{LAWS : !IoLaws IO} `{!RuntimeLaws RT H}.
  Abbreviation C := (@Ctx IO RT H).
  Abbreviation anything := (λ _, True).

(** [x] is the container of a tracked pod, other than [j]. *)
Definition held_at (w : Worker) (i : Z) (x : string) : Prop :=
  ∃ p, pods w !! i = Some p ∧ ph_container_id <$> handle p = Some x.
Definition held (w : Worker) (x : string) : Prop := ∃ i, held_at w i x.
Definition held_elsewhere (j : Z) (w : Worker) (x : string) : Prop := ∃ i, i ≠ j ∧ held_at w i x.

(** Every container is held, or in [E]. *)
Definition covered (E : string → Prop) (c : C) : Prop := ∀ x, owns (rt c) x → held (worker c) x ∨ E x.

Definition no_orphans (c : C) : Prop := ∀ x, owns (rt c) x → held (worker c) x.

Lemma no_orphans_covered c : no_orphans c ↔ covered (λ _, False) c.
Proof. split; [by left; auto|]. intros Hc x Hx. by destruct (Hc x Hx). Qed.

Lemma no_orphans_reads : reads_pods no_orphans.
Proof. intros c c' Hc Ep Er x. rewrite Er. intros (i & p & Hp)%Hc. exists i, p. by rewrite Ep. Qed.

(** The live pods other than [j] are as they were. *)
Definition frames (j : Z) (c c' : C) : Prop :=
  ∀ i p, i ≠ j → pods (worker c) !! i = Some p → is_terminal (state p) = false →
    pods (worker c') !! i = Some p.

Lemma covered_acct E j c :
  covered E c → accounted (λ x, held_elsewhere j (worker c) x ∨ E x) j c.
Proof.
  intros Hc. eexists. split; [reflexivity|]. intros x [(i & p & Hp & Hx)|]%Hc; [|by auto].
  destruct (decide (i = j)) as [->|Hne].
  - right. unfold handle_of. by rewrite Hp.
  - left. left. exists i. split; [done|]. by exists p.
Qed.

Lemma acct_covered E j (c c' : C) :
  winv (worker c) → frames j c c' → accounted (λ x, held_elsewhere j (worker c) x ∨ E x) j c' → covered E c'.
Proof.
  intros Hw Hf [ho [Hh Ho]] x [[(i & Hne & p & Hp & Hx)|]|Hx]%Ho; [|by right|].
  - left. exists i, p. split; [|done]. apply (Hf i p); [done..|].
    pose proof (pw_handle _ _ (wi_pods _ _ Hw i p Hp)) as Hfit.
    destruct (state p); try done; simpl in Hfit; by rewrite Hfit in Hx.
  - left. exists j. unfold handle_of in Hh. destruct (pods (worker c') !! j) as [p|] eqn:Hp; simpl in Hh.
    + exists p. by rewrite Hp, Hh.
    + by rewrite <-Hh in Hx.
Qed.

(** Code that works on pod [j] leaves the other live pods as they are. *)
Lemma wp_frames {A} j (m : M C A) c :
  winv (worker c) →
  (∀ D i p, j ∈ D → j ≠ i → is_terminal (state p) = false → keeps (holds D i p) anything m) →
  wp any_panic m (λ _ c', frames j c c') c.
Proof.
  intros Hw Hm. unfold wp. destruct (m c) as [[a c']|e] eqn:E; [|done]. intros i p Hne Hp Hl.
  assert (Hh : holds ({[j]} ∪ dom (pods (worker c))) i p c).
  { split; [|done]. intros k q Hq. split; [by apply (wi_pods _ _ Hw k q Hq)|].
    apply elem_of_union_r. by apply elem_of_dom_2 in Hq. }
  assert (Hwp : wp any_panic m (λ _ c', holds ({[j]} ∪ dom (pods (worker c))) i p c') c).
  { eapply wp_mono; [apply (Hm _ i p) in Hh; [exact Hh|set_solver|done|done]|]. by intros ? ? [? _]. }
  unfold wp in Hwp. rewrite E in Hwp. apply Hwp.
Qed.

(** A handler of pod [j] that accounts for [j]'s container covers all of them. *)
Lemma wp_covered {A} E j (m : M C A) c :
  winv (worker c) →
  (∀ D i p, j ∈ D → j ≠ i → is_terminal (state p) = false → keeps (holds D i p) anything m) →
  (∀ S, accounted S j c → wp any_panic m (λ _ c', accounted S j c') c) →
  covered E c → wp any_panic m (λ _ c', covered E c' ∧ frames j c c') c.
Proof.
  intros Hw Hm Ha Hc. eapply wp_mono.
  - apply wp_and; [by apply (wp_frames j)|]. apply (Ha _ (covered_acct E j c Hc)).
  - intros a c' [Hf Hac]. split; [by eapply acct_covered|done].
Qed.

(** *** First phase *)

(** The pod of [op] is in the state that asked for it. *)
Definition asks (p : TrackedPod) (op : LifecycleOp) : Prop :=
  match op with
  | OpPull _ _ _ _ => state p = ImagePulling
  | OpCreate _ _ _ => state p = Creating
  | OpStart _ _ h => state p = Starting ∧ handle p = Some h
  | OpStop _ ho _ _ => state p = Stopping ∧ handle p = ho
  end.

Definition requested (c : C) (op : LifecycleOp) : Prop :=
  ∃ p, pods (worker c) !! op_pod_id op = Some p ∧ asks p op.

Lemma asks_live p op : asks p op → is_terminal (state p) = false.
Proof. destruct op; simpl; [intros ->|intros ->|intros [-> _]|intros [-> _]]; done. Qed.

Lemma requested_frames j c c' op : frames j c c' → op_pod_id op ≠ j → requested c op → requested c' op.
Proof. intros Hf Hne (p & Hp & Ha). exists p. split; [|done]. apply Hf; [done..|]. by eapply asks_live. Qed.

(** At most one operation, asked for by the pod. *)
Definition own_request (id : Z) (ops : list LifecycleOp) (c : C) : Prop :=
  ops = [] ∨ ∃ op, ops = [op] ∧ op_pod_id op = id ∧ requested c op.

Lemma drive_pod_requests now id (c : C) :
  wp any_panic (drive_pod now id) (λ ops c', own_request id ops c') c.
Proof.
  unfold drive_pod. wp_step. apply any_expect_pod. intros p Hp. destruct (state p) eqn:Es.
  - apply wp_ret. right. eexists. split_and!; [done|done|]. by exists p.
  - unfold drive_creating. destruct (now <? lifecycle_retry_after_tick p); [by apply wp_ret; left|].
    wp_step. apply any_worker_get. wp_step.
    apply (wp_mono _ _ (λ _ c', worker c' = worker c)).
    + destruct (str_is_empty (juicefs_path p)); [by apply wp_ret|].
      wp_step. apply any_on_host. intros vol c1 Ew _. by apply wp_ret.
    + intros [mounts|e] c1 Ew.
      * apply wp_ret. right. eexists. split_and!; [done|done|]. exists p. by rewrite Ew.
      * apply wp_any_bind. intros [] c2. apply wp_ret. by left.
  - apply wp_ret. unfold drive_starting. destruct (now <? lifecycle_retry_after_tick p); [by left|].
    destruct (handle p) as [h|] eqn:Eh; [|by left]. right. eexists. split_and!; [done|done|]. by exists p.
  - unfold drive_running. apply wp_any_bind. intros h c1. apply wp_any_bind. intros b c2.
    apply wp_any_bind. intros [] c3. apply wp_ret. by left.
  - apply wp_ret. unfold drive_stopping. destruct (now <? lifecycle_retry_after_tick p); [by left|].
    right. eexists. split_and!; [done|done|]. by exists p.
  - apply wp_ret. by left.
  - apply wp_ret. by left.
Qed.

Lemma drive_pod_accounted S now id : keeps (accounted (IO := IO) S id) anything (drive_pod now id).
Proof.
  eapply (keeps_bind _ anything).
  - apply keeps_accounted. intros ho. eapply keeps_weaken; [apply acct_expect_pod|done].
  - intros p _. destruct (state p); try by apply keeps_ret.
    + apply keeps_accounted. intros ho. unfold drive_creating.
      destruct (now <? lifecycle_retry_after_tick p); [by apply keeps_ret|].
      eapply keeps_bind; [apply keeps_worker_get|]. intros gpu _. eapply (keeps_bind _ anything).
      * destruct (str_is_empty (juicefs_path p)); [by apply keeps_ret|].
        eapply keeps_bind; [apply (keeps_on_host _ (acct_reads S id ho))|]. intros v _. by apply keeps_ret.
      * intros [m|e] _; [by apply keeps_ret|]. eapply keeps_bind; [apply acct_fail_pod|]. intros [] _. by apply keeps_ret.
    + apply accounted_drive_running.
Qed.

Lemma drive_pod_covered now id (c : C) :
  cinv c → 0 ≤ now ≤ TICK_MAX → no_orphans c →
  wp any_panic (drive_pod now id)
    (λ ops c', (cinv c' ∧ no_orphans c' ∧ frames id c c') ∧ own_request id ops c') c.
Proof.
  intros Hc Hnow Ho. apply wp_and; [|apply drive_pod_requests].
  eapply wp_mono; [apply wp_and|].
  - eapply wp_weaken; [by apply (drive_pod_any id now c)|done].
  - apply (wp_covered (λ _, False) id); [apply Hc| | |by apply no_orphans_covered].
    + intros D i p _ Hne Hl. eapply keeps_weaken; [by apply spares_drive_pod|done].
    + intros S. apply keeps_wp, drive_pod_accounted.
  - intros ops c' [[? _] [? ?]]. split_and!; [done|by apply no_orphans_covered|done].
Qed.

(** What [drive_pods] knows of the operations it has collected. *)
Record collected (ids : list Z) (ops : list LifecycleOp) (c : C) : Prop := {
  co_inv : cinv c;
  co_orphans : no_orphans c;
  co_requested op : op ∈ ops → requested c op;
  co_ids op : op ∈ ops → op_pod_id op ∈ ids;
  co_nodup : NoDup (op_pod_id <$> ops)
}.

(** Driving the other pods leaves a request as it is. *)
Lemma rest_requested now id ids ops (c : C) :
  winv (worker c) → id ∉ ids → own_request id ops c →
  wp any_panic (for_collect ids (drive_pod now)) (λ _ c', ∀ op, op ∈ ops → requested c' op) c.
Proof.
  intros Hw Hid [->|(op & -> & E & p & Hp & Ha)].
  { unfold wp. destruct (for_collect _ _ _) as [[]|]; [by intros ? ?%not_elem_of_nil|done]. }
  rewrite E in Hp. eapply (wp_mono _ _ (λ _ c', holds (dom (pods (worker c))) id p c' ∧ _)).
  - apply (keeps_for_collect _ ids _ (λ _, True)).
    + intros k Hk. eapply keeps_weaken; [apply spares_drive_pod; [by eapply asks_live|by intros ->]|].
      intros ops _. by apply Forall_true.
    + split; [|done]. intros k q Hq. split; [by apply (wi_pods _ _ Hw k q Hq)|]. by apply elem_of_dom_2 in Hq.
  - intros more c' [[_ Hp'] _] op' ->%list_elem_of_singleton. exists p. by rewrite E.
Qed.

Lemma drive_pods_collect now ids (c : C) :
  NoDup ids → cinv c → 0 ≤ now ≤ TICK_MAX → no_orphans c →
  wp any_panic (for_collect ids (drive_pod now)) (λ ops c', collected ids ops c') c.
Proof.
  intros Hnd Hc Hnow Ho. revert c Hc Ho. induction ids as [|id ids IH]; intros c Hc Ho; cbn [for_collect].
  { apply wp_ret. split; [done|done|by intros ? ?%not_elem_of_nil|by intros ? ?%not_elem_of_nil|constructor]. }
  apply NoDup_cons in Hnd as [Hid Hnd]. wp_step. eapply wp_mono; [by apply drive_pod_covered|].
  intros bs c1 [(Hc1 & Ho1 & Hf1) Hbs]. wp_step.
  eapply wp_mono; [apply wp_and; [by apply IH|apply (rest_requested now id ids bs c1); [apply Hc1|done|done]]|].
  intros more c2 [[Hc2 Ho2 Hr2 Hi2 Hn2] Hreq]. apply wp_ret. split; [done|done|..].
  - intros op [?|?]%elem_of_app; auto.
  - intros op [Hop|Hop]%elem_of_app; apply elem_of_cons; [|by right; auto].
    destruct Hbs as [->|(op' & -> & E & _)]; [by apply not_elem_of_nil in Hop|].
    apply list_elem_of_singleton in Hop as ->. by left.
  - rewrite fmap_app. destruct Hbs as [->|(op' & -> & E & _)]; [done|]. simpl. apply NoDup_cons.
    split; [|done]. intros (op & Eop & Hop)%list_elem_of_fmap. apply Hid. rewrite <-E, Eop. by apply Hi2.
Qed.

(** *** Second phase *)

Definition created (k : LifecycleCompletion) (x : string) : Prop :=
  ∃ h, lc_result k = ResCreate (Ok h) ∧ ph_container_id h = x.

Definition thread_created (t : thread) (x : string) : Prop :=
  match t with Finished k => created k x | _ => False end.

(** The container an operation starts. *)
Definition starts (op : LifecycleOp) (x : string) : Prop :=
  match op with OpStart _ _ h => x = ph_container_id h | _ => False end.

Lemma check_stopped_owns op h e (r : RT) x : owns (check_stopped op h e r).2 x → owns r x.
Proof. unfold check_stopped. pose proof (own_status h r x). by destruct (pod_status h r). Qed.

Lemma thread_step_owns t (r : RT) x :
  owns (thread_step t r).2 x → owns r x ∨ thread_created (thread_step t r).1 x ∨ starts (thread_op t) x.
Proof.
  destruct t as [op|op h e|k]; [|by intros ?%check_stopped_owns; left|by left].
  destruct op as [i d img auth|i d spec|i d h|i [h|] g []]; simpl; try by left.
  - pose proof (own_pull img auth r x). destruct (pull_image img auth r). simpl. auto.
  - pose proof (own_create spec r x) as Hx. destruct (create_pod spec r) as [[h|e] r']; simpl in *.
    + intros [|(h' & [= <-] & <-)]%Hx; [by left|]. right. left. by exists h.
    + intros [|(h' & ? & _)]%Hx; [by left|done].
  - pose proof (own_start h r x) as Hx. destruct (start_pod h r). simpl in *. tauto.
  - pose proof (own_stop h g r x). destruct (stop_pod h g r). simpl in *. auto.
  - intros ?%check_stopped_owns. by left.
Qed.

Lemma thread_step_created t (r : RT) x : thread_created t x → thread_created (thread_step t r).1 x.
Proof. by destruct t. Qed.

Lemma thread_step_op t (r : RT) : thread_op (thread_step t r).1 = thread_op t.
Proof.
  destruct t as [op|op h e|k]; [|by simpl; unfold check_stopped; destruct (pod_status h r)|done].
  destruct op as [i d img auth|i d spec|i d h|i [h|] g []]; simpl; unfold check_stopped; repeat case_match; by simplify_eq.
Qed.

(** Containers are in [E] or new. *)
Definition threads_cover (E : string → Prop) (ts : list thread) (r : RT) : Prop :=
  Forall (λ t, ∀ x, starts (thread_op t) x → E x) ts ∧
  ∀ x, owns r x → E x ∨ ∃ i t, ts !! i = Some t ∧ thread_created t x.

Lemma run_threads_cover E fuel sched ts (r : RT) :
  threads_cover E ts r → let '(ts', r', _) := run_threads fuel sched ts r in threads_cover E ts' r'.
Proof.
  revert sched ts r. induction fuel as [|fuel IH]; intros sched ts r Hc; [done|]. cbn [run_threads].
  destruct (pick sched (runnable ts)) as [[i sched']|]; [|done].
  destruct (ts !! i) as [t|] eqn:Ht; [|done].
  pose proof (thread_step_owns t r) as Hown. pose proof (thread_step_created t r) as Hcr.
  pose proof (thread_step_op t r) as Hop. destruct (thread_step t r) as [t' r']. simpl in *. apply IH.
  destruct Hc as [Hs Ho]. pose proof (Forall_lookup_1 _ _ _ _ Hs Ht) as Hst. simpl in Hst.
  assert (Hlt : (i < length ts)%nat) by (by eapply lookup_lt_Some).
  split; [apply Forall_insert; [done|]; by rewrite Hop|].
  intros x [[?|(k & u & Hk & Hu)]%Ho|[Hnew|?%Hst]]%Hown; [by left| | |by left]; right.
  - destruct (decide (k = i)) as [->|Hne].
    + exists i, t'. rewrite list_lookup_insert_eq by done. simplify_eq. auto.
    + exists k, u. by rewrite list_lookup_insert_ne.
  - exists i, t'. by rewrite list_lookup_insert_eq.
Qed.

Lemma join_all_lookup ts ks i t x :
  join_all ts = Some ks → ts !! i = Some t → thread_created t x → ∃ k, k ∈ ks ∧ created k x.
Proof.
  revert ks i. induction ts as [|[| |k] ts IH]; intros ks i Hj Ht Hx; simplify_eq/=.
  destruct (join_all ts) as [ks'|]; simplify_eq/=. destruct i as [|i]; simplify_eq/=.
  - exists k. split; [by left|done].
  - destruct (IH ks' i) as (k' & ? & ?); [done..|]. exists k'. split; [by right|done].
Qed.

(** After the chunks the worker is as before, and what is new was just created. *)
Definition chunks_cover (E : string → Prop) (ks : list LifecycleCompletion) (c' : C) : Prop :=
  ∀ x, owns (rt c') x → E x ∨ ∃ k, k ∈ ks ∧ created k x.

Lemma run_chunk_cover E chunk (c c' : C) ks :
  (∀ op x, op ∈ chunk → starts op x → E x) → (∀ x, owns (rt c) x → E x) →
  run_chunk chunk c = Done (ks, c') → chunks_cover E ks c'.
Proof.
  intros Hs Ho. unfold run_chunk.
  pose proof (run_threads_cover E (2 * length chunk) (sched c) (Spawned <$> chunk) (rt c)) as Hrun.
  destruct (run_threads (2 * length chunk) (sched c) (Spawned <$> chunk) (rt c)) as [[ts r] s].
  destruct (join_all ts) as [ks'|] eqn:Hj; [|done]. intros [= <- <-]. destruct Hrun as [_ Hr].
  { split; [|by left; auto]. apply Forall_fmap, Forall_forall. intros op Hop x. by apply Hs. }
  intros x [?|(i & t & Ht & Hx)]%Hr; [by left|right]. by eapply join_all_lookup.
Qed.

Lemma run_chunks_cover E fuel ops (c c' : C) ks :
  (∀ op x, op ∈ ops → starts op x → E x) → (∀ x, owns (rt c) x → E x) →
  run_chunks fuel ops c = Done (ks, c') → chunks_cover E ks c'.
Proof.
  revert E ops c ks c'. induction fuel as [|fuel IH]; intros E [|op ops] c ks c' Hs Ho; cbn [run_chunks];
    [intros [= <- <-]; by left; auto|done|intros [= <- <-]; by left; auto|].
  unfold bind at 1, worker_get at 1, bind at 1.
  set (n := Z.to_nat _). destruct (run_chunk (take n (op :: ops)) c) as [[k1 c1]|] eqn:E1; [|done]. unfold bind.
  destruct (run_chunks fuel (drop n (op :: ops)) c1) as [[k2 c2]|] eqn:E2; [|done]. intros [= <- <-].
  assert (H1 : chunks_cover E k1 c1).
  { eapply run_chunk_cover; [|exact Ho|exact E1]. intros o x Ho1. apply Hs. rewrite <-(take_drop n (op :: ops)), elem_of_app. by left. }
  assert (H2 : chunks_cover (λ x, E x ∨ ∃ k, k ∈ k1 ∧ created k x) k2 c2).
  { eapply IH; [|exact H1|exact E2]. intros o x Ho2 Hx. left. eapply Hs; [|exact Hx].
    rewrite <-(take_drop n (op :: ops)), elem_of_app. by right. }
  intros x [[?|(k & ? & ?)]|(k & ? & ?)]%H2; [by left|right; exists k|right; exists k]; rewrite elem_of_app; auto.
Qed.

(** *** Third phase *)

(** Skipping a completion, or handling it, in the state it is for. *)
Lemma accounted_if_state S j s (m : M C unit) (c : C) :
  accounted S j c → wp any_panic m (λ _ c', accounted S j c') c →
  wp any_panic (if_state j s m) (λ _ c', accounted S j c') c.
Proof.
  intros Hc Hm. unfold if_state. wp_step. apply any_get_pod. apply wp_when; [by intros _|done].
Qed.

(** An update that keeps the handle, and a report. *)
Lemma accounted_report S j f msg status :
  (∀ q, handle (f q) = handle q) →
  keeps (accounted (IO := IO) S j) anything (update_pod j msg f ;;; send_status j status).
Proof.
  intros Hf. apply keeps_accounted. intros ho. eapply keeps_bind; [by apply acct_update_pod|].
  intros [] _. apply (keeps_send _ (acct_reads S j ho)).
Qed.

Lemma accounted_fail_pod S j reason now : keeps (accounted (IO := IO) S j) anything (fail_pod j reason now).
Proof. apply keeps_accounted. intros ho. apply acct_fail_pod. Qed.

Lemma completion_accounted S now k (c : C) :
  winv (worker c) → completion_ok k → requested c (lc_op k) →
  (∀ x, owns (rt c) x →
     S x ∨ ph_container_id <$> handle_of (op_pod_id (lc_op k)) (worker c) = Some x ∨ created k x) →
  wp any_panic (process_completion now k) (λ _ c', accounted S (op_pod_id (lc_op k)) c') c.
Proof.
  intros Hw Hok (p & Hp & Ha) Ho. destruct k as [op res]. unfold completion_ok in Hok. simpl in *.
  assert (Hc : (∀ h, res ≠ ResCreate (Ok h)) → accounted S (op_pod_id op) c).
  { intros Hne. eexists. split; [reflexivity|]. intros x [?|[?|(h & E & _)]]%Ho; [by left|by right|].
    by destruct (Hne h). }
  destruct op as [j d img auth|j d spec|j d h|j h g at_], res as [r|r|r|r]; try done; simpl in *;
    unfold process_completion; simpl.
  - apply accounted_if_state; [by apply Hc|]. destruct r as [[]|e]; simpl; apply keeps_wp; try by apply Hc.
    + by apply accounted_report.
    + apply accounted_fail_pod.
  - destruct r as [h|e].
    + unfold if_state. wp_step. apply any_get_pod. rewrite Hp. simpl. rewrite Ha, bool_decide_eq_true_2 by done.
      apply accounted_complete_create. intros x [?|[Hx|(h' & [= <-] & <-)]]%Ho; [by left| |by right].
      pose proof (pw_handle _ _ (wi_pods _ _ Hw j p Hp)) as Hfit. rewrite Ha in Hfit. simpl in Hfit.
      unfold handle_of in Hx. rewrite Hp in Hx. simpl in Hx. by rewrite Hfit in Hx.
    + apply accounted_if_state; [by apply Hc|]. apply keeps_wp; [apply accounted_fail_pod|by apply Hc].
  - apply accounted_if_state; [by apply Hc|]. destruct r as [[]|e]; simpl.
    + apply keeps_wp; [by apply accounted_report|by apply Hc].
    + apply accounted_recover_start. destruct Ha as [_ Hh]. destruct Hc as (ho & Hho & Hown); [done|].
      assert (ho = Some h) as ->; [|done]. rewrite <-Hho. unfold handle_of. by rewrite Hp.
  - apply accounted_if_state; [by apply Hc|]. destruct r as [x|e]; simpl; apply keeps_wp; try by apply Hc.
    + apply accounted_complete_pod_stop.
    + apply keeps_accounted. intros ho. apply acct_schedule_stop_retry.
Qed.

(** The loop over the completions. *)
Record completing (ks : list LifecycleCompletion) (c : C) : Prop := {
  cp_inv : cinv c;
  cp_ok : Forall completion_ok ks;
  cp_requested k : k ∈ ks → requested c (lc_op k);
  cp_nodup : NoDup ((λ k, op_pod_id (lc_op k)) <$> ks);
  cp_covered : covered (λ x, ∃ k, k ∈ ks ∧ created k x) c
}.

Lemma process_completion_covered now k ks (c : C) :
  completing (k :: ks) c → wp any_panic (process_completion now k) (λ _ c', completing ks c') c.
Proof.
  intros [Hc Hok Hr Hn Hcov]. apply Forall_cons in Hok as [Hk Hks]. simpl in Hn. apply NoDup_cons in Hn as [Hnk Hn].
  set (j := op_pod_id (lc_op k)) in *.
  set (E := λ x, ∃ k, k ∈ ks ∧ created k x).
  eapply wp_mono; [apply wp_and; [eapply wp_weaken; [by apply process_completion_ok|done]|apply wp_and]|].
  - apply (wp_frames j); [apply Hc|]. intros D i p _ Hne Hl. by apply (spares_process_completion D i p Hl j Hne).
  - apply (completion_accounted (λ x, held_elsewhere j (worker c) x ∨ E x)); [apply Hc|done|apply Hr; by left|].
    intros x [(i & p & Hp & Hx)|(k' & [->|Hin]%elem_of_cons & Hcr)]%Hcov.
    + destruct (decide (i = j)) as [->|Hne].
      * right. left. unfold handle_of. fold j. by rewrite Hp.
      * left. left. exists i. split; [done|]. by exists p.
    + by right; right.
    + left. right. by exists k'.
  - intros [] c' [[Hc' _] [Hf Hac]]. split; [done|done| |done|].
    + intros k' Hk'. eapply requested_frames; [exact Hf| |apply Hr; by right].
      intros Ej. apply Hnk. rewrite <-Ej. by apply (list_elem_of_fmap_2 (λ k, op_pod_id (lc_op k))).
    + apply (acct_covered E j c c'); [apply Hc|done|done].
Qed.

Lemma drive_pods_covered now (c : C) :
  cinv c → 0 ≤ now ≤ TICK_MAX → no_orphans c →
  wp any_panic (drive_pods now) (λ _ c', cinv c' ∧ no_orphans c') c.
Proof.
  intros Hc Hnow Ho. unfold drive_pods. wp_step. apply any_worker_get. wp_step.
  eapply wp_mono; [apply drive_pods_collect; [apply NoDup_sort_by, NoDup_keys|done..]|].
  intros ops c1 [Hc1 Ho1 Hr1 _ Hn1]. wp_step. set (sorted := sort_ops ops).
  assert (Hperm : sorted ≡ₚ ops) by apply sort_by_perm.
  destruct (run_chunks_ok (length sorted) sorted c1) as (ks & c2 & Er & Hops & Hok & Hs); [done|].
  unfold wp at 1. rewrite Er. destruct Hs as [Hw2 Hio2 _].
  assert (Hreq : ∀ op, op ∈ sorted → requested c1 op) by (intros op Hop; apply Hr1; by rewrite <-Hperm).
  eapply wp_mono; [apply (wp_for_each _ _ completing)|].
  - split; [by eapply cinv_worker|done| | |].
    + intros k Hk. unfold requested. rewrite Hw2. apply Hreq. rewrite <-Hops. by apply list_elem_of_fmap_2.
    + rewrite (list_fmap_compose lc_op op_pod_id). rewrite Hops. by rewrite Hperm.
    + unfold covered. rewrite Hw2. eapply run_chunks_cover; [| |exact Er]; [|exact Ho1].
      intros op x (p & Hp & Ha)%Hreq Hx. exists (op_pod_id op), p. split; [done|].
      destruct op; try done. simpl in Hx, Ha. destruct Ha as [_ ->]. by rewrite Hx.
  - intros k ks' c3. apply process_completion_covered.
  - intros [] c3 [Hc3 _ _ _ Hcov]. split; [done|]. intros x [?|(k & []%not_elem_of_nil & _)]%Hcov. done.
Qed.

(** ** A tick *)

Lemma handle_message_covered msg now (c : C) :
  cinv c → no_orphans c → wp any_panic (handle_message msg now) (λ _ c', no_orphans c') c.
Proof.
  intros Hc Ho. eapply wp_mono; [apply (wp_covered (λ _, False) (message_pod msg))|].
  - apply Hc.
  - intros D i p HD Hne Hl. by apply spares_handle_message.
  - intros S. apply keeps_wp, keeps_accounted. intros ho. by apply acct_handle_message.
  - by apply no_orphans_covered.
  - intros [] c' [? _]. by apply no_orphans_covered.
Qed.

Lemma recv_loop_covered fuel now (c : C) :
  cinv c → 0 ≤ now ≤ TICK_MAX → no_orphans c →
  wp any_panic (recv_loop fuel now) (λ _ c', no_orphans c') c.
Proof.
  intros Hc Hnow. revert c Hc. induction fuel as [|fuel IH]; intros c Hc Ho; [done|].
  cbn [recv_loop]. wp_step. unfold wp at 1, recv.
  pose proof (io_recv_law (io c) (proj2 Hc)) as L.
  destruct (io_recv (io c)) as [[[msg|] io']|e]; [| |done].
  - destruct L as (Hm & Hio' & _). set (c1 := mkCtx _ io' _ _ _).
    assert (Hc1 : cinv c1) by (split; [apply Hc|done]).
    wp_step. eapply wp_mono; [apply wp_and|].
    + eapply wp_weaken; [by apply handle_message_ok|done].
    + by apply handle_message_covered.
    + intros [] c2 [(Hc2 & _) Ho2]. by apply IH.
  - by apply wp_ret.
Qed.

Lemma tick_covered fuel (c : C) :
  cinv c → 0 ≤ io_now (io c) ≤ TICK_MAX → (io_pending (io c) < fuel)%nat → no_orphans c →
  wp any_panic (tick fuel) (λ _ c', no_orphans c') c.
Proof.
  intros Hc Hnow Hf Ho. unfold tick. wp_step. unfold wp at 1. wp_step.
  eapply wp_mono; [apply wp_and; [eapply wp_weaken; [by apply register_ok|done]|]|].
  { apply (keeps_wp no_orphans); [|done]. unfold register. eapply keeps_bind; [apply keeps_worker_get|]. intros w _.
    apply keeps_when. eapply keeps_bind; [apply (keeps_send _ no_orphans_reads)|]. intros [] _.
    by apply (keeps_worker_set _ no_orphans_reads). }
  intros [] c1 [(Hc1 & He1 & _) Ho1]. wp_step.
  eapply wp_mono; [apply wp_and; [eapply wp_weaken; [apply recv_loop_ok; [done|done|]|done]|by apply recv_loop_covered]|].
  { destruct He1. lia. }
  intros [] c2 [(Hc2 & _) Ho2]. wp_step.
  eapply wp_mono; [by apply drive_pods_covered|]. intros [] c3 [_ Ho3].
  apply (keeps_wp no_orphans); [|done]. unfold heartbeat. eapply keeps_bind; [apply keeps_worker_get|]. intros w _.
  eapply keeps_bind; [apply keeps_add|]. intros due _.
  apply keeps_when. eapply keeps_bind; [apply (keeps_send _ no_orphans_reads)|]. intros [] _.
  by apply (keeps_worker_set _ no_orphans_reads).
Qed.

End orphans.

(** ** Shutdown *)

(** It works on one pod at a time and forgets no other. *)
Section apart.
  Context {IO RT H : Type} `{!Io IO} `{!Host H} `{!Runtime RT H}.
  Abbreviation C := (@Ctx IO RT H).
  Context (m0 : gmap Z TrackedPod) (j : Z).
  Abbreviation anything := (λ _, True).

Definition apart (c : C) : Prop := ∀ i, i ≠ j → pods (worker c) !! i = m0 !! i.

Lemma apart_reads : reads_pods apart.
Proof. intros c c' Hc Ep _ i Hi. rewrite Ep. by apply Hc. Qed.

Lemma apart_runtime_until {A} (f : RT * H → A * (RT * H)) : keeps apart anything (runtime_until f).
Proof. intros c Hc. apply any_runtime_until. intros h c' Ew _. split; [|done]. intros i Hi. rewrite Ew. by apply Hc. Qed.

Lemma apart_update_pod msg f : keeps apart anything (update_pod j msg f).
Proof.
  intros c Hc. apply any_update_pod. intros p _. split; [|done]. intros i Hi. simpl.
  rewrite lookup_insert_ne by done. by apply Hc.
Qed.

Lemma apart_delete : keeps apart anything (worker_set (λ w, set_pods (delete j (pods w)) w)).
Proof.
  intros c Hc. split; [|done]. intros i Hi. simpl. rewrite lookup_delete_ne by done. by apply Hc.
Qed.

Ltac part1 :=
  lazymatch goal with
  | |- keeps _ _ (worker_set (λ w, set_pods _ w)) => apply apart_delete
  | |- _ => keep1 apart_reads ltac:(idtac; lazymatch goal with
    | |- keeps _ _ (runtime_until _) => apply apart_runtime_until
    | |- keeps _ _ (update_pod _ _ _) => apply apart_update_pod
    | |- keeps _ _ (get_pod _) => apply keeps_worker_get
    | |- _ => keep_cut
    end)
  end.
Ltac part := cbv zeta; repeat (part1; cbv zeta; cbn beta).

Lemma apart_shutdown_stop attempts h grace deadline : keeps apart anything (shutdown_stop attempts h grace deadline).
Proof. induction attempts as [|attempts IH]; cbn [shutdown_stop]; part; exact IH. Qed.

Lemma apart_shutdown_pod deadline p : keeps apart anything (shutdown_pod deadline j p).
Proof.
  unfold shutdown_pod, shutdown_settle, shutdown_verify, release_pod_resources. part; apply apart_shutdown_stop.
Qed.

End apart.

Section shutdown.
  Context {IO RT H : Type} `{!Io IO} `{!Host H} `{!Runtime RT H} `{LAWS : !IoLaws IO} `{!RuntimeLaws RT H}.
  Abbreviation C := (@Ctx IO RT H).

Lemma shutdown_pod_covered deadline j p (c : C) :
  pods (worker c) !! j = Some p → no_orphans c →
  wp any_panic (shutdown_pod deadline j p) (λ _ c', no_orphans c') c.
Proof.
  intros Hp Ho. eapply wp_mono; [apply wp_and|].
  - by apply (keeps_wp (apart (pods (worker c)) j)); [apply apart_shutdown_pod|].
  - apply (accounted_shutdown_pod (λ x, held_elsewhere j (worker c) x ∨ False)); [done|].
    apply covered_acct. by apply no_orphans_covered.
  - intros [] c' [Hf [ho [Hh Hown]]] x [[(i & Hne & q & Hq & Hx)|[]]|Hx]%Hown.
    + exists i, q. split; [|done]. by rewrite Hf.
    + exists j. unfold handle_of in Hh. destruct (pods (worker c') !! j) as [q|] eqn:Hq; simpl in Hh.
      * exists q. by rewrite Hq, Hh.
      * by rewrite <-Hh in Hx.
Qed.

Lemma shutdown_loop_covered deadline ids (c : C) :
  no_orphans c → wp any_panic (shutdown_loop deadline ids) (λ _ c', no_orphans c') c.
Proof.
  revert c. induction ids as [|id ids IH]; intros c Ho; cbn [shutdown_loop]; [done|].
  wp_step. apply any_on_host. intros now c1 Ew Er.
  assert (Ho1 : no_orphans c1) by (eapply no_orphans_reads; [exact Ho|by rewrite Ew|done]).
  destruct (deadline <=? now); [done|]. wp_step. apply any_get_pod. wp_step.
  destruct (pods (worker c1) !! id) as [p|] eqn:Hp; [|by apply wp_ret, IH].
  eapply wp_mono; [by apply shutdown_pod_covered|]. intros [] c2. apply IH.
Qed.

Lemma shutdown_covered budget (c : C) :
  no_orphans c →
  wp any_panic (shutdown_with_deadline budget)
    (λ b c', no_orphans c' ∧ (b = true → ∀ x, ¬ owns (rt c') x)) c.
Proof.
  intros Ho. unfold shutdown_with_deadline. wp_step. apply any_assert. intros _. wp_step. apply any_on_host.
  intros start c1 Ew Er. wp_step. apply any_worker_get. wp_step.
  eapply wp_mono; [apply shutdown_loop_covered; by eapply no_orphans_reads; [exact Ho|rewrite Ew|]|].
  intros [] c2 Ho2. wp_step. apply any_worker_get. case_bool_decide as He; [|by apply wp_ret].
  wp_step. apply any_assert. intros _. apply wp_ret. split; [done|]. intros _ x (i & p & Hp & _)%Ho2.
  by rewrite He in Hp.
Qed.

(** ** The life of a worker over such a runtime *)

(** As [reachable], from a runtime that owns nothing; between the worker's calls it may
    lose containers, but gets none. *)
Inductive supervised : C → Prop :=
| sup_new c h name gpu gpus cpu memory concurrency :
    0 ≤ gpus < U8_MAX → 0 ≤ cpu < U32_MAX → 0 ≤ memory < U32_MAX → io_wf (io c) →
    worker c = new_with_lifecycle_concurrency (h : H) name gpu gpus cpu memory concurrency →
    (∀ x, ¬ owns (rt c) x) → supervised c
| sup_world c c' : supervised c → worker c' = worker c → io_wf (io c') →
    (∀ x, owns (rt c') x → owns (rt c) x) → supervised c'
| sup_lost c : supervised c → supervised (with_worker on_connection_lost c)
| sup_tick fuel c c' :
    supervised c → 0 ≤ io_now (io c) ≤ TICK_MAX → (io_pending (io c) < fuel)%nat →
    tick fuel c = Done (tt, c') → supervised c'.

Lemma supervised_inv c : supervised c → cinv c ∧ no_orphans c.
Proof.
  induction 1 as [c h name gpu gpus cpu memory n Hg Hc Hm Hio Hw Hn|c c' _ [[Hw _] Ho] E Hio Hr|c _ [[Hw Hio] Ho]
    |fuel c c' _ [Hc Ho] Hnow Hf Et].
  - split; [split; [rewrite Hw; by apply winv_new|done]|]. intros x Hx. by destruct (Hn x).
  - split; [split; [by rewrite E|done]|]. intros x Hx%Hr%Ho. by rewrite E.
  - split; [|by eapply no_orphans_reads]. split; [|done]. destruct Hw. by constructor.
  - split.
    + eapply (wp_any_done (tick fuel) (λ _ c', cinv c')); [|exact Et].
      eapply wp_weaken; [|done]. eapply wp_mono; [by apply (tick_any fuel c)|]. by intros ? ? [? _].
    + by eapply (wp_any_done (tick fuel) (λ _ c', no_orphans c')); [apply tick_covered|].
Qed.

(** C6: no container is ever forgotten.  Over every runtime that meets [RuntimeLaws], with
    every schedule of the lifecycle threads, every command, failure, retry and crash, in
    every state a worker reaches each container of the runtime is the handle of a tracked
    pod; and a shutdown that answers [true] leaves the runtime without containers. *)
Theorem no_container_forgotten (c : C) :
  supervised c →
  (∀ x, owns (rt c) x → ∃ id p h, pods (worker c) !! id = Some p ∧ handle p = Some h ∧ ph_container_id h = x) ∧
  (∀ budget c', shutdown_with_deadline budget c = Done (true, c') → ∀ x, ¬ owns (rt c') x).
Proof.
  intros [Hc Ho]%supervised_inv. split.
  - intros x (id & p & Hp & Hx)%Ho. destruct (handle p) as [h|] eqn:Hh; [|done]. simplify_eq/=. by exists id, p, h.
  - intros budget c' E. by eapply (wp_any_done _ _ _ _ _ (shutdown_covered budget c Ho) E).
Qed.

End shutdown.
