(* ===== verification/Reports.v ===== *)
(** * What the control plane is told

    The abstract specification of a worker as its control plane sees it: a pod is a slot
    that moves along the lifecycle, and each move either says something or is silent
    ([pod_says]).  The worker implements it: over any history, the status reports it sent
    about a pod, in the order it sent them, are a trace of that specification that ends in
    the state the worker holds.  So the last report on a pod is its state, but for a pod
    that is being stopped, which is not announced. *)

From S2P Require Import Prelude Types RustStr Traits Volumes Secrets Protocol Worker Keeps WorkerInv.
From S2P Require Import WorkerThreads WorkerSafety.

(** ** The specification *)

Abbreviation slot := (option TrackedPodState).

Inductive pod_says : slot → list PodStatusReport → slot → Prop :=
| say_admit : pod_says None [RImagePulling] (Some ImagePulling)
| say_reject r : pod_says None [RFailed r] None
| say_pulled : pod_says (Some ImagePulling) [RCreating] (Some Creating)
| say_created : pod_says (Some Creating) [] (Some Starting)
| say_recreate : pod_says (Some Starting) [] (Some Creating)
| say_started : pod_says (Some Starting) [RRunning] (Some Running)
| say_stop s : stoppable s = true → pod_says (Some s) [] (Some Stopping)
| say_fail_pull r : pod_says (Some ImagePulling) [RFailed r] (Some (Failed r))
| say_fail_create r : pod_says (Some Creating) [RFailed r] (Some (Failed r))
| say_stopped x : pod_says (Some Stopping) [RStopped x] (Some (Stopped x))
| say_failed r : pod_says (Some Stopping) [RFailed r] (Some (Failed r))
| say_forget s : is_terminal s = true → pod_says (Some s) [] None
| say_again s : pod_says (Some s) [tracked_pod_status s] (Some s).

Create HintDb saysdb.
#[export] Hint Constructors pod_says : saysdb.

Inductive trace : slot → list PodStatusReport → slot → Prop :=
| trace_nil s : trace s [] s
| trace_cons s l s1 l' s' : pod_says s l s1 → trace s1 l' s' → trace s (l ++ l') s'.

Lemma trace_app s l s1 l' s' : trace s l s1 → trace s1 l' s' → trace s (l ++ l') s'.
Proof. induction 1; intros Hl; [done|]. rewrite <-app_assoc. econstructor; eauto. Qed.

Lemma trace_once s l s' : pod_says s l s' → trace s l s'.
Proof. intros Hs. rewrite <-(app_nil_r l). by econstructor; [|constructor]. Qed.

Lemma trace_snoc s l s1 l' s' : trace s l s1 → pod_says s1 l' s' → trace s (l ++ l') s'.
Proof. intros Ht Hs. by eapply trace_app, trace_once. Qed.

(** Forgetting what is said leaves the lifecycle. *)
Lemma pod_says_edge s l s' : pod_says s l s' → s' = s ∨ ∃ ph, pod_edge ph s s'.
Proof. destruct 1; (by left) || right; (by exists Receiving; auto with edgedb) || (by exists Driving; auto with edgedb). Qed.

(** ** The view of the control plane *)

Definition live_report (r : PodStatusReport) : bool :=
  match r with RImagePulling | RCreating | RRunning => true | RStopped _ | RFailed _ => false end.

(** The last report [v] on a pod fits its slot. *)
Definition fits (v : option PodStatusReport) (s : slot) : Prop :=
  match s with
  | None => True
  | Some Stopping => ∃ r, v = Some r ∧ live_report r = true
  | Some s => v = Some (tracked_pod_status s)
  end.

(** The view after the reports [l]. *)
Definition heard (v : option PodStatusReport) (l : list PodStatusReport) : option PodStatusReport :=
  foldl (λ _ r, Some r) v l.

Lemma pod_says_fits s l s' v : pod_says s l s' → fits v s → fits (heard v l) s'.
Proof.
  destruct 1 as [| | | | | |s Hs| | | | |s Hs|s]; simpl; try done.
  - intros Hv. destruct s; try done; simpl in *; subst v; eauto.
  - intros _. destruct s; simpl; eauto.
Qed.

Lemma trace_fits s l s' v : trace s l s' → fits v s → fits (heard v l) s'.
Proof.
  intros Ht. revert v. induction Ht as [|s l s1 l' s' Hs _ IH]; intros v Hv; [done|].
  unfold heard. rewrite foldl_app. apply IH. by eapply pod_says_fits.
Qed.

Lemma heard_last v l : heard v l = match last l with Some r => Some r | None => v end.
Proof.
  induction l as [|r l IH] using rev_ind; [done|]. unfold heard in *. rewrite foldl_app, last_snoc. done.
Qed.

(** ** The log of an [Io] *)

(** What has been handed to [send], in order. *)
Class IoLog (IO : Type) `{!Io IO} := {
  io_log : IO → list WorkerMessage;
  io_log_send m x x' : io_send m x = Done x' → io_log x' = io_log x ++ [m];
  io_log_recv x o x' : io_recv x = Done (o, x') → io_log x' = io_log x
}.

(** Any [Io] can be made to keep the log. *)
Record Recorded (IO : Type) := mkRecorded { rec_io : IO; rec_log : list WorkerMessage }.
Arguments mkRecorded {IO}.
Arguments rec_io {IO}.
Arguments rec_log {IO}.

#[export] Instance recorded_io {IO} `{!Io IO} : Io (Recorded IO) := {
  io_now x := io_now (rec_io x);
  io_send m x := match io_send m (rec_io x) with Done i => Done (mkRecorded i (rec_log x ++ [m])) | Panic e => Panic e end;
  io_recv x :=
    match io_recv (rec_io x) with Done (o, i) => Done (o, mkRecorded i (rec_log x)) | Panic e => Panic e end;
  io_random_u64 x := let '(n, i) := io_random_u64 (rec_io x) in (n, mkRecorded i (rec_log x))
}.

#[export, refine] Instance recorded_io_laws {IO} `{!Io IO} `{!IoLaws IO} : IoLaws (Recorded IO) := {
  io_wf x := io_wf (rec_io x);
  io_pending x := io_pending (rec_io x);
  io_panics := io_panics
}.
Proof.
  - intros m x Hw Hm. pose proof (io_send_law m (rec_io x) Hw Hm) as Hs. cbn. by destruct (io_send _ _).
  - intros x Hw. pose proof (io_recv_law (rec_io x) Hw) as Hr. cbn. by destruct (io_recv _) as [[[]]|].
Defined.

#[export, refine] Instance recorded_io_log {IO} `{!Io IO} : IoLog (Recorded IO) := { io_log := rec_log }.
Proof.
  - intros m x x'. cbn. destruct (io_send _ _); [|done]. by intros [= <-].
  - intros x o x'. cbn. destruct (io_recv _) as [[]|]; [|done]. by intros [= _ <-].
Defined.

Definition report_on (id : Z) (m : WorkerMessage) : option PodStatusReport :=
  match m with
  | PodStatusEvent e => if pe_pod_id e =? id then Some (pe_status e) else None
  | _ => None
  end.

Definition reports (id : Z) (l : list WorkerMessage) : list PodStatusReport := omap (report_on id) l.

Lemma reports_app id l l' : reports id (l ++ l') = reports id l ++ reports id l'.
Proof. apply omap_app. Qed.

Lemma reports_status id k r :
  reports k [PodStatusEvent (mkPodStatusEventMsg id r)] = if bool_decide (k = id) then [r] else [].
Proof.
  unfold reports. cbn. case_bool_decide as E; [by rewrite E, Z.eqb_refl|].
  rewrite (proj2 (Z.eqb_neq _ _)) by congruence. done.
Qed.

(** ** The refinement relation *)

Section reports.
  Context {IO RT H : Type} `{!Io IO} `{!Host H} `{!Runtime RT H} `{!IoLog IO}.
  Abbreviation C := (@Ctx IO RT H).
  Implicit Types c : C.

(** What pods look like between the writes of a handler. *)
Definition shaped (m : gmap Z TrackedPod) : Prop :=
  map_Forall (λ k p, pod_id p = k ∧ handle_fits (state p) (handle p)) m.

(** From [c0] to [c] every slot followed its reports, of which [owed] are still to be sent. *)
Record told (owed : list WorkerMessage) (c0 c : C) : Prop := {
  td_shaped : shaped (pods (worker c));
  td_trace : ∃ new, io_log (io c) = io_log (io c0) ++ new ∧
    ∀ id, trace (pstate (worker c0) id) (reports id (new ++ owed)) (pstate (worker c) id)
}.

Lemma told_refl c : shaped (pods (worker c)) → told [] c c.
Proof. intros Hs. split; [done|]. exists []. rewrite app_nil_r. split; [done|]. intros id. constructor. Qed.

(** The relation reads the pods and the log. *)
Lemma told_same owed c0 c c' :
  told owed c0 c → pods (worker c') = pods (worker c) → io_log (io c') = io_log (io c) → told owed c0 c'.
Proof.
  intros [Hs (new & Hn & Ht)] Ep El. split; [by rewrite Ep|]. exists new. split; [by rewrite El|].
  intros id. unfold pstate. rewrite Ep. apply Ht.
Qed.

(** A write to pod [id] with what it says. *)
Lemma told_put c0 c id q said :
  told [] c0 c → pod_id q = id → handle_fits (state q) (handle q) →
  pod_says (pstate (worker c) id) said (Some (state q)) →
  told ((λ r, PodStatusEvent (mkPodStatusEventMsg id r)) <$> said) c0
    (with_worker (λ w, set_pods (<[id:=q]> (pods w)) w) c).
Proof.
  intros [Hs (new & Hn & Ht)] Hid Hh Hsay. split; [by apply map_Forall_insert_2|]. exists new. split; [done|].
  intros k. specialize (Ht k). rewrite app_nil_r in Ht. rewrite reports_app. unfold pstate. simpl.
  assert (Hsaid : reports k ((λ r, PodStatusEvent (mkPodStatusEventMsg id r)) <$> said) =
    if bool_decide (k = id) then said else []).
  { clear. induction said as [|r l IH]; [by case_bool_decide|]. rewrite fmap_cons. 
    change (?x :: ?l) with ([x] ++ l). rewrite reports_app, IH, reports_status. by case_bool_decide. }
  rewrite Hsaid. case_bool_decide as E.
  - subst k. rewrite lookup_insert_eq. by eapply trace_snoc.
  - rewrite lookup_insert_ne, app_nil_r by congruence. done.
Qed.

(** Changes that move no slot. *)
Lemma told_write owed c0 c id p q :
  told owed c0 c → pods (worker c) !! id = Some p → state q = state p → pod_id q = pod_id p →
  handle_fits (state q) (handle q) →
  told owed c0 (with_worker (λ w, set_pods (<[id:=q]> (pods w)) w) c).
Proof.
  intros [Hs (new & Hn & Ht)] Hp Est Eid Hh. split.
  - apply map_Forall_insert_2; [|done]. split; [|done]. rewrite Eid. by apply (Hs id p Hp).
  - exists new. split; [done|]. intros k. specialize (Ht k). unfold pstate in *. simpl.
    destruct (decide (k = id)) as [->|]; [|by rewrite lookup_insert_ne].
    rewrite lookup_insert_eq. rewrite Hp in Ht. simpl in *. by rewrite Est.
Qed.

Lemma told_forget owed c0 c id p :
  told owed c0 c → pods (worker c) !! id = Some p → is_terminal (state p) = true →
  told owed c0 (with_worker (λ w, set_pods (delete id (pods w)) w) c).
Proof.
  intros [Hs (new & Hn & Ht)] Hp Hterm. split; [by apply map_Forall_delete|]. exists new. split; [done|].
  intros k. specialize (Ht k). unfold pstate in *. simpl. destruct (decide (k = id)) as [->|].
  - rewrite lookup_delete_eq. rewrite Hp in Ht. rewrite <-(app_nil_r (reports _ _)).
    eapply trace_snoc; [exact Ht|]. by constructor.
  - by rewrite lookup_delete_ne.
Qed.

(** ** Sending *)

Lemma log_send msg (Q : unit → C → Prop) c :
  (∀ c', worker c' = worker c → io_log (io c') = io_log (io c) ++ [msg] → Q tt c') →
  wp any_panic (send msg) Q c.
Proof.
  intros HQ. unfold wp, send. destruct (io_send msg (io c)) as [x|] eqn:E; [|done].
  apply HQ; [done|]. by apply io_log_send.
Qed.

(** Paying what is owed. *)
Lemma told_send msg c0 c : told [msg] c0 c → wp any_panic (send msg) (λ _ c', told [] c0 c') c.
Proof.
  intros [Hs (new & Hn & Ht)]. apply log_send. intros c' Ew El. split; [by rewrite Ew|].
  exists (new ++ [msg]). split; [by rewrite El, Hn, app_assoc|]. intros id. by rewrite app_nil_r, Ew.
Qed.

(** Messages that are not about pods, and reports that repeat. *)
Lemma told_owe msg c0 c :
  told [] c0 c → (∀ id, trace (pstate (worker c) id) (reports id [msg]) (pstate (worker c) id)) → told [msg] c0 c.
Proof.
  intros [Hs (new & Hn & Ht)] Hm. split; [done|]. exists new. split; [done|]. intros id.
  specialize (Ht id). rewrite app_nil_r in Ht. rewrite reports_app. by eapply trace_app.
Qed.

Lemma told_say msg c0 c :
  told [] c0 c → (∀ id, report_on id msg = None) → wp any_panic (send msg) (λ _ c', told [] c0 c') c.
Proof.
  intros Ht Hm. apply told_send, told_owe; [done|]. intros id. unfold reports. csimpl. rewrite Hm. constructor.
Qed.

Lemma told_send_status id r c0 c :
  told [] c0 c → pod_says (pstate (worker c) id) [r] (pstate (worker c) id) →
  wp any_panic (send_status id r) (λ _ c', told [] c0 c') c.
Proof.
  intros Ht Hs. apply told_send, told_owe; [done|]. intros k. rewrite reports_status.
  case_bool_decide as E; [subst k; by apply trace_once|constructor].
Qed.

(** ** Steps that report nothing *)

Lemma told_set f owed c0 c (Q : unit → C → Prop) :
  told owed c0 c → pods (f (worker c)) = pods (worker c) →
  (∀ c', told owed c0 c' → worker c' = f (worker c) → Q tt c') → wp any_panic (worker_set f) Q c.
Proof. intros Ht Ef HQ. by apply HQ; [eapply told_same|]. Qed.

Lemma told_runtime {A} (f : RT → A * RT) owed c0 c (Q : A → C → Prop) :
  told owed c0 c → (∀ a c', told owed c0 c' → worker c' = worker c → Q a c') → wp any_panic (runtime f) Q c.
Proof. intros Ht HQ. unfold wp, runtime. destruct (f (rt c)). by apply HQ; [eapply told_same|]. Qed.

Lemma told_on_host {A} (f : H → A * H) owed c0 c (Q : A → C → Prop) :
  told owed c0 c → (∀ a c', told owed c0 c' → worker c' = worker c → Q a c') → wp any_panic (on_host f) Q c.
Proof. intros Ht HQ. unfold wp, on_host. destruct (f (host c)). by apply HQ; [eapply told_same|]. Qed.

Lemma told_with_resolver {A} (f : SecretResolver → H → A * SecretResolver * H) owed c0 c (Q : A → C → Prop) :
  told owed c0 c → (∀ a c', told owed c0 c' → pods (worker c') = pods (worker c) → Q a c') →
  wp any_panic (with_resolver f) Q c.
Proof. intros Ht HQ. unfold wp, with_resolver. destruct (f _ _) as [[]]. by apply HQ; [eapply told_same|]. Qed.

Lemma told_recv c0 c (Q : option ControlMessage → C → Prop) :
  told [] c0 c → (∀ o c', told [] c0 c' → Q o c') → wp any_panic recv Q c.
Proof.
  intros Ht HQ. unfold wp, recv. destruct (io_recv (io c)) as [[o x]|] eqn:E; [|done].
  apply HQ. eapply told_same; [done..|]. by eapply io_log_recv.
Qed.

(** ** Ending a pod *)

(** Only tombstones are pruned, and no slot is filled. *)
Lemma told_prune limit owed c0 c :
  told owed c0 c →
  wp any_panic (prune_terminal_pods_to limit)
    (λ _ c', told owed c0 c' ∧ pods (worker c') ⊆ pods (worker c)) c.
Proof.
  intros Ht. unfold prune_terminal_pods_to. wp_step. apply any_assert. intros _. wp_step. unfold wp at 1, worker_get.
  assert (Hterm : ∀ e, e ∈ terminal_entries (worker c) →
    ∃ p, pods (worker c) !! e.2 = Some p ∧ is_terminal (state p) = true).
  { intros [t id] (k & p & Hp & Htp & _ & Hid)%elem_of_terminal_entries. exists p. split; [|done].
    destruct (td_shaped _ _ _ Ht k p Hp) as [Hk _]. simpl. congruence. }
  eapply wp_mono; [apply (wp_for_each _ _ (λ l c', (∀ e, e ∈ l → e ∈ terminal_entries (worker c)) ∧
    told owed c0 c' ∧ pods (worker c') ⊆ pods (worker c)))|].
  - split_and!; [|done|done]. intros e He. by eapply subseteq_take.
  - intros e l c1 (Hl & Ht1 & Hsub). wp_step. apply any_expect_pod. intros p Hp. wp_step. apply any_worker_set.
    destruct (Hterm e) as (p' & Hp' & Htp); [apply Hl; by left|].
    assert (p = p') as -> by (pose proof (lookup_weaken _ _ _ _ Hp Hsub); congruence).
    wp_step. apply any_assert. intros _. wp_step. apply any_worker_get. apply any_assert. intros _.
    split_and!; [intros e' He'; apply Hl; by right|by eapply told_forget|].
    simpl. etrans; [apply delete_subseteq|done].
  - by intros _ c' (_ & ? & ?).
Qed.

Lemma told_release id owed c0 c :
  told owed c0 c → wp any_panic (release_pod_resources id) (λ _ c', told owed c0 c') c.
Proof.
  intros Ht. unfold release_pod_resources. wp_step. apply any_get_pod.
  destruct (pods (worker c) !! id) as [p|]; [|by apply wp_ret]. eapply told_set; [done|done|]. by intros c' ?.
Qed.

(** The report on a pod that has ended is owed until the end of [finish_pod]. *)
Lemma told_finish_pod id status c0 c :
  told [PodStatusEvent (mkPodStatusEventMsg id status)] c0 c →
  wp any_panic (finish_pod id status) (λ _ c', told [] c0 c') c.
Proof.
  intros Ht. unfold finish_pod. wp_step. eapply wp_mono; [by apply told_release|]. clear c Ht. intros [] c Ht.
  wp_step. unfold scrub_terminal_pod_data.
  wp_step. apply any_expect_pod. intros p Hp. wp_step. apply any_assert. intros _. wp_step. apply any_assert. intros _.
  apply any_put_pod. wp_step. eapply wp_mono; [apply told_prune; eapply told_write; [exact Ht|exact Hp|done|done|]|].
  { by apply (td_shaped _ _ _ Ht id p Hp). }
  intros _ c2 [Ht2 _]. by apply told_send.
Qed.

(** [pod.state = ..] with its report owed; the rest of the handler follows. *)
Lemma told_end id f msg status c0 c p :
  told [] c0 c → pods (worker c) !! id = Some p →
  pod_says (Some (state p)) [status] (Some (state (f p))) → pod_id (f p) = pod_id p →
  handle_fits (state (f p)) (handle (f p)) →
  wp any_panic (update_pod id msg f ;;; finish_pod id status) (λ _ c', told [] c0 c') c.
Proof.
  intros Ht Hp Hsay Hid Hh. wp_step. apply any_update_pod. intros p' Hp'. assert (p' = p) as -> by congruence.
  apply told_finish_pod. apply (told_put c0 c id (f p) [status]); [done| |done|].
  - rewrite Hid. by apply (td_shaped _ _ _ Ht id p Hp).
  - unfold pstate. by rewrite Hp.
Qed.

(** ** Writes that report nothing *)

(** A pod stays where it is or moves silently. *)
Definition silent (s s' : TrackedPodState) : Prop := s' = s ∨ pod_says (Some s) [] (Some s').

Definition put_at (id : Z) (q : TrackedPod) (c : C) : C := with_worker (λ w, set_pods (<[id:=q]> (pods w)) w) c.

Lemma told_silent c0 c id p q :
  told [] c0 c → pods (worker c) !! id = Some p → silent (state p) (state q) → pod_id q = pod_id p →
  handle_fits (state q) (handle q) → told [] c0 (put_at id q c).
Proof.
  intros Ht Hp [Es|Hs] Hid Hh; [by eapply told_write|]. apply (told_put c0 c id q []); [done| |done|].
  - rewrite Hid. by apply (td_shaped _ _ _ Ht id p Hp).
  - unfold pstate. by rewrite Hp.
Qed.

Lemma told_put_pod c0 c id p q (Q : unit → C → Prop) :
  told [] c0 c → pods (worker c) !! id = Some p → silent (state p) (state q) → pod_id q = pod_id p →
  handle_fits (state q) (handle q) →
  (told [] c0 (put_at id q c) → pods (worker (put_at id q c)) !! id = Some q → Q tt (put_at id q c)) →
  wp any_panic (put_pod id q) Q c.
Proof.
  intros Ht Hp Hs Hid Hh HQ. apply any_put_pod, HQ; [by eapply told_silent|]. apply lookup_insert_eq.
Qed.

Lemma told_update_pod c0 c id p f msg (Q : unit → C → Prop) :
  told [] c0 c → pods (worker c) !! id = Some p → silent (state p) (state (f p)) → pod_id (f p) = pod_id p →
  handle_fits (state (f p)) (handle (f p)) →
  (∀ c', told [] c0 c' → pods (worker c') !! id = Some (f p) → Q tt c') → wp any_panic (update_pod id msg f) Q c.
Proof.
  intros Ht Hp Hs Hid Hh HQ. apply wp_bind, any_expect_pod. intros p' Hp'. assert (p' = p) as -> by congruence.
  eapply told_put_pod; [done..|]. apply HQ.
Qed.

(** The rest of a write that only touches bookkeeping. *)
Lemma shaped_fits owed c0 c id p : told owed c0 c → pods (worker c) !! id = Some p → handle_fits (state p) (handle p).
Proof. intros Ht Hp. apply (td_shaped _ _ _ Ht id p Hp). Qed.

Lemma told_schedule_stop_retry id now c0 c :
  told [] c0 c → wp any_panic (schedule_stop_retry id now) (λ _ c', told [] c0 c') c.
Proof.
  intros Ht. unfold schedule_stop_retry. wp_step. apply any_expect_pod. intros p Hp. wp_step. apply any_assert.
  intros _. eapply told_put_pod; [done|done|by left|done|exact (shaped_fits _ _ _ _ _ Ht Hp)|]. done.
Qed.

(** ** Failing and stopping *)

Lemma told_defer_failure id p reason now c0 c :
  told [] c0 c → pods (worker c) !! id = Some p → stoppable (state p) = true →
  wp any_panic (defer_failure id reason now) (λ _ c', told [] c0 c') c.
Proof.
  intros Ht Hp Hst. unfold defer_failure. wp_step. eapply told_update_pod; [done|done|by right; constructor|done|done|].
  intros c1 Ht1 _. wp_step. apply any_worker_get. wp_step. eapply told_set; [exact Ht1|done|].
  intros c2 Ht2 _. wp_step. apply any_assert. intros _. wp_step. apply any_worker_get. by apply any_assert.
Qed.

(** A pod in one of these states that has no handle has not been started. *)
Lemma says_failed p r :
  stoppable (state p) = true → handle_fits (state p) (handle p) → handle p = None →
  pod_says (Some (state p)) [RFailed r] (Some (Failed r)).
Proof. intros Hs Hf Hn. rewrite Hn in Hf. destruct (state p); try done; [constructor..| |]; by destruct Hf. Qed.

Lemma told_fail_pod id p reason now c0 c :
  told [] c0 c → pods (worker c) !! id = Some p → stoppable (state p) = true →
  wp any_panic (fail_pod id reason now) (λ _ c', told [] c0 c') c.
Proof.
  intros Ht Hp Hst. unfold fail_pod. wp_step. apply any_expect_pod. intros p' Hp'. assert (p' = p) as -> by congruence.
  wp_step. assert (Hvol : wp any_panic (if bool_decide (is_Some (handle p)) then ret (Ok tt) else on_host (unmount_juicefs id))
    (λ _ c', told [] c0 c' ∧ pods (worker c') !! id = Some p) c).
  { case_bool_decide; [by apply wp_ret|]. eapply told_on_host; [done|]. intros a c' ? E. by rewrite E. }
  eapply wp_mono; [exact Hvol|]. clear c Ht Hp Hp' Hvol. intros vol c [Ht Hp].
  case_bool_decide as Hh; [by eapply told_defer_failure|]. destruct (result_is_ok vol); [|by eapply told_defer_failure].
  assert (handle p = None) as Hn by (destruct (handle p); [destruct Hh; eauto|done]).
  eapply told_end; [done|done| |done|done]. eapply says_failed; [done|by eapply shaped_fits|done].
Qed.

Lemma told_settle_stop id p exit_code now c0 c :
  told [] c0 c → pods (worker c) !! id = Some p → state p = Stopping → handle p = None →
  wp any_panic (settle_stop id exit_code now) (λ _ c', told [] c0 c') c.
Proof.
  intros Ht Hp Hst Hn. unfold settle_stop. wp_step. apply any_worker_get. wp_step.
  eapply told_set; [done|done|]. intros c' Ht' Ew. cbv zeta.
  assert (Hp' : pods (worker c') !! id = Some p) by by rewrite Ew.
  destruct (pending_failure_reasons (worker c) !! id) as [r|];
    (eapply told_end; [done|exact Hp'| |done|exact Hn]); rewrite Hst; constructor.
Qed.

Lemma told_unmount_and_settle id p exit_code now c0 c :
  told [] c0 c → pods (worker c) !! id = Some p → state p = Stopping → handle p = None →
  wp any_panic (unmount_and_settle id exit_code now) (λ _ c', told [] c0 c') c.
Proof.
  intros Ht Hp Hst Hn. unfold unmount_and_settle. wp_step. eapply told_on_host; [done|]. intros [?|?] c' Ht' E.
  - eapply told_settle_stop; [done|by rewrite E|done|done].
  - by apply told_schedule_stop_retry.
Qed.

Lemma told_complete_pod_stop id exit_code now c0 c :
  told [] c0 c → wp any_panic (complete_pod_stop id exit_code now) (λ _ c', told [] c0 c') c.
Proof.
  intros Ht. unfold complete_pod_stop. wp_step. apply any_get_pod. wp_step. apply any_assert. intros Hst%bool_decide_eq_true.
  wp_step. apply any_expect_pod. intros p Hp. rewrite Hp in Hst. injection Hst as Hst.
  destruct (handle p) as [h|] eqn:Hh; [|by eapply told_unmount_and_settle].
  wp_step. eapply told_runtime; [done|]. intros [?|?] c1 Ht1 E; [|by apply told_schedule_stop_retry].
  wp_step. eapply told_update_pod; [done|by rewrite E|by left|done|simpl; by rewrite Hst|].
  intros c2 Ht2 Hp2. by eapply told_unmount_and_settle.
Qed.

(** ** Driving a pod *)

Lemma told_drive_creating id p now c0 c :
  told [] c0 c → pods (worker c) !! id = Some p → state p = Creating →
  wp any_panic (drive_creating id now p) (λ _ c', told [] c0 c') c.
Proof.
  intros Ht Hp Hst. unfold drive_creating. destruct (now <? _); [by apply wp_ret|]. wp_step. apply any_worker_get.
  wp_step. assert (Hm : wp any_panic (if str_is_empty (juicefs_path p) then ret (Ok [])
       else let* vol := on_host (mount_juicefs id (juicefs_path p)) in
         ret (result_map (λ vol, [mkBindMount (vm_host_path vol) (vm_container_path vol)]) vol))
    (λ _ c', told [] c0 c' ∧ pods (worker c') !! id = Some p) c).
  { destruct (str_is_empty _); [by apply wp_ret|]. wp_step. eapply told_on_host; [done|]. intros vol c' ? E.
    wp_step. by rewrite E. }
  eapply wp_mono; [exact Hm|]. intros [mounts|e] c1 [Ht1 Hp1]; [by apply wp_ret|].
  wp_step. eapply wp_mono; [eapply told_fail_pod; [done|done|by rewrite Hst]|]. intros [] c2 Ht2. by apply wp_ret.
Qed.

Lemma told_verify_running id p now h c0 c :
  told [] c0 c → pods (worker c) !! id = Some p → state p = Running →
  wp any_panic (verify_running id now h)
    (λ b c', told [] c0 c' ∧ (b = true → pods (worker c') !! id = Some p)) c.
Proof.
  intros Ht Hp Hst. unfold verify_running. wp_step. eapply told_runtime; [done|]. intros status c1 Ht1 E.
  assert (Hp1 : pods (worker c1) !! id = Some p) by by rewrite E.
  assert (Hfail : ∀ reason, wp any_panic (fail_pod id reason now ;;; ret false)
    (λ b c', told [] c0 c' ∧ (b = true → pods (worker c') !! id = Some p)) c1).
  { intros reason. wp_step. eapply wp_mono; [eapply told_fail_pod; [done|done|by rewrite Hst]|].
    intros [] c2 Ht2. by apply wp_ret. }
  destruct status as [[| |x|]|e]; [apply Hfail|by apply wp_ret| |apply Hfail..].
  wp_step. eapply told_update_pod; [done|done|right; rewrite Hst; by constructor|done|done|]. intros c2 Ht2 _.
  wp_step. eapply wp_mono; [by apply told_complete_pod_stop|]. intros [] c3 Ht3. by apply wp_ret.
Qed.

Lemma told_probe_running id p now c0 c :
  told [] c0 c → pods (worker c) !! id = Some p → state p = Running →
  wp any_panic (probe_running id now) (λ _ c', told [] c0 c') c.
Proof.
  intros Ht Hp Hst. unfold probe_running. wp_step. apply any_expect_pod. intros p' Hp'.
  assert (p' = p) as -> by congruence. wp_step.
  eapply (wp_mono _ _ (λ _ c', c' = c)).
  { destruct (_ && _); [wp_step; apply wp_any_add|]; by apply wp_ret. }
  intros should ? ->. destruct should; [|by apply wp_ret]. cbn [when]. pose proof (shaped_fits _ _ _ _ _ Ht Hp) as Hfit.
  wp_step. apply any_expect. intros h _. wp_step. eapply told_update_pod; [done|done|by left|done|exact Hfit|].
  intros c1 Ht1 Hp1. wp_step. eapply told_runtime; [done|]. intros probe c2 Ht2 E.
  assert (Hunhealthy : wp any_panic (let* p := expect_pod id "called `Option::unwrap()` on a `None` value" in
      let failures := sat_add U8_MAX (consecutive_failures p) 1 in
      put_pod id (set_consecutive_failures failures p) ;;;
      when (3 <=? failures) (fail_pod id "liveness probe failed" now)) (λ _ c', told [] c0 c') c2).
  { wp_step. apply any_expect_pod. intros q Hq. assert (Hqs : state q = Running) by (rewrite E, Hp1 in Hq; by simplify_eq).
    cbv zeta. wp_step. eapply told_put_pod; [done|done|by left|done|exact (shaped_fits _ _ _ _ _ Ht2 Hq)|].
    intros Ht3 Hp3. destruct (3 <=? _); [|by apply wp_ret]. eapply told_fail_pod; [done|done|by simpl; rewrite Hqs]. }
  destruct probe as [[|]|e]; [|exact Hunhealthy..].
  eapply told_update_pod; [done|by rewrite E|by left|done|exact Hfit|]. done.
Qed.

Lemma told_drive_pod now id c0 c :
  told [] c0 c → wp any_panic (drive_pod now id) (λ _ c', told [] c0 c') c.
Proof.
  intros Ht. unfold drive_pod. wp_step. apply any_expect_pod. intros p Hp.
  destruct (state p) eqn:Hst; try by apply wp_ret.
  - by eapply told_drive_creating.
  - unfold drive_running. wp_step. apply any_expect. intros h _. wp_step.
    eapply wp_mono; [by eapply told_verify_running|]. intros [] c1 [Ht1 Hp1]; cbn [when]; wp_step.
    + eapply wp_mono; [eapply told_probe_running; [done|by apply Hp1|done]|]. intros [] c2 ?. by apply wp_ret.
    + apply wp_ret. by apply wp_ret.
Qed.

(** The threads touch neither the pods nor the log. *)
Lemma told_run_chunks fuel ops c0 c :
  told [] c0 c → wp any_panic (run_chunks fuel ops) (λ _ c', told [] c0 c') c.
Proof.
  revert ops c. induction fuel as [|fuel IH]; intros [|op ops] c Ht; try done.
  cbn [run_chunks]. wp_step. apply any_worker_get. wp_step.
  eapply (wp_mono _ _ (λ _ c', told [] c0 c')).
  - unfold wp, run_chunk. destruct (run_threads _ _ _ _) as [[ts r] sc]. destruct (join_all ts); [|done].
    by eapply told_same.
  - intros cs c1 Ht1. wp_step. eapply wp_mono; [by apply IH|]. intros more c2 Ht2. by apply wp_ret.
Qed.

(** ** Completions *)

Lemma told_announce c0 c id p f msg r :
  told [] c0 c → pods (worker c) !! id = Some p → pod_says (Some (state p)) [r] (Some (state (f p))) →
  pod_id (f p) = pod_id p → handle_fits (state (f p)) (handle (f p)) →
  wp any_panic (update_pod id msg f ;;; send_status id r) (λ _ c', told [] c0 c') c.
Proof.
  intros Ht Hp Hsay Hid Hh. wp_step. apply any_update_pod. intros p' Hp'. assert (p' = p) as -> by congruence.
  apply told_send. apply (told_put c0 c id (f p) [r]); [done| |done|].
  - rewrite Hid. by apply (td_shaped _ _ _ Ht id p Hp).
  - unfold pstate. by rewrite Hp.
Qed.

Lemma told_recover_start id p now h e c0 c :
  told [] c0 c → pods (worker c) !! id = Some p → state p = Starting →
  wp any_panic (recover_start id now h e) (λ _ c', told [] c0 c') c.
Proof.
  intros Ht Hp Hst. unfold recover_start. wp_step.
  eapply (wp_mono _ _ (λ _ c', told [] c0 c' ∧ ∃ q, pods (worker c') !! id = Some q ∧ state q = Starting)).
  - unfold retry_lifecycle_pod. wp_step. apply any_get_pod. rewrite Hp. destruct (_ <=? _); [by apply wp_ret; eauto|].
    wp_step. apply wp_any_add. wp_step. apply any_assert. intros _. cbv zeta. wp_step.
    eapply told_put_pod; [done|done|by left|done|exact (shaped_fits _ _ _ _ _ Ht Hp)|]. intros Ht1 Hp1.
    apply wp_ret. eauto.
  - intros again c1 (Ht1 & q & Hq & Hqs). destruct again; [|eapply told_fail_pod; [done|done|by rewrite Hqs]].
    wp_step. eapply told_runtime; [done|]. intros [?|?] c2 Ht2 E.
    + wp_step. apply any_get_pod. rewrite E, Hq. eapply told_put_pod; [done|by rewrite E| |done|done|done].
      right. rewrite Hqs. constructor.
    + eapply told_fail_pod; [done|by rewrite E|by rewrite Hqs].
Qed.

Lemma told_process_completion now k c0 c :
  told [] c0 c → wp any_panic (process_completion now k) (λ _ c', told [] c0 c') c.
Proof.
  intros Ht. assert (Hif : ∀ id s m,
    (∀ p, pods (worker c) !! id = Some p → state p = s → wp any_panic m (λ _ c', told [] c0 c') c) →
    wp any_panic (if_state id s m) (λ _ c', told [] c0 c') c).
  { intros id s m Hm. unfold if_state. wp_step. apply any_get_pod. case_bool_decide as E; [|by apply wp_ret].
    apply fmap_Some in E as (p & Hp & ->). by apply (Hm p). }
  destruct k as [[id ? ? ?|id ? ?|id ? h|id ? ? ?] r]; apply Hif; intros p Hp Hst; destruct r as [r|r|r|r]; try done;
    destruct r as [a|e]; cbn [complete_pull complete_create complete_start complete_stop lc_result].
  - eapply told_announce; [done|done|rewrite Hst; constructor|done|].
    pose proof (shaped_fits _ _ _ _ _ Ht Hp) as Hf. by rewrite Hst in Hf.
  - eapply told_fail_pod; [done|done|by rewrite Hst].
  - eapply told_update_pod; [done|done|right; rewrite Hst; constructor|done|simpl; eauto|]. done.
  - eapply told_fail_pod; [done|done|by rewrite Hst].
  - eapply told_announce; [done|done|rewrite Hst; constructor|done|].
    pose proof (shaped_fits _ _ _ _ _ Ht Hp) as Hf. by rewrite Hst in Hf.
  - by eapply told_recover_start.
  - by apply told_complete_pod_stop.
  - by apply told_schedule_stop_retry.
Qed.

Lemma told_drive_pods now c0 c :
  told [] c0 c → wp any_panic (drive_pods now) (λ _ c', told [] c0 c') c.
Proof.
  intros Ht. unfold drive_pods. wp_step. apply any_worker_get. wp_step.
  eapply wp_mono; [apply (keeps_for_collect (told [] c0) _ _ (λ _, True)); [|exact Ht]|].
  { intros id _ c1 Ht1. eapply wp_mono; [by apply told_drive_pod|]. intros ops c2 Ht2. split; [done|by apply Forall_true]. }
  intros ops c1 [Ht1 _]. wp_step. eapply wp_mono; [by apply told_run_chunks|]. intros cs c2 Ht2.
  apply (keeps_wp (told [] c0)); [|done]. apply keeps_for_each. intros k _ c3 Ht3.
  eapply wp_mono; [by apply told_process_completion|]. by intros [] c4 Ht4.
Qed.

(** ** Messages *)

Lemma told_admit_pod cmd now c0 c :
  told [] c0 c → pods (worker c) !! sp_pod_id cmd = None →
  wp any_panic (admit_pod cmd now) (λ _ c', told [] c0 c') c.
Proof.
  intros Ht Hn. unfold admit_pod. wp_step. apply any_worker_get.
  wp_step. apply wp_any_add. wp_step. eapply told_set; [exact Ht|done|]. intros c1 Ht1 E1.
  wp_step. apply wp_any_add. wp_step. eapply told_set; [exact Ht1|done|]. intros c2 Ht2 E2.
  wp_step. apply wp_any_add. wp_step. eapply told_set; [exact Ht2|done|]. intros c3 Ht3 E3.
  wp_step. eapply told_with_resolver; [done|]. intros env c4 Ht4 E4.
  wp_step. eapply told_with_resolver; [done|]. intros password c5 Ht5 E5.
  wp_step. apply any_put_pod, told_send.
  apply (told_put c0 c5 _ (tracked_pod_of cmd now env _) [RImagePulling]); [done|done|done|].
  unfold pstate. rewrite E5, E4, E3. simpl. rewrite E2. simpl. rewrite E1. simpl. rewrite Hn. constructor.
Qed.

Lemma told_handle_start_pod cmd now c0 c :
  told [] c0 c → wp any_panic (handle_start_pod cmd now) (λ _ c', told [] c0 c') c.
Proof.
  intros Ht. unfold handle_start_pod. wp_step. apply any_get_pod.
  destruct (pods (worker c) !! sp_pod_id cmd) as [p|] eqn:Hp.
  - apply told_send_status; [done|]. unfold pstate. rewrite Hp. constructor.
  - wp_step. eapply wp_mono; [by apply told_prune|]. intros [] c1 [Ht1 Hsub].
    assert (Hn : pods (worker c1) !! sp_pod_id cmd = None) by by eapply lookup_weaken_None.
    wp_step. apply any_worker_get. destruct (start_rejection _ _); [|by apply told_admit_pod].
    apply told_send_status; [done|]. unfold pstate. rewrite Hn. constructor.
Qed.

Lemma told_handle_message msg now c0 c :
  told [] c0 c → wp any_panic (handle_message msg now) (λ _ c', told [] c0 c') c.
Proof.
  intros Ht. destruct msg as [cmd|cmd|cmd|cmd]; cbn [handle_message].
  - by apply told_handle_start_pod.
  - unfold handle_stop_pod. wp_step. apply any_get_pod. destruct (pods (worker c) !! _) as [p|] eqn:Hp; [|by apply wp_ret].
    destruct (stoppable (state p)) eqn:Hst; [|by apply wp_ret].
    eapply told_put_pod; [done|done|by right; constructor|done|done|done].
  - unfold handle_probe_pod. wp_step. apply any_get_pod. destruct (pods (worker c) !! _) as [p|] eqn:Hp; [|by apply wp_ret].
    apply told_send_status; [done|]. unfold pstate. rewrite Hp. constructor.
  - unfold handle_run_request. wp_step. apply any_worker_get.
    destruct (min_by_pod_id _) as [p|]; [|by apply told_say]. wp_step. apply any_expect. intros h _.
    wp_step. eapply told_runtime; [done|]. by intros [?|?] c1 Ht1 _; apply told_say.
Qed.

Lemma told_recv_loop fuel now c0 c :
  told [] c0 c → wp any_panic (recv_loop fuel now) (λ _ c', told [] c0 c') c.
Proof.
  revert c. induction fuel as [|fuel IH]; intros c Ht; [done|]. cbn [recv_loop]. wp_step.
  eapply told_recv; [done|]. intros [msg|] c1 Ht1; [|by apply wp_ret]. wp_step.
  eapply wp_mono; [by apply told_handle_message|]. intros [] c2 Ht2. by apply IH.
Qed.

(** A message about the node, then its bookkeeping. *)
Lemma told_node msg f b c0 c :
  told [] c0 c → (∀ id, report_on id msg = None) → (∀ w, pods (f w) = pods w) →
  wp any_panic (when b (send msg ;;; worker_set f)) (λ _ c', told [] c0 c') c.
Proof.
  intros Ht Hm Hf. destruct b; [|by apply wp_ret]. cbn [when]. wp_step. eapply wp_mono; [by apply told_say|].
  intros [] c1 Ht1. eapply told_set; [done|by apply Hf|]. by intros c2 Ht2 _.
Qed.

Lemma told_tick fuel c : shaped (pods (worker c)) → wp any_panic (tick fuel) (λ _ c', told [] c c') c.
Proof.
  intros Hs%told_refl. unfold tick. wp_step. unfold wp at 1. generalize (io_now (io c)). intros now.
  wp_step. unfold register. wp_step. apply any_worker_get. eapply wp_mono; [by apply told_node|]. intros [] c1 Ht1.
  wp_step. eapply wp_mono; [by apply told_recv_loop|]. intros [] c2 Ht2.
  wp_step. eapply wp_mono; [by apply told_drive_pods|]. intros [] c3 Ht3.
  unfold heartbeat. wp_step. apply any_worker_get. wp_step. apply wp_any_add. by apply told_node.
Qed.

(** ** Histories *)

(** The worker's life as [reachable] has it, with one log throughout. *)
Inductive history `{!IoLaws IO} : C → Prop :=
| hist_new c h name gpu gpus cpu memory concurrency :
    0 ≤ gpus < U8_MAX → 0 ≤ cpu < U32_MAX → 0 ≤ memory < U32_MAX → io_wf (io c) → io_log (io c) = [] →
    worker c = new_with_lifecycle_concurrency (h : H) name gpu gpus cpu memory concurrency →
    history c
| hist_world c c' : history c → worker c' = worker c → io_wf (io c') → io_log (io c') = io_log (io c) → history c'
| hist_lost c : history c → history (with_worker on_connection_lost c)
| hist_tick fuel c c' :
    history c → 0 ≤ io_now (io c) ≤ TICK_MAX → (io_pending (io c) < fuel)%nat →
    tick fuel c = Done (tt, c') → history c'.

Lemma history_reachable `{!IoLaws IO} c : history c → reachable c.
Proof.
  induction 1 as [c h name gpu gpus cpu memory n| | |]; [by apply (reach_new c h name gpu gpus cpu memory n)|..];
    [eapply reach_world|eapply reach_lost|eapply reach_tick]; eassumption.
Qed.

Lemma winv_shaped n w : winv_upto n w → shaped (pods w).
Proof. intros Hw k p Hp. destruct (wi_pods _ _ Hw k p Hp). by split. Qed.

Lemma history_trace `{!IoLaws IO} c :
  history c → ∀ id, trace None (reports id (io_log (io c))) (pstate (worker c) id).
Proof.
  induction 1 as [c h name gpu gpus cpu memory n _ _ _ _ El Hw|c c' _ IH E _ El|c _ IH|fuel c c' Hc IH Hnow Hf Et]; intros id.
  - rewrite El, Hw. constructor.
  - rewrite El, E. apply IH.
  - apply IH.
  - destruct (reachable_cinv c (history_reachable c Hc)) as [Hw _].
    destruct (wp_any_done _ _ _ _ _ (told_tick fuel c (winv_shaped _ _ Hw)) Et) as [_ (new & El & Ht)].
    rewrite El, reports_app. specialize (Ht id). rewrite app_nil_r in Ht. by eapply trace_app.
Qed.

(** C3: over every history of a worker, whatever its runtime, host, threads and messages did,
    the status reports it sent about a pod, in the order it sent them, are a trace of the
    specification [pod_says] that ends in the state the worker holds: no move that is to be
    reported goes unreported, the order is that of the moves, and what is said again is the
    state then held.  So the last report on a tracked pod is its state; only a pod being
    stopped is not announced as such, and was last reported alive. *)
Theorem reports_tell_the_life `{!IoLaws IO} c :
  history c →
  ∀ id, let said := reports id (io_log (io c)) in
    trace None said (pstate (worker c) id) ∧ fits (last said) (pstate (worker c) id).
Proof.
  intros Hc id said. pose proof (history_trace c Hc id) as Ht. split; [exact Ht|].
  pose proof (trace_fits _ _ _ None Ht I) as Hf. rewrite heard_last in Hf. fold said in Hf. by destruct (last said).
Qed.

End reports.
