(* ===== verification/WorkerSpec.v ===== *)
(** * What the worker's operations do

    The functional behaviour of admission, tombstone pruning, request routing, the
    retry of failed starts and the completion of a stop, branch by branch. *)

From S2P Require Import Prelude Types RustStr Traits Volumes Secrets Protocol Worker WorkerInv WorkerThreads WorkerSafety.

(** ** Pruning keeps the youngest tombstones *)

Lemma StronglySorted_split {A} (R : A → A → Prop) n l x y :
  StronglySorted R l → x ∈ take n l → y ∈ drop n l → R x y.
Proof.
  intros Hs. revert n. induction Hs as [|a l Hs IH Hall]; intros [|n]; simpl;
    try (by intros ?%not_elem_of_nil).
  intros [->|Hx]%elem_of_cons Hy; [|by eapply IH].
  eapply Forall_forall; [exact Hall|]. eapply subseteq_drop. exact Hy.
Qed.

Lemma terminal_entry w k p :
  map_Forall (λ k p, pod_id p = k) (pods w) → pods w !! k = Some p → is_terminal (state p) = true →
  (state_changed_at p, k) ∈ terminal_entries w.
Proof.
  intros Hid Hp Ht. apply elem_of_terminal_entries. exists k, p.
  by rewrite (Hid k p Hp).
Qed.

Lemma entry_kept_or_pruned limit w e :
  e ∈ terminal_entries w →
  let n := (length (terminal_entries w) - limit)%nat in
  e ∈ take n (terminal_entries w) ∨ e ∈ drop n (terminal_entries w).
Proof. intros He. cbv zeta. rewrite <-elem_of_app, take_drop. done. Qed.

(** A tombstone is removed exactly when its entry is among the first ones. *)
Lemma pruned_entry limit w k p :
  map_Forall (λ k p, pod_id p = k) (pods w) →
  pods w !! k = Some p → is_terminal (state p) = true →
  let n := (length (terminal_entries w) - limit)%nat in
  (pods (pruned limit w) !! k = None → (state_changed_at p, k) ∈ take n (terminal_entries w)) ∧
  (pods (pruned limit w) !! k = Some p → (state_changed_at p, k) ∈ drop n (terminal_entries w)).
Proof.
  intros Hid Hp Ht n. pose proof (terminal_entry w k p Hid Hp Ht) as He.
  unfold pruned. simpl. rewrite lookup_remove_ids. unfold prune_ids. fold n.
  case_bool_decide as Hk; (split; [|done || (intros _)]); rewrite ?Hp; try done.
  - intros _. apply list_elem_of_fmap in Hk as ([t k'] & Hkk & Hin). simpl in Hkk. subst k'.
    assert (Hin' : (t, k) ∈ terminal_entries w).
    { apply elem_of_take in Hin as (i & Hi & _). by eapply list_elem_of_lookup_2. }
    apply elem_of_terminal_entries in Hin' as (k' & q & Hq & _ & -> & ->).
    rewrite (Hid k' q Hq) in *. by simplify_eq.
  - destruct (entry_kept_or_pruned limit w _ He) as [Htk|]; [|done].
    destruct Hk. apply list_elem_of_fmap. by exists (state_changed_at p, k).
Qed.

Section spec.
  Context {IO RT H : Type} `{!Io IO} `{!Host H} `{!Runtime RT H}.
  Abbreviation C := (@Ctx IO RT H).
  Implicit Types c : C.

(** C11: pruning to a limit never fails, leaves every live pod alone, keeps
    [min limit n] of the [n] tombstones, and forgets the oldest first: a tombstone
    that is forgotten is no younger (by time of death, then id) than one that is kept. *)
Theorem prune_forgets_oldest (n : Z) (limit : nat) (c : C) :
  winv_upto n (worker c) → (limit ≤ MAX_TERMINAL_TOMBSTONES)%nat →
  ∃ c', prune_terminal_pods_to limit c = Done (tt, c') ∧
    terminal_count (worker c') = Z.min (Z.of_nat limit) (terminal_count (worker c)) ∧
    (∀ k p, pods (worker c) !! k = Some p → is_terminal (state p) = false →
       pods (worker c') !! k = Some p) ∧
    (∀ k p k' p', pods (worker c) !! k = Some p → pods (worker c') !! k = None →
       pods (worker c') !! k' = Some p' → is_terminal (state p') = true →
       lex_leb (state_changed_at p, k) (state_changed_at p', k') = true).
Proof.
  intros Hw Hl. exists (with_worker (pruned limit) c). rewrite (prune_eq n) by done.
  pose proof (winv_ids _ _ Hw) as Hid. simpl. split; [done|]. split; [|split].
  - unfold terminal_count at 1, pruned. simpl.
    rewrite remove_ids_count; [|by eapply NoDup_prune_ids|intros; by eapply prune_ids_terminal].
    fold (terminal_count (worker c)). rewrite <-length_terminal_entries, length_prune_ids. lia.
  - intros k p Hp Hlive. unfold pruned. simpl. rewrite lookup_remove_ids.
    case_bool_decide as Hk; [|done].
    destruct (prune_ids_terminal _ _ _ _ Hw Hk) as (q & Hq & Ht). congruence.
  - intros k p k' p' Hp Hnone Hp' Ht'.
    assert (Ht : is_terminal (state p) = true).
    { unfold pruned in Hnone. simpl in Hnone. rewrite lookup_remove_ids in Hnone.
      case_bool_decide as Hk; [|congruence].
      destruct (prune_ids_terminal _ _ _ _ Hw Hk) as (q & Hq & Ht). by simplify_eq. }
    assert (Hp0 : pods (worker c) !! k' = Some p').
    { unfold pruned in Hp'. simpl in Hp'. rewrite lookup_remove_ids in Hp'. by case_bool_decide. }
    pose proof (proj1 (pruned_entry limit _ k p Hid Hp Ht) Hnone) as Hin.
    pose proof (proj2 (pruned_entry limit _ k' p' Hid Hp0 Ht') Hp') as Hin'.
    eapply (StronglySorted_split (λ a b, lex_leb a b = true)); [|exact Hin|exact Hin'].
    apply sort_by_sorted; [apply lex_leb_total|apply lex_leb_trans].
Qed.

(** ** Admission *)

(** What the node can still hold, from the pods themselves. *)
Definition has_slot (w : Worker) : Prop := (size (pods w) < MAX_TRACKED_PODS)%nat.
Definition has_type (w : Worker) (cmd : StartPodCmd) : Prop := sp_gpu_count cmd = 0 ∨ sp_gpu_type cmd = gpu_type w.
Definition has_gpus (w : Worker) (cmd : StartPodCmd) : Prop :=
  map_sum (live gpu_count) (pods w) + sp_gpu_count cmd ≤ gpu_total w.
Definition has_cpu (w : Worker) (cmd : StartPodCmd) : Prop :=
  map_sum (live cpu_millicores) (pods w) + sp_cpu_millicores cmd ≤ cpu_total w.
Definition has_memory (w : Worker) (cmd : StartPodCmd) : Prop :=
  map_sum (live memory_megabytes) (pods w) + sp_memory_megabytes cmd ≤ memory_total w.

Definition fits_node (w : Worker) (cmd : StartPodCmd) : Prop :=
  has_slot w ∧ has_type w cmd ∧ has_gpus w cmd ∧ has_cpu w cmd ∧ has_memory w cmd.

(** The reason given is the first thing that is missing. *)
Inductive refused_for (w : Worker) (cmd : StartPodCmd) : string → Prop :=
| no_slot : ¬ has_slot w → refused_for w cmd "worker tracked-pod capacity exhausted"
| no_type : has_slot w → ¬ has_type w cmd →
    refused_for w cmd "requested GPU type does not match worker GPU type"
| no_gpus : has_slot w → has_type w cmd → ¬ has_gpus w cmd → refused_for w cmd "insufficient GPU capacity"
| no_cpu : has_slot w → has_type w cmd → has_gpus w cmd → ¬ has_cpu w cmd →
    refused_for w cmd "insufficient CPU capacity"
| no_memory : has_slot w → has_type w cmd → has_gpus w cmd → has_cpu w cmd → ¬ has_memory w cmd →
    refused_for w cmd "insufficient memory capacity".

(** The pod an admitted command asks for, with its environment and registry password
    resolved. *)
Record asked_for (cmd : StartPodCmd) (now : Z) (env : list (string * string)) (password : string)
    (p : TrackedPod) : Prop := {
  af_names : pod_id p = sp_pod_id cmd ∧ deployment_id p = sp_deployment_id cmd ∧ image p = sp_image cmd ∧
    entrypoint p = sp_entrypoint cmd ∧ juicefs_path p = sp_juicefs_path cmd;
  af_life : state p = ImagePulling ∧ handle p = None ∧ state_changed_at p = now ∧
    lifecycle_failures p = 0 ∧ lifecycle_retry_after_tick p = 0 ∧ grace_period_ms p = 0;
  af_size : gpu_count p = sp_gpu_count cmd ∧ cpu_millicores p = sp_cpu_millicores cmd ∧
    memory_megabytes p = sp_memory_megabytes cmd;
  af_probes : port p = sp_port cmd ∧ liveness_path p = sp_liveness_path cmd ∧
    readiness_path p = sp_readiness_path cmd ∧ probe_interval_ms p = 10000 ∧ last_probe_tick p = now ∧
    consecutive_failures p = 0;
  af_env : env_vars p = env;
  af_auth : image_pull_auth p =
    match sp_image_pull_username cmd, password with
    | EmptyString, EmptyString => None
    | user, _ => Some (mkImagePullAuth (sp_image_pull_registry cmd) user password)
    end
}.

(** The saturating comparison is the exact one below the type's maximum. *)
Lemma sat_add_fits max total a b :
  0 ≤ a → 0 ≤ b → total < max → (total <? sat_add max a b) = false ↔ a + b ≤ total.
Proof. intros. unfold sat_add. rewrite Z.ltb_ge. lia. Qed.

Lemma start_rejection_exact n w cmd :
  winv_upto n w → start_cmd_wf cmd →
  match start_rejection w cmd with None => fits_node w cmd | Some reason => refused_for w cmd reason end.
Proof.
  intros Hw Hcmd. pose proof (winv_range _ _ Hw) as Hr.
  assert (Hnn : ∀ f, (∀ k p, pods w !! k = Some p → 0 ≤ f p) → 0 ≤ map_sum (live f) (pods w)).
  { intros f Hf. apply map_sum_nonneg. intros k p Hp. unfold live. case_match; [lia|eauto]. }
  destruct Hcmd as [_ _ _ [Hg0 _] [Hc0 _] [Hm0 _]].
  assert (Eg : (gpu_total w <? sat_add U8_MAX (gpu_allocated w) (sp_gpu_count cmd)) = false ↔ has_gpus w cmd).
  { unfold has_gpus. rewrite (wi_gpu _ _ Hw). apply sat_add_fits; [|done|apply (wi_gpu_total _ _ Hw)].
    apply Hnn. intros; by eapply Hr. }
  assert (Ec : (cpu_total w <? sat_add U32_MAX (cpu_allocated_millicores w) (sp_cpu_millicores cmd)) = false ↔ has_cpu w cmd).
  { unfold has_cpu. rewrite (wi_cpu _ _ Hw). apply sat_add_fits; [|done|apply (wi_cpu_total _ _ Hw)].
    apply Hnn. intros; by eapply Hr. }
  assert (Em : (memory_total w <? sat_add U32_MAX (memory_allocated_megabytes w) (sp_memory_megabytes cmd)) = false
               ↔ has_memory w cmd).
  { unfold has_memory. rewrite (wi_mem _ _ Hw). apply sat_add_fits; [|done|apply (wi_mem_total _ _ Hw)].
    apply Hnn. intros; by eapply Hr. }
  assert (Et : ((0 <? sp_gpu_count cmd) && negb (bool_decide (sp_gpu_type cmd = gpu_type w))) = false ↔ has_type w cmd).
  { unfold has_type. destruct (Z.ltb_spec 0 (sp_gpu_count cmd)); case_bool_decide; simpl; intuition lia. }
  unfold start_rejection.
  destruct (Nat.leb_spec MAX_TRACKED_PODS (size (pods w))); [apply no_slot; unfold has_slot; lia|].
  repeat (match goal with |- match (if ?b then _ else _) with _ => _ end => destruct b eqn:?E end;
    [constructor; try done; try (by intuition congruence)|]); [..|by split_and!; intuition].
Qed.

(** Admission as one step: the counters, the resolver, the pod. *)
Lemma admit_pod_eq cmd now c :
  winv (worker c) → start_rejection (worker c) cmd = None →
  ∃ p c', admit_pod cmd now c = send_status (sp_pod_id cmd) RImagePulling c' ∧
    let '(env, r1, h1) := resolve (sp_env_vars cmd) (secret_resolver (worker c)) (host c) in
    let '(password, r2, h2) := resolve_plain_or_secret (sp_image_pull_password cmd)
                                 (sp_image_pull_password_is_secret cmd) r1 h1 in
    asked_for cmd now env (default ""%string password) p ∧
    worker c' = admitted p r2 (worker c) ∧ host c' = h2 ∧ io c' = io c ∧ rt c' = rt c.
Proof.
  intros Hw Hrej. destruct (start_rejection_None _ _ Hw Hrej) as (_ & Hg & Hc & Hm).
  pose proof (wi_gpu_total _ _ Hw). pose proof (wi_cpu_total _ _ Hw). pose proof (wi_mem_total _ _ Hw).
  unfold admit_pod, bind, worker_get, worker_set, add_overflow, with_resolver, put_pod, ret. simpl.
  rewrite (proj2 (Z.leb_le _ _)) by lia. simpl. rewrite (proj2 (Z.leb_le _ _)) by lia. simpl.
  rewrite (proj2 (Z.leb_le _ _)) by lia. simpl.
  destruct (resolve _ _ _) as [[env r1] h1]. simpl.
  destruct (resolve_plain_or_secret _ _ _ _) as [[password r2] h2]. simpl.
  eexists (tracked_pod_of cmd now env (pull_auth_of cmd (default ""%string password))), _.
  split; [reflexivity|]. split; [|split_and!; reflexivity].
  constructor; try done. simpl. unfold pull_auth_of.
  by destruct (sp_image_pull_username cmd), (default ""%string password).
Qed.

(** C9: what StartPod does on every branch.  A duplicate only gets the pod's status again.
    A new pod is admitted exactly when the node can hold it beside its live pods: it is
    tracked as the command asks, its resources are added to the node's accounts, nothing
    else of the worker changes but the secrets it has cached, and [ImagePulling] is
    reported.  Otherwise nothing changes, and the report says what is missing first: a
    slot, the GPU type, GPUs, CPU or memory. *)
Theorem start_pod_admission (cmd : StartPodCmd) (now : Z) (c : C) :
  winv (worker c) → start_cmd_wf cmd →
  match pods (worker c) !! sp_pod_id cmd with
  | Some p =>
    handle_start_pod cmd now c = send_status (sp_pod_id cmd) (tracked_pod_status (state p)) c
  | None =>
    (fits_node (worker c) cmd →
       ∃ p c', handle_start_pod cmd now c = send_status (sp_pod_id cmd) RImagePulling c' ∧
         let '(env, r1, h1) := resolve (sp_env_vars cmd) (secret_resolver (worker c)) (host c) in
         let '(password, r2, h2) := resolve_plain_or_secret (sp_image_pull_password cmd)
                                      (sp_image_pull_password_is_secret cmd) r1 h1 in
         asked_for cmd now env (default ""%string password) p ∧
         worker c' = admitted p r2 (worker c) ∧ host c' = h2 ∧ io c' = io c ∧ rt c' = rt c) ∧
    (¬ fits_node (worker c) cmd → ∃ reason, refused_for (worker c) cmd reason ∧
       handle_start_pod cmd now c = send_status (sp_pod_id cmd) (RFailed reason) c)
  end.
Proof.
  intros Hw Hcmd. destruct (pods (worker c) !! sp_pod_id cmd) as [p|] eqn:Ep.
  { unfold handle_start_pod, bind, get_pod, worker_get. by rewrite Ep. }
  assert (Hsame : with_worker (pruned MAX_TERMINAL_TOMBSTONES) c = c).
  { unfold with_worker. rewrite pruned_id by apply (wi_terminal _ _ Hw). by destruct c. }
  assert (E : handle_start_pod cmd now c = match start_rejection (worker c) cmd with
    | Some reason => reject_start (sp_pod_id cmd) reason
    | None => admit_pod cmd now
    end c).
  { unfold handle_start_pod, bind, get_pod, worker_get.
    by rewrite Ep, (prune_eq (Z.of_nat MAX_TERMINAL_TOMBSTONES)), Hsame. }
  rewrite E. pose proof (start_rejection_exact _ _ _ Hw Hcmd) as Hx.
  destruct (start_rejection (worker c) cmd) as [reason|] eqn:Er; split.
  - intros (? & ? & ? & ? & ?). by destruct Hx.
  - intros _. by exists reason.
  - intros _. by apply admit_pod_eq.
  - done.
Qed.

(** ** Routing *)



(** ** Completing a stop *)

Definition stop_retry_of (now : Z) (p : TrackedPod) : TrackedPod :=
  set_lifecycle_retry_after_tick (sat_add U64_MAX now STOP_RETRY_DELAY_TICKS)
    (set_lifecycle_failures (Z.min (sat_add U8_MAX (lifecycle_failures p) 1) STOP_ATTEMPT_MAX) p).

Lemma schedule_stop_retry_eq id p now c :
  pods (worker c) !! id = Some p → state p = Stopping →
  schedule_stop_retry id now c =
    Done (tt, with_worker (λ w, set_pods (<[id := stop_retry_of now p]> (pods w)) w) c).
Proof.
  intros Hp Hs. unfold schedule_stop_retry, bind, expect_pod, get_pod, worker_get, bind. rewrite Hp.
  simpl. by rewrite bool_decide_eq_true_2.
Qed.

Lemma finish_pod_eq n id q status c :
  pods (worker c) !! id = Some q → is_terminal (state q) = true → handle q = None →
  winv_upto n (entombed id q (worker c)) →
  finish_pod id status c =
    send_status id status (with_worker (λ w, pruned MAX_TERMINAL_TOMBSTONES (entombed id q w)) c).
Proof.
  intros Hq Ht Hh Hw. unfold finish_pod, release_pod_resources, scrub_terminal_pod_data, bind,
    expect_pod, get_pod, worker_get, worker_set, put_pod, bind. rewrite Hq. simpl. rewrite Hq. simpl.
  rewrite Ht. simpl. rewrite bool_decide_eq_true_2 by done. simpl.
  change (worker_set _ _) with (Done (tt, with_worker (entombed id q) c)).
  by rewrite (prune_eq n).
Qed.

Definition final_state (w : Worker) (id exit_code : Z) : TrackedPodState :=
  match pending_failure_reasons w !! id with Some r => Failed r | None => Stopped exit_code end.

(** The worker once the stop of [p] is complete. *)
Definition stop_settled (id exit_code now : Z) (p : TrackedPod) (w : Worker) : Worker :=
  pruned MAX_TERMINAL_TOMBSTONES (entombed id
    (set_lifecycle_retry_after_tick 0 (set_state_changed_at now
      (set_state (final_state w id exit_code) p)))
    (set_pending_failure_reasons (delete id (pending_failure_reasons w)) w)).

Lemma final_state_terminal w id x : is_terminal (final_state w id x) = true.
Proof. unfold final_state. by case_match. Qed.

Lemma settle_stop_eq n id p exit_code now c :
  winv_upto n (worker c) → pods (worker c) !! id = Some p → state p = Stopping → handle p = None →
  ∃ c1, settle_stop id exit_code now c =
      send_status id (tracked_pod_status (final_state (worker c) id exit_code)) c1 ∧
    worker c1 = stop_settled id exit_code now p (worker c) ∧ io c1 = io c.
Proof.
  intros Hw Hp Hs Hh. set (q := set_lifecycle_retry_after_tick 0 (set_state_changed_at now
    (set_state (final_state (worker c) id exit_code) p))).
  set (w1 := set_pending_failure_reasons (delete id (pending_failure_reasons (worker c))) (worker c)).
  pose proof (final_state_terminal (worker c) id exit_code) as Ht.
  assert (Hw1 : winv_upto (n + 1) (entombed id q w1)).
  { eapply (winv_entombed _ w1 id p q).
    - by apply winv_pending_delete.
    - exact Hp.
    - by rewrite Hs.
    - exact Ht.
    - pose proof (wi_pods _ _ Hw id p Hp) as Hwf. apply pod_wf_scrub; [done|done|].
      eapply pod_wf_move; [exact Hwf|..]; simpl; by destruct Hwf.
    - by split.
    - apply lookup_delete_eq. }
  set (c2 := with_worker (λ w, set_pods (<[id:=q]> (pods w)) w1) c).
  assert (Hent : entombed id q (worker c2) = entombed id q w1).
  { unfold entombed. simpl. by rewrite insert_insert_eq. }
  exists (with_worker (λ w, pruned MAX_TERMINAL_TOMBSTONES (entombed id q w)) c2).
  split; [|split; [|done]].
  - rewrite <-(finish_pod_eq (n + 1) id q); [|apply lookup_insert_eq|done|done|by rewrite Hent].
    unfold settle_stop, update_pod, expect_pod, get_pod, worker_get, worker_set, put_pod, bind.
    simpl. rewrite Hp. simpl. unfold final_state, c2, q, final_state, w1.
    by destruct (pending_failure_reasons (worker c) !! id).
  - unfold stop_settled. fold q. fold w1. by rewrite <-Hent.
Qed.

(** The second half of a stop, from a context that differs in the pod's handle. *)
Lemma unmount_and_settle_cases id exit_code now p c c0 :
  winv (worker c) → pods (worker c) !! id = Some p → state p = Stopping →
  worker c0 = set_pods (<[id := set_handle None p]> (pods (worker c))) (worker c) →
  host c0 = host c → io c0 = io c →
  let q := set_handle None p in
  if result_is_ok (unmount_juicefs id (host c)).1 then
    ∃ c1, unmount_and_settle id exit_code now c0 =
        send_status id (tracked_pod_status (final_state (worker c) id exit_code)) c1 ∧
      worker c1 = stop_settled id exit_code now q (worker c) ∧ io c1 = io c
  else ∃ c', unmount_and_settle id exit_code now c0 = Done (tt, c') ∧
    worker c' = set_pods (<[id := stop_retry_of now q]> (pods (worker c))) (worker c) ∧ io c' = io c.
Proof.
  intros Hw Hp Hs Ew Eh Eio. cbv zeta. pose proof (wi_pods _ _ Hw id p Hp) as Hwf.
  assert (Hw0 : winv (worker c0)).
  { rewrite Ew. eapply winv_update; [done|done| |done|by split|done].
    eapply pod_wf_move; [exact Hwf|..]; simpl; rewrite ?Hs; by destruct Hwf. }
  unfold unmount_and_settle, bind, on_host. rewrite Eh.
  destruct (unmount_juicefs id (host c)) as [[[]|e] h']; simpl.
  - destruct (settle_stop_eq (Z.of_nat MAX_TERMINAL_TOMBSTONES) id (set_handle None p) exit_code now
      (mkCtx (worker c0) (io c0) (rt c0) h' (sched c0))) as (c1 & E1 & E2 & E3);
      [exact Hw0|simpl; rewrite Ew; apply lookup_insert_eq|done|done|].
    exists c1. split; [rewrite E1; simpl; by rewrite Ew|]. split; [|by rewrite E3].
    rewrite E2. simpl. rewrite Ew. unfold stop_settled, entombed. simpl.
    by rewrite insert_insert_eq.
  - erewrite (schedule_stop_retry_eq id (set_handle None p));
      [|simpl; rewrite Ew; apply lookup_insert_eq|done].
    eexists. split; [reflexivity|]. split; [|done]. simpl. rewrite Ew. simpl.
    by rewrite insert_insert_eq.
Qed.

(** Both branches of a stop. *)
Lemma complete_pod_stop_cases (id exit_code now : Z) (p : TrackedPod) (c : C) :
  winv (worker c) → pods (worker c) !! id = Some p → state p = Stopping →
  let w := worker c in
  let removed := match handle p with
                 | Some h => result_is_ok (remove_pod h (rt c)).1 | None => true end in
  let unmounted := result_is_ok (unmount_juicefs id (host c)).1 in
  let owner := if removed then set_handle None p else p in
  if removed && unmounted then
    ∃ c1, complete_pod_stop id exit_code now c =
        send_status id (tracked_pod_status (final_state w id exit_code)) c1 ∧
      worker c1 = stop_settled id exit_code now owner w ∧ io c1 = io c
  else
    ∃ c', complete_pod_stop id exit_code now c = Done (tt, c') ∧
      worker c' = set_pods (<[id := stop_retry_of now owner]> (pods w)) w ∧ io c' = io c.
Proof.
  intros Hw Hp Hs. cbv zeta.
  unfold complete_pod_stop, bind, get_pod, index_pod, expect_pod, get_pod, worker_get, assert, bind.
  rewrite Hp. simpl. rewrite bool_decide_eq_true_2 by (by rewrite Hs). simpl. rewrite Hp. simpl.
  destruct (handle p) as [h|] eqn:Eh; simpl.
  - unfold runtime. destruct (remove_pod h (rt c)) as [[[]|e] rt']; simpl.
    + unfold update_pod, bind, expect_pod, get_pod, worker_get, bind. simpl. rewrite Hp. simpl.
      by apply unmount_and_settle_cases.
    + erewrite (schedule_stop_retry_eq id p); [|exact Hp|done].
      by eexists.
  - assert (Hsame : set_handle None p = p) by (destruct p; simpl in *; by subst).
    apply unmount_and_settle_cases; [done..| |done|done].
    rewrite Hsame, insert_id by done. by destruct (worker c).
Qed.

(** C7: a stop is complete only once the runtime confirmed the removal of the
    container and the pod's volume is unmounted.  If either fails the pod stays
    [Stopping] with its resources allocated and a retry 25 ticks later; when both
    succeed it becomes a tombstone ([Failed] with the deferred reason if there is one),
    its resources are released, and that final status is reported. *)
Theorem stop_completion (id exit_code now : Z) (p : TrackedPod) (c : C) :
  winv (worker c) → pods (worker c) !! id = Some p → state p = Stopping →
  let w := worker c in
  let removed := match handle p with
                 | Some h => result_is_ok (remove_pod h (rt c)).1 | None => true end in
  let unmounted := result_is_ok (unmount_juicefs id (host c)).1 in
  let owner := if removed then set_handle None p else p in
  if removed && unmounted then
    ∃ c1, complete_pod_stop id exit_code now c =
        send_status id (tracked_pod_status (final_state w id exit_code)) c1 ∧
      worker c1 = stop_settled id exit_code now owner w ∧ io c1 = io c
  else
    ∃ c', complete_pod_stop id exit_code now c = Done (tt, c') ∧
      worker c' = set_pods (<[id := stop_retry_of now owner]> (pods w)) w ∧ io c' = io c.
Proof. apply complete_pod_stop_cases. Qed.

(** ** Retrying a failed start *)

Lemma retry_lifecycle_pod_cases id now p c :
  winv (worker c) → pods (worker c) !! id = Some p → 0 ≤ now ≤ TICK_MAX →
  retry_lifecycle_pod id now c =
    if lifecycle_failures p <? 2 then
      Done (true, with_worker (λ w, set_pods (<[id := set_lifecycle_retry_after_tick
          (now + (if lifecycle_failures p =? 0 then 50 else 100))
          (set_lifecycle_failures (lifecycle_failures p + 1) p)]> (pods w)) w) c)
    else Done (false, c).
Proof.
  intros Hw Hp Hnow. pose proof (pw_failures _ _ (wi_pods _ _ Hw id p Hp)) as Hf.
  unfold STOP_ATTEMPT_MAX, TICK_MAX in *.
  unfold retry_lifecycle_pod, bind, get_pod, worker_get, add_overflow, assert. rewrite Hp. unfold LIFECYCLE_RETRY_MAX.
  destruct (Z.ltb_spec (lifecycle_failures p) 2) as [Hlt|Hge].
  - rewrite (proj2 (Z.leb_gt 3 _)) by int_lia. rewrite (proj2 (Z.leb_le (lifecycle_failures p + 1) U8_MAX)) by int_lia.
    unfold ret at 1. rewrite (proj2 (Z.ltb_lt (lifecycle_failures p + 1) 64)) by int_lia.
    assert (Hd : sat_add U64_MAX now (sat_mul U64_MAX LIFECYCLE_RETRY_DELAY_TICKS (Z.shiftl 1 (lifecycle_failures p + 1))) =
      now + (if lifecycle_failures p =? 0 then 50 else 100)).
    { assert (lifecycle_failures p = 0 ∨ lifecycle_failures p = 1) as [-> | ->] by int_lia;
        [change (Z.shiftl 1 (0 + 1)) with 2|change (Z.shiftl 1 (1 + 1)) with 4];
        unfold LIFECYCLE_RETRY_DELAY_TICKS, sat_mul, sat_add; simpl; int_lia. }
    cbv zeta. by rewrite Hd.
  - by rewrite (proj2 (Z.leb_le 3 _)) by int_lia.
Qed.

(** Giving a pod up that has a container: it is to be stopped, and the reason is kept. *)
Definition given_up (id now : Z) (reason : string) (p : TrackedPod) (w : Worker) : Worker :=
  set_pending_failure_reasons (<[id := reason]> (pending_failure_reasons w))
    (set_pods (<[id := begin_stop 0 now p]> (pods w)) w).

Lemma fail_pod_with_container id now reason p c :
  winv (worker c) → pods (worker c) !! id = Some p → state p = Starting →
  fail_pod id reason now c = Done (tt, with_worker (given_up id now reason p) c).
Proof.
  intros Hw Hp Hs. pose proof (pw_handle _ _ (wi_pods _ _ Hw id p Hp)) as Hh. rewrite Hs in Hh. destruct Hh as [h Hh].
  pose proof (winv_not_pending _ _ _ _ Hw Hp ltac:(by rewrite Hs)) as Hnone.
  assert (Hsize : (size (pending_failure_reasons (given_up id now reason p (worker c)))
                   ≤ size (pods (given_up id now reason p (worker c))))%nat).
  { eapply winv_pending_size. apply (winv_pending_insert (Z.of_nat MAX_TERMINAL_TOMBSTONES)
      (set_pods (<[id := begin_stop 0 now p]> (pods (worker c))) (worker c)) id (begin_stop 0 now p) reason);
      [|apply lookup_insert_eq|done].
    eapply winv_update; [exact Hw|exact Hp| |by rewrite Hs|by split|done].
    apply pod_wf_begin_stop; [by apply (wi_pods _ _ Hw)|by rewrite Hs|lia]. }
  unfold fail_pod, bind, expect_pod, get_pod, worker_get, bind. rewrite Hp. simpl. rewrite Hh. simpl.
  unfold defer_failure, update_pod, expect_pod, get_pod, put_pod, worker_get, worker_set, bind. simpl. rewrite Hp. simpl.
  rewrite Hnone. simpl. unfold assert. simpl in Hsize. by rewrite (proj2 (Nat.leb_le _ _)).
Qed.

(** C12: what becomes of a failed start.  The first two times the container is removed and
    the pod goes back to being created, not before 50 and then 100 ticks have passed; the
    third time, or if the container cannot be removed, it is given up: it is being stopped,
    with the error as its pending reason.  And a pod with a pending reason is reported
    [Failed] with that very reason, and is a tombstone, once its stop is complete; as long
    as removal or unmounting fail the reason stays pending and the stop is tried again. *)
Theorem start_retry_backoff (id now : Z) (h : PodHandle) (e : RuntimeError) (p : TrackedPod) (c : C) :
  winv (worker c) → pods (worker c) !! id = Some p → state p = Starting → 0 ≤ now ≤ TICK_MAX →
  let w := worker c in
  let again := set_lifecycle_retry_after_tick (now + (if lifecycle_failures p =? 0 then 50 else 100))
                 (set_lifecycle_failures (lifecycle_failures p + 1) p) in
  (∃ c', recover_start id now h e c = Done (tt, c') ∧ io c' = io c ∧
     if lifecycle_failures p <? 2 then
       match (remove_pod h (rt c)).1 with
       | Ok _ => worker c' =
           set_pods (<[id := set_state_changed_at now (set_state Creating (set_handle None again))]> (pods w)) w
       | Err x => worker c' = given_up id now
           (runtime_error_to_string e +:+ "; failed start cleanup remains unverified: " +:+ runtime_error_to_string x) again w
       end
     else worker c' = given_up id now (runtime_error_to_string e) p w) ∧
  (∀ c2 q reason exit_code later,
     winv (worker c2) → pods (worker c2) !! id = Some q → state q = Stopping →
     pending_failure_reasons (worker c2) !! id = Some reason →
     (∃ c3, complete_pod_stop id exit_code later c2 = send_status id (RFailed reason) c3 ∧
        pending_failure_reasons (worker c3) !! id = None) ∨
     (∃ c3, complete_pod_stop id exit_code later c2 = Done (tt, c3) ∧ pstate (worker c3) id = Some Stopping ∧
        pending_failure_reasons (worker c3) !! id = Some reason)).
Proof.
  intros Hw Hp Hs Hnow w again. split.
  - unfold recover_start, bind. rewrite (retry_lifecycle_pod_cases id now p) by done.
    destruct (lifecycle_failures p <? 2) eqn:Hf; [|rewrite (fail_pod_with_container id now _ p) by done; by eexists].
    fold again. set (c1 := with_worker _ c). unfold runtime. change (rt c1) with (rt c).
    assert (Hw1 : winv (worker c1)).
    { apply Z.ltb_lt in Hf. pose proof (wi_pods _ _ Hw id p Hp) as Hwf. pose proof (pw_failures _ _ Hwf).
      eapply winv_update; [exact Hw|exact Hp| |done|by split|].
      - apply pod_wf_retry; [done| |by rewrite Hs]. unfold STOP_ATTEMPT_MAX in *. lia.
      - rewrite (winv_not_pending _ _ _ _ Hw Hp) by (by rewrite Hs). by intros []. }
    destruct (remove_pod h (rt c)) as [[[]|x] rt']; cbn [fst].
    + unfold get_pod, worker_get. cbn [worker pods]. change (pods (worker c1)) with (<[id := again]> (pods (worker c))).
      rewrite lookup_insert_eq. eexists. split; [reflexivity|].
      split; [done|]. simpl. by rewrite insert_insert_eq.
    + rewrite (fail_pod_with_container id now _ again); [|done|apply lookup_insert_eq|done].
      eexists. split; [reflexivity|]. split; [done|]. unfold given_up. simpl. by rewrite insert_insert_eq.
  - clear dependent c. intros c q reason exit_code later Hw Hq Hst Hr.
    pose proof (complete_pod_stop_cases id exit_code later q c Hw Hq Hst) as Hc. cbv zeta in Hc.
    destruct (_ && _); destruct Hc as (c3 & E & Ew & _); [left|right]; exists c3.
    + split; [|rewrite Ew; unfold stop_settled; simpl; apply lookup_delete_eq].
      rewrite E. unfold final_state. by rewrite Hr.
    + split; [done|]. rewrite Ew. unfold pstate. simpl. rewrite lookup_insert_eq. split; [|done]. simpl.
      case_match; by rewrite <-Hst.
Qed.

End spec.
