(* ===== verification/WorkerShutdown.v ===== *)
(** * Shutdown

    [shutdown_with_deadline] fails no assertion from any state that satisfies the
    invariant, whatever the runtime and the clock do, and what its answer means.  The
    accounts stay exact when it starts without tombstones ([WorkerExamples] shows why
    that is needed). *)

From S2P Require Import Prelude Types RustStr Traits Volumes Secrets Protocol Worker WorkerInv WorkerThreads WorkerSafety.

(** The accounts of a worker without tombstones. *)
Record accounts (w : Worker) : Prop := {
  ac_gpu : gpu_allocated w = map_sum gpu_count (pods w);
  ac_cpu : cpu_allocated_millicores w = map_sum cpu_millicores (pods w);
  ac_mem : memory_allocated_megabytes w = map_sum memory_megabytes (pods w);
  ac_live : map_Forall (λ _ p, is_terminal (state p) = false) (pods w)
}.

(** What the loop needs of a pod; between the removal of a container and the end of
    the pod's round a running pod has no handle, so this is less than [pod_wf]. *)
Definition counts_wf (p : TrackedPod) : Prop :=
  0 ≤ gpu_count p ∧ 0 ≤ cpu_millicores p ∧ 0 ≤ memory_megabytes p.

(** The invariant of the shutdown loop; [X]: it started without tombstones. *)
Record sinv (X : Prop) (w : Worker) : Prop := {
  si_pods : map_Forall (λ _ p, counts_wf p) (pods w);
  si_pending : ∀ k r, pending_failure_reasons w !! k = Some r →
    ∃ p, pods w !! k = Some p ∧ state p = Stopping;
  si_accounts : X → accounts w
}.

Lemma no_tombstones w : terminal_count w = 0 → map_Forall (λ _ p, is_terminal (state p) = false) (pods w).
Proof.
  intros Ht k p Hp. destruct (is_terminal (state p)) eqn:E; [|done].
  assert (count_of terminal_pod p ≤ terminal_count w) as Hle.
  { apply (map_sum_lookup_le _ _ k); [|done]. intros k' p' _. unfold count_of. case_match; lia. }
  unfold count_of, terminal_pod in Hle. rewrite E in Hle. lia.
Qed.

Lemma sinv_start w : winv w → sinv (terminal_count w = 0) w.
Proof.
  intros Hw. constructor; [intros k p Hp; by eapply winv_range|apply Hw|]. intros Ht%no_tombstones.
  assert (Hl : ∀ f, map_sum (live f) (pods w) = map_sum f (pods w)).
  { intros f. apply map_sum_ext. intros k p Hp. unfold live. by rewrite (Ht k p Hp). }
  constructor; [rewrite <-Hl; apply Hw..|done].
Qed.

(** Updating a pod to a live one, with its account unchanged. *)
Lemma sinv_update X w k p q :
  sinv X w → pods w !! k = Some p → same_account p q →
  is_terminal (state q) = false ∨ state q = state p →
  (state q = Stopping ∨ state p ≠ Stopping) →
  sinv X (set_pods (<[k:=q]> (pods w)) w).
Proof.
  intros [Hpods Hpend Hacc] Hp [Hg Hc Hm] Hlive Hstop. constructor; simpl.
  - apply map_Forall_insert_2; [|done]. unfold counts_wf. rewrite Hg, Hc, Hm. by apply (Hpods k p).
  - intros k' r Hr. destruct (Hpend k' r Hr) as (p' & Hp' & Hs').
    destruct (decide (k' = k)) as [->|Hne].
    + exists q. rewrite lookup_insert_eq. split; [done|]. simplify_eq. by destruct Hstop.
    + exists p'. by rewrite lookup_insert_ne.
  - intros HX. destruct (Hacc HX) as [Eg Ec Em El]. constructor; simpl;
      rewrite ?(map_sum_update _ _ _ p) by done; try lia.
    apply map_Forall_insert_2; [|done]. destruct Hlive as [|Hs]; [done|]. rewrite Hs. by apply (El k).
Qed.

(** Untracking pod [k], its deferred failure and, if it was live, its resources. *)
Definition untracked (k : Z) (p : TrackedPod) (w : Worker) : Worker :=
  let w1 := set_pending_failure_reasons (delete k (pending_failure_reasons w)) w in
  let w2 := if is_terminal (state p) then w1 else release p w1 in
  set_pods (delete k (pods w)) w2.

Lemma sinv_untracked X w k p :
  sinv X w → pods w !! k = Some p → sinv X (untracked k p w).
Proof.
  intros [Hpods Hpend Hacc] Hp. unfold untracked. cbv zeta. constructor.
  - by apply map_Forall_delete.
  - intros k' r Hr. assert (pending_failure_reasons w !! k' = Some r ∧ k' ≠ k) as [Hr' Hne].
    { destruct (is_terminal (state p)); simpl in Hr; apply lookup_delete_Some in Hr as [? ?]; done. }
    destruct (Hpend k' r Hr') as (p' & Hp' & Hs'). exists p'. simpl. by rewrite lookup_delete_ne.
  - intros HX. destruct (Hacc HX) as [Eg Ec Em El]. pose proof (El k p Hp) as Hl. simpl in Hl.
    assert (Hr : ∀ k p, pods w !! k = Some p →
      0 ≤ gpu_count p ∧ 0 ≤ cpu_millicores p ∧ 0 ≤ memory_megabytes p) by apply Hpods.
    pose proof (map_sum_lookup_le gpu_count _ k p ltac:(intros; by eapply Hr) Hp).
    pose proof (map_sum_lookup_le cpu_millicores _ k p ltac:(intros; by eapply Hr) Hp).
    pose proof (map_sum_lookup_le memory_megabytes _ k p ltac:(intros; by eapply Hr) Hp).
    destruct (Hr k p Hp) as (? & ? & ?). rewrite Hl.
    constructor; simpl; rewrite ?(map_sum_delete _ _ k p) by done; unfold sat_sub; try lia.
    by apply map_Forall_delete.
Qed.

Section shutdown.
  Context {IO RT H : Type} `{!Io IO} `{!Host H} `{!Runtime RT H} `{LAWS : !IoLaws IO}.
  Abbreviation C := (@Ctx IO RT H).
  Implicit Types c : C.
  Abbreviation P := io_panics.

Definition scinv (X : Prop) (c : C) : Prop := sinv X (worker c) ∧ io_wf (io c).

Lemma scinv_worker X c c' : scinv X c → worker c' = worker c → io c' = io c → scinv X c'.
Proof. unfold scinv. by intros ? -> ->. Qed.

(** Searching for the exit code changes the runtime and the host only. *)
Lemma shutdown_stop_ok n h grace deadline c :
  wp P (shutdown_stop n h grace deadline) (λ _ c', worker c' = worker c ∧ io c' = io c) c.
Proof.
  revert c. induction n as [|n IH]; intros c; simpl; [done|].
  wp_step. apply wp_on_host. intros now c1 Hw1 Hio1. cbv zeta.
  case_match; [by apply wp_ret|].
  wp_step. apply wp_runtime_until. intros _ c2 Hw2 Hio2.
  wp_step. apply wp_runtime_until. intros st c3 Hw3 Hio3.
  assert (Hsame : worker c3 = worker c ∧ io c3 = io c) by (split; congruence).
  repeat case_match; try (by apply wp_ret); (eapply wp_mono; [apply IH|]);
    simpl; intros _ c' [-> ->]; done.
Qed.

Lemma shutdown_verify_ok h grace failures deadline c :
  wp P (shutdown_verify h grace failures deadline) (λ _ c', worker c' = worker c ∧ io c' = io c) c.
Proof.
  unfold shutdown_verify. cbv zeta. wp_step. eapply wp_mono; [apply shutdown_stop_ok|].
  intros v c1 [Hw1 Hio1]. case_match; [|by apply wp_ret].
  wp_step. apply wp_runtime_until. intros st c2 Hw2 Hio2. apply wp_ret. split; congruence.
Qed.

(** Giving up on a pod. *)
Lemma retain_ok X id p c :
  scinv X c → pods (worker c) !! id = Some p →
  wp P (update_pod id "shutdown pod must remain tracked" retain) (λ _ c', scinv X c') c.
Proof.
  intros [Hs Hio] Hp. eapply wp_update_pod; [done|]. split; [|done].
  eapply sinv_update; [done|done|by split|by left|by left].
Qed.

Lemma shutdown_settle_ok X id p deadline exit_code c :
  scinv X c → pods (worker c) !! id = Some p →
  wp P (shutdown_settle id deadline exit_code (is_terminal (state p))) (λ _ c', scinv X c') c.
Proof.
  intros Hc Hp. unfold shutdown_settle. wp_step. apply wp_on_host. intros r c1 Hw1 Hio1.
  pose proof (scinv_worker X c c1 Hc Hw1 Hio1) as Hc1. rewrite <-Hw1 in Hp.
  destruct r as [_|_]; [|by eapply retain_ok].
  pose proof (sinv_untracked X _ id p (proj1 Hc1) Hp) as Hun. unfold untracked in Hun. cbv zeta in Hun.
  wp_step. apply wp_worker_get. wp_step. apply wp_worker_set. wp_step.
  destruct (is_terminal (state p)) eqn:Et.
  - apply wp_assert; [|apply wp_worker_set; split; [exact Hun|apply Hc1]].
    apply bool_decide_eq_true.
    destruct (pending_failure_reasons (worker c1) !! id) as [r|] eqn:E; [|done].
    destruct (si_pending _ _ (proj1 Hc1) id r E) as (p' & Hp' & Hs'). simplify_eq. by rewrite Hs' in Et.
  - unfold release_pod_resources. wp_step. wp_step. apply wp_get_pod. simpl. rewrite Hp.
    apply wp_worker_set. apply wp_send; [done|apply Hc1|]. intros c2 Hw2 Hio2 _.
    apply wp_worker_set. split; [|done]. simpl. rewrite Hw2. exact Hun.
Qed.

Lemma shutdown_pod_ok X deadline id p c :
  scinv X c → pods (worker c) !! id = Some p →
  wp P (shutdown_pod deadline id p) (λ _ c', scinv X c') c.
Proof.
  intros Hc Hp. unfold shutdown_pod. cbv zeta. wp_step.
  apply (wp_mono P _ (λ _ c', worker c' = worker c ∧ io c' = io c)).
  { repeat case_match; try (by apply wp_ret); apply shutdown_verify_ok. }
  intros v c1 [Hw1 Hio1]. pose proof (scinv_worker X c c1 Hc Hw1 Hio1) as Hc1. rewrite <-Hw1 in Hp.
  destruct v as [exit_code|].
  - destruct (handle p) as [h|] eqn:Eh; [|by apply shutdown_settle_ok].
    wp_step. apply wp_runtime_until. intros r c2 Hw2 Hio2.
    pose proof (scinv_worker X c1 c2 Hc1 Hw2 Hio2) as Hc2. rewrite <-Hw2 in Hp.
    destruct r as [_|_]; [|by eapply retain_ok].
    wp_step. eapply wp_update_pod; [done|].
    eapply (shutdown_settle_ok X id (set_handle None p)); [|apply lookup_insert_eq].
    split; [|apply Hc2]. eapply sinv_update; [apply Hc2|done|by split|by right|].
    destruct (decide (state p = Stopping)); [by left|by right].
  - apply wp_when; [|done]. intros _. by eapply retain_ok.
Qed.

Lemma shutdown_loop_ok X deadline ids c :
  scinv X c → wp P (shutdown_loop deadline ids) (λ _ c', scinv X c') c.
Proof.
  revert c. induction ids as [|id ids IH]; intros c Hc; simpl; [done|].
  wp_step. apply wp_on_host. intros now c1 Hw1 Hio1.
  pose proof (scinv_worker X c c1 Hc Hw1 Hio1) as Hc1.
  case_match; [by apply wp_ret|]. wp_step. apply wp_get_pod.
  destruct (pods (worker c1) !! id) as [p|] eqn:Ep.
  - wp_step. eapply wp_mono; [by apply shutdown_pod_ok|]. auto.
  - wp_step. apply wp_ret. auto.
Qed.

Lemma accounts_empty w : accounts w → pods w = ∅ →
  gpu_allocated w = 0 ∧ cpu_allocated_millicores w = 0 ∧ memory_allocated_megabytes w = 0.
Proof. intros [-> -> -> _] ->. by rewrite !map_sum_empty. Qed.

(** What the answer of a shutdown says of the worker it leaves. *)
Definition shutdown_post (X : Prop) (b : bool) (w : Worker) : Prop :=
  (b = true ↔ pods w = ∅) ∧ (b = true → pending_failure_reasons w = ∅) ∧
  (X → accounts w ∧ (b = true → gpu_allocated w = 0 ∧ cpu_allocated_millicores w = 0 ∧
                                 memory_allocated_megabytes w = 0)).

Lemma shutdown_ok X budget c :
  scinv X c → 0 < budget →
  wp P (shutdown_with_deadline budget) (λ b c', shutdown_post X b (worker c')) c.
Proof.
  intros Hc Hb. unfold shutdown_with_deadline. wp_step.
  apply wp_assert; [rewrite negb_true_iff, Z.eqb_neq; lia|].
  wp_step. apply wp_on_host. intros start c1 Hw1 Hio1. wp_step. apply wp_worker_get. wp_step.
  eapply wp_mono; [apply (shutdown_loop_ok X); by eapply scinv_worker|].
  intros _ c2 [[Hpods Hpend Hacc] _]. wp_step. apply wp_worker_get. case_bool_decide as He.
  - wp_step. assert (Hnone : pending_failure_reasons (worker c2) = ∅).
    { apply map_empty. intros k. destruct (pending_failure_reasons (worker c2) !! k) as [r|] eqn:E; [|done].
      destruct (Hpend k r E) as (p & Hp & _). by rewrite He, lookup_empty in Hp. }
    apply wp_assert; [by apply bool_decide_eq_true|]. apply wp_ret.
    split; [done|]. split; [done|]. intros HX. split; [by apply Hacc|]. intros _.
    by apply accounts_empty; [apply Hacc|].
  - apply wp_ret. split; [done|]. split; [done|]. intros HX. split; [by apply Hacc|done].
Qed.

(** A worker with nothing to clean up says so at once. *)
Lemma shutdown_empty budget c :
  pods (worker c) = ∅ → pending_failure_reasons (worker c) = ∅ → 0 < budget →
  ∃ c', shutdown_with_deadline budget c = Done (true, c') ∧ worker c' = worker c.
Proof.
  intros Hp Hf Hb. unfold shutdown_with_deadline.
  assert (Hids : sorted_pod_ids (worker c) = []).
  { unfold sorted_pod_ids, keys. by rewrite Hp, map_to_list_empty. }
  unfold on_host, worker_get, bind, assert. rewrite (proj2 (Z.eqb_neq _ _)) by lia. cbn [negb]. unfold ret.
  destruct (instant_now (host c)) as [now h]. cbn [worker]. rewrite Hids. cbn [shutdown_loop]. unfold ret.
  cbn [worker]. rewrite Hp, Hf, !bool_decide_eq_true_2 by done. eexists. split; reflexivity.
Qed.

(** C10: shutdown fails no assertion of its own and always answers, whatever the
    runtime, the host and the clock do.  [true] means that no pod and no deferred failure
    is left (and, if it started without tombstones, that every resource is released);
    [false] that some pod is still tracked, and then the resources of the pods still
    tracked stay exactly allocated. *)
Theorem shutdown_answer (budget : Z) (c : C) :
  winv (worker c) → io_wf (io c) → 0 < budget →
  (∃ b c', shutdown_with_deadline budget c = Done (b, c') ∧
     (b = true ↔ pods (worker c') = ∅) ∧ (b = true → pending_failure_reasons (worker c') = ∅) ∧
     (terminal_count (worker c) = 0 → accounts (worker c') ∧
        (b = true → gpu_allocated (worker c') = 0 ∧ cpu_allocated_millicores (worker c') = 0 ∧
                    memory_allocated_megabytes (worker c') = 0))) ∨
  (∃ e, shutdown_with_deadline budget c = Panic e ∧ io_panics e).
Proof.
  intros Hw Hio Hb.
  assert (Hc : scinv (terminal_count (worker c) = 0) c) by (split; [by apply sinv_start|done]).
  pose proof (shutdown_ok _ budget c Hc Hb) as Hwp.
  apply wp_run in Hwp as [(b & c' & E & Hpost)|(e & E & He)]; [left|right]; eauto.
Qed.

End shutdown.
