(* ===== verification/RealIo.v ===== *)
(** * The TCP [Io]: [worker/src/real_io.rs]

    The socket is the environment: what reads will give is a script of events, what
    writes will do another, both arbitrary.  [recv] reassembles frames from the
    stream in a fixed buffer; its loop has fuel for every event and byte of the script.
    The clock is sampled once per tick, as the worker does. *)

From S2P Require Import Prelude Types Prng RustStr Crypto Protocol Frame Traits.
From S2P Require Import Worker WorkerInv WorkerThreads WorkerSafety.

Definition READ_BUFFER_SIZE : nat := Z.to_nat 32768.

(** What a read finds: bytes ([GotBytes []] is the end of the stream), or an error. *)
Inductive ReadEvent :=
| GotBytes (b : bytes)
| GotError (e : io_error).

(** What a write does: all of it, or some bytes and an error. *)
Inductive WriteEvent :=
| Wrote
| WriteFailed (n : nat) (e : io_error).

Record TcpStream := mkTcpStream {
  incoming : list ReadEvent;
  write_events : list WriteEvent;
  outgoing : bytes;
  shut_down : bool
}.

Definition set_incoming (x : list ReadEvent) (t : TcpStream) : TcpStream :=
  mkTcpStream x (write_events t) (outgoing t) (shut_down t).

(** [stream.read(space)] into [n] free bytes; a socket with nothing to read would block. *)
Definition stream_read (n : nat) (t : TcpStream) : result bytes io_error * TcpStream :=
  match incoming t with
  | [] => (Err (mkIoError WouldBlock "Resource temporarily unavailable"), t)
  | GotError e :: evs => (Err e, set_incoming evs t)
  | GotBytes b :: evs =>
    let evs := match drop n b with [] => evs | rest => GotBytes rest :: evs end in
    (Ok (take n b), set_incoming evs t)
  end.

Definition stream_write_all (b : bytes) (t : TcpStream) : result unit io_error * TcpStream :=
  match write_events t with
  | WriteFailed n e :: evs => (Err e, mkTcpStream (incoming t) evs (outgoing t ++ take n b) (shut_down t))
  | Wrote :: evs => (Ok tt, mkTcpStream (incoming t) evs (outgoing t ++ b) (shut_down t))
  | [] => (Ok tt, mkTcpStream (incoming t) [] (outgoing t ++ b) (shut_down t))
  end.

#[export] Instance tcp_writer : Writer TcpStream := {
  write_all := stream_write_all;
  flush t := (Ok tt, t)
}.

Definition shutdown_stream (t : TcpStream) : TcpStream :=
  mkTcpStream (incoming t) (write_events t) (outgoing t) true.

(** [RealIo] with what it asks the system for: the wall clock and random nonces. *)
Record RealIo := mkRealIo {
  stream : TcpStream;
  read_buf : bytes;
  frame_buf : bytes;
  frame_pos : nat;
  write_buf : bytes;
  rio_prng : Prng;
  connected : bool;
  encryption_key : option bytes;
  wall_ms : Z;
  nonces : list bytes
}.

Definition set_connected (b : bool) (r : RealIo) : RealIo :=
  mkRealIo (stream r) (read_buf r) (frame_buf r) (frame_pos r) (write_buf r) (rio_prng r) b
    (encryption_key r) (wall_ms r) (nonces r).
Definition set_stream (t : TcpStream) (r : RealIo) : RealIo :=
  mkRealIo t (read_buf r) (frame_buf r) (frame_pos r) (write_buf r) (rio_prng r) (connected r)
    (encryption_key r) (wall_ms r) (nonces r).
Definition set_read_buf (b : bytes) (r : RealIo) : RealIo :=
  mkRealIo (stream r) b (frame_buf r) (frame_pos r) (write_buf r) (rio_prng r) (connected r)
    (encryption_key r) (wall_ms r) (nonces r).
Definition set_frames (b : bytes) (pos : nat) (r : RealIo) : RealIo :=
  mkRealIo (stream r) (read_buf r) b pos (write_buf r) (rio_prng r) (connected r)
    (encryption_key r) (wall_ms r) (nonces r).
Definition set_write_buf (b : bytes) (r : RealIo) : RealIo :=
  mkRealIo (stream r) (read_buf r) (frame_buf r) (frame_pos r) b (rio_prng r) (connected r)
    (encryption_key r) (wall_ms r) (nonces r).
Definition set_nonces (l : list bytes) (r : RealIo) : RealIo :=
  mkRealIo (stream r) (read_buf r) (frame_buf r) (frame_pos r) (write_buf r) (rio_prng r) (connected r)
    (encryption_key r) (wall_ms r) l.

(** [RealIo::connect_timeout], over the address parser and the connector of the
    standard library; [now_nanos] seeds the generator. *)
Definition connect_timeout {Addr : Type} (parse_addr : string → option Addr)
    (tcp_connect : Addr → Z → result TcpStream io_error) (now_nanos now_ms : Z) (rng : list bytes)
    (addr : string) (key : option bytes) (timeout : Z) : result RealIo io_error :=
  if timeout =? 0 then Err (mkIoError InvalidInput "connect timeout is zero")
  else match parse_addr addr with
  | None => Err (mkIoError InvalidInput "replica address must be an IP socket address")
  | Some a =>
    match tcp_connect a timeout with
    | Err e => Err e
    | Ok t =>
      Ok (mkRealIo t (zeros MAX_FRAME_PAYLOAD) (zeros READ_BUFFER_SIZE) 0 (zeros MAX_FRAME_PAYLOAD)
            (prng_init (wrap64 now_nanos)) true key now_ms rng)
    end
  end.

Definition connect {Addr : Type} (parse_addr : string → option Addr)
    (tcp_connect : Addr → Z → result TcpStream io_error) (now_nanos now_ms : Z) (rng : list bytes)
    (addr : string) (key : option bytes) : result RealIo io_error :=
  connect_timeout parse_addr tcp_connect now_nanos now_ms rng addr key (from_secs 2).

Section real_io.
  Context `{!Aead}.

(** [decode_buffered_frame]; the slices are in range by [real_io_wf]. *)
Definition decode_buffered_frame (r : RealIo) : outcome (option ControlMessage * RealIo) :=
  let! (res, buf) := try_decode_frame (take (frame_pos r) (frame_buf r)) (read_buf r) (encryption_key r) in
  let r := set_read_buf buf r in
  match res with
  | Ok (Some (msg_type, payload_len, consumed)) =>
    let moved := slice consumed (frame_pos r) (frame_buf r) in
    let r := set_frames (splice 0 moved (frame_buf r)) (frame_pos r - consumed) r in
    let! m := decode_control_message msg_type (take payload_len (read_buf r)) in
    match m with
    | Ok msg => Done (Some msg, r)
    | Err _ => Done (None, set_connected false (set_stream (shutdown_stream (stream r)) r))
    end
  | Ok None => Done (None, r)
  | Err _ => Done (None, set_connected false r)
  end.

(** [Io::send]. *)
Definition real_send (msg : WorkerMessage) (r : RealIo) : RealIo :=
  if negb (connected r) then r
  else
    match encode_agent_message msg (write_buf r) with
    | (Err _, buf) => set_connected false (set_write_buf buf r)
    | (Ok (msg_type, payload_len), buf) =>
      let r := set_write_buf buf r in
      let nonce := default (zeros NONCE_LEN) (head (nonces r)) in
      let '(res, t) := write_frame_encrypted nonce (stream r) msg_type (take payload_len buf) (encryption_key r) in
      let r := set_nonces (tail (nonces r)) (set_stream t r) in
      match res with Ok _ => r | Err _ => set_connected false r end
    end.

(** The loop of [Io::recv]. *)
Fixpoint recv_stream (fuel : nat) (r : RealIo) : outcome (option ControlMessage * RealIo) :=
  match fuel with
  | O => Panic "recv loop did not finish"
  | S fuel =>
    let! (msg, r) := decode_buffered_frame r in
    match msg with
    | Some msg => Done (Some msg, r)
    | None =>
      if negb (connected r) then Done (None, r)
      else
        let space := (length (frame_buf r) - frame_pos r)%nat in
        if (space =? 0)%nat then Done (None, set_connected false r)
        else
          let '(got, t) := stream_read space (stream r) in
          let r := set_stream t r in
          match got with
          | Ok [] => Done (None, set_connected false r)
          | Ok b => recv_stream fuel
              (set_frames (splice (frame_pos r) b (frame_buf r)) (frame_pos r + length b) r)
          | Err e =>
            match err_kind e with
            | WouldBlock => Done (None, r)
            | Interrupted => recv_stream fuel r
            | _ => Done (None, set_connected false r)
            end
          end
    end
  end.

(** The bytes and events still to come. *)
Definition event_size (e : ReadEvent) : nat := match e with GotBytes b => length b | GotError _ => 0 end.
Definition unread (evs : list ReadEvent) : nat := sum_list_with event_size evs.
Definition recv_fuel (r : RealIo) : nat := S (length (incoming (stream r)) + unread (incoming (stream r))).

Definition real_recv (r : RealIo) : outcome (option ControlMessage * RealIo) :=
  if negb (connected r) then Done (None, r) else recv_stream (recv_fuel r) r.

#[export] Instance real_io : Io RealIo := {
  io_now := wall_ms;
  io_send m r := Done (real_send m r);
  io_recv := real_recv;
  io_random_u64 r :=
    let '(x, p) := prng_next (rio_prng r) in
    (x, mkRealIo (stream r) (read_buf r) (frame_buf r) (frame_pos r) (write_buf r) p (connected r)
          (encryption_key r) (wall_ms r) (nonces r))
}.

End real_io.

(** ** The buffer invariant *)

Record real_io_wf (r : RealIo) : Prop := {
  rw_read : length (read_buf r) = MAX_FRAME_PAYLOAD;
  rw_frames : length (frame_buf r) = READ_BUFFER_SIZE;
  rw_pos : (frame_pos r ≤ READ_BUFFER_SIZE)%nat;
  rw_write : length (write_buf r) = MAX_FRAME_PAYLOAD
}.

(** The bytes received and not yet decoded. *)
Definition buffered (r : RealIo) : bytes := take (frame_pos r) (frame_buf r).

Lemma length_buffered r : real_io_wf r → length (buffered r) = frame_pos r.
Proof. intros []. unfold buffered. rewrite length_take. lia. Qed.

Lemma connect_wf {Addr} parse tcp nanos ms rng addr key timeout r :
  connect_timeout (Addr := Addr) parse tcp nanos ms rng addr key timeout = Ok r → real_io_wf r.
Proof.
  unfold connect_timeout. intros E. repeat case_match; simplify_eq. constructor; cbn [read_buf frame_buf frame_pos write_buf]; [apply length_zeros|apply length_zeros|lia|apply length_zeros].
Qed.

Section facts.
  Context `{!Aead}.

(** What one decoding step does to the buffer: [c] bytes are gone from its front. *)
Record decoded_step (r r' : RealIo) (c : nat) : Prop := {
  ds_wf : real_io_wf r';
  ds_buffered : buffered r' = drop c (buffered r);
  ds_bound : (c ≤ frame_pos r)%nat;
  ds_stream : incoming (stream r') = incoming (stream r) ∧ outgoing (stream r') = outgoing (stream r);
  ds_clock : wall_ms r' = wall_ms r;
  ds_key : encryption_key r' = encryption_key r
}.

Lemma take_splice_front {A} (xs l : list A) n : length xs = n → take n (splice 0 xs l) = xs.
Proof. intros <-. unfold splice. simpl. by rewrite take_app_length. Qed.

(** Dropping a decoded frame from the front of the buffer. *)
Lemma consume_frame r c buf :
  real_io_wf r → (c ≤ frame_pos r)%nat → length buf = MAX_FRAME_PAYLOAD →
  decoded_step r (set_frames (splice 0 (slice c (frame_pos r) (frame_buf r)) (frame_buf r))
    (frame_pos r - c) (set_read_buf buf r)) c.
Proof.
  intros Hr Hc Hb. pose proof Hr as [Hrd Hfb Hpos Hwr].
  assert (Hs : length (slice c (frame_pos r) (frame_buf r)) = (frame_pos r - c)%nat) by (apply length_slice; lia).
  constructor; simpl; try done.
  - constructor; simpl; [done| |lia|done]. rewrite length_splice; lia.
  - unfold buffered. simpl. rewrite take_splice_front by done. unfold slice. by rewrite skipn_firstn_comm.
Qed.

Lemma decode_buffered_frame_ok r :
  real_io_wf r → returns (decode_buffered_frame r) (λ '(o, r'),
    ∃ c, decoded_step r r' c ∧
      match o with
      | Some m => control_wf m ∧ (0 < c)%nat ∧ connected r' = connected r
      | None => connected r' = true → c = 0%nat ∧ (length (buffered r) < MAX_FRAME)%nat
      end).
Proof.
  intros Hr. unfold decode_buffered_frame.
  eapply returns_let; [apply try_decode_frame_ok|]. fold (buffered r). intros [res buf] [Hbuf Hres].
  assert (Hb : length buf = MAX_FRAME_PAYLOAD) by (rewrite Hbuf; apply Hr).
  assert (Hidle : decoded_step r (set_read_buf buf r) 0).
  { constructor; try done; [destruct Hr; by constructor|simpl; lia]. }
  destruct res as [[[[t n] c]|]|e]; simpl in Hres.
  - destruct Hres as (Ht & Hn & Hc). rewrite length_buffered in Hc by done. cbn [frame_pos frame_buf set_read_buf].
    assert (Hstep := consume_frame r c buf Hr (proj2 Hc) Hb).
    eapply returns_let; [apply decode_control_message_ok|]. intros [m|e] Hm; simpl in Hm.
    + exists c. split; [exact Hstep|]. split; [apply Hm|]. split; [lia|done].
    + exists c. split; [|done]. destruct Hstep as [[] ? ? ? ? ?]. by constructor; [constructor|..].
  - exists 0%nat. by split.
  - exists 0%nat. split; [|done]. destruct Hidle as [[] ? ? ? ? ?]. by constructor; [constructor|..].
Qed.

(** ** Receiving *)

(** The events left, in events and bytes. *)
Definition left_over (evs : list ReadEvent) : nat := (length evs + unread evs)%nat.

(** A read into free space. *)
Lemma stream_read_ok n t :
  (0 < n)%nat →
  match stream_read n t with
  | (Ok b, t') => (length b ≤ n)%nat ∧ (unread (incoming t') + length b = unread (incoming t))%nat ∧
      (b ≠ [] → (left_over (incoming t') < left_over (incoming t))%nat)
  | (Err e, t') => unread (incoming t') = unread (incoming t) ∧
      (left_over (incoming t') < left_over (incoming t) ∨ err_kind e = WouldBlock)%nat
  end.
Proof.
  intros Hn. unfold stream_read, left_over, unread. destruct (incoming t) as [|[b|e] evs] eqn:E; simpl.
  - rewrite E. split; [done|by right].
  - pose proof (length_take b n). pose proof (length_drop b n).
    split; [lia|]. destruct (drop n b) as [|x l] eqn:Ed; simpl in *.
    + split; [lia|]. intros. lia.
    + split; [lia|]. intros Hb. destruct (take n b) eqn:Et; [done|]. simpl in *. lia.
  - split; [done|]. left. lia.
Qed.

(** Appending what was read. *)
Lemma append_read r t b :
  real_io_wf r → (length b ≤ READ_BUFFER_SIZE - frame_pos r)%nat →
  let r' := set_frames (splice (frame_pos r) b (frame_buf r)) (frame_pos r + length b) (set_stream t r) in
  real_io_wf r' ∧ buffered r' = buffered r ++ b.
Proof.
  intros [Hrd Hfb Hpos Hwr] Hb r'. split.
  - constructor; simpl; [done| |lia|done]. rewrite length_splice; lia.
  - unfold buffered, r', splice. simpl. rewrite app_assoc.
    rewrite take_app_length'; [done|]. rewrite length_app, length_take. lia.
Qed.

Lemma frame_fits_buffer : (MAX_FRAME ≤ READ_BUFFER_SIZE)%nat.
Proof. apply Nat.leb_le. vm_compute. reflexivity. Qed.

(** After a step that decoded nothing there is room to read into. *)
Lemma room_to_read r r' c :
  real_io_wf r → decoded_step r r' c → c = 0%nat → (length (buffered r) < MAX_FRAME)%nat →
  (0 < length (frame_buf r') - frame_pos r')%nat ∧ buffered r' = buffered r.
Proof.
  intros Hr Hd -> Hlt. pose proof frame_fits_buffer. pose proof (length_buffered r' (ds_wf _ _ _ Hd)) as Hl.
  rewrite (ds_buffered _ _ _ Hd), drop_0 in Hl. rewrite (rw_frames _ (ds_wf _ _ _ Hd)).
  split; [lia|]. by rewrite (ds_buffered _ _ _ Hd), drop_0.
Qed.

(** What a receive does: bytes only leave the stream, a message is well formed and
    cost at least a byte. *)
Definition received_ok (r : RealIo) (p : option ControlMessage * RealIo) : Prop :=
  let '(o, r') := p in
  real_io_wf r' ∧ wall_ms r' = wall_ms r ∧
  (frame_pos r' + unread (incoming (stream r')) ≤ frame_pos r + unread (incoming (stream r)))%nat ∧
  match o with
  | Some m => control_wf m ∧
     (frame_pos r' + unread (incoming (stream r')) < frame_pos r + unread (incoming (stream r)))%nat
  | None => True
  end.

Lemma decoded_pos r r' c : real_io_wf r → decoded_step r r' c → (frame_pos r' + c = frame_pos r)%nat.
Proof.
  intros Hr Hd. pose proof (f_equal length (ds_buffered _ _ _ Hd)) as E.
  rewrite length_drop, !length_buffered in E by (done || apply Hd). pose proof (ds_bound _ _ _ Hd). lia.
Qed.

Lemma recv_stream_ok fuel r :
  real_io_wf r → (left_over (incoming (stream r)) < fuel)%nat →
  returns (recv_stream fuel r) (received_ok r).
Proof.
  revert r. induction fuel as [|fuel IH]; intros r Hr Hf; [lia|]. cbn [recv_stream].
  eapply returns_let; [by apply decode_buffered_frame_ok|]. intros [o r1] (c & Hd & Ho).
  pose proof (decoded_pos r r1 c Hr Hd) as Hpos. destruct (ds_stream _ _ _ Hd) as [Hin _].
  pose proof (ds_clock _ _ _ Hd) as Hclk.
  destruct o as [m|]; [split_and!; [apply Hd|done|rewrite Hin; lia|apply Ho|rewrite Hin; lia]|].
  assert (Hquiet : ∀ b, received_ok r (None, set_connected b r1)).
  { intros b. split_and!; [|done|simpl; rewrite Hin; lia|done]. destruct Hd as [[] ? ? ? ? ?]. by constructor. }
  destruct (connected r1) eqn:Ec; simpl.
  2: { split_and!; [apply Hd|done|rewrite Hin; lia|done]. }
  destruct (Ho eq_refl) as [Hc Hlt]. destruct (room_to_read r r1 c Hr Hd Hc Hlt) as [Hroom Hbuf].
  rewrite (proj2 (Nat.eqb_neq _ _)) by lia.
  pose proof (stream_read_ok _ (stream r1) Hroom) as Hread.
  destruct (stream_read _ (stream r1)) as [[b|e] t].
  - destruct Hread as (Hb & Hun & Hless). destruct b as [|x b].
    + split_and!; [|done|simpl in *; rewrite <-Hin; lia|done]. destruct Hd as [[] ? ? ? ? ?]. by constructor.
    + rewrite (rw_frames _ (ds_wf _ _ _ Hd)) in Hb.
      destruct (append_read r1 t (x :: b) (ds_wf _ _ _ Hd) Hb) as [Hwf2 Hbuf2].
      eapply returns_mono; [apply IH; [exact Hwf2|]|].
      * simpl. specialize (Hless ltac:(done)). rewrite Hin in Hless. lia.
      * intros [o r2] (Hw & Hclk2 & Hle & Ho2). simpl in *. rewrite Hin in Hun.
        split_and!; [done|congruence|lia|]. destruct o as [m|]; [|done]. split; [apply Ho2|lia].
  - destruct Hread as [Hun Hless].
    assert (Hq2 : ∀ b, received_ok r (None, set_connected b (set_stream t r1))).
    { intros b. split_and!; [|done|simpl; rewrite Hun, Hin; lia|done]. destruct Hd as [[] ? ? ? ? ?]. by constructor. }
    assert (Hq3 : received_ok r (None, set_stream t r1)).
    { split_and!; [|done|simpl; rewrite Hun, Hin; lia|done]. destruct Hd as [[] ? ? ? ? ?]. by constructor. }
    destruct (err_kind e) eqn:Ek; try exact (Hq2 false).
    + exact Hq3.
    + destruct Hless as [Hless|]; [|done]. eapply returns_mono; [apply IH|].
      * destruct Hd as [[] ? ? ? ? ?]. by constructor.
      * simpl. rewrite Hin in Hless. lia.
      * intros [o r2] (Hw & Hclk2 & Hle & Ho2). simpl in *. rewrite Hun, Hin in *.
        split_and!; [done|congruence|lia|]. destruct o as [m|]; [|done]. split; [apply Ho2|lia].
Qed.

Lemma real_recv_ok r : real_io_wf r → returns (real_recv r) (received_ok r).
Proof.
  intros Hr. unfold real_recv. destruct (connected r); cbn [negb].
  - apply recv_stream_ok; [done|]. unfold recv_fuel, left_over. lia.
  - split_and!; [done|done|lia|done].
Qed.

(** A sequence of writes puts a prefix of its bytes on the wire, all of them if it succeeds. *)
Definition put (b : bytes) (t : TcpStream) (whole : bool) (t' : TcpStream) : Prop :=
  incoming t' = incoming t ∧
  ∃ p, outgoing t' = outgoing t ++ p ∧ p `prefix_of` b ∧ (whole = true → p = b).

Lemma write_chunks_put cs (t t' : TcpStream) res : write_chunks cs t = (res, t') → put (concat cs) t (result_is_ok res) t'.
Proof.
  revert t. induction cs as [|c cs IH]; intros t; simpl.
  - intros [= <- <-]. split; [done|]. exists []. by rewrite app_nil_r.
  - assert (Hnext : ∀ t1, incoming t1 = incoming t → outgoing t1 = outgoing t ++ c →
      write_chunks cs t1 = (res, t') → put (c ++ concat cs) t (result_is_ok res) t').
    { intros t1 Ei Eo (Ei' & p & Eo' & Hp & Hok)%IH. split; [by rewrite Ei'|]. exists (c ++ p).
      split; [by rewrite Eo', Eo, app_assoc|]. split; [by apply prefix_app|]. intros ->%Hok. done. }
    unfold stream_write_all. destruct (write_events t) as [|[|n e] evs]; [by apply Hnext..|].
    intros [= <- <-]. split; [done|]. exists (take n c). split; [done|]. split; [|done].
    apply prefix_app_r. by apply prefix_take.
Qed.

(** The chunks [write_frame_encrypted] writes are those of the frame. *)
Lemma write_frame_put nonce (t t' : TcpStream) tag payload key res :
  zlen payload ≤ MAX_PAYLOAD → write_frame_encrypted nonce t tag payload key = (res, t') →
  put (frame_bytes nonce tag payload key) t (result_is_ok res) t'.
Proof.
  intros Hp. pose proof (f_equal snd (write_frame_bytes nonce tag payload key Hp)) as Hv. simpl snd in Hv.
  rewrite <-Hv. clear Hv. unfold write_frame_encrypted. rewrite (proj2 (Z.ltb_ge _ _)) by done.
  destruct key as [k|]; intros Hw%write_chunks_put; cbn [concat write_chunks write_all flush vec_writer snd] in *;
    rewrite ?app_nil_r, ?app_nil_l, <-?app_assoc in *; exact Hw.
Qed.

(** What [send] did to a connection that was up: the frame it wrote and what became of it. *)
Record framed (m : WorkerMessage) (f : bytes) (r r' : RealIo) : Prop := {
  fr_frame : ∃ nonce tag payload,
    f = frame_bytes nonce tag payload (encryption_key r) ∧ zlen payload ≤ MAX_PAYLOAD ∧
    nonce = default (zeros NONCE_LEN) (head (nonces r)) ∧
    (agent_wf m → read_agent tag payload = Some (agent_view m));
  fr_put : put f (stream r) (connected r') (stream r');
  fr_rest : encryption_key r' = encryption_key r ∧ nonces r' = tail (nonces r)
}.

Lemma encodes_any m buf : agent_wf m → (MAX_FRAME_PAYLOAD ≤ length buf)%nat → encodes m buf.
Proof.
  destruct m; auto using encodes_node_register, encodes_node_heartbeat, encodes_pod_status_event, encodes_run_response.
Qed.

Lemma real_send_frame m r :
  real_io_wf r → emittable m → connected r = true → ∃ f, framed m f r (real_send m r).
Proof.
  intros Hr Hm Hc. unfold real_send. rewrite Hc. cbn [negb].
  assert (Hbuf : (MAX_FRAME_PAYLOAD ≤ length (write_buf r))%nat) by (rewrite (rw_write _ Hr); lia).
  destruct (encode_emittable m (write_buf r) Hm Hbuf) as (tag & len & buf & E & Hlen & Hb). rewrite E.
  cbn [nonces set_write_buf stream encryption_key].
  set (nonce := default _ _). destruct (write_frame_encrypted _ _ _ _ _) as [res t] eqn:Ew.
  assert (Hz : zlen (take len buf) ≤ MAX_PAYLOAD) by (rewrite MAX_PAYLOAD_eq; unfold zlen; rewrite length_take; lia).
  apply write_frame_put in Ew as [Ei (p & Eo & Hp & Hok)]; [|done].
  exists (frame_bytes nonce tag (take len buf) (encryption_key r)). split.
  - exists nonce, tag, (take len buf). split_and!; [done|done|done|].
    intros Hw. destruct (encodes_any m (write_buf r) Hw Hbuf) as (tag' & len' & buf' & E' & _ & _ & Hv).
    rewrite E' in E. by simplify_eq.
  - split; [by destruct res|]. exists p. split; [by destruct res|]. split; [done|]. by destruct res; [auto|].
  - by destruct res.
Qed.

Lemma real_send_ok m r :
  real_io_wf r → emittable m →
  real_io_wf (real_send m r) ∧ incoming (stream (real_send m r)) = incoming (stream r) ∧
  frame_pos (real_send m r) = frame_pos r ∧ wall_ms (real_send m r) = wall_ms r.
Proof.
  intros Hr Hm. assert (Hi : incoming (stream (real_send m r)) = incoming (stream r)).
  { destruct (connected r) eqn:Hc; [|unfold real_send; by rewrite Hc].
    destruct (real_send_frame m r Hr Hm Hc) as [f Hf]. by apply Hf. }
  split; [|split; [exact Hi|]]; clear Hi; unfold real_send; destruct (connected r); try done; cbn [negb];
    destruct (encode_emittable m (write_buf r) Hm) as (tag & len & buf & -> & Hlen & Hb);
    try (by rewrite (rw_write _ Hr)); destruct (write_frame_encrypted _ _ _ _ _) as [[] t]; try done.
  all: destruct Hr as [? ? ? Hw]; constructor; cbn; try done; by rewrite Hb.
Qed.

(** The TCP implementation keeps the [Io] contract and never panics. *)
#[export, refine] Instance real_io_laws : IoLaws RealIo := {
  io_wf := real_io_wf;
  io_pending r := (frame_pos r + unread (incoming (stream r)))%nat;
  io_panics _ := False
}.
Proof.
  - intros m r Hr Hm. cbn [io_send real_io]. destruct (real_send_ok m r Hr Hm) as (? & -> & -> & ?).
    cbn [io_now real_io]. split_and!; [done|lia|done].
  - intros r Hr. destruct (returns_elim _ _ (real_recv_ok r Hr)) as ([o r'] & E & Hw & Hc & Hle & Ho).
    cbn [io_recv io_now real_io]. rewrite E. destruct o as [m|]; [|by split_and!].
    destruct Ho as [Hm Hlt]. by split_and!.
Defined.

(** C33: a worker on the TCP connection.  Whatever bytes and errors the socket produces,
    whatever the runtime, the host and the thread schedule do, sending and receiving never
    panic: a tick from a worker that satisfies the invariant returns with the invariant
    intact, unless it fails at the one index of the lifecycle driver, which takes more than
    1024 pods that are tombstones or may become one in this tick. *)
Theorem tcp_tick_returns {RT OS} `{!Host OS} `{!Runtime RT OS} (fuel : nat) (c : @Ctx RealIo RT OS) :
  winv (worker c) → real_io_wf (io c) → 0 ≤ wall_ms (io c) ≤ TICK_MAX →
  (frame_pos (io c) + unread (incoming (stream (io c))) < fuel)%nat →
  (∃ c', tick fuel c = Done (tt, c') ∧ winv (worker c') ∧ real_io_wf (io c')) ∨
  tick fuel c = Panic NO_ENTRY ∧ Z.of_nat MAX_TERMINAL_TOMBSTONES < drive_load (worker c).
Proof.
  intros Hw Hio Hnow Hf.
  destruct (Z.le_gt_cases (drive_load (worker c)) (Z.of_nat MAX_TERMINAL_TOMBSTONES)) as [Hl|Hl].
  - pose proof (tick_ok fuel c (conj Hw Hio) Hnow Hf Hl) as Hwp.
    apply wp_run in Hwp as [([] & c' & E & [Hw' Hio'] & _)|(e & _ & [])]. left. eauto.
  - pose proof (tick_any fuel c (conj Hw Hio) Hnow Hf) as Hwp.
    apply wp_run in Hwp as [([] & c' & E & [Hw' Hio'] & _)|(e & E & [[]|He])]; [left; eauto|right]. by rewrite E, He.
Qed.

(** ** Reassembling frames *)

(** An event that breaks nothing: some bytes, an interruption, nothing yet. *)
Definition benign (e : ReadEvent) : Prop :=
  match e with
  | GotBytes b => b ≠ []
  | GotError e => err_kind e = Interrupted ∨ err_kind e = WouldBlock
  end.

Definition event_bytes (e : ReadEvent) : bytes := match e with GotBytes b => b | GotError _ => [] end.
Definition stream_bytes (evs : list ReadEvent) : bytes := concat (event_bytes <$> evs).

(** Everything the peer has sent that was not decoded yet. *)
Definition undecoded (r : RealIo) : bytes := buffered r ++ stream_bytes (incoming (stream r)).

(** A connection that only waits for the peer. *)
Definition healthy (r : RealIo) : Prop :=
  real_io_wf r ∧ connected r = true ∧ Forall benign (incoming (stream r)).

Lemma stream_read_benign n t :
  (0 < n)%nat → Forall benign (incoming t) → stream_bytes (incoming t) ≠ [] →
  Forall benign (incoming (stream_read n t).2) ∧
  match (stream_read n t).1 with
  | Ok b => b ≠ [] ∧ b ++ stream_bytes (incoming (stream_read n t).2) = stream_bytes (incoming t) ∧
      (length (incoming (stream_read n t).2) ≤ length (incoming t))%nat
  | Err e => (err_kind e = Interrupted ∨ err_kind e = WouldBlock) ∧
      stream_bytes (incoming (stream_read n t).2) = stream_bytes (incoming t) ∧
      (length (incoming (stream_read n t).2) < length (incoming t))%nat
  end.
Proof.
  intros Hn Hb Hne. unfold stream_read, stream_bytes in *. destruct (incoming t) as [|[b|e] evs]; [done| |];
    apply Forall_cons in Hb as [Hb Hbs]; simpl in *.
  - pose proof (take_drop n b) as Htd. destruct (drop n b) as [|x l] eqn:Ed; simpl.
    + split; [done|]. rewrite app_nil_r in Htd. rewrite Htd. split_and!; [done|done|lia].
    + split; [constructor; done|]. split_and!.
      * destruct n; [lia|]. destruct b; [done|]. done.
      * rewrite <-Htd at 2. by rewrite <-app_assoc.
      * lia.
  - split; [done|]. split; [done|]. split; [done|]. lia.
Qed.

(** A proper prefix of a frame does not decode. *)
Lemma decode_prefix `{!AeadLaws} r nonce t payload q :
  length nonce = NONCE_LEN → zlen payload ≤ MAX_PAYLOAD →
  buffered r ++ q = frame_bytes nonce t payload (encryption_key r) → q ≠ [] →
  decode_buffered_frame r = Done (None, r).
Proof.
  intros Hn Hp Hpq Hq. unfold decode_buffered_frame. fold (buffered r).
  rewrite (try_decode_prefix nonce t payload (encryption_key r) (read_buf r) (buffered r) q) by done.
  by destruct r.
Qed.

(** A whole frame at the front does, and leaves what follows it. *)
Lemma decode_whole `{!AeadLaws} r nonce t payload rest m :
  length nonce = NONCE_LEN → zlen payload ≤ MAX_PAYLOAD → is_u8 t → real_io_wf r →
  decode_control_message t payload = Done (Ok m) →
  buffered r = frame_bytes nonce t payload (encryption_key r) ++ rest →
  ∃ r', decode_buffered_frame r = Done (Some m, r') ∧ real_io_wf r' ∧ buffered r' = rest ∧
    connected r' = connected r ∧ stream r' = stream r ∧ encryption_key r' = encryption_key r.
Proof.
  intros Hn Hp Ht Hr Hm Hb. unfold decode_buffered_frame. fold (buffered r). rewrite Hb.
  assert (Hpl : (length payload ≤ length (read_buf r))%nat).
  { rewrite (rw_read _ Hr). rewrite MAX_PAYLOAD_eq in Hp. unfold zlen in Hp. lia. }
  rewrite try_decode_whole by done. cbn [outcome_bind].
  set (c := length (frame_bytes _ _ _ _)). set (buf := splice 0 payload (read_buf r)).
  assert (Hc : (c ≤ frame_pos r)%nat).
  { rewrite <-(length_buffered r Hr), Hb, length_app. lia. }
  assert (Hbuf : length buf = MAX_FRAME_PAYLOAD).
  { unfold buf. rewrite length_splice by lia. apply Hr. }
  assert (Hstep := consume_frame r c buf Hr Hc Hbuf). cbn [frame_pos frame_buf set_read_buf].
  cbn [read_buf set_frames set_read_buf]. replace (take (length payload) buf) with payload by (unfold buf; by rewrite take_splice_front).
  rewrite Hm.
  eexists. split; [done|]. split; [apply Hstep|]. split; [|done].
  rewrite (ds_buffered _ _ _ Hstep), Hb. apply drop_app_length.
Qed.

(** Where a receive may stop while the frame of [m] is at the front of the stream. *)
Definition polled (r : RealIo) (frame rest : bytes) (m : ControlMessage)
    (p : option ControlMessage * RealIo) : Prop :=
  let '(o, r') := p in
  healthy r' ∧ encryption_key r' = encryption_key r ∧
  match o with
  | Some m' => m' = m ∧ undecoded r' = rest
  | None => undecoded r' = frame ++ rest ∧
      (length (incoming (stream r')) < length (incoming (stream r)))%nat
  end.

Lemma length_frame_bytes `{!AeadLaws} nonce t payload key :
  length nonce = NONCE_LEN → zlen payload ≤ MAX_PAYLOAD → (length (frame_bytes nonce t payload key) ≤ MAX_FRAME)%nat.
Proof.
  intros Hn Hp. rewrite frame_bytes_split, length_app, length_frame_header.
  pose proof (length_frame_body nonce t payload key Hn).
  assert (HM : Z.of_nat MAX_FRAME = 48 + MAX_PAYLOAD) by (vm_compute; reflexivity).
  unfold frame_total, zlen in *. case_bool_decide; lia.
Qed.

(** A frame at the front of buffer and stream: in the buffer, or begun there. *)
Lemma app_front {A} (a b f rest : list A) :
  a ++ b = f ++ rest → (length f ≤ length a)%nat → a = f ++ drop (length f) a.
Proof.
  intros E Hl. rewrite <-(take_drop (length f) a) at 1. f_equal. apply (f_equal (take (length f))) in E.
  by rewrite take_app_le, take_app_length in E.
Qed.

Lemma app_begun {A} (a b f rest : list A) :
  a ++ b = f ++ rest → ¬ (length f ≤ length a)%nat → ∃ q, a ++ q = f ∧ q ≠ [] ∧ b = q ++ rest.
Proof.
  intros E Hl. assert (Hf : f = a ++ drop (length a) f) by (eapply app_front; [by symmetry|lia]).
  exists (drop (length a) f). split_and!; [done| |].
  - intros Eq. apply (f_equal length) in Eq. rewrite length_drop in Eq. simpl in Eq. lia.
  - rewrite Hf, <-app_assoc in E. by apply app_inv_head in E.
Qed.

(** Polling may go on from where a read left off. *)
Lemma polled_later r r1 f rest m x :
  encryption_key r1 = encryption_key r → (length (incoming (stream r1)) ≤ length (incoming (stream r)))%nat →
  polled r1 f rest m x → polled r f rest m x.
Proof.
  intros Ek Hl. destruct x as [o r2]. intros (Hh & Hk & Ho). split; [done|]. split; [congruence|].
  destruct o as [m'|]; [done|]. destruct Ho as [Ho1 Ho2]. split; [done|lia].
Qed.

Lemma recv_stream_polls `{!AeadLaws} fuel r nonce t payload rest m :
  length nonce = NONCE_LEN → zlen payload ≤ MAX_PAYLOAD → is_u8 t →
  decode_control_message t payload = Done (Ok m) → healthy r →
  undecoded r = frame_bytes nonce t payload (encryption_key r) ++ rest →
  (left_over (incoming (stream r)) < fuel)%nat →
  returns (recv_stream fuel r) (polled r (frame_bytes nonce t payload (encryption_key r)) rest m).
Proof.
  intros Hn Hp Ht Hm. revert r. induction fuel as [|fuel IH]; intros r (Hr & Hc & Hb) Hu Hf; [lia|].
  set (f := frame_bytes nonce t payload (encryption_key r)) in *. cbn [recv_stream].
  destruct (decide (length f ≤ length (buffered r))%nat) as [Hle|Hlt].
  { pose proof (app_front _ _ _ _ Hu Hle) as Hfront.
    destruct (decode_whole r nonce t payload _ m Hn Hp Ht Hr Hm Hfront) as (r' & E & Hr' & Eb & Ec & Es & Ek).
    rewrite E. cbn. split_and!; [|done|done|].
    - split_and!; [done|congruence|by rewrite Es].
    - unfold undecoded in *. rewrite Eb, Es. rewrite Hfront, <-app_assoc in Hu. by apply app_inv_head in Hu. }
  destruct (app_begun _ _ _ _ Hu Hlt) as (q & Hq & Hqne & Hs).
  rewrite (decode_prefix r nonce t payload q Hn Hp Hq Hqne). cbn [outcome_bind]. rewrite Hc. cbn [negb].
  assert (Hsne : stream_bytes (incoming (stream r)) ≠ []) by (rewrite Hs; by destruct q).
  assert (Hroom : (0 < length (frame_buf r) - frame_pos r)%nat).
  { pose proof (length_frame_bytes nonce t payload (encryption_key r) Hn Hp). pose proof frame_fits_buffer.
    rewrite length_buffered in Hlt by done. rewrite (rw_frames _ Hr). unfold f in Hlt. lia. }
  rewrite (proj2 (Nat.eqb_neq _ _)) by lia.
  pose proof (stream_read_benign _ (stream r) Hroom Hb Hsne) as [Hb' Hgot].
  pose proof (stream_read_ok _ (stream r) Hroom) as Hread.
  destruct (stream_read _ (stream r)) as [[b|e] t1]; cbn [fst snd] in *.
  - destruct Hgot as (Hbne & Hbytes & Hfew). destruct Hread as (Hbl & _ & Hless). specialize (Hless Hbne).
    rewrite (rw_frames _ Hr) in Hbl. destruct (append_read r t1 b Hr Hbl) as [Hwf2 Hbuf2].
    destruct b as [|x b]; [done|]. cbn [frame_pos frame_buf set_stream].
    eapply returns_mono; [apply IH; [by split_and!| |cbn; lia]|intros x2; apply polled_later; [done|cbn; lia]].
    unfold undecoded. rewrite Hbuf2, <-app_assoc. cbn -[app]. by rewrite Hbytes.
  - destruct Hgot as (Hkind & Hbytes & Hfew).
    assert (Hh : healthy (set_stream t1 r)) by (split_and!; [destruct Hr; by constructor|done..]).
    assert (Hu' : undecoded (set_stream t1 r) = f ++ rest) by (rewrite <-Hu; unfold undecoded; cbn -[app]; by rewrite Hbytes).
    destruct Hkind as [Hk|Hk]; rewrite Hk; [|by split_and!].
    destruct Hread as [_ [Hless|]]; [|congruence].
    eapply returns_mono; [apply IH; [done|done|cbn; lia]|intros x2; apply polled_later; [done|cbn; lia]].
Qed.

(** C34: the connection reassembles the peer's stream.  However the bytes of a frame
    are split over reads, with interruptions and pauses in between, polling [recv] gives
    the message of the frame and leaves exactly the bytes that follow it: each poll either
    returns the message or has used up part of the stream, losing nothing, and the
    connection stays up; the frame buffer is never full before a frame is complete. *)
Theorem recv_reassembles `{!AeadLaws} (r : RealIo) (nonce : bytes) (t : Z) (payload rest : bytes)
    (m : ControlMessage) :
  length nonce = NONCE_LEN → zlen payload ≤ MAX_PAYLOAD → is_u8 t →
  decode_control_message t payload = Done (Ok m) → healthy r →
  undecoded r = frame_bytes nonce t payload (encryption_key r) ++ rest →
  ∃ o r', real_recv r = Done (o, r') ∧
    polled r (frame_bytes nonce t payload (encryption_key r)) rest m (o, r').
Proof.
  intros Hn Hp Ht Hm Hh Hu. unfold real_recv. rewrite (proj1 (proj2 Hh)). cbn [negb].
  destruct (returns_elim _ _ (recv_stream_polls (recv_fuel r) r nonce t payload rest m Hn Hp Ht Hm Hh Hu
    ltac:(unfold recv_fuel, left_over; lia))) as ([o r'] & E & Hpo). eauto.
Qed.

End facts.

(** A StopPod frame in three pieces, with an interruption and a pause. *)
Definition stop_payload : bytes := to_le 8 5 ++ to_le 8 100.
Definition stop_frame : bytes := frame_bytes (H := toy_aead) (zeros NONCE_LEN) MSG_STOP_POD stop_payload None.

Definition split_stream : TcpStream :=
  mkTcpStream [GotBytes (take 3 stop_frame); GotError (mkIoError Interrupted "EINTR");
               GotBytes (slice 3 9 stop_frame); GotError (mkIoError WouldBlock "EAGAIN");
               GotBytes (drop 9 stop_frame)] [] [] false.

Definition split_io : RealIo :=
  mkRealIo split_stream (zeros MAX_FRAME_PAYLOAD) (zeros READ_BUFFER_SIZE) 0 (zeros MAX_FRAME_PAYLOAD)
    (prng_init 1) true None 0 [].

Lemma split_io_wf : real_io_wf split_io.
Proof.
  constructor; cbn [read_buf frame_buf frame_pos write_buf split_io];
    [apply length_zeros|apply length_zeros|lia|apply length_zeros].
Qed.

Lemma recv_reassembles_witness :
  ∃ o r', real_recv (H := toy_aead) split_io = Done (o, r') ∧
    polled split_io stop_frame [] (StopPod (mkStopPodCmd 5 100)) (o, r').
Proof.
  apply (recv_reassembles (H := toy_aead) (H0 := toy_aead_laws) split_io (zeros NONCE_LEN) MSG_STOP_POD stop_payload []
    (StopPod (mkStopPodCmd 5 100))).
  - reflexivity.
  - vm_compute. congruence.
  - vm_compute. split; congruence.
  - vm_compute. reflexivity.
  - split; [apply split_io_wf|]. split; [reflexivity|].
    apply Forall_cons; split; [vm_compute; congruence|]. apply Forall_cons; split; [by left|].
    apply Forall_cons; split; [vm_compute; congruence|]. apply Forall_cons; split; [by right|].
    apply Forall_cons; split; [vm_compute; congruence|]. constructor.
  - vm_compute. reflexivity.
Defined.
