(* ===== verification/Connection.v ===== *)
(** * What goes over the wire

    The worker's reports put together with the TCP connection that carries them.  A
    [Session] is the [RealIo] of one connection with the log of what the worker has sent and
    where in it the connection was opened.  [IoLaws] holds of it with an invariant that ties
    the bytes on the socket to the log, so the worker's own theorems keep that invariant
    through every tick; a reader of the stream then knows what the worker reported. *)

From S2P Require Import Prelude Types RustStr Crypto Protocol Frame Traits Volumes Secrets Worker Keeps WorkerInv.
From S2P Require Import WorkerThreads WorkerSafety RealIo Reports.

(** ** The reader *)

Section reader.
  Context `{!Aead}.

(** Frames taken off the stream one after the other with the decoder of [protocol.rs], their
    payloads read by layout; it stops at the first frame that is not complete. *)
Fixpoint read_views (fuel : nat) (buf : bytes) (key : option bytes) (data : bytes) : list (option AgentView) :=
  match fuel with
  | O => []
  | S fuel =>
    match try_decode_frame data buf key with
    | Done (Ok (Some (tag, len, n)), buf') => read_agent tag (take len buf') :: read_views fuel buf' key (drop n data)
    | _ => []
    end
  end.

Definition wire_views (key : option bytes) (data : bytes) : list (option AgentView) :=
  read_views (S (length data)) (zeros MAX_FRAME_PAYLOAD) key data.

(** [f] is a frame that carries [m]; integers outside their Rust types are not messages. *)
Definition frame_of (key : option bytes) (m : WorkerMessage) (f : bytes) : Prop :=
  ∃ nonce tag payload, f = frame_bytes nonce tag payload key ∧ length nonce = NONCE_LEN ∧ zlen payload ≤ MAX_PAYLOAD ∧
    (agent_wf m → read_agent tag payload = Some (agent_view m)).

Lemma read_agent_tag tag p v : read_agent tag p = Some v → is_u8 tag.
Proof.
  unfold read_agent. intros Hv. repeat case_match; try done;
    match goal with E : (tag =? _) = true |- _ => apply Z.eqb_eq in E as -> end; split; vm_compute; congruence.
Qed.

Context `{!AeadLaws}.

Lemma frame_of_nonempty key m f : frame_of key m f → (0 < length f)%nat.
Proof. intros (nonce & tag & payload & -> & _). rewrite frame_bytes_split, length_app, length_frame_header. lia. Qed.

(** One frame off the front. *)
Lemma read_views_frame fuel buf key m f rest :
  frame_of key m f → agent_wf m → length buf = MAX_FRAME_PAYLOAD →
  ∃ buf', length buf' = MAX_FRAME_PAYLOAD ∧
    read_views (S fuel) buf key (f ++ rest) = Some (agent_view m) :: read_views fuel buf' key rest.
Proof.
  intros (nonce & tag & payload & -> & Hn & Hp & Hv) Hm Hb. specialize (Hv Hm).
  assert (Hpb : (length payload ≤ length buf)%nat) by (rewrite MAX_PAYLOAD_eq in Hp; unfold zlen in Hp; lia).
  exists (splice 0 payload buf). split; [rewrite length_splice; lia|]. cbn [read_views].
  rewrite try_decode_whole by (done || by eapply read_agent_tag). rewrite drop_app_length.
  by rewrite take_splice_front, Hv.
Qed.

(** The end of the stream: nothing, a part of a frame, or, if the error came late, all of it. *)
Lemma read_views_rest fuel buf key m f p :
  frame_of key m f → agent_wf m → length buf = MAX_FRAME_PAYLOAD → p `prefix_of` f → (1 < fuel)%nat →
  read_views fuel buf key p = [] ∨ read_views fuel buf key p = [Some (agent_view m)].
Proof.
  intros Hf Hm Hb [q Hq] Hfuel. destruct fuel as [|[|fuel]]; [lia..|]. destruct q as [|b q].
  - right. rewrite app_nil_r in Hq. subst p. rewrite <-(app_nil_r f).
    destruct (read_views_frame (S fuel) buf key m f [] Hf Hm Hb) as (buf' & _ & ->). by cbn.
  - left. destruct Hf as (nonce & tag & payload & -> & Hn & Hp & _). cbn [read_views].
    by erewrite try_decode_prefix.
Qed.

Lemma read_views_frames key ms fs rest fuel buf :
  Forall2 (frame_of key) ms fs → Forall agent_wf ms → length buf = MAX_FRAME_PAYLOAD →
  ∃ buf', length buf' = MAX_FRAME_PAYLOAD ∧
    read_views (length ms + fuel) buf key (concat fs ++ rest) = (Some ∘ agent_view <$> ms) ++ read_views fuel buf' key rest.
Proof.
  intros Hfs. revert buf. induction Hfs as [|m f ms fs Hf _ IH]; intros buf Hms Hb; [by exists buf|].
  apply Forall_cons in Hms as [Hm Hms]. cbn [length concat Nat.add]. rewrite <-app_assoc.
  destruct (read_views_frame (length ms + fuel) buf key m f (concat fs ++ rest) Hf Hm Hb) as (buf1 & Hb1 & ->).
  destruct (IH buf1 Hms Hb1) as (buf2 & Hb2 & ->). by exists buf2.
Qed.

Lemma frames_length key ms fs : Forall2 (frame_of key) ms fs → (length ms ≤ length (concat fs))%nat.
Proof.
  induction 1 as [|m f ms fs Hf _ IH]; [done|]. apply frame_of_nonempty in Hf. cbn. rewrite length_app. lia.
Qed.

End reader.

(** ** The session *)

Record Session := mkSession { ses_rec : Recorded RealIo; ses_start : nat }.

Definition ses_io (s : Session) : RealIo := rec_io (ses_rec s).
Definition ses_log (s : Session) : list WorkerMessage := rec_log (ses_rec s).

Section session.
  Context `{!Aead}.

#[export] Instance session_io : Io Session := {
  io_now s := io_now (ses_rec s);
  io_send m s := let! r := io_send m (ses_rec s) in Done (mkSession r (ses_start s));
  io_recv s := let! (o, r) := io_recv (ses_rec s) in Done (o, mkSession r (ses_start s));
  io_random_u64 s := let '(n, r) := io_random_u64 (ses_rec s) in (n, mkSession r (ses_start s))
}.

#[export, refine] Instance session_log : IoLog Session := { io_log := ses_log }.
Proof.
  - intros m s s'. cbn. by intros [= <-].
  - intros s o s'. cbn. destruct (real_recv _) as [[]|]; [|done]. by intros [= _ <-].
Defined.

(** The bytes on the socket are the frames of [sent], then perhaps a part of the next one; while
    the connection is up they are the frames of the whole log. *)
Record wired (log : list WorkerMessage) (r : RealIo) : Prop := {
  wd_nonces : Forall (λ n, length n = NONCE_LEN) (nonces r);
  wd_bytes : ∃ sent lost fs part, log = sent ++ lost ∧ Forall2 (frame_of (encryption_key r)) sent fs ∧
    outgoing (stream r) = concat fs ++ part ∧
    (part = [] ∨ ∃ m lost' f, lost = m :: lost' ∧ frame_of (encryption_key r) m f ∧ part `prefix_of` f) ∧
    (connected r = true → lost = [] ∧ part = [])
}.

(** A fresh connection. *)
Lemma wired_open r :
  outgoing (stream r) = [] → Forall (λ n, length n = NONCE_LEN) (nonces r) → wired [] r.
Proof. intros Ho Hn. split; [done|]. exists [], [], [], []. split_and!; try done. by left. Qed.

Lemma wired_nonce r : Forall (λ n, length n = NONCE_LEN) (nonces r) →
  length (default (zeros NONCE_LEN) (head (nonces r))) = NONCE_LEN.
Proof. intros Hn. destruct Hn; [apply length_zeros|done]. Qed.

Lemma wired_send log m r : real_io_wf r → emittable m → wired log r → wired (log ++ [m]) (real_send m r).
Proof.
  intros Hr Hm [Hn (sent & lost & fs & part & -> & Hfs & Ho & Hpart & Hup)].
  destruct (connected r) eqn:Hc.
  - destruct (Hup eq_refl) as [-> ->]. destruct (real_send_frame m r Hr Hm Hc) as [f [Hf [_ (p & Eo & Hp & Hok)] [Ek En]]].
    assert (Hff : frame_of (encryption_key r) m f).
    { destruct Hf as (nonce & tag & payload & -> & Hz & -> & Hv). do 3 eexists. split_and!; [done| |done|done].
      by apply wired_nonce. }
    rewrite app_nil_r in *. split; [rewrite En; by destruct Hn|]. rewrite Ek, Eo, Ho.
    destruct (connected (real_send m r)).
    + rewrite (Hok eq_refl). exists (sent ++ [m]), [], (fs ++ [f]), []. split_and!; [by rewrite app_nil_r| | |by left|done].
      * apply Forall2_app; [done|]. by repeat constructor.
      * rewrite concat_app. cbn [concat]. by rewrite !app_nil_r.
    + exists sent, [m], fs, p. split_and!; [done..| |done]. right. by exists m, [], f.
  - assert (E : real_send m r = r) by (unfold real_send; by rewrite Hc). rewrite E. split; [done|].
    exists sent, (lost ++ [m]), fs, part. split_and!; [by rewrite app_assoc|done|done| |congruence].
    destruct Hpart as [->|(m' & lost' & f & -> & ?)]; [by left|]. right. by exists m', (lost' ++ [m]), f.
Qed.

(** ** Receiving writes nothing *)

Record unwritten (r r' : RealIo) : Prop := {
  un_out : outgoing (stream r') = outgoing (stream r);
  un_key : encryption_key r' = encryption_key r;
  un_nonces : nonces r' = nonces r;
  un_up : connected r' = true → connected r = true
}.

#[local] Instance unwritten_preorder : PreOrder unwritten.
Proof. split; [by constructor|]. intros r1 r2 r3 [] []. constructor; [congruence..|auto]. Qed.

Lemma decode_unwritten r o r' : decode_buffered_frame r = Done (o, r') → unwritten r r'.
Proof.
  unfold decode_buffered_frame. destruct (try_decode_frame _ _ _) as [[res buf]|]; [|done]. cbn [outcome_bind].
  destruct res as [[[[t n] k]|]|e]; [|by intros [= _ <-]..].
  destruct (decode_control_message _ _) as [[m|e]|]; [..|done]; by intros [= _ <-].
Qed.

Lemma stream_read_unwritten n t got t' : stream_read n t = (got, t') → outgoing t' = outgoing t.
Proof. unfold stream_read. destruct (incoming t) as [|[b|e] evs]; by intros [= _ <-]. Qed.

Lemma recv_stream_unwritten fuel r o r' : recv_stream fuel r = Done (o, r') → unwritten r r'.
Proof.
  revert r. induction fuel as [|fuel IH]; intros r; [done|]. cbn [recv_stream].
  destruct (decode_buffered_frame r) as [[msg r1]|] eqn:Ed; [|done]. cbn [outcome_bind].
  apply decode_unwritten in Ed. assert (Hend : ∀ r2, unwritten r1 r2 → unwritten r r2) by (intros; by etrans).
  destruct msg as [msg|]; [by intros [= _ <-]|]. destruct (connected r1) eqn:Hc; cbn [negb]; [|by intros [= _ <-]].
  case_match; [intros [= _ <-]; apply Hend; by constructor|].
  destruct (stream_read _ _) as [got t] eqn:Er. apply stream_read_unwritten in Er.
  assert (Hread : unwritten r (set_stream t r1)) by (apply Hend; by constructor).
  destruct got as [[|b bs]|e].
  - intros [= _ <-]. etrans; [exact Hread|]. by constructor.
  - intros Hr%IH. etrans; [exact Hread|]. etrans; [|exact Hr]. by constructor.
  - destruct (err_kind e); try (intros [= _ <-]; etrans; [exact Hread|]; by constructor).
    intros Hr%IH. by etrans.
Qed.

Lemma real_recv_unwritten r o r' : real_recv r = Done (o, r') → unwritten r r'.
Proof. unfold real_recv. destruct (connected r); [apply recv_stream_unwritten|]. by intros [= _ <-]. Qed.

Lemma wired_unwritten log r r' : unwritten r r' → wired log r → wired log r'.
Proof.
  intros [Eo Ek En Hup] [Hn Hb]. split; [by rewrite En|]. rewrite Eo, Ek.
  destruct Hb as (sent & lost & fs & part & ? & ? & ? & ? & Hc). exists sent, lost, fs, part. by split_and!; auto.
Qed.

(** ** The session keeps the contract of an [Io] *)

Definition session_wf (s : Session) : Prop :=
  real_io_wf (ses_io s) ∧ (ses_start s ≤ length (ses_log s))%nat ∧ wired (drop (ses_start s) (ses_log s)) (ses_io s).

#[export, refine] Instance session_laws : IoLaws Session := {
  io_wf := session_wf;
  io_pending s := io_pending (ses_rec s);
  io_panics _ := False
}.
Proof.
  - intros m s (Hr & Hs & Hw) Hm. pose proof (io_send_law m (ses_rec s) Hr Hm) as Hl. cbn in Hl |- *.
    destruct Hl as (Hwf & Hp & Hn). split; [|done]. split; [done|]. cbn in *. unfold ses_log in *. split.
    + cbn. rewrite length_app. lia.
    + cbn. rewrite drop_app_le by lia. by apply wired_send.
  - intros s (Hr & Hs & Hw). pose proof (io_recv_law (ses_rec s) Hr) as Hl. cbn in Hl |- *.
    destruct (real_recv (rec_io (ses_rec s))) as [[o r]|e] eqn:E; [|done]. apply real_recv_unwritten in E.
    assert (Hw' : wired (drop (ses_start s) (ses_log s)) r) by by eapply wired_unwritten.
    cbn in *. destruct o; destruct_and! Hl; by split_and!.
Defined.

(** Opening a connection: the worker's log so far belongs to earlier ones. *)
Lemma session_open r log :
  real_io_wf r → outgoing (stream r) = [] → Forall (λ n, length n = NONCE_LEN) (nonces r) →
  session_wf (mkSession (mkRecorded r log) (length log)).
Proof. intros Hr Ho Hn. split; [done|]. split; [done|]. cbn. rewrite drop_all. by apply wired_open. Qed.

End session.

(** ** What the control plane knows *)

(** The status a pod is given by one message: phase, exit code and reason. *)
Definition status_on (id : Z) (v : option AgentView) : option (Z * Z * string) :=
  match v with
  | Some (VPodStatus i phase code text) => if i =? id then Some (phase, code, text) else None
  | _ => None
  end.

Definition wire_status (r : PodStatusReport) : Z * Z * string :=
  (place (phase_of r) POD_PHASES, exit_code_of r, fixed_to_string (str_to_fixed 128 (text_of r))).

Lemma status_on_view id m : status_on id (Some (agent_view m)) = wire_status <$> report_on id m.
Proof.
  destruct m as [| |[i r]|rs]; cbn [agent_view]; [done..| |by destruct (_ <? _)%nat]. unfold wire_status. cbn.
  by destruct (i =? id).
Qed.

Lemma statuses_on_views id l : omap (status_on id) (Some ∘ agent_view <$> l) = wire_status <$> reports id l.
Proof.
  unfold reports. induction l as [|m l IH]; [done|]. rewrite fmap_cons. cbn -[status_on].
  rewrite status_on_view, IH. by destruct (report_on id m).
Qed.

Section knows.
  Context `{!Aead} `{!AeadLaws}.

Lemma wired_views log r :
  wired log r → Forall agent_wf log →
  ∃ k, wire_views (encryption_key r) (outgoing (stream r)) = (Some ∘ agent_view <$> take k log) ∧
    (connected r = true → k = length log).
Proof.
  intros [_ (sent & lost & fs & part & -> & Hfs & -> & Hpart & Hup)] [Hs Hl]%Forall_app.
  pose proof (frames_length _ _ _ Hfs) as Hlen. unfold wire_views. rewrite length_app.
  replace (S (length (concat fs) + length part))
    with (length sent + (S (length (concat fs) - length sent + length part)))%nat by lia.
  destruct (read_views_frames (encryption_key r) sent fs part (S (length (concat fs) - length sent + length part))
    (zeros MAX_FRAME_PAYLOAD) Hfs Hs (length_zeros _)) as (buf & Hb & ->).
  assert (Hnil : ∀ n, read_views n buf (encryption_key r) [] = []) by by intros [].
  destruct Hpart as [->|(m & lost' & f & -> & Hf & Hpre)].
  - exists (length sent). rewrite Hnil, app_nil_r, take_app_length. split; [done|]. intros Hc.
    destruct (Hup Hc) as [-> _]. by rewrite app_nil_r.
  - apply Forall_cons in Hl as [Hm _]. assert (Hdown : connected r ≠ true) by (intros Hc; by destruct (Hup Hc)).
    destruct part as [|b part]; [exists (length sent); by rewrite Hnil, app_nil_r, take_app_length|].
    destruct (read_views_rest (S (length (concat fs) - length sent + length (b :: part))) buf (encryption_key r) m f
      (b :: part) Hf Hm Hb Hpre ltac:(cbn; lia)) as [Ev | Ev]; rewrite Ev.
    + exists (length sent). by rewrite app_nil_r, take_app_length.
    + exists (length sent + 1)%nat. rewrite take_app_add, fmap_app. done.
Qed.

(** The last report on a pod, if one is in the part of the log a reader has. *)
Lemma last_report_suffix id n l : reports id (drop n l) ≠ [] → last (reports id (drop n l)) = last (reports id l).
Proof.
  intros Hne. rewrite <-(take_drop n l) at 2. rewrite reports_app, last_app.
  destruct (last (reports id (drop n l))) eqn:E; [done|]. by apply last_None in E.
Qed.

Context {RT OS : Type} `{!Host OS} `{!Runtime RT OS}.

(** C4: a worker and its TCP connection together, in the clear or encrypted.  Over every
    history, whatever the sockets, the runtime, the host and the threads did, a reader that
    takes frames off the connection finds the messages the worker sent since it was opened,
    in order and complete up to some point: nothing is garbled, left out or reordered, and
    while the connection is up nothing is missing.  So while it is up, the last status read
    about a pod is the state the worker holds for it, unless the pod is being stopped, or no
    report on it has been sent since the connection was opened. *)
Theorem control_plane_hears (c : @Ctx Session RT OS) :
  history c → Forall agent_wf (ses_log (io c)) →
  let s := io c in
  let since := drop (ses_start s) (ses_log s) in
  let heard := wire_views (encryption_key (ses_io s)) (outgoing (stream (ses_io s))) in
  (∃ k, heard = (Some ∘ agent_view <$> take k since) ∧ (connected (ses_io s) = true → k = length since)) ∧
  (connected (ses_io s) = true → ∀ id st, pstate (worker c) id = Some st → st ≠ Stopping →
    last (omap (status_on id) heard) = Some (wire_status (tracked_pod_status st)) ∨
    (0 < ses_start s)%nat ∧ omap (status_on id) heard = []).
Proof.
  intros Hc Hwf s since heard.
  destruct (reachable_cinv c (history_reachable c Hc)) as [_ (Hr & Hs & Hw)].
  destruct (wired_views since (ses_io s) Hw (Forall_drop _ _ _ Hwf)) as (k & Hk & Hup). fold heard in Hk.
  split; [by exists k|]. intros Hcon id st Hst Hne. rewrite Hk, (Hup Hcon), firstn_all, statuses_on_views, fmap_last.
  pose proof (trace_fits _ _ _ None (history_trace c Hc id) I) as Hf. rewrite heard_last, Hst in Hf.
  assert (Hlast : last (reports id (ses_log s)) = Some (tracked_pod_status st)).
  { change (io_log (io c)) with (ses_log s) in Hf. destruct (last (reports id (ses_log s))); by destruct st. }
  destruct (decide (reports id since = [])) as [E|E].
  - destruct (Nat.eq_0_gt_0_cases (ses_start s)) as [E0|Hpos]; [|right; by rewrite E].
    unfold since in E. rewrite E0, drop_0 in E. by rewrite E in Hlast.
  - left. unfold since in *. by rewrite last_report_suffix, Hlast by done.
Qed.

End knows.
