(* ===== verification/Agent.v ===== *)
(** * The worker process: [worker/src/main.rs]

    [cmd_run]: checking the configuration, building the worker and its runtime once,
    then sessions with one replica after another until a signal asks for shutdown.

    The world is a [World]: what the sockets, the clock, the scheduler and the metrics
    clients do at each step, when the signal arrives (the number of the first load of
    [SHUTDOWN] that sees it; the handler only ever stores [true]), and the constructors of
    the runtimes.  The loops of the process end because of the signal: fuel beyond its
    number is enough. *)

From S2P Require Import Prelude Types RustStr RustParse Config Crypto Protocol Frame Traits Fingerprint.
From S2P Require Import Volumes Secrets Worker WorkerInv Metrics WorkerThreads WorkerSafety WorkerShutdown RealIo.
From S2P Require Import System Http Process.

Definition REPLICA_CONNECT_TIMEOUT : Z := from_secs 1.
Definition MAX_SHUTDOWN_RECONCILIATION_ATTEMPTS : nat := 1.
Definition SHUTDOWN_POLL_INTERVAL : Z := 50 * NANOS_PER_MILLI.
Definition INITIAL_BACKOFF_MS : Z := 100.
Definition MAX_BACKOFF_MS : Z := 10000.

(** ** Shutdown *)

(** The loop of [reconcile_shutdown], with so many attempts to go. *)
Fixpoint reconcile_from {St} (attempts : nat) (shutdown : M St bool) (wait : M St unit) : M St bool :=
  match attempts with
  | O => ret false
  | S attempts =>
    let* ok := shutdown in
    if ok then ret true else when (0 <? attempts)%nat wait ;;; reconcile_from attempts shutdown wait
  end.
Definition reconcile_shutdown {St} (shutdown : M St bool) (wait : M St unit) : M St bool :=
  reconcile_from MAX_SHUTDOWN_RECONCILIATION_ATTEMPTS shutdown wait.

(** The [Io] of a worker without a session: reports are lost, nothing arrives. *)
Inductive DisconnectedShutdownIo := disconnected_shutdown_io.

#[export] Instance disconnected_io : Io DisconnectedShutdownIo := {
  io_now _ := 0;
  io_send _ io := Done io;
  io_recv io := Done (None, io);
  io_random_u64 io := (0, io)
}.

#[export, refine] Instance disconnected_io_laws : IoLaws DisconnectedShutdownIo := {
  io_wf _ := True;
  io_pending _ := 0%nat;
  io_panics _ := False
}.
Proof. all: by simpl. Defined.

(** ** Choosing the runtime *)

Inductive RuntimeKind :=
| KProcess
| KProcessTest (base_port : Z)
| KSimulated
| KContainerd (snapshotter : option string).

Definition select_runtime (cfg : RunConfig) : option RuntimeKind :=
  if String.eqb (runtime_mode cfg) "process" then
    Some (if test_process_controls cfg then KProcessTest (test_process_base_port cfg) else KProcess)
  else if String.eqb (runtime_mode cfg) "simulated" then Some KSimulated
  else if String.eqb (runtime_mode cfg) "containerd" then
    Some (KContainerd (if String.eqb (snapshotter cfg) "overlayfs" then None else Some (snapshotter cfg)))
  else None.

(** The test-only flags must fit together; otherwise the process exits with 2. *)
Definition test_flags_ok (cfg : RunConfig) : bool :=
  negb (test_process_controls cfg && negb (String.eqb (runtime_mode cfg) "process"))
  && negb (negb (test_process_controls cfg) && test_process_base_port_explicit cfg)
  && negb (test_process_base_port cfg =? 0)
  && negb (test_process_controls cfg
           && bool_decide (checked_add U16_MAX (test_process_base_port cfg) TEST_PROCESS_PORT_COUNT = None)).

(** ** The world *)

(** What is there when a tick begins. *)
Record Moment := mkMoment {
  mo_reads : list ReadEvent;
  mo_writes : list WriteEvent;
  mo_ms : Z;
  mo_nonces : list bytes;
  mo_sched : list nat;
  mo_scrape : option (bytes * Z)  (* a metrics request, and the uptime in seconds *)
}.

Record World (RT OS : Type) := mkWorld {
  world_signal : nat;
  world_connect : nat → SocketAddr → Z → result TcpStream io_error;
  world_clock : nat → Z * Z * list bytes;  (* nanoseconds, milliseconds, nonces at a connect *)
  world_moment : nat → Moment;
  world_sleep : Z → OS → OS;
  world_runtime : RuntimeKind → option RT;
  world_bind : Z → bool  (* binding the metrics port *)
}.
Arguments mkWorld {RT OS}.
Arguments world_signal {RT OS}. Arguments world_connect {RT OS}. Arguments world_clock {RT OS}.
Arguments world_moment {RT OS}. Arguments world_sleep {RT OS}. Arguments world_runtime {RT OS}.
Arguments world_bind {RT OS}.

(** The system calls of the process itself (the worker's are its own). *)
Inductive SysCall :=
| Connects (addr : string)
| ReadsClock (now : Z)
| Sleeps (d : Z).

(** The process: what outlives sessions, how far it has got in the world, and what it
    has called and answered. *)
Record Agent (RT OS : Type) := mkAgent {
  ag_worker : Worker;
  ag_rt : RT;
  ag_host : OS;
  ag_loads : nat;
  ag_connects : nat;
  ag_ticks : nat;
  ag_calls : list SysCall;
  ag_scrapes : list bytes
}.
Arguments mkAgent {RT OS}.
Arguments ag_worker {RT OS}. Arguments ag_rt {RT OS}. Arguments ag_host {RT OS}. Arguments ag_loads {RT OS}.
Arguments ag_connects {RT OS}. Arguments ag_ticks {RT OS}. Arguments ag_calls {RT OS}.
Arguments ag_scrapes {RT OS}.

Section agent.
  Context {RT OS : Type} `{!Host OS} `{!Runtime RT OS} `{!Node OS} `{!Aead} (world : World RT OS).
  Abbreviation Ag := (Agent RT OS).
  Abbreviation A := (M Ag).

(** [SHUTDOWN.load(SeqCst)]. *)
Definition load_shutdown : A bool := λ a,
  Done ((world_signal world <=? ag_loads a)%nat,
    mkAgent (ag_worker a) (ag_rt a) (ag_host a) (S (ag_loads a)) (ag_connects a) (ag_ticks a)
      (ag_calls a) (ag_scrapes a)).

Definition next_moment : A Moment := λ a,
  Done (world_moment world (ag_ticks a),
    mkAgent (ag_worker a) (ag_rt a) (ag_host a) (ag_loads a) (ag_connects a) (S (ag_ticks a))
      (ag_calls a) (ag_scrapes a)).

Definition agent_host {X} (f : OS → X * OS) : A X := λ a,
  let '(x, h) := f (ag_host a) in
  Done (x, mkAgent (ag_worker a) (ag_rt a) h (ag_loads a) (ag_connects a) (ag_ticks a)
    (ag_calls a) (ag_scrapes a)).

Definition log_call (call : SysCall) : A unit := λ a,
  Done (tt, mkAgent (ag_worker a) (ag_rt a) (ag_host a) (ag_loads a) (ag_connects a) (ag_ticks a)
    (ag_calls a ++ [call]) (ag_scrapes a)).

Definition sleep (d : Z) : A unit :=
  log_call (Sleeps d) ;;; agent_host (λ h, (tt, world_sleep world d h)).

(** [Instant::now()]. *)
Definition read_clock : A Z :=
  let* now := agent_host instant_now in log_call (ReadsClock now) ;;; ret now.

Definition agent_worker (f : Worker → Worker) : A unit := λ a,
  Done (tt, mkAgent (f (ag_worker a)) (ag_rt a) (ag_host a) (ag_loads a) (ag_connects a) (ag_ticks a)
    (ag_calls a) (ag_scrapes a)).

(** A call of the worker: [&mut node_worker], [&mut io] and the runtime it owns. *)
Definition with_io {IO X} (schedule : list nat) (m : M (@Ctx IO RT OS) X) (dev : IO) : A (X * IO) := λ a,
  match m (mkCtx (ag_worker a) dev (ag_rt a) (ag_host a) schedule) with
  | Done (x, c) =>
    Done ((x, io c), mkAgent (worker c) (rt c) (host c) (ag_loads a) (ag_connects a) (ag_ticks a)
      (ag_calls a) (ag_scrapes a))
  | Panic e => Panic e
  end.

(** ** A session *)

(** What has happened to the connection by the time of a tick. *)
Definition arrive (mo : Moment) (r : RealIo) : RealIo :=
  mkRealIo (mkTcpStream (incoming (stream r) ++ mo_reads mo) (write_events (stream r) ++ mo_writes mo)
              (outgoing (stream r)) (shut_down (stream r)))
    (read_buf r) (frame_buf r) (frame_pos r) (write_buf r) (rio_prng r) (connected r) (encryption_key r)
    (mo_ms mo) (mo_nonces mo).

(** Every message received in a tick takes at least a byte of what is there. *)
Definition tick_budget (r : RealIo) : nat := S (frame_pos r + unread (incoming (stream r))).

(** [srv.poll(node_worker)]. *)
Definition poll_metrics (serving : bool) (mo : Moment) : A unit := λ a,
  match serving, mo_scrape mo with
  | true, Some (request, uptime) =>
    match poll request (ag_worker a) uptime with
    | Done answer =>
      Done (tt, mkAgent (ag_worker a) (ag_rt a) (ag_host a) (ag_loads a) (ag_connects a) (ag_ticks a)
        (ag_calls a) (ag_scrapes a ++ [answer]))
    | Panic e => Panic e
    end
  | _, _ => Done (tt, a)
  end.

(** [while rio.is_connected() && !SHUTDOWN.load(..) { .. }]. *)
Fixpoint session_loop (fuel : nat) (serving : bool) (rio : RealIo) : A RealIo :=
  match fuel with
  | O => panic "session did not end"
  | S fuel =>
    if negb (connected rio) then ret rio
    else
      let* stop := load_shutdown in
      if stop then ret rio
      else
        let* mo := next_moment in
        let rio := arrive mo rio in
        let* (_, rio) := with_io (mo_sched mo) (tick (tick_budget rio)) rio in
        poll_metrics serving mo ;;;
        sleep NANOS_PER_MILLI ;;;
        session_loop fuel serving rio
  end.

Definition reconcile_wait {IO} : M (@Ctx IO RT OS) unit :=
  on_host (λ h, (tt, world_sleep world (from_secs 1) h)).

(** [run_worker_loop]; [Some code]: the process exits with it. *)
Definition run_worker_loop (fuel : nat) (serving : bool) (rio : RealIo) : A (option Z) :=
  let* rio := session_loop fuel serving rio in
  let* stop := load_shutdown in
  if stop then
    let* (ok, _) := with_io [] (reconcile_shutdown shutdown reconcile_wait) rio in
    ret (if ok then None else Some 1)
  else ret None.

Definition shutdown_disconnected_worker : A bool :=
  let* (ok, _) := with_io [] (reconcile_shutdown shutdown reconcile_wait) disconnected_shutdown_io in
  ret ok.

(** [wait_for_reconnect_or_shutdown_with], from the computed deadline. *)
Fixpoint wait_until (fuel : nat) (deadline : Z) : A bool :=
  match fuel with
  | O => panic "wait did not end"
  | S fuel =>
    let* stop := load_shutdown in
    if stop then ret true
    else
      let* now := read_clock in
      let remaining := saturating_duration_since deadline now in
      if remaining =? 0 then ret false
      else sleep (Z.min remaining SHUTDOWN_POLL_INTERVAL) ;;; wait_until fuel deadline
  end.
Definition wait_for_reconnect_or_shutdown (fuel : nat) (duration : Z) : A bool :=
  let* now := read_clock in wait_until fuel (now + duration).

(** ** Sessions, one replica after another *)

Definition try_connect (addr : string) (key : option bytes) : A (result RealIo io_error) := λ a,
  let '(nanos, ms, rng) := world_clock world (ag_connects a) in
  Done (connect_timeout parse_socket_addr (world_connect world (ag_connects a)) nanos ms rng addr key
          REPLICA_CONNECT_TIMEOUT,
    mkAgent (ag_worker a) (ag_rt a) (ag_host a) (ag_loads a) (S (ag_connects a)) (ag_ticks a)
      (ag_calls a ++ [Connects addr]) (ag_scrapes a)).

Inductive Round :=
| Exited (code : Z)
| Break
| Again (backoff_ms : Z) (replica_idx : nat).

(** One round of the [loop]. *)
Definition round (fuel : nat) (serving : bool) (addrs : list string) (key : option bytes)
    (backoff_ms : Z) (replica_idx : nat) : A Round :=
  let* stop := load_shutdown in
  if stop then ret Break
  else
    let* addr := index addrs replica_idx in
    let* r := try_connect addr key in
    let next := ((replica_idx + 1) mod length addrs)%nat in
    let* (exited, backoff_ms, replica_idx) :=
      match r with
      | Ok rio =>
        let* exited := run_worker_loop fuel serving rio in
        match exited with
        | Some code => ret (Some code, INITIAL_BACKOFF_MS, replica_idx)
        | None =>
          let* stop := load_shutdown in
          if stop then ret (None, INITIAL_BACKOFF_MS, replica_idx)
          else agent_worker on_connection_lost ;;; ret (None, INITIAL_BACKOFF_MS, next)
        end
      | Err _ => ret (None, backoff_ms, next)
      end in
    match exited with
    | Some code => ret (Exited code)
    | None =>
      let* stop := load_shutdown in
      if stop then ret Break
      else
        let* _ := wait_for_reconnect_or_shutdown fuel (backoff_ms * NANOS_PER_MILLI) in
        ret (Again (Z.min (backoff_ms * 2) MAX_BACKOFF_MS) replica_idx)
    end.

(** The [loop] and what follows it: the exit code of the process. *)
Fixpoint connect_loop (fuel n : nat) (serving : bool) (addrs : list string) (key : option bytes)
    (backoff_ms : Z) (replica_idx : nat) : A Z :=
  match n with
  | O => panic "process did not end"
  | S n =>
    let* r := round fuel serving addrs key backoff_ms replica_idx in
    match r with
    | Exited code => ret code
    | Break => let* ok := shutdown_disconnected_worker in ret (if ok then 0 else 1)
    | Again backoff_ms replica_idx => connect_loop fuel n serving addrs key backoff_ms replica_idx
    end
  end.

(** ** The command *)

(** The fingerprint, or conservative defaults under the host's name. *)
Definition node_fingerprint (os : OS) : outcome (NodeFingerprint * OS) :=
  let! (fp, os) := fingerprint os in
  match fp with
  | Ok fp => Done (fp, os)
  | Err _ =>
    let '(name, os) := gethostname os in
    let node_name := match name with Ok buf => from_utf8_lossy (until_nul buf) | Err _ => "unknown"%string end in
    Done (mkNodeFingerprint node_name 1000 1024 GpuNone 0 0, os)
  end.

(** [cmd_run]: the exit code, and the process at its end if it got as far as running. *)
Definition cmd_run (fuel : nat) (args : list string) (env : string → option string) (os : OS)
    : outcome (Z * option Ag) :=
  let cfg := parse_run_config args env in
  if negb (test_flags_ok cfg) then Done (2, None)
  else
    let! key :=
      if str_is_empty (encryption_key_hex cfg) then Done (Ok None)
      else let! st := from_hex (encryption_key_hex cfg) in
           Done (match st with Ok st => Ok (Some (worker_key st)) | Err e => Err e end) in
    match key with
    | Err _ => Done (1, None)
    | Ok key =>
      let addrs := parse_replica_addrs (replica_addr cfg) in
      if bool_decide (addrs = []) then Done (1, None)
      else if negb (result_is_ok (validate_replica_addrs addrs)) then Done (1, None)
      else
        let serving := match metrics_port cfg with Some port => world_bind world port | None => false end in
        let! (fp, os) := node_fingerprint os in
        let node_worker := new os (fp_node_name fp) (fp_gpu_type fp) (fp_gpu_count fp)
                             (fp_cpu_millicores fp) (fp_memory_megabytes fp) in
        match select_runtime cfg with
        | None => Done (1, None)
        | Some kind =>
          match world_runtime world kind with
          | None => Panic "failed to init containerd runtime"
          | Some runtime =>
            let! (code, a) := connect_loop fuel fuel serving addrs key INITIAL_BACKOFF_MS 0
              (mkAgent node_worker runtime os 0 0 0 [] []) in
            Done (code, Some a)
          end
        end
    end.

(** [cmd_fingerprint]: the exit code. *)
Definition cmd_fingerprint (os : OS) : outcome Z :=
  let! (fp, _) := fingerprint os in Done (if result_is_ok fp then 0 else 1).

(** [main] on the arguments after the program's name. *)
Definition agent_main (fuel : nat) (args : list string) (env : string → option string) (os : OS)
    : outcome (Z * option Ag) :=
  match args with
  | [] => Done (1, None)
  | command :: args =>
    if String.eqb command "fingerprint" then let! code := cmd_fingerprint os in Done (code, None)
    else if String.eqb command "run" then cmd_run fuel args env os
    else Done (1, None)
  end.

End agent.
