(* ===== verification/AgentSafety.v ===== *)
(** * The worker process ends cleanly or says so

    For every world whose signal arrives, [cmd_run] ends: the sessions keep the worker's
    invariant, exit code 0 means that nothing is left behind, and the panics are the ones
    listed.  Also the order in which replicas are tried, and how long is waited. *)

From S2P Require Import Prelude Types RustStr RustParse Config Crypto Protocol Frame Traits Fingerprint.
From S2P Require Import Volumes Secrets Worker WorkerInv Metrics WorkerThreads WorkerSafety WorkerShutdown RealIo.
From S2P Require Import Agent.

Section agent.
  Context {RT OS : Type} `{!Host OS} `{!Runtime RT OS} `{!Node OS} `{!Aead} (world : World RT OS).
  Abbreviation Ag := (Agent RT OS).
  Implicit Types a : Ag.

  (** The clock of every tick is in the range of [tick_safe]. *)
  Context (Hclock : ∀ n, 0 ≤ mo_ms (world_moment world n) ≤ TICK_MAX).

  Abbreviation signal := (world_signal world).
  (** The one panic of a running worker. *)
  Abbreviation Pn := (λ e : string, e = NO_ENTRY).

(** Nothing tracked, no failure left to report. *)
Definition clean (w : Worker) : Prop := pods w = ∅ ∧ pending_failure_reasons w = ∅.

(** ** Rules *)

Lemma wp_load Q a :
  (∀ a', ag_worker a' = ag_worker a → ag_loads a' = S (ag_loads a) →
     Q (signal <=? ag_loads a)%nat a') → wp Pn (load_shutdown world) Q a.
Proof. intros HQ. apply (HQ (mkAgent _ _ _ _ _ _ _ _)); done. Qed.

Lemma wp_sleep d Q a :
  (∀ a', ag_worker a' = ag_worker a → ag_loads a' = ag_loads a → Q tt a') → wp Pn (sleep world d) Q a.
Proof. intros HQ. by apply HQ. Qed.

Lemma wp_read_clock Q a :
  (∀ now a', ag_worker a' = ag_worker a → ag_loads a' = ag_loads a → Q now a') → wp Pn read_clock Q a.
Proof. intros HQ. unfold wp, read_clock, bind, agent_host. destruct (instant_now (ag_host a)). by apply HQ. Qed.

Lemma wp_with_io {IO X} `{!Io IO} schedule (m : M (@Ctx IO RT OS) X) dev Q Q' a :
  wp Pn m Q' (mkCtx (ag_worker a) dev (ag_rt a) (ag_host a) schedule) →
  (∀ x (c : @Ctx IO RT OS) a', Q' x c → ag_worker a' = worker c → ag_loads a' = ag_loads a → Q (x, io c) a') →
  wp Pn (with_io schedule m dev) Q a.
Proof.
  unfold wp, with_io. destruct (m _) as [[x c]|e]; [|done]. intros Hm HQ. by eapply HQ.
Qed.

(** ** A session *)

Lemma arrive_wf mo r : real_io_wf r → real_io_wf (arrive mo r).
Proof. intros []. by constructor. Qed.

Lemma poll_metrics_ok serving mo a :
  winv (ag_worker a) →
  wp Pn (poll_metrics serving mo) (λ _ a', ag_worker a' = ag_worker a ∧ ag_loads a' = ag_loads a) a.
Proof.
  intros Hw. unfold wp, poll_metrics. destruct serving; [|done].
  destruct (mo_scrape mo) as [[request uptime]|]; [|done].
  by destruct (poll_ok request (ag_worker a) uptime Hw) as [answer ->].
Qed.

Lemma session_tick_ok mo rio a :
  (∃ n, mo = world_moment world n) → winv (ag_worker a) → real_io_wf rio →
  wp Pn (with_io (mo_sched mo) (tick (tick_budget (arrive mo rio))) (arrive mo rio))
    (λ r a', winv (ag_worker a') ∧ real_io_wf r.2 ∧ ag_loads a' = ag_loads a) a.
Proof.
  intros [n ->] Hw Hr. eapply wp_with_io.
  - eapply wp_weaken; [apply tick_any|].
    + split; [done|]. by apply arrive_wf.
    + apply Hclock.
    + cbn [io]. unfold tick_budget. simpl. lia.
    + by intros e [[]|].
  - intros [] c a' [[Hw' Hio'] _] E1 E2. rewrite E1. by split_and!.
Qed.

Lemma session_loop_ok fuel serving rio a :
  winv (ag_worker a) → real_io_wf rio → (0 < fuel)%nat → (signal < ag_loads a + fuel)%nat →
  wp Pn (session_loop world fuel serving rio)
    (λ rio' a', winv (ag_worker a') ∧ real_io_wf rio' ∧ (ag_loads a ≤ ag_loads a')%nat) a.
Proof.
  revert rio a. induction fuel as [|fuel IH]; intros rio a Hw Hr Hpos Hf; [lia|].
  cbn [session_loop]. destruct (connected rio); cbn [negb]; [|apply wp_ret; by split_and!].
  wp_step. apply wp_load. intros a1 E1 L1. destruct (Nat.leb_spec signal (ag_loads a)).
  { apply wp_ret. rewrite E1, L1. split_and!; [done|done|lia]. }
  wp_step. unfold next_moment, wp at 1.
  wp_step. eapply wp_mono; [apply session_tick_ok; [eauto|by rewrite E1|done]|].
  intros [[] rio2] a2 (Hw2 & Hr2 & L2). simpl in L2, Hr2.
  wp_step. eapply wp_mono; [by apply poll_metrics_ok|]. intros _ a3 [E3 L3].
  wp_step. apply wp_sleep. intros a4 E4 L4.
  eapply wp_mono; [apply IH; [by rewrite E4, E3|done|lia|lia]|].
  intros rio' a' (? & ? & ?). split_and!; [done|done|lia].
Qed.

(** ** Shutdown *)

Lemma reconcile_ok {IO} `{!Io IO} `{LAWS : !IoLaws IO} (c : @Ctx IO RT OS) :
  (∀ e, io_panics (IoLaws := LAWS) e → Pn e) → winv (worker c) → io_wf (io c) →
  wp Pn (reconcile_shutdown shutdown (reconcile_wait world)) (λ b c', b = true → clean (worker c')) c.
Proof.
  intros HP Hw Hio. unfold reconcile_shutdown, MAX_SHUTDOWN_RECONCILIATION_ATTEMPTS. cbn [reconcile_from].
  assert (Hc : scinv (terminal_count (worker c) = 0) c) by (split; [by apply sinv_start|done]).
  wp_step. eapply wp_mono; [eapply wp_weaken; [by apply (shutdown_ok _ _ c Hc)|exact HP]|].
  intros [] c1 (Hp & Hf & _); cbn [when].
  - apply wp_ret. intros _. split; [by apply Hp|by apply Hf].
  - by wp_steps.
Qed.

(** A worker that is clean already stays so. *)
Lemma reconcile_clean {IO} `{!Io IO} (c : @Ctx IO RT OS) :
  clean (worker c) →
  wp Pn (reconcile_shutdown shutdown (reconcile_wait world)) (λ b c', b = true ∧ clean (worker c')) c.
Proof.
  intros [Hp Hf]. unfold reconcile_shutdown, MAX_SHUTDOWN_RECONCILIATION_ATTEMPTS. cbn [reconcile_from].
  destruct (shutdown_empty (from_secs 20) c Hp Hf) as (c' & E & Hw); [done|].
  unfold shutdown, wp, bind. rewrite E. simpl. unfold clean. by rewrite Hw.
Qed.

Lemma run_worker_loop_ok fuel serving rio a :
  winv (ag_worker a) → real_io_wf rio → (0 < fuel)%nat → (signal < ag_loads a + fuel)%nat →
  wp Pn (run_worker_loop world fuel serving rio)
    (λ r a', (ag_loads a < ag_loads a')%nat ∧
       match r with
       | Some code => code = 1
       | None => winv (ag_worker a') ∨ clean (ag_worker a') ∧ (signal < ag_loads a')%nat
       end) a.
Proof.
  intros Hw Hr Hpos Hf. unfold run_worker_loop. wp_step.
  eapply wp_mono; [by apply session_loop_ok|]. intros rio1 a1 (Hw1 & Hr1 & L1).
  wp_step. apply wp_load. intros a2 E2 L2. destruct (Nat.leb_spec signal (ag_loads a1)).
  - wp_step. eapply wp_with_io.
    + apply (reconcile_ok (LAWS := real_io_laws)); [by intros e []|by rewrite E2|done].
    + intros b c a3 Hb E3 L3. apply wp_ret. split; [lia|]. destruct b; [right|done].
      rewrite E3. split; [by apply Hb|lia].
  - apply wp_ret. split; [lia|]. left. by rewrite E2.
Qed.

Lemma shutdown_disconnected_ok a :
  winv (ag_worker a) ∨ clean (ag_worker a) →
  wp Pn (shutdown_disconnected_worker world) (λ b a', b = true → clean (ag_worker a')) a.
Proof.
  intros Hor. unfold shutdown_disconnected_worker. wp_step. destruct Hor as [Hw|Hc].
  - eapply wp_with_io; [apply (reconcile_ok (LAWS := disconnected_io_laws)); [by intros e []|done|done]|].
    intros b c a1 Hb E1 L1. apply wp_ret. rewrite E1. exact Hb.
  - eapply wp_with_io; [by apply reconcile_clean|].
    intros b c a1 [_ Hb] E1 L1. apply wp_ret. by rewrite E1.
Qed.

(** ** Reconnecting *)

Lemma wait_until_ok fuel deadline a :
  (0 < fuel)%nat → (signal < ag_loads a + fuel)%nat →
  wp Pn (wait_until world fuel deadline)
    (λ _ a', ag_worker a' = ag_worker a ∧ (ag_loads a < ag_loads a')%nat) a.
Proof.
  revert a. induction fuel as [|fuel IH]; intros a Hpos Hf; [lia|]. cbn [wait_until].
  wp_step. apply wp_load. intros a1 E1 L1. destruct (Nat.leb_spec signal (ag_loads a)).
  { apply wp_ret. split; [done|lia]. }
  wp_step. apply wp_read_clock. intros now a2 E2 L2. cbv zeta. case_match.
  { apply wp_ret. split; [congruence|lia]. }
  wp_step. apply wp_sleep. intros a3 E3 L3.
  eapply wp_mono; [apply IH; lia|]. intros _ a' [? ?]. split; [congruence|lia].
Qed.

Lemma wait_for_reconnect_ok fuel duration a :
  (0 < fuel)%nat → (signal < ag_loads a + fuel)%nat →
  wp Pn (wait_for_reconnect_or_shutdown world fuel duration)
    (λ _ a', ag_worker a' = ag_worker a ∧ (ag_loads a < ag_loads a')%nat) a.
Proof.
  intros ? ?. unfold wait_for_reconnect_or_shutdown. wp_step. apply wp_read_clock. intros now a1 E1 L1.
  eapply wp_mono; [apply wait_until_ok; [done|lia]|]. intros _ a' [? ?]. split; [congruence|lia].
Qed.

Lemma wp_try_connect addr key Q a :
  (∀ r a', ag_worker a' = ag_worker a → ag_loads a' = ag_loads a →
     (∀ rio, r = Ok rio → real_io_wf rio) → Q r a') → wp Pn (try_connect world addr key) Q a.
Proof.
  intros HQ. unfold wp, try_connect. destruct (world_clock world (ag_connects a)) as [[nanos ms] rng].
  apply HQ; [done|done|]. intros rio. apply connect_wf.
Qed.

Lemma on_connection_lost_winv w : winv w → winv (on_connection_lost w).
Proof. intros []. by constructor. Qed.

(** What a round leaves: the process exits, the signal was seen, or there is another. *)
Definition round_post (addrs : list string) (a : Ag) (r : Round) (a' : Ag) : Prop :=
  match r with
  | Exited code => code = 1
  | Break => winv (ag_worker a') ∨ clean (ag_worker a')
  | Again _ idx => winv (ag_worker a') ∧ (idx < length addrs)%nat ∧
                   (ag_loads a < ag_loads a')%nat ∧ (ag_loads a < signal)%nat
  end.

(** The end of a round: the signal, or the wait for the next. *)
Lemma round_end_ok fuel addrs backoff idx a0 a :
  winv (ag_worker a) ∨ clean (ag_worker a) ∧ (signal < ag_loads a)%nat →
  (idx < length addrs)%nat → (ag_loads a0 < ag_loads a)%nat → (ag_loads a0 < signal)%nat →
  (signal < fuel)%nat →
  wp Pn (let* stop := load_shutdown world in
         if stop then ret Break
         else
           let* _ := wait_for_reconnect_or_shutdown world fuel (backoff * NANOS_PER_MILLI) in
           ret (Again (Z.min (backoff * 2) MAX_BACKOFF_MS) idx)) (round_post addrs a0) a.
Proof.
  intros Hor Hi Hl Hs Hf. wp_step. apply wp_load. intros a1 E1 L1.
  destruct (Nat.leb_spec signal (ag_loads a)).
  - apply wp_ret. simpl. rewrite E1. destruct Hor as [?|[? _]]; auto.
  - wp_step. eapply wp_mono; [apply wait_for_reconnect_ok; lia|]. intros _ a2 [E2 L2]. apply wp_ret.
    destruct Hor as [Hw|[_ ?]]; [|lia]. split_and!; [by rewrite E2, E1|done|lia|done].
Qed.

Lemma round_ok fuel serving addrs key backoff idx a :
  winv (ag_worker a) → (idx < length addrs)%nat → (signal < fuel)%nat →
  wp Pn (round world fuel serving addrs key backoff idx) (round_post addrs a) a.
Proof.
  intros Hw Hi Hf. unfold round. wp_step. apply wp_load. intros a1 E1 L1.
  destruct (Nat.leb_spec signal (ag_loads a)) as [|Hs].
  { apply wp_ret. left. by rewrite E1. }
  destruct (lookup_lt_is_Some_2 addrs idx Hi) as [addr Ha].
  wp_step. unfold index. apply (wp_expect _ _ _ _ addr); [done|].
  wp_step. apply wp_try_connect. intros r a2 E2 L2 Hr. cbv zeta.
  assert (Hnext : ((idx + 1) mod length addrs < length addrs)%nat) by (apply Nat.mod_upper_bound; lia).
  wp_step. destruct r as [rio|e].
  - wp_step. eapply wp_mono; [apply run_worker_loop_ok; [by rewrite E2, E1|by apply Hr|lia|lia]|].
    intros [code|] a3 [L3 H3]; [by wp_step; wp_step|].
    wp_step. apply wp_load. intros a4 E4 L4. destruct (Nat.leb_spec signal (ag_loads a3)).
    + wp_step. apply round_end_ok; [|done|lia|done|done]. rewrite E4.
      destruct H3 as [?|[? ?]]; [by left|right; split; [done|lia]].
    + wp_step. unfold agent_worker, wp at 1. wp_step.
      apply round_end_ok; cbn [ag_worker ag_loads]; [|done|lia|done|done]. left.
      destruct H3 as [?|[_ ?]]; [|lia]. rewrite E4. by apply on_connection_lost_winv.
  - wp_step. apply round_end_ok; [|done|lia|done|done]. left. by rewrite E2, E1.
Qed.

Lemma connect_loop_ok fuel n serving addrs key backoff idx a :
  winv (ag_worker a) → (idx < length addrs)%nat → (signal < fuel)%nat → (0 < n)%nat →
  (signal < ag_loads a + n)%nat →
  wp Pn (connect_loop world fuel n serving addrs key backoff idx)
    (λ code a', (code = 0 ∨ code = 1) ∧ (code = 0 → clean (ag_worker a'))) a.
Proof.
  revert backoff idx a. induction n as [|n IH]; intros backoff idx a Hw Hi Hf Hpos Hn; [lia|].
  cbn [connect_loop]. wp_step. eapply wp_mono; [by apply round_ok|]. intros [code| |b i] a1; simpl.
  - intros ->. apply wp_ret. split; [by right|done].
  - intros Hor. wp_step. eapply wp_mono; [by apply shutdown_disconnected_ok|].
    intros [] a2 Hb; apply wp_ret; [split; [by left|auto]|split; [by right|done]].
  - intros (Hw1 & Hi1 & L1 & L2). apply IH; [done|done|done|lia|lia].
Qed.

(** ** The command *)

Lemma hex_decode_loop_panics hex i n e :
  ((i + n) * 2 ≤ length hex)%nat → hex_decode_loop hex i n = Panic e →
  e = "byte index is not a char boundary"%string.
Proof.
  revert i. induction n as [|n IH]; intros i Hl; [done|]. cbn [hex_decode_loop].
  unfold hex_decode_at. case_match; [|by intros [= <-]].
  destruct (lookup_lt_is_Some_2 hex (i * 2)) as [b0 ->]; [lia|].
  destruct (lookup_lt_is_Some_2 hex (i * 2 + 1)) as [b1 ->]; [lia|]. cbn [outcome_bind].
  destruct (ok_or tt _); [|done]. specialize (IH (S i)).
  destruct (hex_decode_loop hex (S i) n) as [[]|e']; cbn [outcome_bind]; [done|done|].
  intros [= <-]. apply IH; [lia|done].
Qed.

Lemma from_hex_panics hex e : from_hex hex = Panic e → e = "byte index is not a char boundary"%string.
Proof.
  unfold from_hex, hex_decode. destruct (Nat.eqb_spec (length (as_bytes hex)) 64) as [El|]; [|done].
  rewrite El. cbn [Nat.eqb KEY_LEN Nat.mul Nat.add].
  destruct (hex_decode_loop (as_bytes hex) 0 KEY_LEN) as [[]|e'] eqn:E; cbn [outcome_bind]; [done|done|].
  intros [= <-]. eapply hex_decode_loop_panics; [|exact E]. rewrite El. unfold KEY_LEN. lia.
Qed.

Lemma fingerprint_panics os e : node_fingerprint os = Panic e → e = "attempt to multiply with overflow"%string.
Proof.
  unfold node_fingerprint, fingerprint, read_cpu_millicores.
  destruct (get_hostname os) as [[name|] os1]; [|cbn; by destruct (gethostname os1)].
  destruct (read_to_string "/proc/cpuinfo" os1) as [[cpuinfo|] os2]; [|cbn; by destruct (gethostname os2)].
  destruct (parse_cpuinfo cpuinfo) as [[cpu|]|e'] eqn:Ec; cbn [outcome_bind].
  - destruct (read_memory_megabytes os2) as [[memory|] os3]; [|cbn; by destruct (gethostname os3)].
    by destruct (discover_gpus os3) as [[? ?] ?].
  - by destruct (gethostname os2).
  - intros [= <-]. revert Ec. unfold parse_cpuinfo. case_match; [done|]. cbv zeta. case_match; [done|].
    by intros [= <-].
Qed.

Lemma node_fingerprint_cpu os fp os' :
  node_fingerprint os = Done (fp, os') → 0 ≤ fp_cpu_millicores fp < U32_MAX ∧ 0 ≤ fp_memory_megabytes fp ∧ 0 ≤ fp_gpu_count fp.
Proof.
  unfold node_fingerprint. destruct (fingerprint os) as [[[f|] os1]|e] eqn:E; cbn [outcome_bind].
  - intros [= <- _]. destruct (fingerprint_range os f os1 E) as (? & [? _] & [? _] & _). split; [done|lia].
  - destruct (gethostname os1) as [n os2]. intros [= <- _]. simpl. unfold U32_MAX. lia.
  - done.
Qed.

(** How the process may panic: the driver's index when tombstones overflow, a key that
    is cut inside a character, a processor count whose millicores do not fit, a runtime
    that cannot be set up. *)
Definition process_panics : list string :=
  [NO_ENTRY; "byte index is not a char boundary"; "attempt to multiply with overflow";
   "failed to init containerd runtime"]%string.

(** The capacities the node reports are below the maxima of their types. *)
Definition node_fits (os : OS) : Prop :=
  ∀ fp os', node_fingerprint os = Done (fp, os') →
    fp_gpu_count fp < U8_MAX ∧ fp_memory_megabytes fp < U32_MAX.

(** What the process may do in the end. *)
Definition ends_well (flags_ok : bool) (x : outcome (Z * option Ag)) : Prop :=
  match x with
  | Done (code, a) =>
    code ∈ [0; 1; 2] ∧ (code = 2 ↔ flags_ok = false) ∧
    (code = 0 → ∃ final, a = Some final ∧ clean (ag_worker final))
  | Panic e => e ∈ process_panics
  end.

Ltac in_list := cbn [ends_well outcome_bind]; unfold process_panics; rewrite !elem_of_cons; tauto.

Lemma ends_with_1 : ends_well true (Done (1, None)).
Proof. split; [in_list|]. by split. Qed.

Lemma connect_loop_ends fuel serving addrs key a :
  winv (ag_worker a) → (0 < length addrs)%nat → (signal < fuel)%nat → ag_loads a = 0%nat →
  ends_well true (let! (code, a) := connect_loop world fuel fuel serving addrs key INITIAL_BACKOFF_MS 0 a in
                  Done (code, Some a)).
Proof.
  intros Hw Hi Hf Hl.
  pose proof (connect_loop_ok fuel fuel serving addrs key INITIAL_BACKOFF_MS 0 a Hw Hi Hf ltac:(lia) ltac:(lia)) as Hwp.
  unfold wp in Hwp. destruct (connect_loop _ _ _ _ _ _ _ _ a) as [[code a']|e]; cbn [outcome_bind ends_well].
  - destruct Hwp as [Hcode Hc]. split; [destruct Hcode as [->| ->]; in_list|].
    split; [|eauto]. destruct Hcode as [->| ->]; done.
  - rewrite Hwp. in_list.
Qed.

(** The whole command. *)
Lemma cmd_run_ends fuel args env os :
  (signal < fuel)%nat → node_fits os →
  ends_well (test_flags_ok (parse_run_config args env)) (cmd_run world fuel args env os).
Proof.
  intros Hf Hfit. unfold cmd_run. set (cfg := parse_run_config args env). cbv zeta.
  destruct (test_flags_ok cfg); cbn [negb]; [|split; [in_list|by split]].
  assert (Hkey : ∀ k : result (option bytes) string → outcome (Z * option Ag),
    (∀ r, ends_well true (k r)) →
    ends_well true (let! key := if str_is_empty (encryption_key_hex cfg) then Done (Ok None)
      else let! st := from_hex (encryption_key_hex cfg) in
           Done (match st with Ok st => Ok (Some (worker_key st)) | Err e => Err e end) in k key)).
  { intros k Hk. destruct (str_is_empty _); [apply Hk|]. destruct (from_hex _) as [st|e] eqn:E; [apply Hk|].
    apply from_hex_panics in E as ->. in_list. }
  apply Hkey. intros [key|]; [|apply ends_with_1].
  case_bool_decide as Hne; [apply ends_with_1|].
  destruct (result_is_ok _); cbn [negb]; [|apply ends_with_1].
  destruct (node_fingerprint os) as [[fp os']|e] eqn:Efp; cbn [outcome_bind].
  2: { apply fingerprint_panics in Efp as ->. in_list. }
  destruct (select_runtime cfg); [|apply ends_with_1]. destruct (world_runtime world _).
  2: { in_list. }
  destruct (Hfit _ _ Efp) as [? ?]. destruct (node_fingerprint_cpu _ _ _ Efp) as (? & ? & ?).
  apply connect_loop_ends; [|destruct (parse_replica_addrs _); [done|simpl; lia]|done|done].
  apply (winv_new os' _ _ _ _ _ 4); done.
Qed.

(** C38: the process ends, and its exit code can be believed.  For every command line,
    environment, runtime and behaviour of the network, on every node whose GPU count and
    memory are below the maxima of their types ([node_fits]; at a maximum the additions of
    admission can overflow), once the signal arrives [cmd_run] ends: with 2 exactly when the
    test-only flags do not fit together, else with 1 or 0, and with 0 only if the worker
    tracks no pod and owes no report any more, whether the signal came inside a session,
    while connecting or while waiting.  Its panics are the four of [process_panics]; no index
    of the replica list, no metrics answer and no call of the worker adds another. *)
Theorem process_ends_clean (fuel : nat) (args : list string) (env : string → option string) (os : OS) :
  (world_signal world < fuel)%nat → node_fits os →
  match cmd_run world fuel args env os with
  | Done (code, a) =>
    code ∈ [0; 1; 2] ∧ (code = 2 ↔ test_flags_ok (parse_run_config args env) = false) ∧
    (code = 0 → ∃ final, a = Some final ∧ clean (ag_worker final))
  | Panic e => e ∈ process_panics
  end.
Proof. exact (cmd_run_ends fuel args env os). Qed.

End agent.
