(* ===== verification/AgentRetry.v ===== *)
(** * Which replica is tried, and how long is waited *)

From S2P Require Import Prelude Types RustStr RustParse Config Crypto Protocol Frame Traits Fingerprint.
From S2P Require Import Volumes Secrets Worker WorkerInv Metrics WorkerThreads WorkerSafety WorkerShutdown RealIo.
From S2P Require Import Agent.

Section retry.
  Context {RT OS : Type} `{!Host OS} `{!Runtime RT OS} `{!Node OS} `{!Aead} (world : World RT OS).
  Abbreviation Ag := (Agent RT OS).
  Implicit Types a : Ag.

Abbreviation signal := (world_signal world).

(** ** Between two connections *)

(** Nothing but the sleeps of the session loop. *)
Definition session_calls : list SysCall → Prop := Forall (eq (Sleeps NANOS_PER_MILLI)).

Record polls (a a' : Ag) : Prop := {
  po_calls : ∃ s, ag_calls a' = ag_calls a ++ s ∧ session_calls s;
  po_connects : ag_connects a' = ag_connects a;
  po_loads : (ag_loads a ≤ ag_loads a')%nat
}.

#[local] Instance polls_preorder : PreOrder polls.
Proof.
  split.
  - intros a. split; [|done|lia]. exists []. rewrite app_nil_r. by split; [|constructor].
  - intros a1 a2 a3 [(s & Es & Hs) ? ?] [(t & Et & Ht) ? ?]. split; [|congruence|lia].
    exists (s ++ t). rewrite Et, Es, (assoc_L (++)). split; [done|by apply Forall_app].
Qed.

Lemma polls_same a a' :
  ag_calls a' = ag_calls a → ag_connects a' = ag_connects a → (ag_loads a ≤ ag_loads a')%nat → polls a a'.
Proof. intros E ? ?. split; [|done|done]. exists []. rewrite app_nil_r. by split; [|constructor]. Qed.

Abbreviation only_polls m := (∀ a, wp any_panic m (λ _ a', polls a a') a).

Lemma polls_bind {X Y} (m : M Ag X) (f : X → M Ag Y) :
  only_polls m → (∀ x, only_polls (f x)) → only_polls (bind m f).
Proof.
  intros Hm Hf a. wp_step. eapply wp_mono; [apply Hm|]. intros x a1 H1. eapply wp_mono; [apply Hf|].
  intros y a2 H2. cbn beta in *. by transitivity a1.
Qed.

Lemma polls_ret {X} (x : X) : only_polls (ret x).
Proof. intros a. by apply wp_ret. Qed.

Lemma polls_load : only_polls (load_shutdown world).
Proof. intros a. apply polls_same; simpl; [done|done|lia]. Qed.

Lemma polls_moment : only_polls (next_moment world).
Proof. intros a. by apply polls_same. Qed.

Lemma polls_sleep : only_polls (sleep world NANOS_PER_MILLI).
Proof. intros a. split; simpl; [|done|lia]. eexists. split; [done|]. by repeat constructor. Qed.

Lemma polls_with_io {IO X} `{!Io IO} schedule (m : M (@Ctx IO RT OS) X) dev : only_polls (with_io schedule m dev).
Proof. intros a. unfold wp, with_io. destruct (m _) as [[]|]; [by apply polls_same|done]. Qed.

Lemma polls_poll serving mo : only_polls (poll_metrics serving mo).
Proof.
  intros a. unfold wp, poll_metrics. destruct serving; [|by apply polls_same].
  destruct (mo_scrape mo) as [[]|]; [|by apply polls_same]. destruct (poll _ _ _); [by apply polls_same|done].
Qed.

Ltac keep := intros; first [apply polls_ret | apply polls_load | apply polls_moment | apply polls_sleep
                           | apply polls_with_io | apply polls_poll].

Lemma polls_session fuel serving rio : only_polls (session_loop world fuel serving rio).
Proof.
  revert rio. induction fuel as [|fuel IH]; intros rio; [done|]. cbn [session_loop].
  destruct (negb _); [keep|]. apply polls_bind; [keep|]. intros []; [keep|].
  apply polls_bind; [keep|]. intros mo. cbv zeta.
  apply polls_bind; [keep|]. intros [[] rio']. do 2 (apply polls_bind; [keep|intros []]). apply IH.
Qed.

Lemma polls_run_worker_loop fuel serving rio : only_polls (run_worker_loop world fuel serving rio).
Proof.
  unfold run_worker_loop. apply polls_bind; [apply polls_session|]. intros rio'.
  apply polls_bind; [keep|]. intros []; [|keep]. apply polls_bind; [keep|]. intros []. keep.
Qed.

Lemma polls_shutdown : only_polls (shutdown_disconnected_worker world).
Proof. unfold shutdown_disconnected_worker. apply polls_bind; [keep|]. intros []. keep. Qed.

(** Once seen, the signal stays. *)
Lemma wp_load_polls Q a :
  (∀ a', polls a a' → ag_loads a' = S (ag_loads a) → Q (signal <=? ag_loads a)%nat a') →
  wp any_panic (load_shutdown world) Q a.
Proof. intros HQ. apply (HQ (mkAgent _ _ _ _ _ _ _ _)); [|done]. apply polls_same; simpl; [done|done|lia]. Qed.

(** ** A wait *)

(** A whole wait: the clock is read until it has reached [deadline], with a sleep of at
    most 50 ms, and not beyond [deadline], after every earlier reading. *)
Inductive waits (deadline : Z) : list SysCall → Prop :=
| waits_over t : deadline ≤ t → waits deadline [ReadsClock t]
| waits_on t l : t < deadline → waits deadline l →
    waits deadline (ReadsClock t :: Sleeps (Z.min (deadline - t) SHUTDOWN_POLL_INTERVAL) :: l).

Definition connects_to (c : SysCall) : option string := match c with Connects addr => Some addr | _ => None end.
Definition no_connects : list SysCall → Prop := Forall (λ c, connects_to c = None).

Lemma session_no_connects s : session_calls s → no_connects s.
Proof. intros Hs. eapply Forall_impl; [exact Hs|]. by intros c <-. Qed.

Lemma wait_until_log fuel deadline a :
  wp any_panic (wait_until world fuel deadline)
    (λ cut a', (∃ w, ag_calls a' = ag_calls a ++ w ∧
                  if cut then no_connects w ∧ (signal ≤ ag_loads a')%nat else waits deadline w) ∧
               ag_connects a' = ag_connects a) a.
Proof.
  revert a. induction fuel as [|fuel IH]; intros a; [done|]. cbn [wait_until].
  wp_step. unfold load_shutdown at 1, wp at 1. destruct (Nat.leb_spec signal (ag_loads a)).
  { apply wp_ret. split; [|done]. exists []. rewrite app_nil_r. split; [done|]. split; [constructor|cbn [ag_loads]; lia]. }
  wp_step. unfold read_clock, agent_host, log_call. wp_step. unfold wp at 1. cbn [ag_host].
  destruct (instant_now (ag_host a)) as [t os1]. wp_step. unfold wp at 1. cbn [ag_calls]. wp_step. cbv zeta.
  destruct (Z.eqb_spec (saturating_duration_since deadline t) 0) as [Hz|Hz]; unfold saturating_duration_since in *.
  { apply wp_ret. split; [|done]. exists [ReadsClock t]. split; [done|]. constructor. lia. }
  wp_step. unfold sleep, log_call, agent_host, bind, wp at 1. eapply wp_mono; [apply IH|].
  intros cut a' [(w & Ew & Hw) Hk]. cbn [ag_calls ag_connects] in *. split; [|done].
  assert (Ht : t < deadline) by lia. replace (Z.max 0 (deadline - t)) with (deadline - t) in * by lia.
  eexists (ReadsClock t :: Sleeps _ :: w). rewrite Ew, <-!(assoc_L (++)). split; [done|].
  destruct cut; [destruct Hw; split; [by do 2 constructor|done]|]. by constructor.
Qed.

(** ** The schedule *)

  Context (addrs : list string) (key : option bytes).

(** What the [i]-th attempt of the process finds. *)
Definition attempt (i : nat) : result RealIo io_error :=
  let '(nanos, ms, rng) := world_clock world i in
  connect_timeout parse_socket_addr (world_connect world i) nanos ms rng
    (default ""%string (addrs !! (i mod length addrs)%nat)) key REPLICA_CONNECT_TIMEOUT.

(** The back-off doubles up to ten seconds, and starts over with every connection. *)
Fixpoint backoff_at (i : nat) : Z :=
  match i with
  | O => INITIAL_BACKOFF_MS
  | S i => Z.min ((if result_is_ok (attempt i) then INITIAL_BACKOFF_MS else backoff_at i) * 2) MAX_BACKOFF_MS
  end.

(** How long is waited after the [i]-th attempt, in milliseconds. *)
Definition wait_after (i : nat) : Z := if result_is_ok (attempt i) then INITIAL_BACKOFF_MS else backoff_at i.

(** The calls of the first [k] attempts, each with the session it led to and the whole wait
    after it. *)
Inductive tried : nat → list SysCall → Prop :=
| tried_none : tried 0 []
| tried_more k calls addr session start wait :
    tried k calls →
    addrs !! (k mod length addrs)%nat = Some addr →
    session_calls session → (result_is_ok (attempt k) = false → session = []) →
    waits (start + wait_after k * NANOS_PER_MILLI) wait →
    tried (S k) (calls ++ Connects addr :: session ++ ReadsClock start :: wait).

(** What the process has called when it ends: whole rounds, and at most the beginning of
    another, which the signal cut short. *)
Definition tried_in_turn (calls : list SysCall) : Prop := ∃ k whole rest,
  calls = whole ++ rest ∧ tried k whole ∧
  (rest = [] ∨ ∃ addr more, rest = Connects addr :: more ∧
     addrs !! (k mod length addrs)%nat = Some addr ∧ no_connects more).

Definition on_schedule (a : Ag) : Prop := tried (ag_connects a) (ag_calls a).

Lemma on_schedule_ended a : on_schedule a → tried_in_turn (ag_calls a).
Proof. intros Ha. exists (ag_connects a), (ag_calls a), []. rewrite app_nil_r. split_and!; [done|done|by left]. Qed.

(** In the round of attempt [k], after the connection and the calls [session]. *)
Definition in_round (k : nat) (session : list SysCall) (a : Ag) : Prop := ∃ whole addr,
  ag_calls a = whole ++ Connects addr :: session ∧ tried k whole ∧
  addrs !! (k mod length addrs)%nat = Some addr ∧ ag_connects a = S k.

Lemma in_round_polls k s a a' : in_round k s a → polls a a' → ∃ s', session_calls s' ∧ in_round k (s ++ s') a'.
Proof.
  intros (l & addr & El & Hl & Ha & Hk) [(s' & Es & Hs) Hc _]. exists s'. split; [done|]. exists l, addr.
  rewrite Es, El, Hc, <-(assoc_L (++)). by split_and!.
Qed.

Lemma in_round_ended k s a : in_round k s a → no_connects s → tried_in_turn (ag_calls a).
Proof.
  intros (l & addr & El & Hl & Ha & _) Hs. exists k, l, (Connects addr :: s). split_and!; [done|done|].
  right. by exists addr, s.
Qed.

Definition round_on_schedule (r : Round) (a : Ag) : Prop :=
  match r with
  | Again backoff idx =>
    on_schedule a ∧ idx = (ag_connects a mod length addrs)%nat ∧ backoff = backoff_at (ag_connects a) ∨
    tried_in_turn (ag_calls a) ∧ (signal ≤ ag_loads a)%nat
  | _ => tried_in_turn (ag_calls a)
  end.

(** The end of a round: the signal, or the wait. *)
Lemma round_end_schedule fuel k s backoff idx a :
  in_round k s a → session_calls s → (result_is_ok (attempt k) = false → s = []) →
  idx = (S k mod length addrs)%nat → backoff = wait_after k →
  wp any_panic (let* stop := load_shutdown world in
    if stop then ret Break
    else
      let* _ := wait_for_reconnect_or_shutdown world fuel (backoff * NANOS_PER_MILLI) in
      ret (Again (Z.min (backoff * 2) MAX_BACKOFF_MS) idx)) round_on_schedule a.
Proof.
  intros Ha Hs Hf -> ->. assert (Hn : no_connects s) by by apply session_no_connects.
  destruct Ha as (l & addr & El & Hl & Haddr & Hk).
  wp_step. unfold load_shutdown at 1, wp at 1. destruct (signal <=? ag_loads a)%nat.
  { apply wp_ret. cbn [round_on_schedule ag_calls]. apply (in_round_ended k s); [by exists l, addr|done]. }
  wp_step. unfold wait_for_reconnect_or_shutdown, read_clock, agent_host, log_call. wp_step. wp_step. unfold wp at 1.
  cbn [ag_host]. destruct (instant_now (ag_host a)) as [t os1]. wp_step. unfold wp at 1. cbn [ag_calls]. wp_step.
  eapply wp_mono; [apply wait_until_log|]. intros cut a' [(w & Ew & Hw) Hk']. cbn [ag_calls ag_connects] in *.
  apply wp_ret. cbn [round_on_schedule]. rewrite El, <-!(assoc_L (++)) in Ew. simpl in Ew. destruct cut.
  - right. destruct Hw as [Hw Hsig]. split; [|done]. exists k, l, (Connects addr :: s ++ ReadsClock t :: w).
    split_and!; [done|done|]. right. eexists _, _. split_and!; [done|done|].
    apply Forall_app; split; [done|by constructor].
  - left. unfold on_schedule. rewrite Ew, Hk', Hk. split; [by constructor|done].
Qed.

Lemma next_idx n k : (0 < n)%nat → ((k mod n + 1) mod n = S k mod n)%nat.
Proof. intros Hn. rewrite Nat.Div0.add_mod_idemp_l. f_equal. lia. Qed.

(** A session that began in round [k], up to the end of the round. *)
Lemma session_schedule fuel serving rio k idx a :
  in_round k [] a → result_is_ok (attempt k) = true → (0 < length addrs)%nat → idx = (k mod length addrs)%nat →
  wp any_panic
    (let* (exited, backoff_ms, replica_idx) :=
       (let* exited := run_worker_loop world fuel serving rio in
        match exited with
        | Some code => ret (Some code, INITIAL_BACKOFF_MS, idx)
        | None =>
          let* stop := load_shutdown world in
          if stop then ret (None, INITIAL_BACKOFF_MS, idx)
          else agent_worker on_connection_lost ;;; ret (None, INITIAL_BACKOFF_MS, ((idx + 1) mod length addrs)%nat)
        end) in
     match exited with
     | Some code => ret (Exited code)
     | None =>
       let* stop := load_shutdown world in
       if stop then ret Break
       else
         let* _ := wait_for_reconnect_or_shutdown world fuel (backoff_ms * NANOS_PER_MILLI) in
         ret (Again (Z.min (backoff_ms * 2) MAX_BACKOFF_MS) replica_idx)
     end) round_on_schedule a.
Proof.
  intros Ha Hok Hn ->. wp_step. wp_step. eapply wp_mono; [apply polls_run_worker_loop|]. intros exited a1 P1.
  destruct (in_round_polls _ _ _ _ Ha P1) as (s & Hs & Ha1). cbn [app] in Ha1.
  destruct exited as [code|].
  { wp_step. wp_step. apply (in_round_ended k s); [done|by apply session_no_connects]. }
  wp_step. unfold load_shutdown at 1, wp at 1. destruct (Nat.leb_spec signal (ag_loads a1)) as [Hsig|_].
  - wp_step. wp_step. unfold load_shutdown at 1, wp at 1. cbn [ag_loads].
    rewrite (proj2 (Nat.leb_le _ _)) by lia. apply wp_ret. cbn [round_on_schedule ag_calls].
    apply (in_round_ended k s); [done|by apply session_no_connects].
  - wp_step. unfold agent_worker, wp at 1. wp_step. apply (round_end_schedule _ k s); [done|done| |by rewrite next_idx|].
    + congruence.
    + unfold wait_after. by rewrite Hok.
Qed.

Lemma round_schedule fuel serving a :
  addrs ≠ [] → on_schedule a →
  wp any_panic (round world fuel serving addrs key (backoff_at (ag_connects a))
                  (ag_connects a mod length addrs)%nat) round_on_schedule a.
Proof.
  intros Hne Ha. assert (Hn : (0 < length addrs)%nat) by (destruct addrs; [done|simpl; lia]).
  set (k := ag_connects a). unfold round. wp_step. unfold load_shutdown at 1, wp at 1.
  destruct (signal <=? ag_loads a)%nat; [apply wp_ret; by apply (on_schedule_ended a)|].
  wp_step. apply wp_index; [done|]. intros addr Haddr. wp_step. unfold try_connect, wp at 1. cbn [ag_connects].
  fold k. destruct (world_clock world k) as [[nanos ms] rng] eqn:Ec.
  set (a2 := mkAgent _ _ _ _ _ _ _ _). cbv zeta.
  assert (Hatt : attempt k = connect_timeout parse_socket_addr (world_connect world k) nanos ms rng addr key
                   REPLICA_CONNECT_TIMEOUT) by (unfold attempt; rewrite Ec, Haddr; done).
  rewrite <-Hatt. assert (Ha2 : in_round k [] a2) by (exists (ag_calls a), addr; by split_and!).
  destruct (attempt k) as [rio|e] eqn:Er.
  - apply (session_schedule _ _ _ k); [done|by rewrite Er|done|done].
  - wp_step. wp_step. apply (round_end_schedule _ k []); [done|constructor|done|by rewrite next_idx|].
    unfold wait_after. by rewrite Er.
Qed.

Lemma connect_loop_schedule fuel n serving a :
  addrs ≠ [] → on_schedule a →
  wp any_panic (connect_loop world fuel n serving addrs key (backoff_at (ag_connects a))
                  (ag_connects a mod length addrs)%nat) (λ _ a', tried_in_turn (ag_calls a')) a.
Proof.
  intros Hne. revert a. induction n as [|n IH]; intros a Ha; [done|]. cbn [connect_loop].
  wp_step. eapply wp_mono; [by apply round_schedule|].
  assert (Hend : ∀ a1, tried_in_turn (ag_calls a1) →
    wp any_panic (let* ok := shutdown_disconnected_worker world in ret (if ok then 0 else 1))
      (λ _ a', tried_in_turn (ag_calls a')) a1).
  { intros a1 H1. wp_step. unfold shutdown_disconnected_worker. wp_step. unfold with_io, wp at 1.
    destruct (reconcile_shutdown _ _ _) as [[ok c]|]; [|done]. by do 2 apply wp_ret. }
  intros [code| |b i] a1 Hr; [by apply wp_ret|by apply Hend|]. destruct Hr as [(Ha1 & -> & ->)|[H1 Hsig]]; [by apply IH|].
  destruct n as [|n]; [done|]. cbn [connect_loop]. unfold round. wp_step. wp_step.
  unfold load_shutdown at 1, wp at 1. rewrite (proj2 (Nat.leb_le _ _)) by done. apply wp_ret. by apply Hend.
Qed.

Lemma backoff_at_range i : INITIAL_BACKOFF_MS ≤ backoff_at i ≤ MAX_BACKOFF_MS.
Proof.
  unfold INITIAL_BACKOFF_MS, MAX_BACKOFF_MS.
  induction i as [|i IH]; cbn [backoff_at]; unfold INITIAL_BACKOFF_MS, MAX_BACKOFF_MS in *; [lia|].
  destruct (result_is_ok _); lia.
Qed.

Lemma backoff_at_failures i :
  (∀ j, (j < i)%nat → result_is_ok (attempt j) = false) →
  backoff_at i = Z.min (INITIAL_BACKOFF_MS * 2 ^ Z.of_nat i) MAX_BACKOFF_MS.
Proof.
  unfold INITIAL_BACKOFF_MS, MAX_BACKOFF_MS.
  induction i as [|i IH]; intros Hf; [done|]. cbn [backoff_at]. rewrite Hf by lia.
  rewrite IH by (intros; apply Hf; lia). unfold MAX_BACKOFF_MS.
  rewrite Nat2Z.inj_succ, Z.pow_succ_r by lia. lia.
Qed.

(** C40: replicas are tried in turn, with bounded exponential back-off.  The system calls
    of the process, from its start to its end, are rounds: the [i]-th connects to the
    [i]-th replica of the list, modulo its length; a session follows if that succeeded,
    which connects to nothing; then the clock is read and the process sleeps, at most 50 ms
    at a time, until the clock has passed that reading by the wait of the round.  Only the
    last round may be cut short, by the signal, and connects to nothing more.  The wait is
    between 100 ms and 10 s; it is [100 * 2^i] ms, capped at 10 s, as long as every attempt
    has failed, and 100 ms after a connection. *)
Theorem replicas_tried_in_turn (fuel n : nat) (serving : bool) (a a' : Ag) (code : Z) :
  addrs ≠ [] → ag_calls a = [] → ag_connects a = 0%nat →
  connect_loop world fuel n serving addrs key INITIAL_BACKOFF_MS 0 a = Done (code, a') →
  tried_in_turn (ag_calls a') ∧
  ∀ i, INITIAL_BACKOFF_MS ≤ wait_after i ≤ MAX_BACKOFF_MS ∧
    (result_is_ok (attempt i) = true → wait_after i = INITIAL_BACKOFF_MS) ∧
    ((∀ j, (j ≤ i)%nat → result_is_ok (attempt j) = false) →
       wait_after i = Z.min (INITIAL_BACKOFF_MS * 2 ^ Z.of_nat i) MAX_BACKOFF_MS).
Proof.
  intros Hne Ha Hk E. split.
  - assert (Hs : on_schedule a) by (unfold on_schedule; rewrite Ha, Hk; constructor).
    pose proof (connect_loop_schedule fuel n serving a Hne Hs) as Hwp. rewrite Hk in Hwp.
    rewrite Nat.Div0.mod_0_l in Hwp. unfold wp in Hwp. cbn [backoff_at] in Hwp. by rewrite E in Hwp.
  - intros i. unfold wait_after. split; [|split].
    + pose proof (backoff_at_range i). unfold INITIAL_BACKOFF_MS, MAX_BACKOFF_MS in *. destruct (result_is_ok _); lia.
    + by intros ->.
    + intros Hf. rewrite Hf by lia. apply backoff_at_failures. intros j Hj. apply Hf. lia.
Qed.

End retry.
