(* ===== verification/AgentOwnership.v ===== *)
(** * A process that exits with 0 has left nothing running

    The supervision of containers ([Ownership]) carried through the sessions, reconnections
    and shutdowns of [main.rs]. *)

From S2P Require Import Prelude Types RustStr RustParse Config Crypto Protocol Frame Traits Fingerprint.
From S2P Require Import Volumes Secrets Worker WorkerInv Metrics WorkerThreads WorkerSafety WorkerShutdown RealIo.
From S2P Require Import Keeps WorkerLiveness Ownership Agent AgentSafety.

Section agent.
  Context {RT OS : Type} `{!Host OS} `{!Runtime RT OS} `{!Node OS} `{!Aead} (world : World RT OS).
  Context `{!RuntimeLaws RT OS}.
  Abbreviation Ag := (Agent RT OS).
  Implicit Types a : Ag.
  Context (Hclock : ∀ n, 0 ≤ mo_ms (world_moment world n) ≤ TICK_MAX).
  Abbreviation signal := (world_signal world).
  Abbreviation anything := (λ _, True).

(** Every container of the runtime is the handle of a tracked pod. *)
Definition supervises (a : Ag) : Prop := ∀ x, owns (ag_rt a) x → held (ag_worker a) x.

(** ** Steps that touch neither the worker nor the runtime *)

Lemma supervises_same a a' : supervises a → ag_worker a' = ag_worker a → ag_rt a' = ag_rt a → supervises a'.
Proof. unfold supervises. by intros ? -> ->. Qed.

Lemma keeps_load : keeps supervises anything (load_shutdown world).
Proof. by intros a Ha. Qed.

Lemma keeps_sleep d : keeps supervises anything (sleep world d).
Proof. by intros a Ha. Qed.

Lemma keeps_read_clock : keeps supervises anything read_clock.
Proof. intros a Ha. unfold wp, read_clock, bind, agent_host. by destruct (instant_now (ag_host a)). Qed.

Lemma keeps_try_connect addr key : keeps supervises anything (try_connect world addr key).
Proof. intros a Ha. unfold wp, try_connect. by destruct (world_clock world (ag_connects a)) as [[]]. Qed.

Lemma keeps_poll serving mo : keeps supervises anything (poll_metrics serving mo).
Proof.
  intros a Ha. unfold wp, poll_metrics. destruct serving; [|done]. destruct (mo_scrape mo) as [[]|]; [|done].
  by destruct (poll _ _ _).
Qed.

Lemma keeps_wait fuel deadline : keeps supervises anything (wait_until world fuel deadline).
Proof.
  revert deadline. induction fuel as [|fuel IH]; intros deadline; cbn [wait_until]; [apply keeps_panic|].
  eapply keeps_bind; [apply keeps_load|]. intros [] _; [by apply keeps_ret|].
  eapply keeps_bind; [apply keeps_read_clock|]. intros now _. cbv zeta. destruct (_ =? 0); [by apply keeps_ret|].
  eapply keeps_bind; [apply keeps_sleep|]. intros [] _. apply IH.
Qed.

Lemma keeps_wait_for fuel duration : keeps supervises anything (wait_for_reconnect_or_shutdown world fuel duration).
Proof. eapply keeps_bind; [apply keeps_read_clock|]. intros now _. apply keeps_wait. Qed.

(** A call of the worker that leaves no orphans. *)
Lemma supervises_with_io {IO X} `{!Io IO} schedule (m : M (@Ctx IO RT OS) X) dev a :
  wp any_panic m (λ _ c', no_orphans c') (mkCtx (ag_worker a) dev (ag_rt a) (ag_host a) schedule) →
  wp any_panic (with_io schedule m dev) (λ _ a', supervises a') a.
Proof. unfold wp, with_io. by destruct (m _) as [[x c]|]. Qed.

(** ** Sessions *)

Lemma session_tick_supervised mo rio a :
  (∃ n, mo = world_moment world n) → winv (ag_worker a) → real_io_wf rio → supervises a →
  wp any_panic (with_io (mo_sched mo) (tick (tick_budget (arrive mo rio))) (arrive mo rio))
    (λ r a', (winv (ag_worker a') ∧ real_io_wf r.2) ∧ supervises a') a.
Proof using Hclock.
  intros Hmo Hw Hr Hs. apply wp_and.
  - eapply wp_weaken; [eapply wp_mono; [by apply (session_tick_ok world Hclock)|]|done]. intros r a' (? & ? & _). done.
  - destruct Hmo as [n ->]. apply supervises_with_io. apply tick_covered; [|apply Hclock| |done].
    + split; [done|]. by apply arrive_wf.
    + cbn [io]. unfold tick_budget. simpl. lia.
Qed.

Lemma session_loop_supervised fuel serving rio a :
  winv (ag_worker a) → real_io_wf rio → supervises a →
  wp any_panic (session_loop world fuel serving rio) (λ _ a', supervises a') a.
Proof using Hclock.
  revert rio a. induction fuel as [|fuel IH]; intros rio a Hw Hr Hs; [done|]. cbn [session_loop].
  destruct (connected rio); cbn [negb]; [|done]. wp_step. unfold load_shutdown, wp at 1.
  destruct (signal <=? ag_loads a)%nat; [done|]. wp_step. unfold next_moment, wp at 1. wp_step.
  eapply wp_mono; [apply session_tick_supervised; [eauto|done..]|]. intros [[] rio2] a2 [[Hw2 Hr2] Hs2].
  wp_step. eapply wp_mono; [apply wp_and; [eapply wp_weaken; [by apply (poll_metrics_ok serving _ a2)|done]|by apply keeps_poll]|].
  intros [] a3 [[E3 _] [Hs3 _]]. wp_step. unfold sleep, log_call, agent_host, bind, wp at 1. apply IH; [|done|done].
  cbn [ag_worker]. by rewrite E3.
Qed.

(** ** Shutdown *)

Lemma reconcile_supervised {IO} `{!Io IO} `{!IoLaws IO} dev a :
  supervises a →
  wp any_panic (with_io (IO := IO) [] (reconcile_shutdown shutdown (reconcile_wait world)) dev)
    (λ _ a', supervises a') a.
Proof.
  intros Hs. apply supervises_with_io.
  unfold reconcile_shutdown, MAX_SHUTDOWN_RECONCILIATION_ATTEMPTS. cbn [reconcile_from]. wp_step.
  eapply wp_mono; [by apply shutdown_covered|]. intros [] c' [Ho _]; [done|]. by wp_steps.
Qed.

Lemma run_worker_loop_supervised fuel serving rio a :
  winv (ag_worker a) → real_io_wf rio → supervises a →
  wp any_panic (run_worker_loop world fuel serving rio) (λ _ a', supervises a') a.
Proof using Hclock.
  intros Hw Hr Hs. unfold run_worker_loop. wp_step.
  eapply wp_mono; [by apply session_loop_supervised|]. intros rio' a1 Hs1. wp_step. unfold load_shutdown, wp at 1.
  destruct (signal <=? ag_loads a1)%nat; [|done]. wp_step.
  eapply wp_mono; [apply (reconcile_supervised (IO := RealIo)); exact Hs1|]. by intros [ok r] a2 Hs2.
Qed.

Lemma shutdown_disconnected_supervised a :
  supervises a → wp any_panic (shutdown_disconnected_worker world) (λ _ a', supervises a') a.
Proof.
  intros Hs. unfold shutdown_disconnected_worker. wp_step.
  eapply wp_mono; [by apply (reconcile_supervised (IO := DisconnectedShutdownIo))|]. by intros [ok r] a2 Hs2.
Qed.

(** ** The process *)

Lemma keeps_connection_lost : keeps supervises anything (agent_worker on_connection_lost).
Proof. intros a Ha. split; [|done]. intros x (i & p & Hp)%Ha. by exists i, p. Qed.

(** What follows a session in a round. *)
Lemma keeps_round_end fuel backoff idx :
  keeps supervises anything
    (let* stop := load_shutdown world in
     if stop then ret Break
     else
       let* _ := wait_for_reconnect_or_shutdown world fuel (backoff * NANOS_PER_MILLI) in
       ret (Again (Z.min (backoff * 2) MAX_BACKOFF_MS) idx)).
Proof.
  eapply keeps_bind; [apply keeps_load|]. intros [] _; [by apply keeps_ret|].
  eapply keeps_bind; [apply keeps_wait_for|]. intros b _. by apply keeps_ret.
Qed.

Lemma round_supervised fuel serving addrs key backoff idx a :
  winv (ag_worker a) → supervises a →
  wp any_panic (round world fuel serving addrs key backoff idx) (λ _ a', supervises a') a.
Proof using Hclock.
  intros Hw Hs. unfold round. wp_step. unfold load_shutdown at 1, wp at 1.
  destruct (signal <=? ag_loads a)%nat; [done|]. wp_step. apply any_expect. intros addr _.
  wp_step. unfold try_connect, wp at 1. cbn [ag_connects].
  destruct (world_clock world (ag_connects a)) as [[nanos ms] rng]. cbv zeta. wp_step.
  set (a1 := mkAgent _ _ _ _ _ _ _ _). assert (Hs1 : supervises a1) by exact Hs.
  apply (wp_mono _ _ (λ _ a', supervises a')).
  - destruct (connect_timeout _ _ _ _ _ _ _ _) as [rio|e] eqn:Ec; [|done].
    wp_step. eapply wp_mono; [apply run_worker_loop_supervised; [exact Hw|by eapply connect_wf|exact Hs1]|].
    intros [code|] a2 Hs2; [done|]. apply (keeps_wp supervises); [|done].
    eapply keeps_bind; [apply keeps_load|]. intros [] _; [by apply keeps_ret|].
    eapply keeps_bind; [apply keeps_connection_lost|]. intros [] _. by apply keeps_ret.
  - intros [[[code|] b] i] a2 Hs2; [done|]. by apply (keeps_wp supervises); [apply keeps_round_end|].
Qed.

Lemma connect_loop_supervised fuel n serving addrs key backoff idx a :
  winv (ag_worker a) → (idx < length addrs)%nat → (signal < fuel)%nat → supervises a →
  wp any_panic (connect_loop world fuel n serving addrs key backoff idx) (λ _ a', supervises a') a.
Proof using Hclock.
  intros Hw Hi Hf. revert backoff idx a Hw Hi. induction n as [|n IH]; intros backoff idx a Hw Hi Hs; [done|].
  cbn [connect_loop]. wp_step.
  eapply wp_mono; [apply wp_and; [eapply wp_weaken; [by apply (round_ok world Hclock)|done]|by apply round_supervised]|].
  intros [code| |b i] a1 [Hr Hs1]; [done| |].
  - wp_step. eapply wp_mono; [by apply shutdown_disconnected_supervised|]. done.
  - destruct Hr as (Hw1 & Hi1 & _). by apply IH.
Qed.

(** The process at its end, whatever its exit code. *)
Lemma cmd_run_supervised fuel args env os code final :
  (signal < fuel)%nat → node_fits os →
  (∀ kind runtime, world_runtime world kind = Some runtime → ∀ x, ¬ owns runtime x) →
  cmd_run world fuel args env os = Done (code, Some final) → supervises final.
Proof using Hclock.
  intros Hf Hfit Hfresh. unfold cmd_run. set (cfg := parse_run_config args env). cbv zeta.
  destruct (negb (test_flags_ok cfg)); [done|].
  destruct (if str_is_empty (encryption_key_hex cfg) then _ else _) as [[key|]|]; cbn [outcome_bind]; [|done|done].
  case_bool_decide as Hne; [done|]. destruct (negb (result_is_ok _)); [done|].
  destruct (node_fingerprint os) as [[fp os']|e] eqn:Efp; cbn [outcome_bind]; [|done].
  destruct (select_runtime cfg) as [kind|]; [|done]. destruct (world_runtime world kind) as [runtime|] eqn:Er; [|done].
  destruct (Hfit _ _ Efp) as [? ?]. destruct (node_fingerprint_cpu _ _ _ Efp) as (? & ? & ?).
  set (a0 := mkAgent _ _ _ _ _ _ _ _).
  assert (Hwp : wp any_panic (connect_loop world fuel fuel
      match metrics_port cfg with Some port => world_bind world port | None => false end
      (parse_replica_addrs (replica_addr cfg)) key INITIAL_BACKOFF_MS 0) (λ _ a', supervises a') a0).
  { apply connect_loop_supervised; [|destruct (parse_replica_addrs _); [done|simpl; lia]|done|].
    - by apply (winv_new os' _ _ _ _ _ 4).
    - intros x Hx. by destruct (Hfresh _ _ Er x). }
  unfold wp in Hwp. destruct (connect_loop _ _ _ _ _ _ _ _ a0) as [[c a]|]; cbn [outcome_bind]; [|done].
  by intros [= _ <-].
Qed.

(** C39: exit code 0 means that nothing is left running.  For every command line, environment,
    network behaviour and schedule, every node whose capacities are below the maxima of their
    types, and every runtime that meets [RuntimeLaws] and starts without containers: if the
    process exits with 0, no container is left, whether the signal came inside a session,
    while connecting or while waiting. *)
Theorem clean_exit_leaves_nothing_running (fuel : nat) (args : list string) (env : string → option string)
    (os : OS) (final : option Ag) :
  (world_signal world < fuel)%nat → node_fits os →
  (∀ kind runtime, world_runtime world kind = Some runtime → ∀ x, ¬ owns runtime x) →
  cmd_run world fuel args env os = Done (0, final) →
  ∃ a, final = Some a ∧ ∀ x, ¬ owns (ag_rt a) x.
Proof using Hclock.
  intros Hf Hfit Hfresh E. pose proof (cmd_run_ends world Hclock fuel args env os Hf Hfit) as Hend.
  rewrite E in Hend. destruct Hend as (_ & _ & Hclean). destruct (Hclean eq_refl) as (a & -> & Hp & _).
  exists a. split; [done|]. intros x (i & p & Hi & _)%(cmd_run_supervised _ _ _ _ _ _ Hf Hfit Hfresh E).
  by rewrite Hp in Hi.
Qed.

End agent.
