(* ===== verification/SimIo.v ===== *)
(** * The simulated [Io]: [worker/src/sim/io.rs]

    Two staging queues around each tick.  [IoLaws] holds of it: messages come from
    the inbound queue and the only panic is the outbound capacity assertion. *)

From S2P Require Import Prelude Types Prng RustStr Protocol Traits.

Definition STAGING_CAPACITY : nat := 256.
Definition OUTBOUND_FULL : string := "simulated I/O outbound staging capacity exceeded".
Definition INBOUND_FULL : string := "simulated I/O inbound staging capacity exceeded".

Record SimulatedIo := mkSimulatedIo {
  current_tick : Z;
  inbound : list ControlMessage;
  outbound : list WorkerMessage;
  sio_prng : Prng
}.

Definition simulated_io_new (seed : Z) : SimulatedIo := mkSimulatedIo 0 [] [] (prng_init seed).

Definition set_current_tick (t : Z) (s : SimulatedIo) : SimulatedIo :=
  mkSimulatedIo t (inbound s) (outbound s) (sio_prng s).

Definition push_inbound (msg : ControlMessage) (s : SimulatedIo) : outcome SimulatedIo :=
  assert_or (length (inbound s) <? STAGING_CAPACITY)%nat INBOUND_FULL
    (Done (mkSimulatedIo (current_tick s) (inbound s ++ [msg]) (outbound s) (sio_prng s))).

(** [drain_outbound().collect()]. *)
Definition drain_outbound (s : SimulatedIo) : outcome (list WorkerMessage * SimulatedIo) :=
  assert_or (length (outbound s) <=? STAGING_CAPACITY)%nat OUTBOUND_FULL
    (Done (outbound s, mkSimulatedIo (current_tick s) (inbound s) [] (sio_prng s))).

Definition sim_send (msg : WorkerMessage) (s : SimulatedIo) : outcome SimulatedIo :=
  assert_or (length (outbound s) <? STAGING_CAPACITY)%nat OUTBOUND_FULL
    (Done (mkSimulatedIo (current_tick s) (inbound s) (outbound s ++ [msg]) (sio_prng s))).

Definition sim_recv (s : SimulatedIo) : option ControlMessage * SimulatedIo :=
  match inbound s with
  | [] => (None, s)
  | m :: rest => (Some m, mkSimulatedIo (current_tick s) rest (outbound s) (sio_prng s))
  end.

#[export] Instance sim_io : Io SimulatedIo := {
  io_now := current_tick;
  io_send := sim_send;
  io_recv s := Done (sim_recv s);
  io_random_u64 s :=
    let '(x, p) := prng_next (sio_prng s) in
    (x, mkSimulatedIo (current_tick s) (inbound s) (outbound s) p)
}.

(** The staged messages are well formed and the outbound queue is within bounds. *)
Definition sim_io_wf (s : SimulatedIo) : Prop :=
  Forall control_wf (inbound s) ∧ Forall emittable (outbound s) ∧
  (length (outbound s) ≤ STAGING_CAPACITY)%nat.

#[export, refine] Instance sim_io_laws : IoLaws SimulatedIo := {
  io_wf := sim_io_wf;
  io_pending s := length (inbound s);
  io_panics e := e = OUTBOUND_FULL
}.
Proof.
  - intros m s (Hin & Hem & Hout) Hm. unfold io_send, sim_io, sim_send, assert_or.
    destruct (Nat.ltb_spec (length (outbound s)) STAGING_CAPACITY); [|done].
    simpl. split; [|done]. split; [done|]. simpl. rewrite length_app. split; [|simpl; lia].
    apply Forall_app. split; [done|]. by apply Forall_singleton.
  - intros s (Hin & Hem & Hout). unfold io_recv, sim_io, sim_recv.
    destruct (inbound s) as [|m rest] eqn:E; simpl.
    + rewrite E. by repeat split; rewrite ?E.
    + apply Forall_cons in Hin as [Hm Hrest]. repeat split; try done. simpl. lia.
Defined.
