(* ===== verification/SimRuntime.v ===== *)
(** * The simulated container runtime: [worker/src/sim/runtime.rs]

    Faults are drawn from a hash of the seed, a domain and a key, so a run is a
    function of its seed.  Each method holds the mutex; [create_pod] and [start_pod]
    take it twice, for disjoint parts of the state. *)

From S2P Require Import Prelude Types Prng RustStr Protocol Traits.

Definition PROBE_SCRIPT_MAX : nat := 64.
Definition RUN_SCRIPT_MAX : nat := 64.

Inductive ProbeOutcome := ProbeHealthy | ProbeUnhealthy | ProbeError.
Inductive RunOutcome :=
| RunEcho | ExactResponseBoundary | ResponseBoundaryOverflow | ForwardingFailure | RunTimeout.

Record RuntimeOperationCounts := mkCounts { oc_stop : Z; oc_status : Z; oc_remove : Z }.

Record FaultConfig := mkFaultConfig {
  image_pull_failure_rate : Ratio;
  container_crash_rate : Ratio;
  gpu_failure_rate : Ratio;
  create_failure_rate : Ratio;
  stop_failure_rate : Ratio
}.

Definition fault_config_default : FaultConfig :=
  mkFaultConfig ratio_zero ratio_zero ratio_zero ratio_zero ratio_zero.

(** [Inner] and the immutable fields beside the mutex. *)
Record SimulatedRuntime := mkSimulatedRuntime {
  fault_config : FaultConfig;
  srt_seed : Z;
  srt_pods : gmap string PodStatus;
  pull_attempts : gmap string Z;
  create_attempts : gmap Z Z;
  start_attempts : gmap Z Z;
  stop_attempts : gmap Z Z;
  status_attempts : gmap Z Z;
  remove_attempts : gmap Z Z;
  probe_outcomes : gmap Z (list ProbeOutcome);
  run_outcomes : gmap Z (list RunOutcome);
  run_attempts : gmap Z Z;
  crash_round : Z
}.

Definition simulated_runtime_new (seed : Z) (f : FaultConfig) : SimulatedRuntime :=
  mkSimulatedRuntime f seed ∅ ∅ ∅ ∅ ∅ ∅ ∅ ∅ ∅ ∅ 0.

Definition set_srt_pods (x : gmap string PodStatus) (r : SimulatedRuntime) : SimulatedRuntime :=
  mkSimulatedRuntime (fault_config r) (srt_seed r) x (pull_attempts r) (create_attempts r)
    (start_attempts r) (stop_attempts r) (status_attempts r) (remove_attempts r) (probe_outcomes
    r) (run_outcomes r) (run_attempts r) (crash_round r).
Definition set_pull_attempts (x : gmap string Z) (r : SimulatedRuntime) : SimulatedRuntime :=
  mkSimulatedRuntime (fault_config r) (srt_seed r) (srt_pods r) x (create_attempts r)
    (start_attempts r) (stop_attempts r) (status_attempts r) (remove_attempts r) (probe_outcomes
    r) (run_outcomes r) (run_attempts r) (crash_round r).
Definition set_create_attempts (x : gmap Z Z) (r : SimulatedRuntime) : SimulatedRuntime :=
  mkSimulatedRuntime (fault_config r) (srt_seed r) (srt_pods r) (pull_attempts r) x
    (start_attempts r) (stop_attempts r) (status_attempts r) (remove_attempts r) (probe_outcomes
    r) (run_outcomes r) (run_attempts r) (crash_round r).
Definition set_start_attempts (x : gmap Z Z) (r : SimulatedRuntime) : SimulatedRuntime :=
  mkSimulatedRuntime (fault_config r) (srt_seed r) (srt_pods r) (pull_attempts r)
    (create_attempts r) x (stop_attempts r) (status_attempts r) (remove_attempts r)
    (probe_outcomes r) (run_outcomes r) (run_attempts r) (crash_round r).
Definition set_stop_attempts (x : gmap Z Z) (r : SimulatedRuntime) : SimulatedRuntime :=
  mkSimulatedRuntime (fault_config r) (srt_seed r) (srt_pods r) (pull_attempts r)
    (create_attempts r) (start_attempts r) x (status_attempts r) (remove_attempts r)
    (probe_outcomes r) (run_outcomes r) (run_attempts r) (crash_round r).
Definition set_status_attempts (x : gmap Z Z) (r : SimulatedRuntime) : SimulatedRuntime :=
  mkSimulatedRuntime (fault_config r) (srt_seed r) (srt_pods r) (pull_attempts r)
    (create_attempts r) (start_attempts r) (stop_attempts r) x (remove_attempts r)
    (probe_outcomes r) (run_outcomes r) (run_attempts r) (crash_round r).
Definition set_remove_attempts (x : gmap Z Z) (r : SimulatedRuntime) : SimulatedRuntime :=
  mkSimulatedRuntime (fault_config r) (srt_seed r) (srt_pods r) (pull_attempts r)
    (create_attempts r) (start_attempts r) (stop_attempts r) (status_attempts r) x
    (probe_outcomes r) (run_outcomes r) (run_attempts r) (crash_round r).
Definition set_probe_outcomes (x : gmap Z (list ProbeOutcome)) (r : SimulatedRuntime) : SimulatedRuntime :=
  mkSimulatedRuntime (fault_config r) (srt_seed r) (srt_pods r) (pull_attempts r)
    (create_attempts r) (start_attempts r) (stop_attempts r) (status_attempts r)
    (remove_attempts r) x (run_outcomes r) (run_attempts r) (crash_round r).
Definition set_run_outcomes (x : gmap Z (list RunOutcome)) (r : SimulatedRuntime) : SimulatedRuntime :=
  mkSimulatedRuntime (fault_config r) (srt_seed r) (srt_pods r) (pull_attempts r)
    (create_attempts r) (start_attempts r) (stop_attempts r) (status_attempts r)
    (remove_attempts r) (probe_outcomes r) x (run_attempts r) (crash_round r).
Definition set_run_attempts (x : gmap Z Z) (r : SimulatedRuntime) : SimulatedRuntime :=
  mkSimulatedRuntime (fault_config r) (srt_seed r) (srt_pods r) (pull_attempts r)
    (create_attempts r) (start_attempts r) (stop_attempts r) (status_attempts r)
    (remove_attempts r) (probe_outcomes r) (run_outcomes r) x (crash_round r).
Definition set_crash_round (x : Z) (r : SimulatedRuntime) : SimulatedRuntime :=
  mkSimulatedRuntime (fault_config r) (srt_seed r) (srt_pods r) (pull_attempts r)
    (create_attempts r) (start_attempts r) (stop_attempts r) (status_attempts r)
    (remove_attempts r) (probe_outcomes r) (run_outcomes r) (run_attempts r) x.

(** [hash.wrapping_mul(..)], [entry.wrapping_add(1)]. *)
Definition wrapping_mul (a b : Z) : Z := wrap64 (a * b).
Definition wrapping_add (a b : Z) : Z := wrap64 (a + b).

(** Returns the attempt number and counts it. *)
Definition next_attempt {K} `{Countable K} (attempts : gmap K Z) (key : K) : Z * gmap K Z :=
  let attempt := default 0 (attempts !! key) in
  (attempt, <[key := wrapping_add attempt 1]> attempts).

(** FNV-1a over the bytes. *)
Definition stable_hash (b : bytes) : Z :=
  foldl (λ hash byte, wrapping_mul (Z.lxor hash (b2z byte)) 1099511628211) 14695981039346656037 b.

Definition mix64 (value : Z) : Z :=
  let value := Z.lxor value (Z.shiftr value 30) in
  let value := wrapping_mul value 13787848793156543929 in
  let value := Z.lxor value (Z.shiftr value 27) in
  let value := wrapping_mul value 10723151780598845931 in
  Z.lxor value (Z.shiftr value 31).

Definition deterministic_chance_outcome (seed domain key : Z) (ratio : Ratio) : outcome bool :=
  if ratio_is_zero ratio then Done false
  else
    let! (b, _) := prng_chance_ratio ratio (prng_init (mix64 (Z.lxor (Z.lxor seed domain) key))) in
    Done b.

(** The draw cannot fail: [bounded] is only reached with a positive denominator. *)
Lemma deterministic_chance_total seed domain key ratio :
  ratio_wf ratio → ∃ b, deterministic_chance_outcome seed domain key ratio = Done b.
Proof.
  intros [Hn Hd]. unfold deterministic_chance_outcome, ratio_is_zero, prng_chance_ratio.
  destruct (Z.eqb_spec (numerator ratio) 0); [by eexists|].
  destruct (Z.leb_spec (denominator ratio) (numerator ratio)); [by eexists|].
  unfold prng_bounded, assert_or. rewrite (proj2 (Z.ltb_lt _ _)) by int_lia.
  destruct (prng_next _). by eexists.
Qed.

Definition deterministic_chance (seed domain key : Z) (ratio : Ratio) : bool :=
  match deterministic_chance_outcome seed domain key ratio with Done b => b | Panic _ => false end.

(** Domains of the draws. *)
Definition PULL_DOMAIN : Z := 5788616785355866112.
Definition CREATE_DOMAIN : Z := 4851015895520444416.
Definition START_DOMAIN : Z := 6004496025044123648.
Definition STOP_DOMAIN : Z := 6004511408207691776.
Definition CRASH_DOMAIN : Z := 4851011574577496064.

Definition sim_container_id (pod_id : Z) : string := "sim-pod-" +:+ fmt_int pod_id.

(** ** The [Runtime] methods *)

Definition sim_pull_image (image : string) (_ : option ImagePullAuth) (r : SimulatedRuntime)
    : result unit RuntimeError * SimulatedRuntime :=
  let '(attempt, m) := next_attempt (pull_attempts r) image in
  let r := set_pull_attempts m r in
  if (attempt =? 0) && deterministic_chance (srt_seed r) PULL_DOMAIN (stable_hash (as_bytes image))
       (image_pull_failure_rate (fault_config r))
  then (Err (EImagePull "simulated pull failure"), r)
  else (Ok tt, r).

Definition sim_create_pod (spec : PodSpec) (r : SimulatedRuntime)
    : result PodHandle RuntimeError * SimulatedRuntime :=
  let '(attempt, m) := next_attempt (create_attempts r) (ps_pod_id spec) in
  let r := set_create_attempts m r in
  if (attempt =? 0) && deterministic_chance (srt_seed r) CREATE_DOMAIN (ps_pod_id spec)
       (create_failure_rate (fault_config r))
  then (Err (EContainerCreate "simulated create failure"), r)
  else
    let container_id := sim_container_id (ps_pod_id spec) in
    let r := match srt_pods r !! container_id with
             | Some (PRunning | PCreated) => r
             | _ => set_srt_pods (<[container_id := PCreated]> (srt_pods r)) r
             end in
    (Ok (mkPodHandle (ps_pod_id spec) container_id), r).

Definition sim_start_pod (h : PodHandle) (r : SimulatedRuntime)
    : result unit RuntimeError * SimulatedRuntime :=
  let '(attempt, m) := next_attempt (start_attempts r) (ph_pod_id h) in
  let r := set_start_attempts m r in
  if (attempt =? 0) && deterministic_chance (srt_seed r) START_DOMAIN (ph_pod_id h)
       (gpu_failure_rate (fault_config r))
  then (Err (EContainerStart "simulated GPU failure"), r)
  else match srt_pods r !! ph_container_id h with
       | Some PRunning => (Ok tt, r)
       | _ => (Ok tt, set_srt_pods (<[ph_container_id h := PRunning]> (srt_pods r)) r)
       end.

(** What a scripted outcome answers. *)
Definition run_outcome_result (o : RunOutcome) (payload : bytes) : result bytes RuntimeError :=
  match o with
  | RunEcho => Ok payload
  | ExactResponseBoundary => Ok (replicate MAX_RUN_RESPONSE_BODY Init.Byte.x5a)
  | ResponseBoundaryOverflow => Ok (replicate (MAX_RUN_RESPONSE_BODY + 1) Init.Byte.x6b)
  | ForwardingFailure => Err (EInternal "simulated forwarding failure")
  | RunTimeout => Err (EInternal "simulated forwarding timeout")
  end.

Definition sim_forward_run (h : PodHandle) (_ : Z) (payload : bytes) (r : SimulatedRuntime)
    : result bytes RuntimeError * SimulatedRuntime :=
  match srt_pods r !! ph_container_id h with
  | None => (Err (EContainerNotFound (ph_container_id h)), r)
  | Some PRunning =>
    let n := default 0 (run_attempts r !! ph_pod_id h) in
    let r := set_run_attempts (<[ph_pod_id h := sat_add U64_MAX n 1]> (run_attempts r)) r in
    match run_outcomes r !! ph_pod_id h with
    | None => (run_outcome_result RunEcho payload, r)
    | Some [] => (Err (EInternal "scripted run outcomes exhausted"), r)
    | Some (o :: script) =>
      (run_outcome_result o payload, set_run_outcomes (<[ph_pod_id h := script]> (run_outcomes r)) r)
    end
  | Some _ => (Err (EContainerStart "simulated pod not running"), r)
  end.

Definition probe_outcome_result (o : ProbeOutcome) : result bool RuntimeError :=
  match o with
  | ProbeHealthy => Ok true
  | ProbeUnhealthy => Ok false
  | ProbeError => Err (EInternal "scripted probe error")
  end.

Definition sim_probe_pod (h : PodHandle) (_ : Z) (_ : string) (r : SimulatedRuntime)
    : result bool RuntimeError * SimulatedRuntime :=
  match srt_pods r !! ph_container_id h with
  | Some PRunning =>
    match probe_outcomes r !! ph_pod_id h with
    | None => (probe_outcome_result ProbeHealthy, r)
    | Some [] => (Err (EInternal "scripted probe outcomes exhausted"), r)
    | Some (o :: script) =>
      (probe_outcome_result o, set_probe_outcomes (<[ph_pod_id h := script]> (probe_outcomes r)) r)
    end
  | _ => (Err (EContainerNotFound (ph_container_id h)), r)
  end.

Definition sim_stop_pod (h : PodHandle) (_ : Z) (r : SimulatedRuntime)
    : result unit RuntimeError * SimulatedRuntime :=
  let '(attempt, m) := next_attempt (stop_attempts r) (ph_pod_id h) in
  let r := set_stop_attempts m r in
  if (attempt =? 0) && deterministic_chance (srt_seed r) STOP_DOMAIN (ph_pod_id h)
       (stop_failure_rate (fault_config r))
  then (Err (EContainerStop "simulated stop failure"), r)
  else match srt_pods r !! ph_container_id h with
       | None => (Err (EContainerNotFound (ph_container_id h)), r)
       | Some _ => (Ok tt, set_srt_pods (<[ph_container_id h := PStopped 0]> (srt_pods r)) r)
       end.

Definition sim_pod_status (h : PodHandle) (r : SimulatedRuntime)
    : result PodStatus RuntimeError * SimulatedRuntime :=
  let r := set_status_attempts (next_attempt (status_attempts r) (ph_pod_id h)).2 r in
  (ok_or (EContainerNotFound (ph_container_id h)) (srt_pods r !! ph_container_id h), r).

Definition sim_remove_pod (h : PodHandle) (r : SimulatedRuntime)
    : result unit RuntimeError * SimulatedRuntime :=
  let r := set_remove_attempts (next_attempt (remove_attempts r) (ph_pod_id h)).2 r in
  (Ok tt, set_srt_pods (delete (ph_container_id h) (srt_pods r)) r).

#[export] Instance sim_runtime {H} `{!Host H} : Runtime SimulatedRuntime H := {
  pull_image := sim_pull_image;
  create_pod := sim_create_pod;
  start_pod := sim_start_pod;
  forward_run := sim_forward_run;
  probe_pod := sim_probe_pod;
  stop_pod := sim_stop_pod;
  pod_status := sim_pod_status;
  remove_pod := sim_remove_pod;
  stop_pod_until := default_stop_pod_until sim_stop_pod;
  pod_status_until := default_pod_status_until sim_pod_status;
  remove_pod_until := default_remove_pod_until sim_remove_pod
}.

(** ** The containers it owns *)

(** Those in its table, whatever their state. *)
Definition sim_owns (r : SimulatedRuntime) (x : string) : Prop := is_Some (srt_pods r !! x).

Lemma owns_insert {V} (m : gmap string V) k v x : is_Some (<[k := v]> m !! x) → is_Some (m !! x) ∨ x = k.
Proof. rewrite lookup_insert_is_Some'. intros [->|]; auto. Qed.

(** A call that deletes nothing but [x], under the deadline check of the default bodies. *)
Lemma before_deadline_owns {H A} `{!Host H} deadline late (op : SimulatedRuntime → result A RuntimeError * SimulatedRuntime)
    (P : result A RuntimeError → SimulatedRuntime → Prop) (s : SimulatedRuntime * H) :
  P (Err late) s.1 → P (op s.1).1 (op s.1).2 →
  P (before_deadline deadline late op s).1 (before_deadline deadline late op s).2.1.
Proof.
  destruct s as [r h]. simpl. intros Hl Ho. destruct (instant_now h) as [now h']. destruct (deadline <=? now); [done|].
  by destruct (op r).
Qed.

Lemma sim_owns_create spec r x :
  sim_owns (sim_create_pod spec r).2 x →
  sim_owns r x ∨ ∃ h, (sim_create_pod spec r).1 = Ok h ∧ ph_container_id h = x.
Proof.
  unfold sim_create_pod, sim_owns. destruct (next_attempt _ _) as [n m]. destruct (_ && _); [by left|]. simpl.
  destruct (srt_pods r !! sim_container_id (ps_pod_id spec)) as [[]|]; simpl; try (by left);
    intros [| ->]%owns_insert; [by left|right; by eexists|by left|right; by eexists|by left|right; by eexists].
Qed.

Lemma sim_owns_start h r x : sim_owns (sim_start_pod h r).2 x → sim_owns r x ∨ x = ph_container_id h.
Proof.
  unfold sim_start_pod, sim_owns. destruct (next_attempt _ _) as [n m]. destruct (_ && _); [by left|]. simpl.
  destruct (srt_pods r !! ph_container_id h) as [[]|]; simpl; try (by left); by intros ?%owns_insert.
Qed.

Lemma sim_owns_forward h port payload r x : sim_owns (sim_forward_run h port payload r).2 x → sim_owns r x.
Proof. unfold sim_forward_run, sim_owns. by repeat case_match. Qed.

Lemma sim_owns_probe h port path r x : sim_owns (sim_probe_pod h port path r).2 x → sim_owns r x.
Proof. unfold sim_probe_pod, sim_owns. by repeat case_match. Qed.

Lemma sim_owns_stop h grace r x : sim_owns (sim_stop_pod h grace r).2 x → sim_owns r x.
Proof.
  unfold sim_stop_pod, sim_owns. destruct (next_attempt _ _) as [n m]. destruct (_ && _); [done|]. simpl.
  destruct (srt_pods r !! ph_container_id h) as [st|] eqn:E; [|done]. simpl. intros [?| ->]%owns_insert; [done|].
  by rewrite E.
Qed.

Lemma sim_owns_remove h r x :
  sim_owns (sim_remove_pod h r).2 x →
  sim_owns r x ∧ ((sim_remove_pod h r).1 = Ok tt → x ≠ ph_container_id h).
Proof. unfold sim_owns. simpl. rewrite lookup_delete_is_Some. intros [Hne Hx]. split; [done|]. by intros _ ->. Qed.

#[export, refine] Instance sim_runtime_laws {H} `{!Host H} : RuntimeLaws SimulatedRuntime H := { owns := sim_owns }.
Proof.
  - intros img auth r x. unfold pull_image, sim_runtime, sim_pull_image.
    destruct (next_attempt _ _) as [n m]. by destruct (_ && _).
  - apply sim_owns_create.
  - apply sim_owns_start.
  - apply sim_owns_forward.
  - apply sim_owns_probe.
  - apply sim_owns_stop.
  - done.
  - apply sim_owns_remove.
  - intros h grace deadline s x. apply (before_deadline_owns _ _ _ (λ _ r, sim_owns r x → sim_owns s.1 x)); [done|].
    apply sim_owns_stop.
  - intros h deadline s x. by apply (before_deadline_owns _ _ _ (λ _ r, sim_owns r x → sim_owns s.1 x)).
  - intros h deadline s x. apply (before_deadline_owns _ _ _ (λ a r, sim_owns r x →
      sim_owns s.1 x ∧ (a = Ok tt → x ≠ ph_container_id h))); [done|]. apply sim_owns_remove.
Defined.

(** ** Scripts and injected faults *)

Definition script_probe_outcomes (id : Z) (outcomes : list ProbeOutcome) (r : SimulatedRuntime)
    : outcome SimulatedRuntime :=
  assert_or (negb (length outcomes =? 0)%nat) "probe script must not be empty"
  (assert_or (length outcomes <=? PROBE_SCRIPT_MAX)%nat "probe script exceeds bounded capacity"
  (assert_or (bool_decide (probe_outcomes r !! id = None)) "probe script may only be set once per pod"
  (Done (set_probe_outcomes (<[id := outcomes]> (probe_outcomes r)) r)))).

Definition script_run_outcomes (id : Z) (outcomes : list RunOutcome) (r : SimulatedRuntime)
    : outcome SimulatedRuntime :=
  assert_or (negb (length outcomes =? 0)%nat) "run script must not be empty"
  (assert_or (length outcomes <=? RUN_SCRIPT_MAX)%nat "run script exceeds bounded capacity"
  (assert_or (bool_decide (run_outcomes r !! id = None)) "run script may only be set once per pod"
  (Done (set_run_outcomes (<[id := outcomes]> (run_outcomes r)) r)))).

Definition run_attempt_count (id : Z) (r : SimulatedRuntime) : Z := default 0 (run_attempts r !! id).

Definition crash_pod (id exit_code : Z) (r : SimulatedRuntime) : outcome SimulatedRuntime :=
  match srt_pods r !! sim_container_id id with
  | None => Panic "scripted crash requires an existing pod"
  | Some status =>
    assert_or (bool_decide (status = PRunning)) "assertion `left == right` failed"
      (Done (set_srt_pods (<[sim_container_id id := PStopped exit_code]> (srt_pods r)) r))
  end.

Definition lose_pod (id : Z) (r : SimulatedRuntime) : outcome SimulatedRuntime :=
  assert_or (bool_decide (is_Some (srt_pods r !! sim_container_id id)))
    "scripted loss requires an existing pod"
    (Done (set_srt_pods (delete (sim_container_id id) (srt_pods r)) r)).

Definition make_pod_status_unknown (id : Z) (r : SimulatedRuntime) : outcome SimulatedRuntime :=
  match srt_pods r !! sim_container_id id with
  | None => Panic "scripted unknown status requires an existing pod"
  | Some _ => Done (set_srt_pods (<[sim_container_id id := PUnknown]> (srt_pods r)) r)
  end.

Definition operation_counts (id : Z) (r : SimulatedRuntime) : RuntimeOperationCounts :=
  mkCounts (default 0 (stop_attempts r !! id)) (default 0 (status_attempts r !! id))
    (default 0 (remove_attempts r !! id)).

(** Byte order of [String]s. *)
Fixpoint bytes_leb (a b : bytes) : bool :=
  match a, b with
  | [], _ => true
  | _ :: _, [] => false
  | x :: a, y :: b => (b2z x <? b2z y) || ((b2z x =? b2z y) && bytes_leb a b)
  end.
Definition string_leb (s t : string) : bool := bytes_leb (as_bytes s) (as_bytes t).

Definition crash_one (r : SimulatedRuntime) (round : Z) (m : gmap string PodStatus) (id : string)
    : gmap string PodStatus :=
  match m !! id with
  | Some PRunning =>
    if deterministic_chance (srt_seed r) CRASH_DOMAIN
         (wrapping_add (stable_hash (as_bytes id)) round) (container_crash_rate (fault_config r))
    then <[id := PStopped 137]> m else m
  | _ => m
  end.

Definition maybe_crash_pods (r : SimulatedRuntime) : SimulatedRuntime :=
  if ratio_is_zero (container_crash_rate (fault_config r)) then r
  else
    let round := crash_round r in
    let r := set_crash_round (wrapping_add round 1) r in
    let ids := sort_by string_leb (keys (srt_pods r)) in
    set_srt_pods (foldl (crash_one r round) (srt_pods r) ids) r.
