(* ===== verification/SimNetwork.v ===== *)
(** * The simulated network: [worker/src/sim/network.rs]

    One inbound and one outbound queue per agent, with delays, drops, replays,
    partitions and sessions.  The two queue types of the source differ only in the
    message they carry; [Pending] and [pop_queue] are generic in it. *)

From S2P Require Import Prelude Types Prng RustStr Protocol.

Definition QUEUE_CAPACITY : nat := 256.

(** [PendingControl] and [PendingAgent]. *)
Record Pending (A : Type) := mkPending {
  pd_msg : A;
  pd_deliver_at_tick : Z;
  pd_epoch : Z;
  pd_replayed : bool
}.
Arguments mkPending {A}.
Arguments pd_msg {A}.
Arguments pd_deliver_at_tick {A}.
Arguments pd_epoch {A}.
Arguments pd_replayed {A}.

Record MessageStats := mkMessageStats {
  control_sent : Z;
  control_bytes : Z;
  worker_sent : Z;
  worker_bytes : Z;
  worker_failed_partition : Z;
  worker_dropped : Z
}.

Definition message_stats_new : MessageStats := mkMessageStats 0 0 0 0 0 0.

Record SimulatedNetwork := mkSimulatedNetwork {
  nw_inbound : list (list (Pending ControlMessage));
  nw_outbound : list (list (Pending WorkerMessage));
  partitioned : list bool;
  session_epochs : list Z;
  nw_prng : Prng;
  min_delay : Z;
  max_delay : Z;
  drop_rate : Ratio;
  replay_rate : Ratio;
  path_max_capacity : nat;
  partition_stable_until : list Z;
  heal_stable_until : Z;
  partition_stability : Z;
  heal_stability : Z;
  stats : MessageStats
}.

(** Assignment to one field. *)
Definition set_nw_inbound (x : list (list (Pending ControlMessage))) (n : SimulatedNetwork) : SimulatedNetwork :=
  mkSimulatedNetwork x (nw_outbound n) (partitioned n) (session_epochs n) (nw_prng n) (min_delay
    n) (max_delay n) (drop_rate n) (replay_rate n) (path_max_capacity n) (partition_stable_until
    n) (heal_stable_until n) (partition_stability n) (heal_stability n) (stats n).
Definition set_nw_outbound (x : list (list (Pending WorkerMessage))) (n : SimulatedNetwork) : SimulatedNetwork :=
  mkSimulatedNetwork (nw_inbound n) x (partitioned n) (session_epochs n) (nw_prng n) (min_delay
    n) (max_delay n) (drop_rate n) (replay_rate n) (path_max_capacity n) (partition_stable_until
    n) (heal_stable_until n) (partition_stability n) (heal_stability n) (stats n).
Definition set_partitioned (x : list bool) (n : SimulatedNetwork) : SimulatedNetwork :=
  mkSimulatedNetwork (nw_inbound n) (nw_outbound n) x (session_epochs n) (nw_prng n) (min_delay
    n) (max_delay n) (drop_rate n) (replay_rate n) (path_max_capacity n) (partition_stable_until
    n) (heal_stable_until n) (partition_stability n) (heal_stability n) (stats n).
Definition set_session_epochs (x : list Z) (n : SimulatedNetwork) : SimulatedNetwork :=
  mkSimulatedNetwork (nw_inbound n) (nw_outbound n) (partitioned n) x (nw_prng n) (min_delay n)
    (max_delay n) (drop_rate n) (replay_rate n) (path_max_capacity n) (partition_stable_until n)
    (heal_stable_until n) (partition_stability n) (heal_stability n) (stats n).
Definition set_nw_prng (x : Prng) (n : SimulatedNetwork) : SimulatedNetwork :=
  mkSimulatedNetwork (nw_inbound n) (nw_outbound n) (partitioned n) (session_epochs n) x
    (min_delay n) (max_delay n) (drop_rate n) (replay_rate n) (path_max_capacity n)
    (partition_stable_until n) (heal_stable_until n) (partition_stability n) (heal_stability n)
    (stats n).
Definition set_drop_rate (x : Ratio) (n : SimulatedNetwork) : SimulatedNetwork :=
  mkSimulatedNetwork (nw_inbound n) (nw_outbound n) (partitioned n) (session_epochs n) (nw_prng
    n) (min_delay n) (max_delay n) x (replay_rate n) (path_max_capacity n)
    (partition_stable_until n) (heal_stable_until n) (partition_stability n) (heal_stability n)
    (stats n).
Definition set_replay_rate (x : Ratio) (n : SimulatedNetwork) : SimulatedNetwork :=
  mkSimulatedNetwork (nw_inbound n) (nw_outbound n) (partitioned n) (session_epochs n) (nw_prng
    n) (min_delay n) (max_delay n) (drop_rate n) x (path_max_capacity n) (partition_stable_until
    n) (heal_stable_until n) (partition_stability n) (heal_stability n) (stats n).
Definition set_path_max_capacity (x : nat) (n : SimulatedNetwork) : SimulatedNetwork :=
  mkSimulatedNetwork (nw_inbound n) (nw_outbound n) (partitioned n) (session_epochs n) (nw_prng
    n) (min_delay n) (max_delay n) (drop_rate n) (replay_rate n) x (partition_stable_until n)
    (heal_stable_until n) (partition_stability n) (heal_stability n) (stats n).
Definition set_partition_stable_until (x : list Z) (n : SimulatedNetwork) : SimulatedNetwork :=
  mkSimulatedNetwork (nw_inbound n) (nw_outbound n) (partitioned n) (session_epochs n) (nw_prng
    n) (min_delay n) (max_delay n) (drop_rate n) (replay_rate n) (path_max_capacity n) x
    (heal_stable_until n) (partition_stability n) (heal_stability n) (stats n).
Definition set_heal_stable_until (x : Z) (n : SimulatedNetwork) : SimulatedNetwork :=
  mkSimulatedNetwork (nw_inbound n) (nw_outbound n) (partitioned n) (session_epochs n) (nw_prng
    n) (min_delay n) (max_delay n) (drop_rate n) (replay_rate n) (path_max_capacity n)
    (partition_stable_until n) x (partition_stability n) (heal_stability n) (stats n).
Definition set_partition_stability (x : Z) (n : SimulatedNetwork) : SimulatedNetwork :=
  mkSimulatedNetwork (nw_inbound n) (nw_outbound n) (partitioned n) (session_epochs n) (nw_prng
    n) (min_delay n) (max_delay n) (drop_rate n) (replay_rate n) (path_max_capacity n)
    (partition_stable_until n) (heal_stable_until n) x (heal_stability n) (stats n).
Definition set_heal_stability (x : Z) (n : SimulatedNetwork) : SimulatedNetwork :=
  mkSimulatedNetwork (nw_inbound n) (nw_outbound n) (partitioned n) (session_epochs n) (nw_prng
    n) (min_delay n) (max_delay n) (drop_rate n) (replay_rate n) (path_max_capacity n)
    (partition_stable_until n) (heal_stable_until n) (partition_stability n) x (stats n).
Definition set_stats (x : MessageStats) (n : SimulatedNetwork) : SimulatedNetwork :=
  mkSimulatedNetwork (nw_inbound n) (nw_outbound n) (partitioned n) (session_epochs n) (nw_prng
    n) (min_delay n) (max_delay n) (drop_rate n) (replay_rate n) (path_max_capacity n)
    (partition_stable_until n) (heal_stable_until n) (partition_stability n) (heal_stability n)
    x.

Definition simulated_network_new (agent_count : nat) (seed : Z) : SimulatedNetwork :=
  mkSimulatedNetwork (replicate agent_count []) (replicate agent_count [])
    (replicate agent_count false) (replicate agent_count 0)
    (prng_init (wrap64 (seed + 48879))) 1 5 ratio_zero ratio_zero 0 (replicate agent_count 0)
    0 0 0 message_stats_new.

Definition queue_capacity (path_max : nat) : nat :=
  if (path_max =? 0)%nat then QUEUE_CAPACITY else Nat.min path_max QUEUE_CAPACITY.

Abbreviation NW := (M SimulatedNetwork).


Definition nw_get {A} (f : SimulatedNetwork → A) : NW A := λ n, Done (f n, n).

(** Draws from the network's generator. *)
Definition draw_ratio (r : Ratio) : NW bool := λ n,
  match prng_chance_ratio r (nw_prng n) with
  | Done (b, p) => Done (b, set_nw_prng p n)
  | Panic e => Panic e
  end.
Definition draw_bounded (bound : Z) : NW Z := λ n,
  match prng_bounded bound (nw_prng n) with
  | Done (x, p) => Done (x, set_nw_prng p n)
  | Panic e => Panic e
  end.

(** [self.min_delay + self.prng.bounded(self.max_delay - self.min_delay + 1)]. *)
Definition draw_delay : NW Z :=
  let* n := get in
  let* span := add_overflow U64_MAX (max_delay n - min_delay n) 1 in
  let* extra := draw_bounded span in
  add_overflow U64_MAX (min_delay n) extra.

Definition bump (f : MessageStats → Z) (set : Z → MessageStats → MessageStats) (by_ : Z) : NW unit :=
  let* n := get in
  let* x := add_overflow U64_MAX (f (stats n)) by_ in
  modify (λ n, set_stats (set x (stats n)) n).

Definition set_control_sent x s := mkMessageStats x (control_bytes s) (worker_sent s) (worker_bytes s) (worker_failed_partition s) (worker_dropped s).
Definition set_worker_sent x s := mkMessageStats (control_sent s) (control_bytes s) x (worker_bytes s) (worker_failed_partition s) (worker_dropped s).
Definition set_worker_bytes x s := mkMessageStats (control_sent s) (control_bytes s) (worker_sent s) x (worker_failed_partition s) (worker_dropped s).
Definition set_worker_failed_partition x s := mkMessageStats (control_sent s) (control_bytes s) (worker_sent s) (worker_bytes s) x (worker_dropped s).
Definition set_worker_dropped x s := mkMessageStats (control_sent s) (control_bytes s) (worker_sent s) (worker_bytes s) (worker_failed_partition s) x.

(** Queues a message of the current session. *)
Definition pending_now {A} (agent_id : nat) (msg : A) (current_tick delay : Z) : NW (Pending A) :=
  let* n := get in
  let* at_tick := add_overflow U64_MAX current_tick delay in
  let* epoch := index (session_epochs n) agent_id in
  ret (mkPending msg at_tick epoch false).

Definition send_to_agent (agent_id : nat) (msg : ControlMessage) (current_tick : Z) : NW unit :=
  let* n := get in
  assert (agent_id <? length (nw_inbound n))%nat "assertion failed: agent_id < self.inbound.len()" ;;;
  assert (min_delay n <=? max_delay n) "assertion failed: self.min_delay <= self.max_delay" ;;;
  let* dropped := draw_ratio (drop_rate n) in
  if dropped then ret tt
  else
    let* queue := index (nw_inbound n) agent_id in
    if (queue_capacity (path_max_capacity n) <=? length queue)%nat then ret tt
    else
      let* delay := draw_delay in
      let* pending := pending_now agent_id msg current_tick delay in
      modify (λ n, set_nw_inbound (<[agent_id := queue ++ [pending]]> (nw_inbound n)) n) ;;;
      bump control_sent set_control_sent 1.

(** An oversize response travels as its error form. *)
Definition on_the_wire (msg : WorkerMessage) : WorkerMessage :=
  match msg with
  | RunResponse r =>
    if (MAX_RUN_RESPONSE_BODY <? length (rs_payload r))%nat
    then RunResponse (mkRunResponseMsg (rs_request_id r) RUN_STATUS_RESPONSE_TOO_LARGE [])
    else msg
  | _ => msg
  end.

Definition send_from_agent (agent_id : nat) (msg : WorkerMessage) (current_tick : Z) : NW unit :=
  let* n := get in
  assert (agent_id <? length (nw_outbound n))%nat "assertion failed: agent_id < self.outbound.len()" ;;;
  assert (min_delay n <=? max_delay n) "assertion failed: self.min_delay <= self.max_delay" ;;;
  let* cut := index (partitioned n) agent_id in
  if cut : bool then bump worker_failed_partition set_worker_failed_partition 1
  else
    let* dropped := draw_ratio (drop_rate n) in
    if dropped then bump worker_dropped set_worker_dropped 1
    else
      let* queue := index (nw_outbound n) agent_id in
      if (queue_capacity (path_max_capacity n) <=? length queue)%nat
      then bump worker_dropped set_worker_dropped 1
      else
        match encode_agent_message msg (zeros MAX_FRAME_PAYLOAD) with
        | (Err _, _) => panic "worker simulation must emit encodable messages"
        | (Ok (_, payload_len), _) =>
          let* delay := draw_delay in
          let* pending := pending_now agent_id (on_the_wire msg) current_tick delay in
          modify (λ n, set_nw_outbound (<[agent_id := queue ++ [pending]]> (nw_outbound n)) n) ;;;
          bump worker_sent set_worker_sent 1 ;;;
          bump worker_bytes set_worker_bytes (Z.of_nat payload_len)
        end.

(** [while queue.front().is_some_and(|p| p.epoch != epoch) { queue.pop_front(); }]. *)
Fixpoint drop_stale {A} (epoch : Z) (q : list (Pending A)) : list (Pending A) :=
  match q with
  | p :: q' => if pd_epoch p =? epoch then q else drop_stale epoch q'
  | [] => []
  end.

(** The body shared by [pop_inbound] and [pop_outbound], on one queue: the message and
    the queue left. *)
Definition pop_queue {A} (agent_id : nat) (now : Z) (q : list (Pending A))
    : NW (option A * list (Pending A)) :=
  let* n := get in
  let* epoch := index (session_epochs n) agent_id in
  match drop_stale epoch q with
  | [] => ret (None, [])
  | pending :: rest =>
    if now <? pd_deliver_at_tick pending then ret (None, pending :: rest)
    else
      let* replay :=
        (if pd_replayed pending then ret false
         else
           let* lucky := draw_ratio (replay_rate n) in
           ret (lucky && (length rest <? queue_capacity (path_max_capacity n))%nat)) in
      if replay : bool then
        let* at_tick := add_overflow U64_MAX now (Z.max (min_delay n) 1) in
        ret (Some (pd_msg pending),
             rest ++ [mkPending (pd_msg pending) at_tick (pd_epoch pending) true])
      else ret (Some (pd_msg pending), rest)
  end.

Definition pop_inbound (agent_id : nat) (now : Z) : NW (option ControlMessage) :=
  let* n := get in
  assert (agent_id <? length (nw_inbound n))%nat "assertion failed: agent_id < self.inbound.len()" ;;;
  let* cut := index (partitioned n) agent_id in
  if cut : bool then ret None
  else
    let* queue := index (nw_inbound n) agent_id in
    let* (msg, queue) := pop_queue agent_id now queue in
    modify (λ n, set_nw_inbound (<[agent_id := queue]> (nw_inbound n)) n) ;;;
    ret msg.

Definition pop_outbound (agent_id : nat) (now : Z) : NW (option WorkerMessage) :=
  let* n := get in
  assert (agent_id <? length (nw_outbound n))%nat "assertion failed: agent_id < self.outbound.len()" ;;;
  let* cut := index (partitioned n) agent_id in
  if cut : bool then ret None
  else
    let* queue := index (nw_outbound n) agent_id in
    let* (msg, queue) := pop_queue agent_id now queue in
    modify (λ n, set_nw_outbound (<[agent_id := queue]> (nw_outbound n)) n) ;;;
    ret msg.

Definition nw_partition_agent (agent_id : nat) (current_tick : Z) : NW unit :=
  let* n := get in
  if current_tick <? heal_stable_until n then ret tt
  else
    let* _ := index (partitioned n) agent_id in
    modify (λ n, set_partitioned (<[agent_id := true]> (partitioned n)) n) ;;;
    let* until := add_overflow U64_MAX current_tick (partition_stability n) in
    let* _ := index (partition_stable_until n) agent_id in
    modify (λ n, set_partition_stable_until (<[agent_id := until]> (partition_stable_until n)) n).

Definition is_partitioned (agent_id : nat) : NW bool :=
  let* n := get in
  assert (agent_id <? length (partitioned n))%nat "assertion failed: agent_id < self.partitioned.len()" ;;;
  index (partitioned n) agent_id.

Definition discard_session_queues (agent_id : nat) : NW unit :=
  let* n := get in
  assert (agent_id <? length (nw_inbound n))%nat "assertion failed: agent_id < self.inbound.len()" ;;;
  assert (agent_id <? length (nw_outbound n))%nat "assertion failed: agent_id < self.outbound.len()" ;;;
  let* epoch := index (session_epochs n) agent_id in
  let* epoch := expect (checked_add U64_MAX epoch 1) "simulation session epoch must not overflow" in
  modify (λ n, set_nw_outbound (<[agent_id := []]> (nw_outbound n))
                 (set_nw_inbound (<[agent_id := []]> (nw_inbound n))
                   (set_session_epochs (<[agent_id := epoch]> (session_epochs n)) n))).

Definition nw_force_heal_all (current_tick : Z) : NW unit :=
  modify (λ n, set_partitioned (replicate (length (partitioned n)) false) n) ;;;
  let* n := get in
  let* until := add_overflow U64_MAX current_tick (heal_stability n) in
  modify (set_heal_stable_until until).

Definition nw_heal_all (current_tick : Z) : NW unit :=
  let* n := get in
  if existsb (λ until, current_tick <? until) (partition_stable_until n) then ret tt
  else nw_force_heal_all current_tick.

Definition heal_one (agent_id : nat) (current_tick : Z) : NW unit :=
  let* n := get in
  let* until := index (partition_stable_until n) agent_id in
  if current_tick <? until then ret tt
  else
    let* _ := index (partitioned n) agent_id in
    modify (λ n, set_partitioned (<[agent_id := false]> (partitioned n)) n).

Definition total_messages : NW Z :=
  let* n := get in add_overflow U64_MAX (control_sent (stats n)) (worker_sent (stats n)).

(** ** Bounds *)

(** Every queue stays within its capacity. *)
Definition net_bounded (n : SimulatedNetwork) : Prop :=
  Forall (λ q, (length q ≤ QUEUE_CAPACITY)%nat) (nw_inbound n) ∧
  Forall (λ q, (length q ≤ QUEUE_CAPACITY)%nat) (nw_outbound n).

Lemma queue_capacity_le k : (queue_capacity k ≤ QUEUE_CAPACITY)%nat.
Proof. unfold queue_capacity. case_match; lia. Qed.

(** Draws and counters leave the queues alone. *)
Definition same_queues (n n' : SimulatedNetwork) : Prop :=
  nw_inbound n' = nw_inbound n ∧ nw_outbound n' = nw_outbound n.

Lemma bounded_same n n' : net_bounded n → same_queues n n' → net_bounded n'.
Proof. intros Hb [E1 E2]. unfold net_bounded. by rewrite E1, E2. Qed.

Lemma draw_ratio_same r n : wp any_panic (draw_ratio r) (λ _ n', same_queues n n') n.
Proof. unfold wp, draw_ratio. by destruct (prng_chance_ratio r (nw_prng n)) as [[b p]|]. Qed.

Lemma draw_delay_same n : wp any_panic draw_delay (λ _ n', same_queues n n') n.
Proof.
  unfold draw_delay. wp_step. apply wp_get. wp_step. apply wp_any_add. wp_step.
  unfold wp at 1, draw_bounded. destruct (prng_bounded _ (nw_prng n)) as [[x p]|]; [|done].
  by apply wp_any_add.
Qed.

Lemma bump_same f set k n : wp any_panic (bump f set k) (λ _ n', same_queues n n') n.
Proof.
  unfold bump. wp_step. apply wp_get. wp_step. apply wp_any_add. by apply wp_modify.
Qed.

Lemma pending_now_same {A} i (m : A) t d n : wp any_panic (pending_now i m t d) (λ _ n', n' = n) n.
Proof.
  unfold pending_now. wp_step. apply wp_get. wp_step. apply wp_any_add. wp_step.
  by apply wp_index; [|intros; apply wp_ret].
Qed.

(** Appending to a queue below its capacity. *)
Lemma push_bounded {A} i (q : list A) x (qs : list (list A)) :
  Forall (λ q, (length q ≤ QUEUE_CAPACITY)%nat) qs → (length q < QUEUE_CAPACITY)%nat →
  Forall (λ q, (length q ≤ QUEUE_CAPACITY)%nat) (<[i := q ++ [x]]> qs).
Proof. intros Hqs Hq. apply Forall_insert; [done|]. rewrite length_app. simpl. lia. Qed.

Lemma send_to_agent_bounded i m t n :
  net_bounded n → wp any_panic (send_to_agent i m t) (λ _ n', net_bounded n') n.
Proof.
  intros Hb. unfold send_to_agent. wp_step. apply wp_get. wp_step. apply wp_any_assert.
  wp_step. apply wp_any_assert. wp_step. eapply wp_mono; [apply draw_ratio_same|].
  intros d n1 H1. destruct d; [by apply wp_ret, (bounded_same n)|].
  wp_step. apply wp_index; [done|]. intros q Hq.
  destruct (Nat.leb_spec (queue_capacity (path_max_capacity n)) (length q)) as [|Hlt];
    [by apply wp_ret, (bounded_same n)|].
  wp_step. eapply wp_mono; [apply draw_delay_same|]. intros delay n2 H2.
  wp_step. eapply wp_mono; [apply pending_now_same|]. intros p n2b E2b; rewrite E2b; clear n2b E2b.
  wp_step. apply wp_modify. eapply wp_mono; [apply bump_same|]. intros ? n3 H3.
  eapply bounded_same; [|exact H3]. destruct (bounded_same _ _ (bounded_same _ _ Hb H1) H2) as [Hi Ho].
  split; [|done]. simpl. apply push_bounded; [done|]. pose proof (queue_capacity_le (path_max_capacity n)). lia.
Qed.

Lemma send_from_agent_bounded i m t n :
  net_bounded n → wp any_panic (send_from_agent i m t) (λ _ n', net_bounded n') n.
Proof.
  intros Hb. unfold send_from_agent. wp_step. apply wp_get. wp_step. apply wp_any_assert.
  wp_step. apply wp_any_assert. wp_step. apply wp_index; [done|]. intros cut _.
  assert (Hbump : ∀ f s k n1, same_queues n n1 →
    wp any_panic (bump f s k) (λ _ n', net_bounded n') n1).
  { intros f s k n1 Hn1. eapply wp_mono; [apply bump_same|]. intros ? n2 H2.
    eapply bounded_same; [|exact H2]. by eapply bounded_same. }
  destruct cut; [by apply Hbump|].
  wp_step. eapply wp_mono; [apply draw_ratio_same|]. intros d n1 H1.
  destruct d; [by apply Hbump|]. wp_step. apply wp_index; [done|]. intros q Hq.
  destruct (Nat.leb_spec (queue_capacity (path_max_capacity n)) (length q)) as [|Hlt]; [by apply Hbump|].
  destruct (encode_agent_message m (zeros MAX_FRAME_PAYLOAD)) as [[[tag len]|e] buf]; [|done].
  wp_step. eapply wp_mono; [apply draw_delay_same|]. intros delay n2 H2.
  wp_step. eapply wp_mono; [apply pending_now_same|]. intros p n2b E2b; rewrite E2b; clear n2b E2b.
  wp_step. apply wp_modify. wp_step. eapply wp_mono; [apply bump_same|]. intros ? n3 H3.
  eapply wp_mono; [apply bump_same|]. intros ? n4 H4.
  eapply bounded_same; [|exact H4]. eapply bounded_same; [|exact H3].
  destruct (bounded_same _ _ (bounded_same _ _ Hb H1) H2) as [Hi Ho].
  split; [done|]. simpl. apply push_bounded; [done|]. pose proof (queue_capacity_le (path_max_capacity n)). lia.
Qed.

(** ** Delivery *)

Lemma drop_stale_split {A} epoch (q : list (Pending A)) :
  ∃ stale, q = stale ++ drop_stale epoch q ∧ Forall (λ p, pd_epoch p ≠ epoch) stale ∧
    match drop_stale epoch q with p :: _ => pd_epoch p = epoch | [] => True end.
Proof.
  induction q as [|p q IH]; simpl; [by exists []|].
  destruct (Z.eqb_spec (pd_epoch p) epoch) as [He|He].
  - by exists [].
  - destruct IH as (stale & E & Hs & Hh). exists (p :: stale). split; [by rewrite <-app_comm_cons, <-E|].
    split; [by constructor|done].
Qed.

Lemma drop_stale_length {A} epoch (q : list (Pending A)) : (length (drop_stale epoch q) ≤ length q)%nat.
Proof.
  destruct (drop_stale_split epoch q) as (stale & E & _). rewrite E at 2. rewrite length_app. lia.
Qed.

(** What one pop of a queue does. *)
Definition pop_post {A} (epoch now delay : Z) (q : list (Pending A)) (r : option A * list (Pending A)) : Prop :=
  let '(o, q') := r in
  ∃ stale p_rest, q = stale ++ p_rest ∧ Forall (λ p, pd_epoch p ≠ epoch) stale ∧
  match o with
  | None => q' = p_rest ∧ match p_rest with [] => True | p :: _ => pd_epoch p = epoch ∧ now < pd_deliver_at_tick p end
  | Some m => ∃ p rest, p_rest = p :: rest ∧ pd_epoch p = epoch ∧ pd_deliver_at_tick p ≤ now ∧ m = pd_msg p ∧
      (q' = rest ∨ (pd_replayed p = false ∧ (length rest < QUEUE_CAPACITY)%nat ∧
         q' = rest ++ [mkPending m (now + Z.max delay 1) epoch true]))
  end.

Lemma pop_queue_post {A} i now (q : list (Pending A)) n :
  wp any_panic (pop_queue i now q) (λ r n', same_queues n n' ∧
    ∃ epoch, session_epochs n !! i = Some epoch ∧ pop_post epoch now (min_delay n) q r) n.
Proof.
  unfold pop_queue. wp_step. apply wp_get. wp_step. apply wp_index; [done|]. intros epoch He.
  destruct (drop_stale_split epoch q) as (stale & E & Hs & Hh).
  destruct (drop_stale epoch q) as [|p rest].
  { apply wp_ret. split; [done|]. exists epoch. split; [done|]. by exists stale, []. }
  destruct (Z.ltb_spec now (pd_deliver_at_tick p)).
  { apply wp_ret. split; [done|]. exists epoch. split; [done|]. by exists stale, (p :: rest). }
  wp_step. apply (wp_mono any_panic _ (λ b n', same_queues n n' ∧
    (b = true → pd_replayed p = false ∧ (length rest < QUEUE_CAPACITY)%nat))).
  { destruct (pd_replayed p); [by apply wp_ret|]. wp_step.
    eapply wp_mono; [apply draw_ratio_same|]. intros lucky n1 H1. apply wp_ret. split; [done|].
    intros [_ Hl]%andb_true_iff. split; [done|]. apply Nat.ltb_lt in Hl.
    pose proof (queue_capacity_le (path_max_capacity n)). lia. }
  intros [] n1 [H1 Hr].
  - destruct (Hr eq_refl) as [Hre Hlen]. wp_step. apply wp_any_add. apply wp_ret. split; [done|].
    exists epoch. split; [done|]. exists stale, (p :: rest). split; [done|]. split; [done|].
    exists p, rest. split_and!; try done. right. by rewrite Hh.
  - apply wp_ret. split; [done|]. exists epoch. split; [done|]. exists stale, (p :: rest).
    split; [done|]. split; [done|]. exists p, rest. split_and!; try done. by left.
Qed.

Lemma pop_post_length {A} epoch now d (q q' : list (Pending A)) o :
  pop_post epoch now d q (o, q') → (length q ≤ QUEUE_CAPACITY)%nat → (length q' ≤ QUEUE_CAPACITY)%nat.
Proof.
  intros (stale & pr & -> & _ & Ho). rewrite length_app. destruct o as [m|].
  - destruct Ho as (p & rest & -> & _ & _ & _ & [->|(_ & Hl & ->)]); simpl.
    + lia.
    + rewrite length_app. simpl. lia.
  - destruct Ho as [-> _]. lia.
Qed.

Lemma pop_bounded {A} i now (q : list (Pending A)) n (qs : list (list (Pending A))) :
  qs !! i = Some q → Forall (λ q, (length q ≤ QUEUE_CAPACITY)%nat) qs →
  wp any_panic (pop_queue i now q) (λ r n', same_queues n n' ∧
    Forall (λ q, (length q ≤ QUEUE_CAPACITY)%nat) (<[i := r.2]> qs)) n.
Proof.
  intros Hq Hb. eapply wp_mono; [apply pop_queue_post|]. intros [o q'] n' [Hs (epoch & _ & Hp)].
  split; [done|]. apply Forall_insert; [done|]. simpl. eapply pop_post_length; [done|].
  exact (Forall_lookup_1 _ _ _ _ Hb Hq).
Qed.

Lemma pop_inbound_bounded i now n :
  net_bounded n → wp any_panic (pop_inbound i now) (λ _ n', net_bounded n') n.
Proof.
  intros [Hi Ho]. unfold pop_inbound. wp_step. apply wp_get. wp_step. apply wp_any_assert.
  wp_step. apply wp_index; [done|]. intros [] _; [by apply wp_ret|].
  wp_step. apply wp_index; [done|]. intros q Hq. wp_step.
  eapply wp_mono; [by apply (pop_bounded i now q n (nw_inbound n))|]. intros [m q'] n1 [[E1 E2] Hb].
  wp_step. apply wp_modify, wp_ret. split; simpl; [by rewrite E1|by rewrite E2].
Qed.

Lemma pop_outbound_bounded i now n :
  net_bounded n → wp any_panic (pop_outbound i now) (λ _ n', net_bounded n') n.
Proof.
  intros [Hi Ho]. unfold pop_outbound. wp_step. apply wp_get. wp_step. apply wp_any_assert.
  wp_step. apply wp_index; [done|]. intros [] _; [by apply wp_ret|].
  wp_step. apply wp_index; [done|]. intros q Hq. wp_step.
  eapply wp_mono; [by apply (pop_bounded i now q n (nw_outbound n))|]. intros [m q'] n1 [[E1 E2] Hb].
  wp_step. apply wp_modify, wp_ret. split; simpl; [by rewrite E1|by rewrite E2].
Qed.

(** The simulated network is bounded: whatever is sent, delivered or replayed,
    no agent's queue ever exceeds 256 messages, in either direction. *)
Theorem network_bounded (i : nat) (now : Z) (n : SimulatedNetwork) :
  net_bounded n →
  (∀ m, wp any_panic (send_to_agent i m now) (λ _ n', net_bounded n') n) ∧
  (∀ m, wp any_panic (send_from_agent i m now) (λ _ n', net_bounded n') n) ∧
  wp any_panic (pop_inbound i now) (λ _ n', net_bounded n') n ∧
  wp any_panic (pop_outbound i now) (λ _ n', net_bounded n') n ∧
  wp any_panic (discard_session_queues i) (λ _ n', net_bounded n') n.
Proof.
  intros Hb. split_and!.
  - intros m. by apply send_to_agent_bounded.
  - intros m. by apply send_from_agent_bounded.
  - by apply pop_inbound_bounded.
  - by apply pop_outbound_bounded.
  - unfold discard_session_queues. wp_step. apply wp_get. wp_step. apply wp_any_assert.
    wp_step. apply wp_any_assert. wp_step. apply wp_index; [done|]. intros e _. wp_step.
    unfold wp at 1, expect. destruct (checked_add U64_MAX e 1); [|done]. apply wp_modify. destruct Hb as [Hi Ho].
    split; simpl; (apply Forall_insert; [done|simpl; lia]).
Qed.


(** What a delivery from the queue [q] of an agent may do. *)
Definition delivers {A} (i : nat) (now : Z) (n : SimulatedNetwork) (qs qs' : list (list (Pending A)))
    (o : option A) : Prop :=
  (partitioned n !! i = Some true ∧ o = None ∧ qs' = qs) ∨
  (partitioned n !! i = Some false ∧
   ∃ q q' epoch, qs !! i = Some q ∧ session_epochs n !! i = Some epoch ∧
     pop_post epoch now (min_delay n) q (o, q') ∧ qs' = <[i := q']> qs).

Lemma pop_inbound_delivers i now n :
  wp any_panic (pop_inbound i now) (λ o n',
    delivers i now n (nw_inbound n) (nw_inbound n') o ∧ nw_outbound n' = nw_outbound n) n.
Proof.
  unfold pop_inbound. wp_step. apply wp_get. wp_step. apply wp_any_assert.
  wp_step. apply wp_index; [done|]. intros [] Hp; [apply wp_ret; split; [by left|done]|].
  wp_step. apply wp_index; [done|]. intros q Hq. wp_step.
  eapply wp_mono; [apply pop_queue_post|]. intros [m q'] n1 [[E1 E2] (epoch & He & Hpost)].
  wp_step. apply wp_modify, wp_ret. simpl. split; [|done]. right. split; [done|].
  exists q, q', epoch. by rewrite E1.
Qed.

Lemma pop_outbound_delivers i now n :
  wp any_panic (pop_outbound i now) (λ o n',
    delivers i now n (nw_outbound n) (nw_outbound n') o ∧ nw_inbound n' = nw_inbound n) n.
Proof.
  unfold pop_outbound. wp_step. apply wp_get. wp_step. apply wp_any_assert.
  wp_step. apply wp_index; [done|]. intros [] Hp; [apply wp_ret; split; [by left|done]|].
  wp_step. apply wp_index; [done|]. intros q Hq. wp_step.
  eapply wp_mono; [apply pop_queue_post|]. intros [m q'] n1 [[E1 E2] (epoch & He & Hpost)].
  wp_step. apply wp_modify, wp_ret. simpl. split; [|done]. right. split; [done|].
  exists q, q', epoch. by rewrite E2.
Qed.

(** C36: delivery respects sessions and order, in both directions: nothing crosses a
    partition; a popped message is the oldest one of the agent's current session (only
    messages of other sessions are skipped, and they are gone for good), its delay has
    elapsed, and it comes back at most once, marked as replayed and at least one tick later;
    nothing is popped only when the oldest message of the session is not due. *)
Theorem network_delivery (i : nat) (now : Z) (n : SimulatedNetwork) :
  (∀ o n', pop_inbound i now n = Done (o, n') →
     delivers i now n (nw_inbound n) (nw_inbound n') o ∧ nw_outbound n' = nw_outbound n) ∧
  (∀ o n', pop_outbound i now n = Done (o, n') →
     delivers i now n (nw_outbound n) (nw_outbound n') o ∧ nw_inbound n' = nw_inbound n).
Proof.
  split; intros o n'; [exact (wp_any_done _ _ _ _ _ (pop_inbound_delivers i now n))|].
  exact (wp_any_done _ _ _ _ _ (pop_outbound_delivers i now n)).
Qed.

(** A network with one agent, and a message on its way. *)
Definition example_network : SimulatedNetwork := simulated_network_new 1 7.

Lemma network_delivery_witness :
  ∃ n1 n2, send_to_agent 0 (StopPod (mkStopPodCmd 3 0)) 0 example_network = Done (tt, n1) ∧
    pop_inbound 0 9 n1 = Done (Some (StopPod (mkStopPodCmd 3 0)), n2) ∧
    delivers 0 9 n1 (nw_inbound n1) (nw_inbound n2) (Some (StopPod (mkStopPodCmd 3 0))).
Proof.
  eexists _, _. split; [vm_compute; reflexivity|]. split; [vm_compute; reflexivity|].
  apply (network_delivery 0 9). vm_compute. reflexivity.
Defined.

Lemma network_bounded_witness :
  net_bounded example_network ∧
  wp any_panic (send_to_agent 0 (StopPod (mkStopPodCmd 3 0)) 0) (λ _ n', net_bounded n') example_network.
Proof.
  assert (Hb : net_bounded example_network).
  { split; vm_compute; repeat constructor; lia. }
  split; [exact Hb|]. exact (proj1 (network_bounded 0 0 example_network Hb) (StopPod (mkStopPodCmd 3 0))).
Defined.

(** ** A network that never fails

    On a well-formed network of [k] agents the operations fail no assertion and no
    index: all that can go wrong is a counter or a tick leaving the range of [u64]. *)

Definition ADD_OVERFLOW : string := "attempt to add with overflow".

Record net_wf (k : nat) (n : SimulatedNetwork) : Prop := {
  nf_inbound : length (nw_inbound n) = k;
  nf_outbound : length (nw_outbound n) = k;
  nf_partitioned : length (partitioned n) = k;
  nf_epochs : length (session_epochs n) = k;
  nf_until : length (partition_stable_until n) = k;
  nf_prng : prng_wf (nw_prng n);
  nf_drop : ratio_wf (drop_rate n);
  nf_replay : ratio_wf (replay_rate n);
  nf_delay : 0 ≤ min_delay n ≤ max_delay n;
  nf_bounded : net_bounded n;
  nf_messages : Forall (Forall (λ p, control_wf (pd_msg p))) (nw_inbound n)
}.

Lemma net_wf_new k seed : is_u64 seed → net_wf k (simulated_network_new k seed).
Proof.
  intros Hs. constructor; simpl; rewrite ?length_replicate; try done.
  - apply prng_init_wf. unfold wrap64. pose proof (Z.mod_pos_bound (seed + 48879) (2 ^ 64)).
    unfold in_range, U64_MAX. lia.
  - split; apply Forall_replicate; simpl; lia.
  - by apply Forall_replicate.
Qed.

Lemma net_wf_prng k n p : net_wf k n → prng_wf p → net_wf k (set_nw_prng p n).
Proof. intros [] Hp. by constructor. Qed.

Lemma net_wf_stats k n s : net_wf k n → net_wf k (set_stats s n).
Proof. intros []. by constructor. Qed.

Lemma net_wf_inbound k n i q :
  net_wf k n → (length q ≤ QUEUE_CAPACITY)%nat → Forall (λ p, control_wf (pd_msg p)) q →
  net_wf k (set_nw_inbound (<[i := q]> (nw_inbound n)) n).
Proof.
  intros [? ? ? ? ? ? ? ? ? [Hi Ho] ?] Hq Hm.
  constructor; simpl; rewrite ?length_insert; try done; [|by apply Forall_insert].
  split; [by apply Forall_insert|done].
Qed.

Lemma net_wf_outbound k n i q :
  net_wf k n → (length q ≤ QUEUE_CAPACITY)%nat → net_wf k (set_nw_outbound (<[i := q]> (nw_outbound n)) n).
Proof.
  intros [? ? ? ? ? ? ? ? ? [Hi Ho] ?] Hq.
  constructor; simpl; rewrite ?length_insert; try done.
  split; [done|by apply Forall_insert].
Qed.

(** The messages of a queue that can be delivered at [now]. *)
Definition due {A} (now : Z) (q : list (Pending A)) : nat :=
  length (filter (λ p, pd_deliver_at_tick p ≤ now) q).

Lemma due_le {A} now (q : list (Pending A)) : (due now q ≤ length q)%nat.
Proof. apply length_filter. Qed.

(** A delivery leaves fewer due messages: a replay is due later. *)
Lemma pop_post_due {A} epoch now delay (q q' : list (Pending A)) m :
  pop_post epoch now delay q (Some m, q') → (due now q' < due now q)%nat.
Proof.
  intros (stale & pr & -> & _ & p & rest & -> & _ & Hp & _ & Hq').
  unfold due. rewrite filter_app, filter_cons, decide_True, length_app by done. simpl.
  destruct Hq' as [->|(_ & _ & ->)]; [lia|].
  rewrite filter_app, filter_cons, decide_False by (simpl; lia). rewrite app_nil_r. lia.
Qed.

Lemma pop_post_messages epoch now delay (q q' : list (Pending ControlMessage)) o :
  pop_post epoch now delay q (o, q') → Forall (λ p, control_wf (pd_msg p)) q →
  Forall (λ p, control_wf (pd_msg p)) q' ∧ ∀ m, o = Some m → control_wf m.
Proof.
  intros (stale & pr & -> & _ & Ho) [_ Hpr]%Forall_app. destruct o as [m|].
  - destruct Ho as (p & rest & -> & _ & _ & -> & Hq'). apply Forall_cons in Hpr as [Hp Hrest].
    split; [|by intros ? [= <-]]. destruct Hq' as [->|(_ & _ & ->)]; [done|].
    apply Forall_app. split; [done|]. by apply Forall_singleton.
  - destruct Ho as [-> _]. done.
Qed.

Section total.
  Context (P : string → Prop) (Padd : P ADD_OVERFLOW) (k : nat).
  Implicit Types n : SimulatedNetwork.

Lemma wp_add_or {S} max a b (Q : Z → S → Prop) s : Q (a + b) s → wp P (add_overflow max a b) Q s.
Proof. unfold wp, add_overflow. intros HQ. by destruct (a + b <=? max). Qed.

Lemma wp_index_lt {S A} (l : list A) i (Q : A → S → Prop) s :
  (i < length l)%nat → (∀ a, l !! i = Some a → Q a s) → wp P (index l i) Q s.
Proof. intros [a Ha]%lookup_lt_is_Some HQ. unfold wp, index, expect. rewrite Ha. by apply HQ. Qed.

Lemma draw_ratio_ok r n Q :
  ratio_wf r → prng_wf (nw_prng n) → (∀ b p, prng_wf p → Q b (set_nw_prng p n)) → wp P (draw_ratio r) Q n.
Proof.
  intros Hr Hp HQ. unfold wp, draw_ratio.
  destruct (prng_chance_ratio_total r (nw_prng n) Hr Hp) as (b & p & -> & Hp'). by apply HQ.
Qed.

Lemma draw_delay_ok n Q :
  min_delay n ≤ max_delay n → prng_wf (nw_prng n) →
  (∀ d p, prng_wf p → Q d (set_nw_prng p n)) → wp P draw_delay Q n.
Proof.
  intros Hd Hp HQ. unfold draw_delay. wp_step. apply wp_get. wp_step. apply wp_add_or. wp_step.
  unfold wp at 1, draw_bounded.
  destruct (prng_bounded_spec (max_delay n - min_delay n + 1) (nw_prng n)) as (x & p & -> & _ & Hp'); [lia|done|].
  apply wp_add_or. by apply HQ.
Qed.

Lemma bump_ok f set x n Q : (∀ s, Q tt (set_stats s n)) → wp P (bump f set x) Q n.
Proof. intros HQ. unfold bump. wp_step. apply wp_get. wp_step. apply wp_add_or. by apply wp_modify. Qed.

Lemma pending_now_ok {A} i (m : A) t d n Q :
  (i < length (session_epochs n))%nat → (∀ at_tick epoch, Q (mkPending m at_tick epoch false) n) →
  wp P (pending_now i m t d) Q n.
Proof.
  intros Hi HQ. unfold pending_now. wp_step. apply wp_get. wp_step. apply wp_add_or. wp_step.
  apply wp_index_lt; [done|]. intros e _. by apply wp_ret.
Qed.

Lemma send_to_agent_ok i m t n :
  net_wf k n → (i < k)%nat → control_wf m → wp P (send_to_agent i m t) (λ _ n', net_wf k n') n.
Proof.
  intros Hn Hi Hm. unfold send_to_agent. wp_step. apply wp_get.
  wp_step. apply wp_assert; [apply Nat.ltb_lt; by rewrite (nf_inbound _ _ Hn)|].
  wp_step. apply wp_assert; [apply Z.leb_le, (nf_delay _ _ Hn)|].
  wp_step. apply draw_ratio_ok; [apply Hn|apply Hn|]. intros dropped p1 Hp1.
  assert (Hn1 := net_wf_prng k n p1 Hn Hp1). destruct dropped; [by apply wp_ret|].
  wp_step. apply wp_index_lt; [by rewrite (nf_inbound _ _ Hn)|]. intros q Hq.
  destruct (Nat.leb_spec (queue_capacity (path_max_capacity n)) (length q)) as [|Hlt]; [by apply wp_ret|].
  wp_step. apply draw_delay_ok; [apply (nf_delay _ _ Hn1)|done|]. intros d p2 Hp2.
  assert (Hn2 := net_wf_prng k _ p2 Hn1 Hp2).
  wp_step. apply pending_now_ok; [by rewrite (nf_epochs _ _ Hn2)|]. intros at_tick epoch.
  wp_step. apply wp_modify, bump_ok. intros s. apply net_wf_stats, net_wf_inbound; [done| |].
  - pose proof (queue_capacity_le (path_max_capacity n)). rewrite length_app. simpl. lia.
  - apply Forall_app. split; [|by apply Forall_singleton]. exact (Forall_lookup_1 _ _ _ _ (nf_messages _ _ Hn) Hq).
Qed.

Lemma send_from_agent_ok i m t n :
  net_wf k n → (i < k)%nat → emittable m → wp P (send_from_agent i m t) (λ _ n', net_wf k n') n.
Proof.
  intros Hn Hi Hm. unfold send_from_agent. wp_step. apply wp_get.
  wp_step. apply wp_assert; [apply Nat.ltb_lt; by rewrite (nf_outbound _ _ Hn)|].
  wp_step. apply wp_assert; [apply Z.leb_le, (nf_delay _ _ Hn)|].
  wp_step. apply wp_index_lt; [by rewrite (nf_partitioned _ _ Hn)|]. intros [] _.
  { apply bump_ok. intros s. by apply net_wf_stats. }
  wp_step. apply draw_ratio_ok; [apply Hn|apply Hn|]. intros dropped p1 Hp1.
  assert (Hn1 := net_wf_prng k n p1 Hn Hp1).
  destruct dropped; [apply bump_ok; intros s; by apply net_wf_stats|].
  wp_step. apply wp_index_lt; [by rewrite (nf_outbound _ _ Hn)|]. intros q Hq.
  destruct (Nat.leb_spec (queue_capacity (path_max_capacity n)) (length q)) as [|Hlt];
    [apply bump_ok; intros s; by apply net_wf_stats|].
  destruct (encode_emittable m (zeros MAX_FRAME_PAYLOAD) Hm) as (tag & len & buf & -> & _ & _);
    [by rewrite length_zeros|].
  wp_step. apply draw_delay_ok; [apply (nf_delay _ _ Hn1)|done|]. intros d p2 Hp2.
  assert (Hn2 := net_wf_prng k _ p2 Hn1 Hp2).
  wp_step. apply pending_now_ok; [by rewrite (nf_epochs _ _ Hn2)|]. intros at_tick epoch.
  wp_step. apply wp_modify. wp_step. apply bump_ok. intros s. apply bump_ok. intros s'.
  do 2 apply net_wf_stats. apply net_wf_outbound; [done|].
  pose proof (queue_capacity_le (path_max_capacity n)). rewrite length_app. simpl. lia.
Qed.

Lemma pop_queue_ok {A} i now (q : list (Pending A)) n :
  net_wf k n → (i < k)%nat → wp P (pop_queue i now q) (λ r n',
    (net_wf k n' ∧ ∃ p, n' = set_nw_prng p n) ∧ same_queues n n' ∧
    ∃ epoch, session_epochs n !! i = Some epoch ∧ pop_post epoch now (min_delay n) q r) n.
Proof.
  intros Hn Hi. apply wp_and; [|apply pop_queue_post].
  assert (H0 : ∃ p, n = set_nw_prng p n) by (exists (nw_prng n); by destruct n).
  unfold pop_queue. wp_step. apply wp_get. wp_step. apply wp_index_lt; [by rewrite (nf_epochs _ _ Hn)|].
  intros epoch _. destruct (drop_stale epoch q) as [|p rest]; [by apply wp_ret|].
  destruct (now <? pd_deliver_at_tick p); [by apply wp_ret|].
  wp_step. apply (wp_mono P _ (λ _ n', net_wf k n' ∧ ∃ p, n' = set_nw_prng p n)).
  { destruct (pd_replayed p); [by apply wp_ret|]. wp_step.
    apply draw_ratio_ok; [apply Hn|apply Hn|]. intros b p1 Hp1. apply wp_ret.
    split; [by apply net_wf_prng|]. by exists p1. }
  intros [] n1 Hn1; [wp_step; by apply wp_add_or, wp_ret|by apply wp_ret].
Qed.

(** How much is due for agent [i]. *)
Definition due_at {A} (now : Z) (qs : list (list (Pending A))) (i : nat) : nat :=
  match qs !! i with Some q => due now q | None => 0 end.

Lemma pop_inbound_ok i now n :
  net_wf k n → (i < k)%nat → wp P (pop_inbound i now) (λ o n', net_wf k n' ∧
    ∀ m, o = Some m → control_wf m ∧ (due_at now (nw_inbound n') i < due_at now (nw_inbound n) i)%nat) n.
Proof.
  intros Hn Hi. unfold pop_inbound. wp_step. apply wp_get.
  wp_step. apply wp_assert; [apply Nat.ltb_lt; by rewrite (nf_inbound _ _ Hn)|].
  wp_step. apply wp_index_lt; [by rewrite (nf_partitioned _ _ Hn)|]. intros [] _; [by apply wp_ret|].
  wp_step. apply wp_index_lt; [by rewrite (nf_inbound _ _ Hn)|]. intros q Hq.
  wp_step. eapply wp_mono; [by apply pop_queue_ok|].
  intros [o q'] n1 [[Hn1 _] [[E1 _] (epoch & _ & Hpost)]]. wp_step. apply wp_modify, wp_ret.
  destruct (pop_post_messages _ _ _ _ _ _ Hpost (Forall_lookup_1 _ _ _ _ (nf_messages _ _ Hn) Hq)) as [Hm Ho].
  split.
  - apply net_wf_inbound; [done| |done]. eapply pop_post_length; [exact Hpost|].
    exact (Forall_lookup_1 _ _ _ _ (proj1 (nf_bounded _ _ Hn)) Hq).
  - intros m ->. split; [by apply Ho|]. unfold due_at. simpl.
    rewrite E1, list_lookup_insert_eq by (by rewrite (nf_inbound _ _ Hn)). rewrite Hq. by eapply pop_post_due.
Qed.

Lemma pop_outbound_ok i now n :
  net_wf k n → (i < k)%nat → wp P (pop_outbound i now) (λ o n', net_wf k n' ∧
    ∀ m, o = Some m → (due_at now (nw_outbound n') i < due_at now (nw_outbound n) i)%nat) n.
Proof.
  intros Hn Hi. unfold pop_outbound. wp_step. apply wp_get.
  wp_step. apply wp_assert; [apply Nat.ltb_lt; by rewrite (nf_outbound _ _ Hn)|].
  wp_step. apply wp_index_lt; [by rewrite (nf_partitioned _ _ Hn)|]. intros [] _; [by apply wp_ret|].
  wp_step. apply wp_index_lt; [by rewrite (nf_outbound _ _ Hn)|]. intros q Hq.
  wp_step. eapply wp_mono; [by apply pop_queue_ok|].
  intros [o q'] n1 [[Hn1 _] [[_ E2] (epoch & _ & Hpost)]]. wp_step. apply wp_modify, wp_ret. split.
  - apply net_wf_outbound; [done|]. eapply pop_post_length; [exact Hpost|].
    exact (Forall_lookup_1 _ _ _ _ (proj2 (nf_bounded _ _ Hn)) Hq).
  - intros m ->. unfold due_at. simpl.
    rewrite E2, list_lookup_insert_eq by (by rewrite (nf_outbound _ _ Hn)). rewrite Hq. by eapply pop_post_due.
Qed.

Lemma due_at_capacity {A} now (qs : list (list (Pending A))) i :
  Forall (λ q, (length q ≤ QUEUE_CAPACITY)%nat) qs → (due_at now qs i ≤ QUEUE_CAPACITY)%nat.
Proof.
  intros Hq. unfold due_at. destruct (qs !! i) as [q|] eqn:E; [|lia].
  pose proof (due_le now q). pose proof (Forall_lookup_1 _ _ _ _ Hq E). simpl in *. lia.
Qed.

End total.
