(* ===== verification/SimChecker.v ===== *)
(** * The simulation's safety checker: [worker/src/sim/checker.rs]

    [check] looks at a worker after each simulated tick and records what it finds wrong
    with it.  The theorems relate what it records to the worker's own guarantees: a
    worker that keeps its invariant never fails the accounting checks, and the
    transition check is compared, edge by edge, with the lifecycle of [WorkerInv]. *)

From S2P Require Import Prelude Types Prng RustStr Protocol Traits Volumes Secrets Worker WorkerInv.

Definition CHECK_HEARTBEAT_INTERVAL_TICKS : Z := 100.
Definition HEARTBEAT_TOLERANCE_TICKS : Z := 20.

Record WorkerChecker := mkWorkerChecker {
  safety_violations : Z;
  violations : list string;
  last_heartbeat : list Z;
  last_pod_states : list (gmap Z TrackedPodState)
}.

Definition set_last_heartbeat (x : list Z) (k : WorkerChecker) : WorkerChecker :=
  mkWorkerChecker (safety_violations k) (violations k) x (last_pod_states k).
Definition set_last_pod_states (x : list (gmap Z TrackedPodState)) (k : WorkerChecker) : WorkerChecker :=
  mkWorkerChecker (safety_violations k) (violations k) (last_heartbeat k) x.

Definition worker_checker_new (agent_count : nat) : WorkerChecker :=
  mkWorkerChecker 0 [] (replicate agent_count 0) (replicate agent_count ∅).

Abbreviation CK := (M WorkerChecker).

Definition record_violation (msg : string) : CK unit :=
  let* k := get in
  let* n := add_overflow U64_MAX (safety_violations k) 1 in
  modify (λ k, mkWorkerChecker n (violations k ++ [msg]) (last_heartbeat k) (last_pod_states k)).

(** [iter().map(f).sum()] on an unsigned type. *)
Fixpoint sum_overflow {S} (max acc : Z) (l : list Z) : M S Z :=
  match l with
  | [] => ret acc
  | x :: l => let* acc := add_overflow max acc x in sum_overflow max acc l
  end.

(** The pods that still hold resources. *)
Definition live_pods (w : Worker) : list TrackedPod :=
  filter (λ p, negb (is_terminal (state p)) = true) (values (pods w)).

Definition is_legal_transition (from to : TrackedPodState) : bool :=
  match from, to with
  | ImagePulling, (Creating | Stopped _ | Failed _) => true
  | Creating, (Starting | Stopped _ | Failed _) => true
  | Starting, (Creating | Running | Stopped _ | Failed _) => true
  | Running, (Stopping | Stopped _ | Failed _) => true
  | Stopping, (Stopped _ | Failed _) => true
  | _, _ => false
  end.

Section checker.
  (** [<str as Debug>::fmt], the quoted and escaped form of a string. *)
  Variable debug_str : string → string.

(** The derived [Debug] of [TrackedPodState]. *)
Definition debug_state (s : TrackedPodState) : string :=
  match s with
  | ImagePulling => "ImagePulling" | Creating => "Creating" | Starting => "Starting"
  | Running => "Running" | Stopping => "Stopping"
  | Stopped x => "Stopped { exit_code: " +:+ fmt_int x +:+ " }"
  | Failed r => "Failed { reason: " +:+ debug_str r +:+ " }"
  end.

Definition at_worker (tick : Z) (wk_id : nat) : string :=
  "tick " +:+ fmt_int tick +:+ ": worker " +:+ fmt_int (Z.of_nat wk_id) +:+ ": ".

Definition check_gpu_accounting (tick : Z) (wk_id : nat) (wk : Worker) : CK unit :=
  when (gpu_total wk <? gpu_allocated wk)
    (record_violation (at_worker tick wk_id +:+ "gpu_allocated (" +:+ fmt_int (gpu_allocated wk) +:+
       ") > gpu_total (" +:+ fmt_int (gpu_total wk) +:+ ")")) ;;;
  let* sum := sum_overflow U8_MAX 0 (gpu_count <$> live_pods wk) in
  when (negb (sum =? gpu_allocated wk))
    (record_violation (at_worker tick wk_id +:+ "pod GPU sum (" +:+ fmt_int sum +:+
       ") != gpu_allocated (" +:+ fmt_int (gpu_allocated wk) +:+ ")")).

Definition check_cpu_memory_accounting (tick : Z) (wk_id : nat) (wk : Worker) : CK unit :=
  when (cpu_total wk <? cpu_allocated_millicores wk)
    (record_violation (at_worker tick wk_id +:+ "cpu_allocated (" +:+ fmt_int (cpu_allocated_millicores wk) +:+
       ") > cpu_total (" +:+ fmt_int (cpu_total wk) +:+ ")")) ;;;
  when (memory_total wk <? memory_allocated_megabytes wk)
    (record_violation (at_worker tick wk_id +:+ "memory_allocated (" +:+
       fmt_int (memory_allocated_megabytes wk) +:+ ") > memory_total (" +:+ fmt_int (memory_total wk) +:+ ")")) ;;;
  let* cpu_sum := sum_overflow U32_MAX 0 (cpu_millicores <$> live_pods wk) in
  let* memory_sum := sum_overflow U32_MAX 0 (memory_megabytes <$> live_pods wk) in
  when (negb (cpu_sum =? cpu_allocated_millicores wk))
    (record_violation (at_worker tick wk_id +:+ "pod CPU sum (" +:+ fmt_int cpu_sum +:+
       ") != cpu_allocated (" +:+ fmt_int (cpu_allocated_millicores wk) +:+ ")")) ;;;
  when (negb (memory_sum =? memory_allocated_megabytes wk))
    (record_violation (at_worker tick wk_id +:+ "pod memory sum (" +:+ fmt_int memory_sum +:+
       ") != memory_allocated (" +:+ fmt_int (memory_allocated_megabytes wk) +:+ ")")).

(** The transition a pod has made since the last check, if it is not a legal one. *)
Definition illegal_transition (prev : gmap Z TrackedPodState) (kp : Z * TrackedPod)
    : option (Z * TrackedPodState * TrackedPodState) :=
  match prev !! kp.1 with
  | Some s =>
    if bool_decide (s = state kp.2) || is_legal_transition s (state kp.2) then None
    else Some (kp.1, s, state kp.2)
  | None => None
  end.

Definition transition_violation (tick : Z) (wk_id : nat) (t : Z * TrackedPodState * TrackedPodState) : string :=
  let '(pod_id, from, to) := t in
  at_worker tick wk_id +:+ "pod " +:+ fmt_int pod_id +:+ ": illegal transition " +:+
    debug_state from +:+ " -> " +:+ debug_state to.

Definition check_pod_transitions (tick : Z) (wk_id : nat) (wk : Worker) : CK unit :=
  let* k := get in
  let* prev := index (last_pod_states k) wk_id in
  for_each (omap (illegal_transition prev) (map_to_list (pods wk)))
    (λ t, record_violation (transition_violation tick wk_id t)) ;;;
  modify (λ k, set_last_pod_states (<[wk_id := state <$> pods wk]> (last_pod_states k)) k).

Definition check_heartbeat_liveness (tick : Z) (wk_id : nat) (wk : Worker) : CK unit :=
  if negb (is_registered wk) then ret tt
  else
    let last := last_heartbeat_tick wk in
    let* k := get in
    let* seen := index (last_heartbeat k) wk_id in
    when (seen <? last) (modify (λ k, set_last_heartbeat (<[wk_id := last]> (last_heartbeat k)) k)) ;;;
    when (CHECK_HEARTBEAT_INTERVAL_TICKS + HEARTBEAT_TOLERANCE_TICKS <? tick)
      (let* k := get in
       let* seen := index (last_heartbeat k) wk_id in
       let gap := sat_sub tick seen in
       when (CHECK_HEARTBEAT_INTERVAL_TICKS + HEARTBEAT_TOLERANCE_TICKS <? gap)
         (record_violation (at_worker tick wk_id +:+ "heartbeat gap " +:+ fmt_int gap +:+
            " ticks exceeds threshold"))).

Definition check (tick : Z) (wk_id : nat) (wk : Worker) (is_partitioned : bool) : CK unit :=
  check_gpu_accounting tick wk_id wk ;;;
  check_cpu_memory_accounting tick wk_id wk ;;;
  check_pod_transitions tick wk_id wk ;;;
  when (negb is_partitioned) (check_heartbeat_liveness tick wk_id wk).

End checker.

(** ** Accounting *)

Lemma sum_overflow_eq {S} max acc (l : list Z) (s : S) :
  Forall (λ x, 0 ≤ x) l → acc + sum_with (λ x, x) l ≤ max →
  sum_overflow max acc l s = Done (acc + sum_with (λ x, x) l, s).
Proof.
  revert acc. induction l as [|x l IH]; intros acc Hp Hm; simpl in *.
  - unfold ret. do 2 f_equal. lia.
  - apply Forall_cons in Hp as [Hx Hp].
    assert (0 ≤ sum_with (λ x, x) l).
    { clear -Hp. induction Hp; simpl; lia. }
    unfold bind, add_overflow. rewrite (proj2 (Z.leb_le _ _)) by lia. unfold ret at 1.
    rewrite IH by (done || lia). do 2 f_equal. lia.
Qed.

Lemma live_pods_sum (f : TrackedPod → Z) (w : Worker) :
  sum_with (λ x, x) (f <$> live_pods w) = map_sum (live f) (pods w).
Proof.
  unfold live_pods, map_sum. rewrite sum_with_fmap, sum_with_filter. apply sum_with_ext.
  intros p _. unfold live. by destruct (is_terminal (state p)).
Qed.

(** The three sums the checker forms fit their types and are the counters. *)
Lemma live_sum_eq {S} (f : TrackedPod → Z) (w : Worker) max (s : S) total :
  (∀ k p, pods w !! k = Some p → 0 ≤ f p) → map_sum (live f) (pods w) = total → total ≤ max →
  sum_overflow max 0 (f <$> live_pods w) s = Done (total, s).
Proof.
  intros Hf Hs Hm. rewrite sum_overflow_eq; rewrite ?live_pods_sum; [by rewrite Hs| |lia].
  apply Forall_fmap, Forall_forall. intros p [_ [k Hk]%elem_of_values]%list_elem_of_filter. simpl. eauto.
Qed.

Lemma accounting_silent n (w : Worker) t i k :
  winv_upto n w →
  check_gpu_accounting t i w k = Done (tt, k) ∧ check_cpu_memory_accounting t i w k = Done (tt, k).
Proof.
  intros Hw. destruct (wi_gpu_total _ _ Hw) as [Hg Hg'], (wi_cpu_total _ _ Hw) as [Hc Hc'],
    (wi_mem_total _ _ Hw) as [Hm Hm'].
  split; unfold check_gpu_accounting, check_cpu_memory_accounting.
  - erewrite bind_done; [|by apply when_false, Z.ltb_ge].
    erewrite bind_done; [|exact (live_sum_eq gpu_count w U8_MAX k _
      (λ j p Hp, proj1 (pw_gpu _ _ (wi_pods _ _ Hw j p Hp))) (eq_sym (wi_gpu _ _ Hw)) ltac:(lia))].
    by rewrite Z.eqb_refl.
  - erewrite bind_done; [|by apply when_false, Z.ltb_ge].
    erewrite bind_done; [|by apply when_false, Z.ltb_ge].
    erewrite bind_done; [|exact (live_sum_eq cpu_millicores w U32_MAX k _
      (λ j p Hp, proj1 (pw_cpu _ _ (wi_pods _ _ Hw j p Hp))) (eq_sym (wi_cpu _ _ Hw)) ltac:(lia))].
    erewrite bind_done; [|exact (live_sum_eq memory_megabytes w U32_MAX k _
      (λ j p Hp, proj1 (pw_mem _ _ (wi_pods _ _ Hw j p Hp))) (eq_sym (wi_mem _ _ Hw)) ltac:(lia))].
    by rewrite !Z.eqb_refl.
Qed.

(** ** What a check records *)

Lemma record_all {A} (f : A → string) (l : list A) k :
  safety_violations k + Z.of_nat (length l) ≤ U64_MAX →
  for_each l (λ a, record_violation (f a)) k =
    Done (tt, mkWorkerChecker (safety_violations k + Z.of_nat (length l)) (violations k ++ (f <$> l))
                (last_heartbeat k) (last_pod_states k)).
Proof.
  revert k. induction l as [|a l IH]; intros k Hk; simpl in *.
  - destruct k. simpl. by rewrite Z.add_0_r, app_nil_r.
  - unfold bind at 1, record_violation. unfold bind, get, modify, add_overflow.
    rewrite (proj2 (Z.leb_le _ _)) by lia. unfold ret. rewrite IH by (simpl; lia). simpl.
    rewrite <-app_assoc. do 3 f_equal. lia.
Qed.

(** The last heartbeat the checker has seen after looking at [w]. *)
Definition seen_heartbeat (w : Worker) (seen : Z) : Z := Z.max seen (last_heartbeat_tick w).

(** A registered worker that can be reached and is more than 120 ticks behind. *)
Definition overdue (tick : Z) (w : Worker) (is_partitioned : bool) (seen : Z) : bool :=
  negb is_partitioned && registered w && (120 <? tick - seen_heartbeat w seen).

Lemma check_heartbeat_eq t i w k seen :
  last_heartbeat k !! i = Some seen → 0 ≤ seen → safety_violations k < U64_MAX →
  ∃ k' alarms, check_heartbeat_liveness t i w k = Done (tt, k') ∧
    last_pod_states k' = last_pod_states k ∧
    last_heartbeat k' = (if registered w then <[i := seen_heartbeat w seen]> (last_heartbeat k)
                         else last_heartbeat k) ∧
    violations k' = violations k ++ alarms ∧
    safety_violations k' = safety_violations k + Z.of_nat (length alarms) ∧
    length alarms = (if overdue t w false seen then 1 else 0)%nat.
Proof.
  intros Hi Hs Hk. unfold check_heartbeat_liveness, overdue, is_registered, seen_heartbeat.
  destruct (registered w); simpl; [|exists k, []; rewrite app_nil_r; split_and!; try done; simpl; lia].
  assert (Hlen := lookup_lt_Some _ _ _ Hi).
  set (k1 := set_last_heartbeat (<[i := Z.max seen (last_heartbeat_tick w)]> (last_heartbeat k)) k).
  assert (E1 : when (seen <? last_heartbeat_tick w)
    (modify (λ k, set_last_heartbeat (<[i := last_heartbeat_tick w]> (last_heartbeat k)) k)) k = Done (tt, k1)).
  { destruct (Z.ltb_spec seen (last_heartbeat_tick w)) as [Hlt|Hge]; unfold k1; simpl.
    - by rewrite Z.max_r by lia.
    - rewrite Z.max_l, list_insert_id by (lia || done). by destruct k. }
  unfold bind at 1, get at 1, index at 1. rewrite Hi. unfold bind at 1, expect, ret at 1, bind at 1. rewrite E1.
  unfold when, CHECK_HEARTBEAT_INTERVAL_TICKS, HEARTBEAT_TOLERANCE_TICKS.
  assert (Hquiet : ∃ k' alarms, @Done (unit * WorkerChecker) (tt, k1) = Done (tt, k') ∧
    last_pod_states k' = last_pod_states k ∧ last_heartbeat k' = last_heartbeat k1 ∧
    violations k' = violations k ++ alarms ∧
    safety_violations k' = safety_violations k + Z.of_nat (length alarms) ∧ length alarms = 0%nat).
  { exists k1, []. rewrite app_nil_r. split_and!; try done. simpl. lia. }
  destruct (Z.ltb_spec (100 + 20) t) as [Ht|Ht].
  2: { rewrite (proj2 (Z.ltb_ge 120 _)) by lia. exact Hquiet. }
  unfold bind at 1, get at 1, index. unfold k1 at 1. cbn [last_heartbeat set_last_heartbeat].
  rewrite list_lookup_insert_eq by done. unfold bind at 1, expect, ret at 1.
  replace (sat_sub t (Z.max seen (last_heartbeat_tick w)))
    with (Z.max 0 (t - Z.max seen (last_heartbeat_tick w))) by done.
  destruct (Z.ltb_spec 120 (t - Z.max seen (last_heartbeat_tick w))) as [Hg|Hg].
  2: { rewrite (proj2 (Z.ltb_ge (100 + 20) _)) by lia. exact Hquiet. }
  rewrite (proj2 (Z.ltb_lt (100 + 20) _)) by lia.
  unfold record_violation, bind, get, modify, add_overflow. cbn [k1 safety_violations set_last_heartbeat].
  rewrite (proj2 (Z.leb_le _ _)) by lia. unfold ret. by eexists _, [_].
Qed.

Lemma length_omap_le {A B} (f : A → option B) (l : list A) : (length (omap f l) ≤ length l)%nat.
Proof. induction l as [|x l IH]; csimpl; [lia|]. destruct (f x); csimpl; lia. Qed.

Lemma check_pod_transitions_eq dbg t i w k prev :
  last_pod_states k !! i = Some prev → 
  safety_violations k + Z.of_nat (size (pods w)) ≤ U64_MAX →
  let bad := omap (illegal_transition prev) (map_to_list (pods w)) in
  check_pod_transitions dbg t i w k = Done (tt,
    mkWorkerChecker (safety_violations k + Z.of_nat (length bad))
      (violations k ++ (transition_violation dbg t i <$> bad)) (last_heartbeat k)
      (<[i := state <$> pods w]> (last_pod_states k))).
Proof.
  intros Hi Hk bad. unfold check_pod_transitions. erewrite bind_done by done.
  erewrite bind_done by by apply index_done. fold bad.
  assert (length bad ≤ size (pods w))%nat.
  { rewrite <-length_map_to_list. apply length_omap_le. }
  erewrite bind_done; [|apply record_all; lia]. done.
Qed.

(** What a pod did between two checks, as the checker sees it. *)
Lemma illegal_transition_spec prev (w : Worker) id from to :
  (id, from, to) ∈ omap (illegal_transition prev) (map_to_list (pods w)) ↔
  prev !! id = Some from ∧ pstate w id = Some to ∧ from ≠ to ∧ is_legal_transition from to = false.
Proof.
  rewrite list_elem_of_omap. unfold pstate, illegal_transition. split.
  - intros ([k p] & Hin%elem_of_map_to_list & Heq). simpl in Heq.
    destruct (prev !! k) as [s|] eqn:Hs; [|done]. destruct (bool_decide_reflect (s = state p)) as [|Hne]; [done|].
    simpl in Heq. destruct (is_legal_transition s (state p)) eqn:Hl; simplify_eq. by rewrite Hin.
  - intros (Hp & Hst & Hne & Hl). apply fmap_Some in Hst as (p & Hp' & ->).
    exists (id, p). rewrite elem_of_map_to_list. split; [done|]. simpl.
    by rewrite Hp, bool_decide_eq_false_2, Hl by done.
Qed.

(** What a check of a worker that keeps its invariant adds to the record: the
    transitions [bad] and the heartbeat [alarms]. *)
Record verdict dbg (t : Z) (i : nat) (w : Worker) (cut : bool) (prev : gmap Z TrackedPodState) (seen : Z)
    (k k' : WorkerChecker) (bad : list (Z * TrackedPodState * TrackedPodState)) (alarms : list string) : Prop := {
  vd_bad id from to : (id, from, to) ∈ bad ↔ prev !! id = Some from ∧ pstate w id = Some to ∧
    from ≠ to ∧ is_legal_transition from to = false;
  vd_few : (length bad ≤ size (pods w))%nat;
  vd_alarms : length alarms = (if overdue t w cut seen then 1 else 0)%nat;
  vd_violations : violations k' = violations k ++ (transition_violation dbg t i <$> bad) ++ alarms;
  vd_count : safety_violations k' = safety_violations k + Z.of_nat (length bad + length alarms);
  vd_states : last_pod_states k' = <[i := state <$> pods w]> (last_pod_states k);
  vd_heartbeats : last_heartbeat k' =
    if negb cut && registered w then <[i := seen_heartbeat w seen]> (last_heartbeat k) else last_heartbeat k
}.

Lemma check_ok dbg (t n : Z) (i : nat) (w : Worker) (cut : bool) (k : WorkerChecker) prev seen :
  winv_upto n w → last_pod_states k !! i = Some prev → last_heartbeat k !! i = Some seen → 0 ≤ seen →
  safety_violations k + Z.of_nat (size (pods w)) < U64_MAX →
  ∃ k' bad alarms, check dbg t i w cut k = Done (tt, k') ∧ verdict dbg t i w cut prev seen k k' bad alarms.
Proof.
  intros Hw Hp Hh Hs Hk. unfold check. destruct (accounting_silent n w t i k Hw) as [E1 E2].
  erewrite bind_done by exact E1. erewrite bind_done by exact E2.
  erewrite bind_done; [|apply (check_pod_transitions_eq _ _ _ _ _ prev); [done|lia]].
  set (bad := omap _ _). assert (Hb : (length bad ≤ size (pods w))%nat).
  { rewrite <-length_map_to_list. apply length_omap_le. }
  assert (Hbad := illegal_transition_spec prev w). fold bad in Hbad.
  set (k2 := mkWorkerChecker _ _ _ _). destruct cut; simpl.
  - exists k2, bad, []. split; [done|]. constructor; try done; [by rewrite app_nil_r|simpl; lia].
  - destruct (check_heartbeat_eq t i w k2 seen) as (k' & al & E & E3 & E7 & E4 & E5 & E6);
      [done|done|simpl; lia|]. exists k', bad, al. split; [done|]. constructor; try done.
    + rewrite E4. simpl. by rewrite app_assoc.
    + rewrite E5. simpl. lia.
Qed.

(** The checker never accuses a worker that keeps its invariant of
    over-committing or miscounting its node, and none of its sums overflows; all it
    records of such a worker are the pods that made a transition its table does not list
    since the last check, one entry each, and at most one overdue heartbeat, of a
    registered worker that can be reached. *)
Theorem checker_verdict dbg (t n : Z) (i : nat) (w : Worker) (cut : bool) (k : WorkerChecker) prev seen :
  winv_upto n w → last_pod_states k !! i = Some prev → last_heartbeat k !! i = Some seen → 0 ≤ seen →
  safety_violations k + Z.of_nat (size (pods w)) < U64_MAX →
  ∃ k' bad alarms, check dbg t i w cut k = Done (tt, k') ∧
    (∀ id from to, (id, from, to) ∈ bad ↔ prev !! id = Some from ∧ pstate w id = Some to ∧
       from ≠ to ∧ is_legal_transition from to = false) ∧
    violations k' = violations k ++ (transition_violation dbg t i <$> bad) ++ alarms ∧
    length alarms = (if overdue t w cut seen then 1 else 0)%nat ∧
    safety_violations k' = safety_violations k + Z.of_nat (length bad + length alarms) ∧
    last_pod_states k' = <[i := state <$> pods w]> (last_pod_states k).
Proof.
  intros Hw Hp Hh Hs Hk. destruct (check_ok dbg t n i w cut k prev seen Hw Hp Hh Hs Hk)
    as (k' & bad & alarms & E & []). by exists k', bad, alarms.
Qed.

(** The checker's transition table against the lifecycle: every transition it
    accepts is a sequence of lifecycle steps, and of the single steps between tracked
    states it refuses exactly the stops of a pod that is not running yet (a stop or a
    failure whose cleanup is still owed while the image is pulled or the container is
    created or started). *)
Theorem checker_table_vs_lifecycle (from to : TrackedPodState) :
  (is_legal_transition from to = true → rtc life_step from to) ∧
  (life_step from to →
     (is_legal_transition from to = false ↔
      to = Stopping ∧ (from = ImagePulling ∨ from = Creating ∨ from = Starting))).
Proof.
  split.
  - assert (Hstop : stoppable from = true → ∀ t, life_step Stopping t → rtc life_step from t).
    { intros Hs t Ht. eapply rtc_l; [by apply edge_stop|]. by apply rtc_once. }
    destruct from, to; intros [=]; eauto with edgedb.
  - intros Hedge. inversion Hedge as [| | | |s Hs| | | |]; subst; simpl; try by intuition congruence.
    destruct from; simpl in *; try discriminate; intuition congruence.
Qed.
