(* ===== verification/SimControlPlane.v ===== *)
(** * The simulation's control plane: [worker/src/sim/control_plane.rs]

    A schedule of commands drawn from a seed, handed out tick by tick, and the log of
    what the workers reported.  [schedule_command] is test-only and not modelled. *)

From S2P Require Import Prelude Types Prng RustStr Protocol.

Definition SCHEDULE_CAPACITY : nat := 4096.
Definition RECEIVED_CAPACITY : nat := Z.to_nat 16384.

Record ControlPlaneStub := mkControlPlaneStub {
  cp_prng : Prng;
  scheduled : list (Z * nat * ControlMessage);
  schedule_index : nat;
  received : list (Z * nat * WorkerMessage);
  expected_starts : list (nat * Z);
  next_pod_id : Z
}.

Definition set_cp_prng (x : Prng) (c : ControlPlaneStub) : ControlPlaneStub :=
  mkControlPlaneStub x (scheduled c) (schedule_index c) (received c) (expected_starts c) (next_pod_id c).
Definition set_scheduled (x : list (Z * nat * ControlMessage)) (c : ControlPlaneStub) : ControlPlaneStub :=
  mkControlPlaneStub (cp_prng c) x (schedule_index c) (received c) (expected_starts c) (next_pod_id c).
Definition set_schedule_index (x : nat) (c : ControlPlaneStub) : ControlPlaneStub :=
  mkControlPlaneStub (cp_prng c) (scheduled c) x (received c) (expected_starts c) (next_pod_id c).
Definition set_received (x : list (Z * nat * WorkerMessage)) (c : ControlPlaneStub) : ControlPlaneStub :=
  mkControlPlaneStub (cp_prng c) (scheduled c) (schedule_index c) x (expected_starts c) (next_pod_id c).
Definition set_expected_starts (x : list (nat * Z)) (c : ControlPlaneStub) : ControlPlaneStub :=
  mkControlPlaneStub (cp_prng c) (scheduled c) (schedule_index c) (received c) x (next_pod_id c).
Definition set_next_pod_id (x : Z) (c : ControlPlaneStub) : ControlPlaneStub :=
  mkControlPlaneStub (cp_prng c) (scheduled c) (schedule_index c) (received c) (expected_starts c) x.

Definition control_plane_new (seed : Z) : ControlPlaneStub :=
  mkControlPlaneStub (prng_init (wrap64 (seed + 61453))) [] 0 [] [] 1.

Abbreviation CP := (M ControlPlaneStub).

(** A draw from the stub's generator. *)
Definition cp_draw {A} (f : Prng → outcome (A * Prng)) : CP A := λ c,
  match f (cp_prng c) with
  | Done (a, p) => Done (a, set_cp_prng p c)
  | Panic e => Panic e
  end.

(** [a * b] on an unsigned type. *)
Definition mul_overflow {S} (max a b : Z) : M S Z :=
  if a * b <=? max then ret (a * b) else panic "attempt to multiply with overflow".

Definition push_scheduled (e : Z * nat * ControlMessage) : CP unit :=
  modify (λ c, set_scheduled (scheduled c ++ [e]) c).

(** The command a workload starts pod [pod_id] with. *)
Definition workload_start (pod_id deployment_id gpu_count : Z) : StartPodCmd :=
  mkStartPodCmd pod_id deployment_id ("sim-image:" +:+ fmt_int pod_id) "" 8080 gpu_count H100Sxm 2000 4096
    "" "" "" [] "" "" "" false.

(** One iteration of the loop over [0..pod_count]. *)
Definition generate_pod (agent_count : nat) (over_ticks : Z) : CP unit :=
  let* agent := cp_draw (prng_bounded (Z.of_nat agent_count)) in
  let agent_id := Z.to_nat agent in
  let* start_tick := cp_draw (prng_bounded (over_ticks / 2)) in
  let* c := get in
  let pod_id := next_pod_id c in
  let* next := add_overflow U64_MAX pod_id 1 in
  modify (set_next_pod_id next) ;;;
  modify (λ c, set_expected_starts (expected_starts c ++ [(agent_id, pod_id)]) c) ;;;
  let* gpus := cp_draw (prng_bounded 3) in
  let* deployment_id := mul_overflow U64_MAX pod_id 100 in
  push_scheduled (start_tick, agent_id, StartPod (workload_start pod_id deployment_id (gpus + 1))) ;;;
  let* stop := cp_draw (prng_chance 60) in
  when stop
    (let* base := add_overflow U64_MAX start_tick 50 in
     let* extra := cp_draw (prng_bounded 200) in
     let* stop_tick := add_overflow U64_MAX base extra in
     push_scheduled (stop_tick, agent_id, StopPod (mkStopPodCmd pod_id 5000))).

Definition by_tick (a b : Z * nat * ControlMessage) : bool := a.1.1 <=? b.1.1.

Definition generate_workload (agent_count : nat) (pod_count over_ticks : Z) : CP unit :=
  let* c := get in
  assert (0 <? agent_count)%nat "assertion failed: agent_count > 0" ;;;
  assert (2 <=? over_ticks) "assertion failed: over_ticks >= 2" ;;;
  assert (length (scheduled c) <=? SCHEDULE_CAPACITY)%nat
    "assertion failed: self.scheduled.len() <= SCHEDULE_CAPACITY" ;;;
  assert (length (expected_starts c) <=? SCHEDULE_CAPACITY / 2)%nat
    "assertion failed: self.expected_starts.len() <= SCHEDULE_CAPACITY / 2" ;;;
  assert (sat_mul U64_MAX pod_count 2 <=? Z.of_nat (SCHEDULE_CAPACITY - length (scheduled c)))
    "assertion failed: (pod_count as usize).saturating_mul(2) <= SCHEDULE_CAPACITY - self.scheduled.len()" ;;;
  assert (pod_count <=? Z.of_nat (SCHEDULE_CAPACITY / 2 - length (expected_starts c)))
    "assertion failed: pod_count as usize <= SCHEDULE_CAPACITY / 2 - self.expected_starts.len()" ;;;
  for_each (seq 0 (Z.to_nat pod_count)) (λ _, generate_pod agent_count over_ticks) ;;;
  modify (λ c, set_scheduled (sort_by by_tick (scheduled c)) c).

(** The commands at the head of [l] that are due. *)
Fixpoint take_due (tick : Z) (l : list (Z * nat * ControlMessage)) : list (nat * ControlMessage) :=
  match l with
  | (t, agent_id, cmd) :: l => if t <=? tick then (agent_id, cmd) :: take_due tick l else []
  | [] => []
  end.

Definition commands_for_tick (tick : Z) : CP (list (nat * ControlMessage)) :=
  let* c := get in
  let result := take_due tick (drop (schedule_index c) (scheduled c)) in
  modify (set_schedule_index (schedule_index c + length result)) ;;;
  ret result.

Definition on_agent_message (tick : Z) (agent_id : nat) (msg : WorkerMessage) : CP unit :=
  let* c := get in
  assert (length (received c) <? RECEIVED_CAPACITY)%nat
    "assertion failed: self.received.len() < RECEIVED_CAPACITY" ;;;
  modify (λ c, set_received (received c ++ [(tick, agent_id, msg)]) c).

(** A report that settles what became of a start. *)
Definition settles (status : PodStatusReport) : bool :=
  match status with RRunning | RStopped _ | RFailed _ => true | _ => false end.

(** [agent] has reported [pod] as running, stopped or failed. *)
Definition reported (received : list (Z * nat * WorkerMessage)) (agent : nat) (pod : Z) : bool :=
  existsb (λ '(_, a, m),
    (a =? agent)%nat &&
    match m with
    | PodStatusEvent event => (pe_pod_id event =? pod) && settles (pe_status event)
    | _ => false
    end) received.

(** The first start of [pod] scheduled for [agent]. *)
Fixpoint find_start (agent : nat) (pod : Z) (l : list (Z * nat * ControlMessage)) : option ControlMessage :=
  match l with
  | [] => None
  | (_, a, cmd) :: l =>
    match cmd with
    | StartPod start =>
      if (a =? agent)%nat && (sp_pod_id start =? pod) then Some cmd else find_start agent pod l
    | _ => find_start agent pod l
    end
  end.

(** The [flat_map] over the unresolved starts. *)
Fixpoint recovery_commands (l : list (Z * nat * ControlMessage)) (starts : list (nat * Z))
    : outcome (list (nat * ControlMessage)) :=
  match starts with
  | [] => Done []
  | (agent, pod) :: starts =>
    match find_start agent pod l with
    | None => Panic "expected start command must remain in the bounded schedule"
    | Some start =>
      let! rest := recovery_commands l starts in
      Done ((agent, start) :: (agent, ProbePod (mkProbePodCmd pod)) :: rest)
    end
  end.

Definition unresolved_starts (c : ControlPlaneStub) : list (nat * Z) :=
  filter (λ s, negb (reported (received c) s.1 s.2) = true) (expected_starts c).

Definition unresolved_start_recovery_commands (c : ControlPlaneStub) : outcome (list (nat * ControlMessage)) :=
  recovery_commands (scheduled c) (unresolved_starts c).

(** ** Well-formed stubs *)

(** A command some agent can receive. *)
Definition entry_wf (agent_count : nat) (e : Z * nat * ControlMessage) : Prop :=
  0 ≤ e.1.1 ∧ (e.1.2 < agent_count)%nat ∧ control_wf e.2.

Definition schedules_start (l : list (Z * nat * ControlMessage)) (s : nat * Z) : Prop :=
  ∃ t start, (t, s.1, StartPod start) ∈ l ∧ sp_pod_id start = s.2.

Record cp_wf (agent_count : nat) (c : ControlPlaneStub) : Prop := {
  cw_prng : prng_wf (cp_prng c);
  cw_scheduled : Forall (entry_wf agent_count) (scheduled c);
  cw_starts : Forall (schedules_start (scheduled c)) (expected_starts c);
  cw_agents : Forall (λ s, (s.1 < agent_count)%nat ∧ is_u64 s.2) (expected_starts c)
}.

Lemma find_start_Some agent pod l :
  schedules_start l (agent, pod) → ∃ start, find_start agent pod l = Some (StartPod start) ∧
    sp_pod_id start = pod ∧ ∃ t, (t, agent, StartPod start) ∈ l.
Proof.
  intros (t & start & Hin & Hp). simpl in *. induction l as [|[[t' a'] cmd] l IH]; [by apply not_elem_of_nil in Hin|].
  assert (Hrec : (t, agent, StartPod start) ∈ l → ∃ start, find_start agent pod l = Some (StartPod start) ∧
    sp_pod_id start = pod ∧ ∃ t0, (t0, agent, StartPod start) ∈ (t', a', cmd) :: l).
  { intros Hl. destruct (IH Hl) as (s' & ? & ? & t0 & ?). exists s'. split_and!; try done. exists t0. by right. }
  simpl. destruct cmd as [s'|s'|s'|s'].
  2-4: apply elem_of_cons in Hin as [?|Hin]; [congruence|by apply Hrec].
  destruct (Nat.eqb_spec a' agent) as [->|Hne]; simpl.
  - destruct (Z.eqb_spec (sp_pod_id s') pod) as [Hs|Hs].
    + exists s'. split_and!; try done. exists t'. by left.
    + apply elem_of_cons in Hin as [?|Hin]; [congruence|by apply Hrec].
  - apply elem_of_cons in Hin as [?|Hin]; [congruence|by apply Hrec].
Qed.

Lemma schedules_start_mono l l' s : l ⊆ l' → schedules_start l s → schedules_start l' s.
Proof. intros Hl (t & st & Hin & Hp). exists t, st. split; [by apply Hl|done]. Qed.

Lemma incl_prefix {A} (l k : list A) : l ⊆ l ++ k.
Proof. intros x Hx. apply elem_of_app. by left. Qed.

(** ** Generating a workload *)

Lemma wp_cp_draw {A} P (f : Prng → outcome (A * Prng)) (R : A → Prop) Q c :
  (∃ a p, f (cp_prng c) = Done (a, p) ∧ R a ∧ prng_wf p) →
  (∀ a p, R a → prng_wf p → Q a (set_cp_prng p c)) → wp P (cp_draw f) Q c.
Proof. intros (a & p & E & HR & Hp) HQ. unfold wp, cp_draw. rewrite E. by apply HQ. Qed.

Lemma wp_draw_bounded P bound Q c :
  0 < bound → prng_wf (cp_prng c) →
  (∀ x p, 0 ≤ x < bound → prng_wf p → Q x (set_cp_prng p c)) → wp P (cp_draw (prng_bounded bound)) Q c.
Proof.
  intros Hb Hp HQ. eapply (wp_cp_draw P _ (λ x, 0 ≤ x < bound)); [|done].
  destruct (prng_bounded_spec bound (cp_prng c) Hb Hp) as (x & p & E & Hx & Hp'). eauto.
Qed.

(** Where a workload of [n] pods from id [first] stands after some of its pods. *)
Record generating (agent_count : nat) (c0 c : ControlPlaneStub) (done : nat) : Prop := {
  ge_wf : cp_wf agent_count c;
  ge_next : next_pod_id c = next_pod_id c0 + Z.of_nat done;
  ge_starts : (expected_starts c).*2 =
    (expected_starts c0).*2 ++ ((λ i, next_pod_id c0 + Z.of_nat i) <$> seq 0 done);
  ge_length : (length (scheduled c) ≤ length (scheduled c0) + 2 * done)%nat;
  ge_received : received c = received c0 ∧ schedule_index c = schedule_index c0
}.

Lemma workload_start_wf pod dep gpus :
  is_u64 pod → is_u64 dep → 0 ≤ gpus ≤ 3 → start_cmd_wf (workload_start pod dep gpus).
Proof. intros. constructor; simpl; try done; int_lia. Qed.

(** A scheduled command more. *)
Lemma cp_wf_push agent_count c e :
  cp_wf agent_count c → entry_wf agent_count e → cp_wf agent_count (set_scheduled (scheduled c ++ [e]) c).
Proof.
  intros [Hp Hs He Ha] Hw. constructor; simpl; [done|apply Forall_app; split; [done|by apply Forall_singleton]| |done].
  eapply Forall_impl; [exact He|]. intros s. apply schedules_start_mono, incl_prefix.
Qed.

(** The stop of a pod whose start has been scheduled. *)
Lemma generate_stop_ok P agent_count c0 c done agent_id pod_id start_tick :
  (agent_id < agent_count)%nat → is_u64 pod_id → 0 ≤ start_tick ≤ U64_MAX / 2 → generating agent_count c0 c (S done) →
  (length (scheduled c) ≤ length (scheduled c0) + 2 * done + 1)%nat →
  wp P (let* base := add_overflow U64_MAX start_tick 50 in
        let* extra := cp_draw (prng_bounded 200) in
        let* stop_tick := add_overflow U64_MAX base extra in
        push_scheduled (stop_tick, agent_id, StopPod (mkStopPodCmd pod_id 5000)))
    (λ _ c', generating agent_count c0 c' (S done)) c.
Proof.
  intros Ha Hid Hst G Hl. assert (HU : U64_MAX / 2 + 1 = 9223372036854775808) by reflexivity.
  wp_step. apply wp_add_overflow; [int_lia|].
  wp_step. apply wp_draw_bounded; [lia|apply G|]. intros x p Hx Hp. simpl.
  wp_step. apply wp_add_overflow; [int_lia|]. apply wp_modify.
  destruct G as [Gw Gn Gs Gl Gr]. constructor; [|done|done| |done].
  - apply cp_wf_push; [destruct Gw; by constructor|]. split_and!; simpl; [lia|lia|]. split; [done|int_lia].
  - simpl in *. rewrite length_app. simpl. lia.
Qed.

Lemma generate_pod_ok P agent_count over_ticks c0 c done :
  (0 < agent_count)%nat → 2 ≤ over_ticks ≤ U64_MAX → 1 ≤ next_pod_id c0 →
  (next_pod_id c0 + Z.of_nat done) * 100 ≤ U64_MAX → generating agent_count c0 c done →
  wp P (generate_pod agent_count over_ticks) (λ _ c', generating agent_count c0 c' (S done)) c.
Proof.
  intros Ha Ho H0 Hid [Hwf Hn Hst Hlen Hrec]. unfold generate_pod.
  wp_step. apply wp_draw_bounded; [lia|apply Hwf|]. intros a p1 Hra Hp1.
  assert (0 < over_ticks / 2) by (apply Z.div_str_pos; lia).
  wp_step. apply wp_draw_bounded; [done|done|]. intros st p2 Hst2 Hp2. simpl in *.
  assert (st < U64_MAX / 2 + 1) by (assert (over_ticks / 2 ≤ U64_MAX / 2) by (apply Z.div_le_mono; lia); lia).
  assert (HU : U64_MAX / 2 + 1 = 9223372036854775808) by reflexivity.
  wp_step. apply wp_get. simpl. wp_step. apply wp_add_overflow; [int_lia|].
  wp_step. apply wp_modify. wp_step. apply wp_modify. simpl.
  wp_step. apply wp_draw_bounded; [lia|done|]. intros g p3 Hg Hp3. simpl.
  wp_step. unfold mul_overflow. rewrite (proj2 (Z.leb_le _ _)) by lia. apply wp_ret.
  wp_step. apply wp_modify. simpl.
  set (e := (st, Z.to_nat a, StartPod _)).
  set (c1 := set_scheduled _ _).
  assert (He : entry_wf agent_count e).
  { split_and!; simpl; [lia|lia|]. apply workload_start_wf; int_lia. }
  assert (G1 : generating agent_count c0 c1 (S done)).
  { constructor.
    - constructor; simpl; [done| | |].
      + apply Forall_app. split; [apply Hwf|by apply Forall_singleton].
      + apply Forall_app. split.
        * eapply Forall_impl; [exact (cw_starts _ _ Hwf)|]. intros s. apply schedules_start_mono, incl_prefix.
        * apply Forall_singleton. eexists st, _. split; [apply elem_of_app; right; by left|done].
      + apply Forall_app. split; [apply Hwf|]. apply Forall_singleton. simpl. split; int_lia.
    - simpl. lia.
    - rewrite (seq_S done 0), fmap_app, app_assoc, <-Hst. simpl. by rewrite fmap_app, Hn.
    - simpl. rewrite length_app. simpl. lia.
    - done. }
  assert (Hl1 : (length (scheduled c1) ≤ length (scheduled c0) + 2 * done + 1)%nat).
  { simpl. rewrite length_app. simpl. lia. }
  wp_step. apply (wp_cp_draw _ _ (λ _ : bool, True)).
  { unfold prng_chance. destruct (prng_bounded_spec 100 (cp_prng c1)) as (x & p & E & _ & Hp);
      [lia|apply G1|]. rewrite E. simpl. eauto. }
  intros stop p4 _ Hp4.
  assert (G2 : generating agent_count c0 (set_cp_prng p4 c1) (S done)).
  { destruct G1 as [[] ? ? ? ?]. by constructor; [constructor|..]. }
  clearbody c1. apply wp_when; intros _; [|done]. apply generate_stop_ok; [lia|int_lia|lia|done|simpl; lia].
Qed.

Lemma cp_wf_sorted agent_count c :
  cp_wf agent_count c → cp_wf agent_count (set_scheduled (sort_by by_tick (scheduled c)) c).
Proof.
  intros [Hp Hs He Ha]. constructor; simpl; [done| | |done].
  - by rewrite sort_by_perm.
  - eapply Forall_impl; [exact He|]. intros s. apply schedules_start_mono.
    intros e. by rewrite elem_of_sort_by.
Qed.

Definition tick_order (a b : Z * nat * ControlMessage) : Prop := by_tick a b = true.

Lemma by_tick_sorted l : StronglySorted tick_order (sort_by by_tick l).
Proof. apply sort_by_sorted; unfold by_tick; intros; lia. Qed.

Lemma generate_pods_ok P agent_count over_ticks c0 n done c :
  (0 < agent_count)%nat → 2 ≤ over_ticks ≤ U64_MAX → 1 ≤ next_pod_id c0 →
  (next_pod_id c0 + Z.of_nat (done + n)) * 100 ≤ U64_MAX → generating agent_count c0 c done →
  wp P (for_each (seq done n) (λ _, generate_pod agent_count over_ticks))
    (λ _ c', generating agent_count c0 c' (done + n)) c.
Proof.
  intros Ha Ho H0. revert done c. induction n as [|n IH]; intros done c Hid Hg; cbn [seq for_each].
  - apply wp_ret. by rewrite Nat.add_0_r.
  - wp_step. eapply wp_mono; [apply (generate_pod_ok _ _ _ c0 c done); [done|done|done|lia|exact Hg]|]. intros ? c1 G1.
    replace (done + S n)%nat with (S done + n)%nat by lia. apply IH; [|done]. by rewrite Nat.add_succ_l, <-Nat.add_succ_r.
Qed.

(** What a fresh stub holds after generating a workload. *)
Definition workload_post (agent_count : nat) (pod_count : Z) (c : ControlPlaneStub) : Prop :=
  cp_wf agent_count c ∧ StronglySorted tick_order (scheduled c) ∧
  (expected_starts c).*2 = (λ i, 1 + Z.of_nat i) <$> seq 0 (Z.to_nat pod_count) ∧
  (length (scheduled c) ≤ SCHEDULE_CAPACITY)%nat ∧ schedule_index c = 0%nat.

Lemma generate_workload_ok P seed agent_count pod_count over_ticks :
  is_u64 seed → (0 < agent_count)%nat → 2 ≤ over_ticks ≤ U64_MAX → 0 ≤ pod_count ≤ 2048 →
  wp P (generate_workload agent_count pod_count over_ticks) (λ _, workload_post agent_count pod_count)
    (control_plane_new seed).
Proof.
  intros Hs Ha Ho Hp.
  unfold generate_workload. wp_step. apply wp_get.
  wp_step. apply wp_assert; [by apply Nat.ltb_lt|]. wp_step. apply wp_assert; [lia|].
  wp_step. apply wp_assert; [done|]. wp_step. apply wp_assert; [done|].
  assert (Hcap : Z.of_nat (SCHEDULE_CAPACITY - length (scheduled (control_plane_new seed))) = 4096) by reflexivity.
  assert (Hcap2 : Z.of_nat (SCHEDULE_CAPACITY / 2 - length (expected_starts (control_plane_new seed))) = 2048)
    by reflexivity.
  wp_step. apply wp_assert; [rewrite Hcap; apply Z.leb_le; unfold sat_mul; lia|].
  wp_step. apply wp_assert; [rewrite Hcap2; lia|]. clear Hcap Hcap2.
  wp_step. eapply wp_mono; [apply (generate_pods_ok _ _ _ (control_plane_new seed) _ 0);
    [done|done|simpl; lia|simpl; int_lia|]|].
  { assert (Hp0 : prng_wf (cp_prng (control_plane_new seed))).
    { apply prng_init_wf. unfold wrap64. pose proof (Z.mod_pos_bound (seed + 61453) (2 ^ 64)).
      unfold in_range, U64_MAX. lia. }
    constructor; [by constructor; [|constructor..]|by simpl|done|simpl; lia|done]. }
  intros ? c [Hwf Hn Hst Hlen [_ Hi]]. apply wp_modify. split_and!.
  - by apply cp_wf_sorted.
  - apply by_tick_sorted.
  - exact Hst.
  - simpl. rewrite length_sort_by. simpl in Hlen. unfold SCHEDULE_CAPACITY. lia.
  - done.
Qed.

(** A fresh stub generates any workload of up to 2048 pods without failing an
    assertion or an addition: the pods are numbered 1, 2, ..., each is started on an
    existing agent by a well-formed command of the schedule, the schedule fits its 4096
    entries and is in order of ticks. *)
Theorem workload_schedule (seed : Z) (agent_count : nat) (pod_count over_ticks : Z) :
  is_u64 seed → (0 < agent_count)%nat → 2 ≤ over_ticks ≤ U64_MAX → 0 ≤ pod_count ≤ 2048 →
  ∃ c, generate_workload agent_count pod_count over_ticks (control_plane_new seed) = Done (tt, c) ∧
    workload_post agent_count pod_count c.
Proof.
  intros Hs Ha Ho Hp. pose proof (generate_workload_ok (λ _, False) seed agent_count pod_count over_ticks
    Hs Ha Ho Hp) as [([] & c & E & HQ)|(? & _ & [])]%wp_run. eauto.
Qed.

Lemma workload_schedule_witness :
  ∃ c, generate_workload 3 20 500 (control_plane_new 42) = Done (tt, c) ∧
    (expected_starts c).*2 = (λ i, 1 + Z.of_nat i) <$> seq 0 20 ∧ StronglySorted tick_order (scheduled c).
Proof.
  destruct (workload_schedule 42 3 20 500) as (c & E & (_ & Hs & He & _)).
  - unfold in_range, U64_MAX. lia.
  - lia.
  - unfold U64_MAX. lia.
  - lia.
  - exists c. split; [exact E|]. split; [exact He|exact Hs].
Defined.

(** ** Handing the schedule out *)

Definition due_by (t : Z) (l : list (Z * nat * ControlMessage)) : list (Z * nat * ControlMessage) :=
  filter (λ e, e.1.1 ≤ t) l.

Lemma filter_none {A} (P : A → Prop) `{!∀ x, Decision (P x)} (l : list A) :
  Forall (λ x, ¬ P x) l → filter P l = [].
Proof. induction 1 as [|x l Hx _ IH]; [done|]. by rewrite filter_cons, decide_False. Qed.

(** Nothing after an entry that is not due is due. *)
Lemma not_due_after t e (l : list (Z * nat * ControlMessage)) :
  ¬ e.1.1 ≤ t → Forall (tick_order e) l → due_by t l = [].
Proof.
  intros He Hall. apply filter_none. eapply Forall_impl; [exact Hall|]. intros x.
  unfold tick_order, by_tick. lia.
Qed.

Lemma sorted_due_split t l :
  StronglySorted tick_order l → l = due_by t l ++ filter (λ e, ¬ e.1.1 ≤ t) l.
Proof.
  unfold due_by. induction 1 as [|e l Hs IH Hall]; [done|]. rewrite !filter_cons.
  destruct (decide (e.1.1 ≤ t)) as [Hle|Hgt].
  - rewrite decide_False by (intros Hn; by apply Hn). simpl. by rewrite <-IH.
  - rewrite decide_True by done.
    assert (Hnone := not_due_after t e l Hgt Hall). unfold due_by in Hnone.
    rewrite Hnone in *. simpl in *. by rewrite <-IH.
Qed.

Lemma take_due_sorted t l :
  StronglySorted tick_order l → take_due t l = (λ e, (e.1.2, e.2)) <$> due_by t l.
Proof.
  unfold due_by. induction 1 as [|[[t' a] cmd] l Hs IH Hall]; [done|]. rewrite filter_cons. simpl.
  destruct (Z.leb_spec t' t) as [Hle|Hgt].
  - rewrite decide_True by done. by rewrite IH.
  - rewrite decide_False by lia.
    assert (Hnone := not_due_after t (t', a, cmd) l ltac:(simpl; lia) Hall).
    unfold due_by in Hnone. by rewrite Hnone.
Qed.

Lemma StronglySorted_app_r {A} (R : A → A → Prop) l k : StronglySorted R (l ++ k) → StronglySorted R k.
Proof. induction l as [|x l IH]; [done|]. simpl. intros Hs. inversion Hs. by apply IH. Qed.

(** Every command of the schedule is handed out exactly once, in the order of the
    schedule, at the first tick asked for that is not before its own: when everything
    due by [t0] has been handed out, asking for tick [t] gives exactly what became due
    since, and then everything due by [t] has been. *)
Theorem schedule_delivery (t0 t : Z) (c : ControlPlaneStub) :
  StronglySorted tick_order (scheduled c) → schedule_index c = length (due_by t0 (scheduled c)) → t0 ≤ t →
  ∃ c', commands_for_tick t c =
      Done ((λ e, (e.1.2, e.2)) <$> filter (λ e, t0 < e.1.1 ≤ t) (scheduled c), c') ∧
    schedule_index c' = length (due_by t (scheduled c)) ∧ scheduled c' = scheduled c.
Proof.
  intros Hs Hi Ht. pose proof (sorted_due_split t0 _ Hs) as Hsplit.
  set (later := filter (λ e, ¬ e.1.1 ≤ t0) (scheduled c)) in Hsplit.
  assert (Hd : drop (schedule_index c) (scheduled c) = later).
  { rewrite Hi. rewrite Hsplit at 2. by apply drop_app_length. }
  assert (Hsl : StronglySorted tick_order later).
  { rewrite Hsplit in Hs. by eapply StronglySorted_app_r. }
  assert (Hf : due_by t later = filter (λ e, t0 < e.1.1 ≤ t) (scheduled c)).
  { unfold due_by, later. rewrite list_filter_filter. apply list_filter_iff. intros e. lia. }
  unfold commands_for_tick. erewrite bind_done by done. rewrite Hd, (take_due_sorted t later Hsl), Hf.
  eexists. split; [done|]. split; [|done]. simpl. rewrite length_fmap, Hi, <-Hf.
  assert (Hdd : due_by t (due_by t0 (scheduled c)) = due_by t0 (scheduled c)).
  { unfold due_by. rewrite list_filter_filter. apply list_filter_iff. intros e. lia. }
  rewrite <-Hdd, <-length_app. f_equal. unfold due_by at 1 3. rewrite <-filter_app.
  unfold due_by at 2. by rewrite <-Hsplit.
Qed.

Lemma small_workload :
  ∃ c, generate_workload 1 2 10 (control_plane_new 1) = Done (tt, c) ∧ workload_post 1 2 c.
Proof.
  assert (Hw := generate_workload_ok (λ _, False) 1 1 2 10).
  destruct (proj1 (wp_run _ _ _ _) (Hw ltac:(int_lia) ltac:(lia) ltac:(int_lia) ltac:(lia)))
    as [([] & c & E & HQ)|(? & _ & [])]. eauto.
Qed.

Lemma schedule_delivery_witness :
  ∃ c c', generate_workload 1 2 10 (control_plane_new 1) = Done (tt, c) ∧
    commands_for_tick 1000 c = Done ((λ e, (e.1.2, e.2)) <$> filter (λ e, -1 < e.1.1 ≤ 1000) (scheduled c), c').
Proof.
  destruct small_workload as (c & E & (Hwf & Hs & _ & _ & Hi)).
  destruct (schedule_delivery (-1) 1000 c Hs) as (c' & Ec & _).
  - rewrite Hi. unfold due_by. rewrite filter_none; [reflexivity|].
    eapply Forall_impl; [exact (cw_scheduled _ _ Hwf)|]. intros e (He & _). lia.
  - lia.
  - exists c, c'. split; [exact E|exact Ec].
Defined.

(** ** Recovering unresolved starts *)

Lemma reported_spec l agent pod :
  reported l agent pod = true ↔
  ∃ t ev, (t, agent, PodStatusEvent ev) ∈ l ∧ pe_pod_id ev = pod ∧ settles (pe_status ev) = true.
Proof.
  unfold reported. rewrite existsb_exists. split.
  - intros ([[t a] m] & Hin%list_elem_of_In & Hb). apply andb_true_iff in Hb as [->%Nat.eqb_eq Hm].
    destruct m as [| |ev|]; try done. apply andb_true_iff in Hm as [?%Z.eqb_eq ?]. by exists t, ev.
  - intros (t & ev & Hin & <- & Hs). exists (t, agent, PodStatusEvent ev).
    split; [by apply list_elem_of_In|]. by rewrite Nat.eqb_refl, Z.eqb_refl, Hs.
Qed.

Lemma recovery_commands_ok agent_count l starts :
  Forall (entry_wf agent_count) l → Forall (schedules_start l) starts →
  Forall (λ s, (s.1 < agent_count)%nat ∧ is_u64 s.2) starts →
  ∃ cmds, recovery_commands l starts = Done cmds ∧
    Forall (λ e, (e.1 < agent_count)%nat ∧ control_wf e.2) cmds ∧
    (∀ s, s ∈ starts → (s.1, ProbePod (mkProbePodCmd s.2)) ∈ cmds ∧
       ∃ start, (s.1, StartPod start) ∈ cmds ∧ sp_pod_id start = s.2) ∧
    length cmds = (2 * length starts)%nat.
Proof.
  intros Hl Hs Ha. induction starts as [|[agent pod] starts IH].
  { exists []. split_and!; [done|constructor|by intros s Hs'%not_elem_of_nil|done]. }
  apply Forall_cons in Hs as [(start & Hf & Hp & t & Hin)%find_start_Some Hs].
  apply Forall_cons in Ha as [[Hag Hpod] Ha]. destruct (IH Hs Ha) as (cmds & E & Hw & Hall & Hlen).
  simpl. rewrite Hf, E. simpl.
  destruct (proj1 (Forall_forall _ _) Hl _ Hin) as (_ & _ & Hwf). simpl in *.
  eexists. split; [done|]. split; [by apply Forall_cons; split; [|apply Forall_cons]|]. split; [|simpl; lia].
  intros s [->|Hs']%elem_of_cons; simpl.
  - split; [by right; left|]. exists start. split; [by left|done].
  - destruct (Hall s Hs') as [? (st' & ? & ?)]. split; [by do 2 right|]. exists st'. split; [by do 2 right|done].
Qed.

(** Recovery never fails and forgets no pod: for every expected start that its
    agent has not reported as running, stopped or failed, the stub re-sends the start it
    scheduled and a probe, to that agent, and nothing else. *)
Theorem recovery_complete (agent_count : nat) (c : ControlPlaneStub) :
  cp_wf agent_count c →
  ∃ cmds, unresolved_start_recovery_commands c = Done cmds ∧
    Forall (λ e, (e.1 < agent_count)%nat ∧ control_wf e.2) cmds ∧
    (∀ agent pod, (agent, pod) ∈ expected_starts c →
       (∀ t ev, (t, agent, PodStatusEvent ev) ∈ received c → pe_pod_id ev = pod →
          settles (pe_status ev) = false) →
       (agent, ProbePod (mkProbePodCmd pod)) ∈ cmds ∧
       ∃ start, (agent, StartPod start) ∈ cmds ∧ sp_pod_id start = pod) ∧
    length cmds = (2 * length (unresolved_starts c))%nat.
Proof.
  intros Hwf. unfold unresolved_start_recovery_commands.
  destruct (recovery_commands_ok agent_count (scheduled c) (unresolved_starts c)) as (cmds & E & Hw & Hall & Hlen).
  - apply Hwf.
  - apply Forall_forall. intros s [_ Hs]%list_elem_of_filter. revert s Hs. apply Forall_forall, Hwf.
  - apply Forall_forall. intros s [_ Hs]%list_elem_of_filter. revert s Hs. apply Forall_forall, Hwf.
  - exists cmds. split_and!; try done. intros agent pod Hin Hrep. apply (Hall (agent, pod)).
    apply list_elem_of_filter. split; [|done]. simpl. apply negb_true_iff.
    apply not_true_iff_false. intros (t & ev & Hev & Hp & Hs)%reported_spec.
    rewrite (Hrep t ev) in Hs; done.
Qed.

Lemma recovery_complete_witness :
  ∃ c cmds, generate_workload 1 2 10 (control_plane_new 1) = Done (tt, c) ∧
    unresolved_start_recovery_commands c = Done cmds ∧ length cmds = (2 * length (unresolved_starts c))%nat.
Proof.
  destruct small_workload as (c & E & (Hwf & _)).
  destruct (recovery_complete 1 c Hwf) as (cmds & Ec & _ & _ & Hlen).
  exists c, cmds. split; [exact E|]. split; [exact Ec|exact Hlen].
Defined.
