(* ===== verification/Simulator.v ===== *)
(** * The simulator: [worker/src/sim/simulator.rs]

    [WorkerSimulator] owns the workers with their [Io]s and runtimes, the network, the
    control plane and the checker.  Two things the source leaves to the operating system
    are fields of the state: the host the workers run on and the schedule their lifecycle
    threads get.  The [while let] loops that empty a queue have the fuel [QUEUE_FUEL], one
    more than a queue holds, and [Worker::tick] gets [TICK_FUEL], one more than the staging
    queue holds; [sim_tick_safe] shows that both are enough. *)

From S2P Require Import Prelude Types Prng RustStr Protocol Traits Volumes Secrets Worker WorkerInv.
From S2P Require Import WorkerThreads WorkerSafety SimIo SimRuntime SimNetwork SimChecker SimControlPlane.

Section simulator.
  Context {H : Type} `{!Host H}.
  (** [<str as Debug>::fmt], used by the checker's messages. *)
  Variable debug_str : string → string.

Record WorkerSimulator := mkWorkerSimulator {
  ws_current_tick : Z;
  ws_prng : Prng;
  workers : list Worker;
  sim_ios : list SimulatedIo;
  sim_runtimes : list SimulatedRuntime;
  network : SimulatedNetwork;
  control_plane : ControlPlaneStub;
  checker : WorkerChecker;
  agent_count : nat;
  ws_host : H;
  ws_sched : list nat
}.

Definition set_ws_current_tick (x : Z) (s : WorkerSimulator) : WorkerSimulator :=
  mkWorkerSimulator x (ws_prng s) (workers s) (sim_ios s) (sim_runtimes s) (network s) (control_plane s)
    (checker s) (agent_count s) (ws_host s) (ws_sched s).
Definition set_workers (x : list Worker) (s : WorkerSimulator) : WorkerSimulator :=
  mkWorkerSimulator (ws_current_tick s) (ws_prng s) x (sim_ios s) (sim_runtimes s) (network s) (control_plane s)
    (checker s) (agent_count s) (ws_host s) (ws_sched s).
Definition set_sim_ios (x : list SimulatedIo) (s : WorkerSimulator) : WorkerSimulator :=
  mkWorkerSimulator (ws_current_tick s) (ws_prng s) (workers s) x (sim_runtimes s) (network s) (control_plane s)
    (checker s) (agent_count s) (ws_host s) (ws_sched s).
Definition set_sim_runtimes (x : list SimulatedRuntime) (s : WorkerSimulator) : WorkerSimulator :=
  mkWorkerSimulator (ws_current_tick s) (ws_prng s) (workers s) (sim_ios s) x (network s) (control_plane s)
    (checker s) (agent_count s) (ws_host s) (ws_sched s).
Definition set_network (x : SimulatedNetwork) (s : WorkerSimulator) : WorkerSimulator :=
  mkWorkerSimulator (ws_current_tick s) (ws_prng s) (workers s) (sim_ios s) (sim_runtimes s) x (control_plane s)
    (checker s) (agent_count s) (ws_host s) (ws_sched s).
Definition set_control_plane (x : ControlPlaneStub) (s : WorkerSimulator) : WorkerSimulator :=
  mkWorkerSimulator (ws_current_tick s) (ws_prng s) (workers s) (sim_ios s) (sim_runtimes s) (network s) x
    (checker s) (agent_count s) (ws_host s) (ws_sched s).
Definition set_checker (x : WorkerChecker) (s : WorkerSimulator) : WorkerSimulator :=
  mkWorkerSimulator (ws_current_tick s) (ws_prng s) (workers s) (sim_ios s) (sim_runtimes s) (network s)
    (control_plane s) x (agent_count s) (ws_host s) (ws_sched s).
Definition set_world (h : H) (sc : list nat) (s : WorkerSimulator) : WorkerSimulator :=
  mkWorkerSimulator (ws_current_tick s) (ws_prng s) (workers s) (sim_ios s) (sim_runtimes s) (network s)
    (control_plane s) (checker s) (agent_count s) h sc.

Definition simulator_new_with_lifecycle_concurrency (h : H) (sc : list nat) (agent_count : nat)
    (seed lifecycle_concurrency : Z) : WorkerSimulator :=
  let ids := seq 0 agent_count in
  let agent_seed i := wrap64 (seed + Z.of_nat i) in
  mkWorkerSimulator 0 (prng_init (wrap64 (seed + 57005)))
    ((λ i, new_with_lifecycle_concurrency h ("sim-node-" +:+ fmt_int (Z.of_nat i)) H100Sxm 8 32000 65536
             lifecycle_concurrency) <$> ids)
    ((λ i, simulated_io_new (agent_seed i)) <$> ids)
    ((λ i, simulated_runtime_new (agent_seed i) fault_config_default) <$> ids)
    (simulated_network_new agent_count seed) (control_plane_new seed) (worker_checker_new agent_count)
    agent_count h sc.

Definition simulator_new (h : H) (sc : list nat) (agent_count : nat) (seed : Z) : WorkerSimulator :=
  simulator_new_with_lifecycle_concurrency h sc agent_count seed 1.

Abbreviation SM := (M WorkerSimulator).

(** Running a component's operation on its field. *)
Definition on_field {X A} (getf : WorkerSimulator → X) (setf : X → WorkerSimulator → WorkerSimulator)
    (m : M X A) : SM A := λ s,
  match m (getf s) with
  | Done (a, x) => Done (a, setf x s)
  | Panic e => Panic e
  end.
Definition on_network {A} (m : M SimulatedNetwork A) : SM A := on_field network set_network m.
Definition on_control_plane {A} (m : M ControlPlaneStub A) : SM A := on_field control_plane set_control_plane m.
Definition on_checker {A} (m : M WorkerChecker A) : SM A := on_field checker set_checker m.

Definition lift_outcome {A} (o : outcome A) : SM A := λ s,
  match o with Done a => Done (a, s) | Panic e => Panic e end.

(** [self.sim_ios[i] = io] *)
Definition put_io (i : nat) (x : SimulatedIo) : SM unit := modify (λ s, set_sim_ios (<[i := x]> (sim_ios s)) s).

Definition QUEUE_FUEL : nat := S QUEUE_CAPACITY.
Definition TICK_FUEL : nat := S STAGING_CAPACITY.
Definition NOT_FINISHED : string := "simulation loop did not finish".

(** [while let Some(message) = self.network.pop_outbound(i, now) { .. }] *)
Fixpoint collect_outbound (fuel : nat) (i : nat) : SM unit :=
  match fuel with
  | O => panic NOT_FINISHED
  | S fuel =>
    let* s := get in
    let* message := on_network (pop_outbound i (ws_current_tick s)) in
    match message with
    | None => ret tt
    | Some message =>
      on_control_plane (on_agent_message (ws_current_tick s) i message) ;;;
      collect_outbound fuel i
    end
  end.

(** [while let Some(message) = self.network.pop_inbound(i, now) { .. }] *)
Fixpoint stage_inbound (fuel : nat) (i : nat) : SM unit :=
  match fuel with
  | O => panic NOT_FINISHED
  | S fuel =>
    let* s := get in
    let* message := on_network (pop_inbound i (ws_current_tick s)) in
    match message with
    | None => ret tt
    | Some message =>
      let* s := get in
      let* x := index (sim_ios s) i in
      let* x := lift_outcome (push_inbound message x) in
      put_io i x ;;;
      stage_inbound fuel i
    end
  end.

(** [self.workers[i].tick(&mut self.sim_ios[i], &self.sim_runtimes[i])] *)
Definition tick_worker (i : nat) : SM unit :=
  let* s := get in
  let* w := index (workers s) i in
  let* x := index (sim_ios s) i in
  let* r := index (sim_runtimes s) i in
  let* (_, c) := lift_outcome (tick TICK_FUEL (mkCtx w x r (ws_host s) (ws_sched s))) in
  modify (λ s, set_world (host c) (sched c)
                 (set_sim_runtimes (<[i := rt c]> (sim_runtimes s))
                   (set_sim_ios (<[i := io c]> (sim_ios s))
                     (set_workers (<[i := worker c]> (workers s)) s)))).

(** The body of the loop of step C. *)
Definition step_agent (i : nat) : SM unit :=
  let* s := get in
  let* x := index (sim_ios s) i in
  put_io i (set_current_tick (ws_current_tick s) x) ;;;
  stage_inbound QUEUE_FUEL i ;;;
  let* s := get in
  let* r := index (sim_runtimes s) i in
  modify (λ s, set_sim_runtimes (<[i := maybe_crash_pods r]> (sim_runtimes s)) s) ;;;
  tick_worker i ;;;
  let* s := get in
  let* x := index (sim_ios s) i in
  let* (messages, x) := lift_outcome (drain_outbound x) in
  put_io i x ;;;
  for_each messages (λ message, on_network (send_from_agent i message (ws_current_tick s))).

(** The body of the loop of step D. *)
Definition check_agent (i : nat) : SM unit :=
  let* cut := on_network (is_partitioned i) in
  let* s := get in
  let* w := index (workers s) i in
  on_checker (check debug_str (ws_current_tick s) i w cut).

Definition simulator_tick : SM unit :=
  let* s := get in
  let* now := add_overflow U64_MAX (ws_current_tick s) 1 in
  modify (set_ws_current_tick now) ;;;
  let agents := seq 0 (agent_count s) in
  for_each agents (collect_outbound QUEUE_FUEL) ;;;
  let* commands := on_control_plane (commands_for_tick now) in
  for_each commands (λ '(agent_id, command), on_network (send_to_agent agent_id command now)) ;;;
  for_each agents step_agent ;;;
  for_each agents check_agent.

Definition simulator_run (ticks : nat) : SM unit := for_each (seq 0 ticks) (λ _, simulator_tick).

Definition assert_agent (agent_id : nat) : SM unit :=
  let* s := get in
  assert (agent_id <? agent_count s)%nat "assertion failed: agent_id < self.agent_count".

Definition partition_agent (agent_id : nat) : SM unit :=
  assert_agent agent_id ;;;
  let* s := get in
  on_network (nw_partition_agent agent_id (ws_current_tick s)).

(** [self.workers[agent_id].on_connection_lost()] *)
Definition disconnect_worker (agent_id : nat) : SM unit :=
  let* s := get in
  let* w := index (workers s) agent_id in
  modify (λ s, set_workers (<[agent_id := on_connection_lost w]> (workers s)) s).

Definition lose_agent_session (agent_id : nat) : SM unit :=
  assert_agent agent_id ;;;
  on_network (discard_session_queues agent_id) ;;;
  disconnect_worker agent_id.

Definition retry_agent_registration (agent_id : nat) : SM unit :=
  assert_agent agent_id ;;;
  disconnect_worker agent_id.

Definition heal_all : SM unit :=
  let* s := get in on_network (nw_heal_all (ws_current_tick s)).

Definition force_heal_all : SM unit :=
  let* s := get in on_network (nw_force_heal_all (ws_current_tick s)).

Definition set_fault_config (f : FaultConfig) (r : SimulatedRuntime) : SimulatedRuntime :=
  mkSimulatedRuntime f (srt_seed r) (srt_pods r) (pull_attempts r) (create_attempts r) (start_attempts r)
    (stop_attempts r) (status_attempts r) (remove_attempts r) (probe_outcomes r) (run_outcomes r)
    (run_attempts r) (crash_round r).

Definition set_runtime_faults (agent_id : nat) (config : FaultConfig) : SM unit :=
  let* s := get in
  let* r := index (sim_runtimes s) agent_id in
  modify (λ s, set_sim_runtimes (<[agent_id := set_fault_config config r]> (sim_runtimes s)) s).

End simulator.
