(* ===== verification/SimRunner.v ===== *)
(** * The simulation runner: [worker/src/sim/runner.rs]

    [run] drives a simulator through a safety phase with faults and a liveness phase
    without, and returns a verdict.  A [for] loop with early [return]s is a recursion on
    the iterations left that yields [Some result] when the source returns. *)

From S2P Require Import Prelude Types Prng RustStr Protocol Traits Volumes Secrets Worker.
From S2P Require Import SimIo SimRuntime SimNetwork SimChecker SimControlPlane Simulator.

Definition LIVENESS_RETRY_GRACE_TICKS : Z :=
  if 200 <? LIFECYCLE_FIRST_RETRY_DELAY_TICKS + 100 then LIFECYCLE_FIRST_RETRY_DELAY_TICKS + 100 else 200.

Record SimConfig := mkSimConfig {
  cfg_seed : Z;
  cfg_agent_count : nat;
  safety_ticks : Z;
  liveness_ticks : Z;
  cfg_pod_count : Z;
  partition_probability : Ratio;
  heal_probability : Ratio;
  pause_probability : Ratio;
  cfg_image_pull_failure_rate : Ratio;
  cfg_container_crash_rate : Ratio;
  cfg_gpu_failure_rate : Ratio;
  cfg_partition_stability : Z;
  cfg_heal_stability : Z;
  pause_stability : Z;
  cfg_drop_rate : Ratio;
  cfg_replay_rate : Ratio;
  cfg_path_max_capacity : nat
}.

Definition sim_config_default : SimConfig :=
  mkSimConfig 42 3 500 LIVENESS_RETRY_GRACE_TICKS 20 (mkRatio 2 100) (mkRatio 5 100) (mkRatio 1 100)
    (mkRatio 5 100) (mkRatio 1 100) (mkRatio 1 100) 15 10 10 ratio_zero ratio_zero 0.

Inductive Outcome := Passed | SafetyViolation | LivenessFailure.

Record SimResult := mkSimResult {
  sr_seed : Z;
  phase1_ticks : Z;
  phase2_ticks : Z;
  sr_safety_violations : Z;
  sr_outcome : Outcome;
  convergence_ticks : Z;
  messages_sent : Z
}.

Section runner.
  Context {H : Type} `{!Host H}.
  Variable debug_str : string → string.
  Abbreviation Sim := (@WorkerSimulator H).

(** The locals of [run]. *)
Record RunState := mkRunState {
  fault_prng : Prng;
  sim : Sim;
  pause_until : list Z
}.

Definition set_sim (x : Sim) (r : RunState) : RunState := mkRunState (fault_prng r) x (pause_until r).
Definition set_pause_until (x : list Z) (r : RunState) : RunState := mkRunState (fault_prng r) (sim r) x.

Abbreviation RM := (M RunState).

Definition on_sim {A} (m : M Sim A) : RM A := λ r,
  match m (sim r) with Done (a, s) => Done (a, set_sim s r) | Panic e => Panic e end.

Definition draw_fault {A} (f : Prng → outcome (A * Prng)) : RM A := λ r,
  match f (fault_prng r) with
  | Done (a, p) => Done (a, mkRunState p (sim r) (pause_until r))
  | Panic e => Panic e
  end.

(** [control_sent + worker_sent]. *)
Definition count_messages : M Sim Z := on_network total_messages.

Definition registered_since (agent_id received_start : nat) : M Sim bool :=
  let* s := get in
  let received := received (control_plane s) in
  assert (received_start <=? length received)%nat "assertion failed: received_start <= received.len()" ;;;
  ret (existsb (λ '(_, a, m), (a =? agent_id)%nat && match m with NodeRegister _ => true | _ => false end)
         (drop received_start received)).

(** The first loop of [check_convergence]: whether every agent has registered. *)
Fixpoint all_registered (agents : list nat) (received_start : nat) : M Sim bool :=
  match agents with
  | [] => ret true
  | agent_id :: agents =>
    let* ok := registered_since agent_id received_start in
    if ok then all_registered agents received_start else ret false
  end.

(** States in which a pod may rest. *)
Definition settled (s : TrackedPodState) : bool :=
  match s with Running | Stopped _ | Failed _ => true | _ => false end.

Definition check_convergence (phase2_received_start : nat) : M Sim bool :=
  let* s := get in
  let* ok := all_registered (seq 0 (length (workers s))) phase2_received_start in
  ret (ok &&
       forallb (λ '(agent_id, pod_id), reported (received (control_plane s)) agent_id pod_id)
         (expected_starts (control_plane s)) &&
       forallb (λ w, forallb (λ p, settled (state p)) (values (pods w))) (workers s)).

(** The faults drawn before tick [tick] of the safety phase. *)
Definition inject_faults (config : SimConfig) (tick : Z) : RM unit :=
  let agents := Z.of_nat (cfg_agent_count config) in
  let* cut := draw_fault (prng_chance_ratio (partition_probability config)) in
  when cut
    (let* target := draw_fault (prng_bounded agents) in
     on_sim (partition_agent (Z.to_nat target))) ;;;
  let* heal := draw_fault (prng_chance_ratio (heal_probability config)) in
  when heal (on_sim heal_all) ;;;
  let* pause := draw_fault (prng_chance_ratio (pause_probability config)) in
  when pause
    (let* target := draw_fault (prng_bounded agents) in
     let target := Z.to_nat target in
     let* r := get in
     let* until := index (pause_until r) target in
     when (until <=? tick)
       (let* extra := draw_fault (prng_bounded 30) in
        let* duration := add_overflow U64_MAX (pause_stability config) extra in
        let* until := add_overflow U64_MAX tick duration in
        modify (λ r, set_pause_until (<[target := until]> (pause_until r)) r) ;;;
        on_sim (partition_agent target))).

Definition resume_paused (tick : Z) (i : nat) : RM unit :=
  let* r := get in
  let* until := index (pause_until r) i in
  when ((0 <? until) && (until <=? tick))
    (modify (λ r, set_pause_until (<[i := 0]> (pause_until r)) r) ;;;
     on_sim (on_network (heal_one i tick))).

(** The [return] taken when the checker has recorded something. *)
Definition stop_on_violation (config : SimConfig) (ticks1 ticks2 : Z) : RM (option SimResult) :=
  let* msgs := on_sim count_messages in
  let* r := get in
  let n := safety_violations (checker (sim r)) in
  ret (if 0 <? n then Some (mkSimResult (cfg_seed config) ticks1 ticks2 n SafetyViolation 0 msgs) else None).

Definition phase1_tick (config : SimConfig) (tick : Z) : RM (option SimResult) :=
  inject_faults config tick ;;;
  for_each (seq 0 (cfg_agent_count config)) (resume_paused tick) ;;;
  on_sim (simulator_tick debug_str) ;;;
  stop_on_violation config (tick + 1) 0.

Fixpoint phase1 (config : SimConfig) (remaining : nat) (tick : Z) : RM (option SimResult) :=
  match remaining with
  | O => ret None
  | S remaining =>
    let* r := phase1_tick config tick in
    match r with Some result => ret (Some result) | None => phase1 config remaining (tick + 1) end
  end.

(** Between the phases: heal, clear the faults, drop every session. *)
Definition begin_phase2 (config : SimConfig) : RM nat :=
  on_sim force_heal_all ;;;
  for_each (seq 0 (cfg_agent_count config)) (λ i,
    on_sim (set_runtime_faults i fault_config_default) ;;;
    on_sim (lose_agent_session i)) ;;;
  let* r := get in
  ret (length (received (control_plane (sim r)))).

Definition phase2_tick (config : SimConfig) (start : nat) (tick : Z) : RM (option SimResult) :=
  for_each (seq 0 (cfg_agent_count config)) (λ agent_id,
    let* ok := on_sim (registered_since agent_id start) in
    when (negb ok) (on_sim (retry_agent_registration agent_id))) ;;;
  let* r := get in
  let* commands := (λ r, match unresolved_start_recovery_commands (control_plane (sim r)) with
                         | Done cmds => Done (cmds, r) | Panic e => Panic e end) in
  for_each commands (λ '(agent_id, command),
    let* r := get in
    on_sim (on_network (send_to_agent agent_id command (ws_current_tick (sim r))))) ;;;
  on_sim (simulator_tick debug_str) ;;;
  let* failed := stop_on_violation config (safety_ticks config) (tick + 1) in
  match failed with
  | Some result => ret (Some result)
  | None =>
    let* converged := on_sim (check_convergence start) in
    let* msgs := on_sim count_messages in
    ret (if converged then
           Some (mkSimResult (cfg_seed config) (safety_ticks config) (tick + 1) 0 Passed (tick + 1) msgs)
         else None)
  end.

Fixpoint phase2 (config : SimConfig) (start : nat) (remaining : nat) (tick : Z) : RM (option SimResult) :=
  match remaining with
  | O => ret None
  | S remaining =>
    let* r := phase2_tick config start tick in
    match r with Some result => ret (Some result) | None => phase2 config start remaining (tick + 1) end
  end.

(** The network and the runtimes as the configuration asks. *)
Definition configure_network (config : SimConfig) (n : SimulatedNetwork) : SimulatedNetwork :=
  set_heal_stability (cfg_heal_stability config)
    (set_partition_stability (cfg_partition_stability config)
      (set_path_max_capacity (cfg_path_max_capacity config)
        (set_replay_rate (cfg_replay_rate config) (set_drop_rate (cfg_drop_rate config) n)))).

Definition configured_faults (config : SimConfig) : FaultConfig :=
  mkFaultConfig (cfg_image_pull_failure_rate config) (cfg_container_crash_rate config)
    (cfg_gpu_failure_rate config) ratio_zero ratio_zero.

Definition setup (config : SimConfig) : RM unit :=
  on_sim (on_network (modify (configure_network config))) ;;;
  for_each (seq 0 (cfg_agent_count config)) (λ i, on_sim (set_runtime_faults i (configured_faults config))) ;;;
  on_sim (on_control_plane
    (generate_workload (cfg_agent_count config) (cfg_pod_count config) (safety_ticks config))).

Definition run_body (config : SimConfig) : RM SimResult :=
  setup config ;;;
  let* early := phase1 config (Z.to_nat (safety_ticks config)) 0 in
  match early with
  | Some result => ret result
  | None =>
    let* start := begin_phase2 config in
    let* verdict := phase2 config start (Z.to_nat (liveness_ticks config)) 0 in
    match verdict with
    | Some result => ret result
    | None =>
      let* _ := (λ r, match unresolved_start_recovery_commands (control_plane (sim r)) with
                      | Done cmds => Done (cmds, r) | Panic e => Panic e end) in
      let* msgs := on_sim count_messages in
      let* r := get in
      ret (mkSimResult (cfg_seed config) (safety_ticks config) (liveness_ticks config)
             (safety_violations (checker (sim r))) LivenessFailure 0 msgs)
    end
  end.

Definition run (h : H) (sc : list nat) (config : SimConfig) : outcome (SimResult * RunState) :=
  run_body config
    (mkRunState (prng_init (wrap64 (cfg_seed config + 64023)))
       (simulator_new h sc (cfg_agent_count config) (cfg_seed config))
       (replicate (cfg_agent_count config) 0)).

End runner.

(** ** What a verdict means *)

Section verdict.
  Context {H : Type} `{!Host H} (debug_str : string → string).
  Abbreviation Sim := (@WorkerSimulator H).
  Implicit Types s : Sim.

(** Since message [start] every agent has registered, every expected start has been
    reported as running, stopped or failed by its agent, and every tracked pod rests. *)
Definition converged (start : nat) (s : Sim) : Prop :=
  (∀ agent, (agent < length (workers s))%nat →
     ∃ t reg, (t, agent, NodeRegister reg) ∈ drop start (received (control_plane s))) ∧
  (∀ agent pod, (agent, pod) ∈ expected_starts (control_plane s) →
     ∃ t ev, (t, agent, PodStatusEvent ev) ∈ received (control_plane s) ∧ pe_pod_id ev = pod ∧
       settles (pe_status ev) = true) ∧
  (∀ w k p, w ∈ workers s → pods w !! k = Some p → settled (state p) = true).

Lemma existsb_registered (l : list (Z * nat * WorkerMessage)) a :
  existsb (λ '(_, b, m), (b =? a)%nat && match m with NodeRegister _ => true | _ => false end) l = true ↔
  ∃ t reg, (t, a, NodeRegister reg) ∈ l.
Proof.
  rewrite existsb_exists. split.
  - intros ([[t a'] m] & Hin%list_elem_of_In & Hb). apply andb_true_iff in Hb as [->%Nat.eqb_eq Hm].
    destruct m as [reg| | |]; try done. by exists t, reg.
  - intros (t & reg & Hin). exists (t, a, NodeRegister reg). split; [by apply list_elem_of_In|].
    by rewrite Nat.eqb_refl.
Qed.

Lemma all_registered_ok agents start s :
  wp any_panic (all_registered agents start) (λ b s', s' = s ∧
    (b = true ↔ ∀ agent, agent ∈ agents →
       ∃ t reg, (t, agent, NodeRegister reg) ∈ drop start (received (control_plane s)))) s.
Proof.
  induction agents as [|a agents IH].
  { apply wp_ret. split; [done|]. split; [by intros _ a Ha%not_elem_of_nil|done]. }
  cbn [all_registered]. wp_step. unfold registered_since. wp_step. apply wp_get.
  wp_step. apply wp_any_assert, wp_ret.
  assert (Hnow := existsb_registered (drop start (received (control_plane s))) a).
  destruct (existsb _ _).
  - eapply wp_mono; [exact IH|]. intros b s' [-> Hb]. split; [done|]. rewrite Hb. split.
    + intros Hall x [->|Hx]%elem_of_cons; [by apply Hnow|by apply Hall].
    + intros Hall x Hx. apply Hall. by right.
  - apply wp_ret. split; [done|]. split; [done|]. intros Hall. apply Hnow, Hall. by left.
Qed.

(** The convergence test decides [converged]. *)
Lemma check_convergence_ok start s :
  wp any_panic (check_convergence start) (λ b s', s' = s ∧ (b = true ↔ converged start s)) s.
Proof.
  unfold check_convergence. wp_step. apply wp_get. wp_step.
  eapply wp_mono; [apply all_registered_ok|]. intros b s' [-> Hb]. apply wp_ret. split; [done|].
  rewrite !andb_true_iff, Hb, !forallb_forall. unfold converged. split.
  - intros [[Ha Hr] Hp]. split_and!.
    + intros agent Hag. apply Ha, elem_of_seq. lia.
    + intros agent pod Hin%list_elem_of_In. by apply (Hr (agent, pod)), reported_spec in Hin.
    + intros w k p Hw%list_elem_of_In Hk. specialize (Hp w Hw). rewrite forallb_forall in Hp.
      apply Hp, list_elem_of_In, elem_of_values. eauto.
  - intros (Ha & Hr & Hp). split_and!.
    + intros agent Hag%elem_of_seq. apply Ha. lia.
    + intros [agent pod] Hin%list_elem_of_In. by apply reported_spec, Hr.
    + intros w Hw%list_elem_of_In. apply forallb_forall.
      intros p [k Hk]%list_elem_of_In%elem_of_values. by eapply Hp.
Qed.

(** What a returned result says about the final state. *)
Definition verdict_ok (config : SimConfig) (r : SimResult) (st : @RunState H) : Prop :=
  sr_seed r = cfg_seed config ∧
  match sr_outcome r with
  | Passed => safety_violations (checker (sim st)) ≤ 0 ∧ sr_safety_violations r = 0 ∧
      (∃ start, converged start (sim st)) ∧
      1 ≤ phase2_ticks r ≤ liveness_ticks config ∧ convergence_ticks r = phase2_ticks r
  | SafetyViolation => sr_safety_violations r = safety_violations (checker (sim st)) ∧
      0 < sr_safety_violations r
  | LivenessFailure => phase2_ticks r = liveness_ticks config ∧
      sr_safety_violations r = safety_violations (checker (sim st))
  end.

Definition early_ok (config : SimConfig) (o : option SimResult) (st : @RunState H) : Prop :=
  match o with Some r => verdict_ok config r st | None => True end.

Lemma on_sim_pure {A} (m : M Sim A) (Q : A → @RunState H → Prop) st :
  wp any_panic m (λ a s, s = sim st ∧ Q a st) (sim st) → wp any_panic (on_sim m) Q st.
Proof.
  unfold wp, on_sim. destruct (m (sim st)) as [[a s]|]; [|done]. intros [-> HQ]. by destruct st.
Qed.

Lemma count_messages_ok s : wp any_panic count_messages (λ _ s', s' = s) s.
Proof.
  unfold count_messages, on_network, wp, on_field, total_messages, bind, get, add_overflow.
  destruct (_ <=? _); [|done]. by destruct s.
Qed.

Lemma on_count_messages (Q : Z → @RunState H → Prop) st :
  (∀ n, Q n st) → wp any_panic (on_sim count_messages) Q st.
Proof. intros HQ. apply on_sim_pure. eapply wp_mono; [apply count_messages_ok|]. by intros n s ->. Qed.

Lemma stop_on_violation_ok config t1 t2 (st : @RunState H) :
  wp any_panic (stop_on_violation config t1 t2) (λ o st', st' = st ∧
    match o with
    | Some r => verdict_ok config r st
    | None => safety_violations (checker (sim st)) ≤ 0
    end) st.
Proof.
  unfold stop_on_violation. wp_step. apply on_count_messages. intros n. wp_step. apply wp_get, wp_ret.
  split; [done|].
  destruct (Z.ltb_spec 0 (safety_violations (checker (sim st)))) as [Hv|Hv]; [by repeat split|done].
Qed.

Lemma phase1_ok config n tick (st : @RunState H) :
  wp any_panic (phase1 debug_str config n tick) (early_ok config) st.
Proof.
  revert tick st. induction n as [|n IH]; intros tick st; [by apply wp_ret|]. cbn [phase1].
  unfold phase1_tick. wp_step. do 3 (apply wp_any_bind; intros _ ?).
  eapply wp_mono; [apply stop_on_violation_ok|]. intros [r|] st' [-> Hr]; [by apply wp_ret|apply IH].
Qed.

Lemma phase2_ok config start n tick (st : @RunState H) :
  0 ≤ tick → tick + Z.of_nat n = liveness_ticks config →
  wp any_panic (phase2 debug_str config start n tick) (early_ok config) st.
Proof.
  revert tick st. induction n as [|n IH]; intros tick st Ht Hn; [by apply wp_ret|]. cbn [phase2].
  unfold phase2_tick. wp_step. do 5 (apply wp_any_bind; intros ? ?).
  wp_step. eapply wp_mono; [apply stop_on_violation_ok|].
  intros [r|] st' [-> Hr]; [by wp_step; apply wp_ret|]. wp_step. apply on_sim_pure.
  eapply wp_mono; [apply check_convergence_ok|]. intros b s2 [-> Hb]. split; [done|].
  wp_step. apply on_count_messages. intros msgs. apply wp_ret. destruct b.
  - apply wp_ret. repeat split; simpl; [done| |lia|lia]. exists start. by apply Hb.
  - apply IH; lia.
Qed.

(** A verdict of the runner means what it says.  [Passed]: the checker recorded
    nothing, and when the run ended every agent had registered anew, every pod of the
    workload had been reported as running, stopped or failed by its agent, and every
    tracked pod rested, within the ticks allowed.  [SafetyViolation]: the result carries
    the checker's count, which is positive.  [LivenessFailure]: all the ticks were used. *)
Theorem run_verdict (h : H) (sc : list nat) (config : SimConfig) (r : SimResult) (st : @RunState H) :
  0 ≤ liveness_ticks config → run debug_str h sc config = Done (r, st) → verdict_ok config r st.
Proof.
  intros Hl. unfold run. apply wp_any_done. unfold run_body. apply wp_any_bind. intros ? st1.
  wp_step. eapply wp_mono; [apply phase1_ok|]. intros [r1|] st2 Hr; [by apply wp_ret|].
  apply wp_any_bind. intros start st3. wp_step. eapply wp_mono; [apply phase2_ok; lia|].
  intros [r2|] st4 Hr2; [by apply wp_ret|]. apply wp_any_bind. intros ? st5.
  wp_step. apply on_count_messages. intros msgs. wp_step. apply wp_get, wp_ret. by repeat split.
Qed.

End verdict.
