(* ===== verification/Fuzz.v ===== *)
(** * The simulation fuzzer: [worker/src/bin/fuzz.rs]

    Runs the simulation for many seeds, on several threads, and replays one.  The threads
    share only the corpus, to which they append under a lock; here each runs its range in
    turn, which is one order of those appends.  What the clock, the corpus file and the
    simulations' own threads do is given per seed index ([FuzzWorld]). *)

From S2P Require Import Prelude Types Prng RustStr RustParse Traits.
From S2P Require Import Worker SimNetwork SimRuntime SimRunner.

Definition PARAM_COUNT : Z := 12.

(** ** The command line *)

Record FuzzArgs := mkFuzzArgs {
  fa_mode : string;
  fa_seed_count : Z;
  fa_budget_secs : Z;
  fa_thread_count : Z;
  fa_mutate : bool;
  fa_replay_seed : option Z;
  fa_verbose : bool
}.

Definition default_fuzz_args : FuzzArgs := mkFuzzArgs "sequential" 1000 0 0 false None false.

(** [parse::<u64>] and [parse::<usize>] on a 64-bit machine. *)
Definition parse_u64 : string → option Z := parse_unsigned U64_MAX.

(** A word with the word after it, if there is one: the options that take a value. *)
Definition take_value (arg value : string) (a : FuzzArgs) : option FuzzArgs :=
  let '(mkFuzzArgs m s b t mu r v) := a in
  if String.eqb arg "replay" then Some (mkFuzzArgs "replay" s b t mu (parse_u64 value) v)
  else if String.eqb arg "--seeds" then Some (mkFuzzArgs m (default 1000 (parse_u64 value)) b t mu r v)
  else if String.eqb arg "--budget" then Some (mkFuzzArgs m s (default 0 (parse_u64 value)) t mu r v)
  else if String.eqb arg "--threads" then Some (mkFuzzArgs m s b (default 1 (parse_u64 value)) mu r v)
  else None.

(** A word on its own; unknown ones are skipped. *)
Definition take_word (arg : string) (a : FuzzArgs) : FuzzArgs :=
  let '(mkFuzzArgs m s b t mu r v) := a in
  if String.eqb arg "sequential" then mkFuzzArgs "sequential" s b t mu r v
  else if String.eqb arg "random" then mkFuzzArgs "random" s b t mu r v
  else if String.eqb arg "--mutate" then mkFuzzArgs m s b t true r v
  else if String.eqb arg "--verbose" then mkFuzzArgs m s b t mu r true
  else a.

(** The loop over [args[1..]]. *)
Fixpoint parse_fuzz_args (args : list string) (a : FuzzArgs) : FuzzArgs :=
  match args with
  | [] => a
  | arg :: rest =>
    match rest with
    | value :: rest' =>
      match take_value arg value a with
      | Some a => parse_fuzz_args rest' a
      | None => parse_fuzz_args rest (take_word arg a)
      end
    | [] => take_word arg a
    end
  end.

(** ** Threads and their ranges *)

Definition resolve_thread_count (seed_count thread_count_arg available : Z) : outcome Z :=
  if seed_count =? 0 then Done 1
  else
    let requested := if thread_count_arg =? 0 then available else thread_count_arg in
    assert_or (0 <? requested) "thread count must be positive or 0 for auto"
      (Done (Z.max (Z.min requested seed_count) 1)).

Definition thread_range (seed_count thread_count thread_index : Z) : outcome (Z * Z) :=
  assert_or (0 <? thread_count) "thread count must be positive"
    (assert_or (thread_index <? thread_count) "thread index out of bounds"
      (let base := seed_count / thread_count in
       let extra := seed_count mod thread_count in
       let start := thread_index * base + Z.min thread_index extra in
       let len := base + (if thread_index <? extra then 1 else 0) in
       Done (start, start + len))).

(** ** Configurations *)

Definition base_config : SimConfig :=
  let d := sim_config_default in
  mkSimConfig 0 (cfg_agent_count d) (safety_ticks d) (liveness_ticks d) (cfg_pod_count d) (partition_probability d)
    (heal_probability d) (pause_probability d) (cfg_image_pull_failure_rate d) (cfg_container_crash_rate d)
    (cfg_gpu_failure_rate d) (cfg_partition_stability d) (cfg_heal_stability d) (pause_stability d) (cfg_drop_rate d)
    (cfg_replay_rate d) (cfg_path_max_capacity d).

(** [config.field = x]. *)
Definition with_seed x (c : SimConfig) : SimConfig :=
  mkSimConfig x (cfg_agent_count c) (safety_ticks c) (liveness_ticks c) (cfg_pod_count c)
    (partition_probability c) (heal_probability c) (pause_probability c) (cfg_image_pull_failure_rate c)
    (cfg_container_crash_rate c) (cfg_gpu_failure_rate c) (cfg_partition_stability c) (cfg_heal_stability c)
    (pause_stability c) (cfg_drop_rate c) (cfg_replay_rate c) (cfg_path_max_capacity c).
Definition with_agent_count x (c : SimConfig) : SimConfig :=
  mkSimConfig (cfg_seed c) x (safety_ticks c) (liveness_ticks c) (cfg_pod_count c) (partition_probability c)
    (heal_probability c) (pause_probability c) (cfg_image_pull_failure_rate c) (cfg_container_crash_rate c)
    (cfg_gpu_failure_rate c) (cfg_partition_stability c) (cfg_heal_stability c) (pause_stability c)
    (cfg_drop_rate c) (cfg_replay_rate c) (cfg_path_max_capacity c).
Definition with_safety_ticks x (c : SimConfig) : SimConfig :=
  mkSimConfig (cfg_seed c) (cfg_agent_count c) x (liveness_ticks c) (cfg_pod_count c)
    (partition_probability c) (heal_probability c) (pause_probability c) (cfg_image_pull_failure_rate c)
    (cfg_container_crash_rate c) (cfg_gpu_failure_rate c) (cfg_partition_stability c) (cfg_heal_stability c)
    (pause_stability c) (cfg_drop_rate c) (cfg_replay_rate c) (cfg_path_max_capacity c).
Definition with_liveness_ticks x (c : SimConfig) : SimConfig :=
  mkSimConfig (cfg_seed c) (cfg_agent_count c) (safety_ticks c) x (cfg_pod_count c) (partition_probability c)
    (heal_probability c) (pause_probability c) (cfg_image_pull_failure_rate c) (cfg_container_crash_rate c)
    (cfg_gpu_failure_rate c) (cfg_partition_stability c) (cfg_heal_stability c) (pause_stability c)
    (cfg_drop_rate c) (cfg_replay_rate c) (cfg_path_max_capacity c).
Definition with_pod_count x (c : SimConfig) : SimConfig :=
  mkSimConfig (cfg_seed c) (cfg_agent_count c) (safety_ticks c) (liveness_ticks c) x (partition_probability c)
    (heal_probability c) (pause_probability c) (cfg_image_pull_failure_rate c) (cfg_container_crash_rate c)
    (cfg_gpu_failure_rate c) (cfg_partition_stability c) (cfg_heal_stability c) (pause_stability c)
    (cfg_drop_rate c) (cfg_replay_rate c) (cfg_path_max_capacity c).
Definition with_partition_probability x (c : SimConfig) : SimConfig :=
  mkSimConfig (cfg_seed c) (cfg_agent_count c) (safety_ticks c) (liveness_ticks c) (cfg_pod_count c) x
    (heal_probability c) (pause_probability c) (cfg_image_pull_failure_rate c) (cfg_container_crash_rate c)
    (cfg_gpu_failure_rate c) (cfg_partition_stability c) (cfg_heal_stability c) (pause_stability c)
    (cfg_drop_rate c) (cfg_replay_rate c) (cfg_path_max_capacity c).
Definition with_heal_probability x (c : SimConfig) : SimConfig :=
  mkSimConfig (cfg_seed c) (cfg_agent_count c) (safety_ticks c) (liveness_ticks c) (cfg_pod_count c)
    (partition_probability c) x (pause_probability c) (cfg_image_pull_failure_rate c)
    (cfg_container_crash_rate c) (cfg_gpu_failure_rate c) (cfg_partition_stability c) (cfg_heal_stability c)
    (pause_stability c) (cfg_drop_rate c) (cfg_replay_rate c) (cfg_path_max_capacity c).
Definition with_image_pull_failure_rate x (c : SimConfig) : SimConfig :=
  mkSimConfig (cfg_seed c) (cfg_agent_count c) (safety_ticks c) (liveness_ticks c) (cfg_pod_count c)
    (partition_probability c) (heal_probability c) (pause_probability c) x (cfg_container_crash_rate c)
    (cfg_gpu_failure_rate c) (cfg_partition_stability c) (cfg_heal_stability c) (pause_stability c)
    (cfg_drop_rate c) (cfg_replay_rate c) (cfg_path_max_capacity c).
Definition with_container_crash_rate x (c : SimConfig) : SimConfig :=
  mkSimConfig (cfg_seed c) (cfg_agent_count c) (safety_ticks c) (liveness_ticks c) (cfg_pod_count c)
    (partition_probability c) (heal_probability c) (pause_probability c) (cfg_image_pull_failure_rate c) x
    (cfg_gpu_failure_rate c) (cfg_partition_stability c) (cfg_heal_stability c) (pause_stability c)
    (cfg_drop_rate c) (cfg_replay_rate c) (cfg_path_max_capacity c).
Definition with_gpu_failure_rate x (c : SimConfig) : SimConfig :=
  mkSimConfig (cfg_seed c) (cfg_agent_count c) (safety_ticks c) (liveness_ticks c) (cfg_pod_count c)
    (partition_probability c) (heal_probability c) (pause_probability c) (cfg_image_pull_failure_rate c)
    (cfg_container_crash_rate c) x (cfg_partition_stability c) (cfg_heal_stability c) (pause_stability c)
    (cfg_drop_rate c) (cfg_replay_rate c) (cfg_path_max_capacity c).
Definition with_drop_rate x (c : SimConfig) : SimConfig :=
  mkSimConfig (cfg_seed c) (cfg_agent_count c) (safety_ticks c) (liveness_ticks c) (cfg_pod_count c)
    (partition_probability c) (heal_probability c) (pause_probability c) (cfg_image_pull_failure_rate c)
    (cfg_container_crash_rate c) (cfg_gpu_failure_rate c) (cfg_partition_stability c) (cfg_heal_stability c)
    (pause_stability c) x (cfg_replay_rate c) (cfg_path_max_capacity c).
Definition with_replay_rate x (c : SimConfig) : SimConfig :=
  mkSimConfig (cfg_seed c) (cfg_agent_count c) (safety_ticks c) (liveness_ticks c) (cfg_pod_count c)
    (partition_probability c) (heal_probability c) (pause_probability c) (cfg_image_pull_failure_rate c)
    (cfg_container_crash_rate c) (cfg_gpu_failure_rate c) (cfg_partition_stability c) (cfg_heal_stability c)
    (pause_stability c) (cfg_drop_rate c) x (cfg_path_max_capacity c).
Definition with_path_max_capacity x (c : SimConfig) : SimConfig :=
  mkSimConfig (cfg_seed c) (cfg_agent_count c) (safety_ticks c) (liveness_ticks c) (cfg_pod_count c)
    (partition_probability c) (heal_probability c) (pause_probability c) (cfg_image_pull_failure_rate c)
    (cfg_container_crash_rate c) (cfg_gpu_failure_rate c) (cfg_partition_stability c) (cfg_heal_stability c)
    (pause_stability c) (cfg_drop_rate c) (cfg_replay_rate c) x.

Definition random_ratio (max_num denom : Z) (p : Prng) : outcome (Ratio * Prng) :=
  let! (n, p) := prng_bounded (max_num + 1) p in Done (mkRatio n denom, p).

(** One arm of the [match] in [mutate_config]. *)
Definition mutate_ratio (set : Ratio → SimConfig → SimConfig) (max_num : Z) (c : SimConfig) (p : Prng)
    : outcome SimConfig :=
  let! (r, _) := random_ratio max_num 100 p in Done (set r c).
Definition mutate_number (set : Z → SimConfig → SimConfig) (low width : Z) (c : SimConfig) (p : Prng)
    : outcome SimConfig :=
  let! (n, _) := prng_bounded width p in Done (set (low + n) c).

Definition mutate_param (param : Z) (c : SimConfig) (p : Prng) : outcome SimConfig :=
  if param =? 0 then mutate_number (λ n, with_agent_count (Z.to_nat n)) 1 8 c p
  else if param =? 1 then mutate_number with_pod_count 5 45 c p
  else if param =? 2 then mutate_ratio with_partition_probability 15 c p
  else if param =? 3 then mutate_ratio with_heal_probability 20 c p
  else if param =? 4 then mutate_ratio with_image_pull_failure_rate 30 c p
  else if param =? 5 then mutate_ratio with_container_crash_rate 10 c p
  else if param =? 6 then mutate_ratio with_gpu_failure_rate 10 c p
  else if param =? 7 then mutate_number with_safety_ticks 100 900 c p
  else if param =? 8 then mutate_number with_liveness_ticks 100 400 c p
  else if param =? 9 then mutate_ratio with_drop_rate 5 c p
  else if param =? 10 then mutate_ratio with_replay_rate 3 c p
  else if param =? 11 then mutate_number (λ n, with_path_max_capacity (Z.to_nat n)) 1 64 c p
  else Panic "bounded mutation parameter must be exhaustive".

Definition mutate_config (base : SimConfig) (seed : Z) : outcome SimConfig :=
  let prng := prng_init (Z.lxor seed 12586774) in
  let! (param, prng) := prng_bounded PARAM_COUNT prng in
  let! config := mutate_param param base prng in
  Done (with_liveness_ticks (Z.max (liveness_ticks config) LIVENESS_RETRY_GRACE_TICKS) config).

(** The configuration a seed is run with, by the fuzzer and by [replay]. *)
Definition seed_config (mutate : bool) (seed : Z) : outcome SimConfig :=
  let! config := if mutate then mutate_config base_config seed else Done base_config in
  Done (with_seed seed config).

(** ** Running *)

Inductive FuzzMode := Sequential | Random.

Record ThreadResult := mkThreadResult {
  seeds_tested : Z;
  failures_found : Z;
  last_failure_seed : Z
}.
Definition thread_result_default : ThreadResult := mkThreadResult 0 0 0.

Definition outcome_debug (o : Outcome) : string :=
  match o with
  | Passed => "Passed" | SafetyViolation => "SafetyViolation" | LivenessFailure => "LivenessFailure"
  end.

#[export] Instance outcome_eq_dec : EqDecision Outcome.
Proof. solve_decision. Defined.

Definition ratio_text (r : Ratio) : string := quoted (fmt_int (numerator r) +:+ "/" +:+ fmt_int (denominator r)).

(** The line [record_failure] appends. *)
Definition failure_line (seed : Z) (config : SimConfig) (result : SimResult) : string :=
  let key k := quoted k +:+ ":" in
  "{" +:+ key "engine" +:+ quoted "rust" +:+ "," +:+ key "seed" +:+ fmt_int seed +:+ ","
  +:+ key "outcome" +:+ quoted (outcome_debug (sr_outcome result)) +:+ ","
  +:+ key "config" +:+ "{" +:+ key "agents" +:+ fmt_int (Z.of_nat (cfg_agent_count config)) +:+ ","
  +:+ key "pods" +:+ fmt_int (cfg_pod_count config) +:+ ","
  +:+ key "partition" +:+ ratio_text (partition_probability config) +:+ ","
  +:+ key "heal" +:+ ratio_text (heal_probability config) +:+ ","
  +:+ key "pull_fail" +:+ ratio_text (cfg_image_pull_failure_rate config) +:+ ","
  +:+ key "crash" +:+ ratio_text (cfg_container_crash_rate config) +:+ ","
  +:+ key "drop" +:+ ratio_text (cfg_drop_rate config) +:+ ","
  +:+ key "replay" +:+ ratio_text (cfg_replay_rate config) +:+ ","
  +:+ key "path_capacity" +:+ fmt_int (Z.of_nat (cfg_path_max_capacity config)) +:+ "},"
  +:+ key "result" +:+ "{" +:+ key "p1" +:+ fmt_int (phase1_ticks result) +:+ ","
  +:+ key "p2" +:+ fmt_int (phase2_ticks result) +:+ ","
  +:+ key "violations" +:+ fmt_int (sr_safety_violations result) +:+ ","
  +:+ key "messages" +:+ fmt_int (messages_sent result) +:+ "}}" +:+ newline.

Section fuzz.
  Context {H : Type} `{!Host H} (debug_str : string → string).

(** What is met at seed index [i]: the seconds since the start, the host and the thread
    schedule of its simulation, and whether the corpus can be opened and written. *)
Record FuzzWorld := mkFuzzWorld {
  fw_elapsed : Z → Z;
  fw_host : Z → H;
  fw_schedule : Z → list nat;
  fw_open : Z → bool;
  fw_write : Z → bool;
  fw_nanos : Z;          (* [SystemTime::now()] *)
  fw_parallelism : Z     (* [available_parallelism()] *)
}.

(** The corpus file, once it is open. *)
Abbreviation Corpus := (option (list string)).
Abbreviation FM := (M Corpus).

Definition lift {A} (o : outcome A) : FM A := λ s, match o with Done a => Done (a, s) | Panic e => Panic e end.

Definition record_failure (w : FuzzWorld) (index : Z) (line : string) : FM unit :=
  modify (λ file,
    let file := match file with Some f => Some f | None => if fw_open w index then Some [] else None end in
    match file with
    | None => None
    | Some f => Some (if fw_write w index then f ++ [line] else f)
    end).

(** [runner::run(&config)]. *)
Definition simulate (w : FuzzWorld) (index : Z) (config : SimConfig) : outcome SimResult :=
  let! (r, _) := run debug_str (fw_host w index) (fw_schedule w index) config in Done r.

Section worker.
  Context (w : FuzzWorld) (mode : FuzzMode) (random_seeds : list Z) (budget_secs : Z) (mutate : bool).

(** The loop of [fuzz_worker] over the indices of its range. *)
Fixpoint fuzz_loop (indices : list Z) (r : ThreadResult) : FM ThreadResult :=
  match indices with
  | [] => ret r
  | index :: indices =>
    if (0 <? budget_secs) && (budget_secs <=? fw_elapsed w index) then ret r
    else
      let* seed := match mode with Sequential => ret index | Random => Prelude.index random_seeds (Z.to_nat index) end in
      let* config := lift (seed_config mutate seed) in
      let* result := lift (simulate w index config) in
      let* tested := add_overflow U64_MAX (seeds_tested r) 1 in
      if negb (bool_decide (sr_outcome result = Passed)) then
        let* failures := add_overflow U64_MAX (failures_found r) 1 in
        record_failure w index (failure_line seed config result) ;;;
        fuzz_loop indices (mkThreadResult tested failures seed)
      else fuzz_loop indices (mkThreadResult tested (failures_found r) (last_failure_seed r))
  end.

Definition fuzz_worker (start_index end_index : Z) : FM ThreadResult :=
  fuzz_loop (seqZ start_index (end_index - start_index)) thread_result_default.

(** Spawning and joining the threads, adding up their results. *)
Fixpoint join_workers (seed_count thread_count : Z) (threads : list nat) (total : ThreadResult) : FM ThreadResult :=
  match threads with
  | [] => ret total
  | t :: threads =>
    let* (start_index, end_index) := lift (thread_range seed_count thread_count (Z.of_nat t)) in
    let* r := fuzz_worker start_index end_index in
    let* tested := add_overflow U64_MAX (seeds_tested total) (seeds_tested r) in
    let* failures := add_overflow U64_MAX (failures_found total) (failures_found r) in
    join_workers seed_count thread_count threads
      (mkThreadResult tested failures (Z.max (last_failure_seed total) (last_failure_seed r)))
  end.

End worker.

Definition fuzz_mode (mode : string) : FuzzMode := if String.eqb mode "random" then Random else Sequential.

Definition random_seeds_of (w : FuzzWorld) (mode : FuzzMode) (seed_count : Z) : list Z :=
  match mode with
  | Random => prng_stream (Z.to_nat seed_count) (prng_init (wrap64 (fw_nanos w)))
  | Sequential => []
  end.

(** [run_fuzzer]: its totals and the exit status of the process. *)
Definition run_fuzzer (w : FuzzWorld) (mode : string) (seed_count budget_secs thread_count_arg : Z) (mutate : bool)
    : FM (Z * ThreadResult) :=
  let mode := fuzz_mode mode in
  let* thread_count := lift (resolve_thread_count seed_count thread_count_arg (fw_parallelism w)) in
  let* total := join_workers w mode (random_seeds_of w mode seed_count) budget_secs mutate seed_count thread_count
                  (seq 0 (Z.to_nat thread_count)) thread_result_default in
  ret (if 0 <? failures_found total then 1 else 0, total).

(** [run_replay], as seed index [index] was run. *)
Definition run_replay (w : FuzzWorld) (index seed : Z) (mutate : bool) : outcome Z :=
  let! config := seed_config mutate seed in
  let! result := simulate w index config in
  Done (if bool_decide (sr_outcome result = Passed) then 0 else 1).

(** [main]: the exit status. *)
Definition fuzz_main (w : FuzzWorld) (args : list string) : FM Z :=
  let a := parse_fuzz_args args default_fuzz_args in
  if String.eqb (fa_mode a) "replay" then
    match fa_replay_seed a with
    | None => ret 2
    | Some seed => lift (run_replay w 0 seed (fa_mutate a))
    end
  else
    let* (code, _) := run_fuzzer w (fa_mode a) (fa_seed_count a) (fa_budget_secs a) (fa_thread_count a) (fa_mutate a) in
    ret code.

End fuzz.
Arguments mkFuzzWorld {H}.
