(* ===== verification/FuzzSafety.v ===== *)
(** * The fuzzer tests what it says

    Its threads share out the seeds without gap or overlap, its mutations keep a
    configuration well-formed, and its exit status tells whether a seed failed. *)

From S2P Require Import Prelude Types Prng RustStr RustParse Traits Worker SimNetwork SimRuntime SimRunner Fuzz.

(** ** Ranges *)

Lemma seqZ_split a b c : 0 ≤ b → 0 ≤ c → seqZ a (b + c) = seqZ a b ++ seqZ (a + b) c.
Proof. intros. by apply seqZ_app. Qed.

(** The start of a thread's range; also where the range before it ends. *)
Definition range_start (seed_count thread_count index : Z) : Z :=
  index * (seed_count / thread_count) + Z.min index (seed_count mod thread_count).

Lemma thread_range_done seed_count thread_count index :
  0 ≤ index < thread_count →
  thread_range seed_count thread_count index =
    Done (range_start seed_count thread_count index, range_start seed_count thread_count (index + 1)).
Proof.
  intros Hi. unfold thread_range, assert_or, range_start. rewrite (proj2 (Z.ltb_lt 0 _)) by lia.
  rewrite (proj2 (Z.ltb_lt index _)) by lia. cbv zeta. do 2 f_equal.
  destruct (Z.ltb_spec index (seed_count mod thread_count)); lia.
Qed.

Lemma range_start_mono seed_count thread_count i :
  0 ≤ seed_count → 0 < thread_count → 0 ≤ i →
  0 ≤ range_start seed_count thread_count (i + 1) - range_start seed_count thread_count i.
Proof.
  intros. unfold range_start. pose proof (Z.div_pos seed_count thread_count ltac:(lia) ltac:(lia)). lia.
Qed.

Lemma range_start_end seed_count thread_count :
  0 ≤ seed_count → 0 < thread_count →
  range_start seed_count thread_count 0 = 0 ∧ range_start seed_count thread_count thread_count = seed_count.
Proof.
  intros. unfold range_start. pose proof (Z.mod_pos_bound seed_count thread_count ltac:(lia)).
  pose proof (Z.div_mod seed_count thread_count ltac:(lia)). lia.
Qed.

(** The indices thread [t] works on. *)
Definition thread_indices (seed_count thread_count : Z) (t : nat) : list Z :=
  match thread_range seed_count thread_count (Z.of_nat t) with
  | Done (a, b) => seqZ a (b - a)
  | Panic _ => []
  end.

Lemma thread_indices_upto seed_count thread_count n :
  0 ≤ seed_count → 0 < thread_count → Z.of_nat n ≤ thread_count →
  concat (thread_indices seed_count thread_count <$> seq 0 n) = seqZ 0 (range_start seed_count thread_count (Z.of_nat n)).
Proof.
  intros Hs Ht. induction n as [|n IH]; intros Hn.
  - change (Z.of_nat 0) with 0. by destruct (range_start_end seed_count thread_count Hs Ht) as [-> _].
  - rewrite seq_S, fmap_app, concat_app, IH by lia. simpl. rewrite app_nil_r.
    unfold thread_indices at 1. rewrite thread_range_done by lia.
    replace (Z.of_nat (S n)) with (Z.of_nat n + 1) by lia.
    pose proof (range_start_mono seed_count thread_count (Z.of_nat n) Hs Ht ltac:(lia)).
    assert (0 ≤ range_start seed_count thread_count (Z.of_nat n)).
    { unfold range_start. pose proof (Z.div_pos seed_count thread_count ltac:(lia) ltac:(lia)).
      pose proof (Z.mod_pos_bound seed_count thread_count ltac:(lia)). lia. }
    rewrite <-(seqZ_split 0 (range_start seed_count thread_count (Z.of_nat n))) by lia. f_equal. lia.
Qed.

(** The fuzzer's threads share out the seeds.  For any number of seeds and threads
    the ranges of the threads, one after the other, are exactly the indices 0 to
    [seed_count] - 1 in order: no seed is tested twice and none is left out; and no
    thread has more than one seed more than another. *)
Theorem thread_ranges_partition (seed_count thread_count : Z) :
  0 ≤ seed_count → 0 < thread_count →
  concat (thread_indices seed_count thread_count <$> seq 0 (Z.to_nat thread_count)) = seqZ 0 seed_count ∧
  (∀ i j, 0 ≤ i < thread_count → 0 ≤ j < thread_count →
     ∃ a b c d, thread_range seed_count thread_count i = Done (a, b) ∧
       thread_range seed_count thread_count j = Done (c, d) ∧ Z.abs ((b - a) - (d - c)) ≤ 1).
Proof.
  intros Hs Ht. split.
  - rewrite thread_indices_upto by lia. rewrite Z2Nat.id by lia.
    by destruct (range_start_end seed_count thread_count Hs Ht) as [_ ->].
  - intros i j Hi Hj. eexists _, _, _, _. split; [by apply thread_range_done|]. split; [by apply thread_range_done|].
    unfold range_start. lia.
Qed.

(** ** Mutations *)

Definition ratio_proper (r : Ratio) : Prop := 0 ≤ numerator r ≤ denominator r ∧ 0 < denominator r ≤ U32_MAX.

(** The configurations the fuzzer runs. *)
Record config_wf (c : SimConfig) : Prop := {
  cw_agents : (1 ≤ cfg_agent_count c ≤ 8)%nat;
  cw_pods : 5 ≤ cfg_pod_count c ≤ 49;
  cw_safety : 100 ≤ safety_ticks c ≤ 999;
  cw_liveness : LIVENESS_RETRY_GRACE_TICKS ≤ liveness_ticks c ≤ Z.max 499 LIVENESS_RETRY_GRACE_TICKS;
  cw_path : (cfg_path_max_capacity c ≤ 64)%nat;
  cw_ratios : Forall ratio_proper [partition_probability c; heal_probability c; pause_probability c;
    cfg_image_pull_failure_rate c; cfg_container_crash_rate c; cfg_gpu_failure_rate c; cfg_drop_rate c; cfg_replay_rate c]
}.

Lemma prng_bounded_done bound p : 0 < bound → ∃ x p', prng_bounded bound p = Done (x, p') ∧ 0 ≤ x < bound.
Proof.
  intros Hb. unfold prng_bounded, assert_or. rewrite (proj2 (Z.ltb_lt _ _) Hb).
  destruct (prng_next p) as [x p']. eexists _, _. split; [done|]. by apply Z.mod_pos_bound.
Qed.

Lemma mutate_number_done set low width c p :
  0 < width → ∃ n, mutate_number set low width c p = Done (set n c) ∧ low ≤ n < low + width.
Proof.
  intros Hw. unfold mutate_number. destruct (prng_bounded_done width p Hw) as (x & p' & -> & Hx).
  exists (low + x). split; [done|lia].
Qed.

Lemma mutate_ratio_done set max_num c p :
  0 ≤ max_num ≤ 100 → ∃ r, mutate_ratio set max_num c p = Done (set r c) ∧ ratio_proper r.
Proof.
  intros Hm. unfold mutate_ratio, random_ratio. destruct (prng_bounded_done (max_num + 1) p) as (x & p' & -> & Hx);
    [lia|]. exists (mkRatio x 100). split; [done|]. unfold ratio_proper, U32_MAX. simpl. lia.
Qed.

Definition raise_liveness (c : SimConfig) : SimConfig :=
  with_liveness_ticks (Z.max (liveness_ticks c) LIVENESS_RETRY_GRACE_TICKS) c.

(** Closes [config_wf] of an updated configuration. *)
Ltac config_solve :=
  constructor; cbn [with_agent_count with_pod_count with_partition_probability with_heal_probability
    with_image_pull_failure_rate with_container_crash_rate with_gpu_failure_rate with_safety_ticks with_liveness_ticks
    with_drop_rate with_replay_rate with_path_max_capacity raise_liveness cfg_agent_count cfg_pod_count safety_ticks
    liveness_ticks cfg_path_max_capacity partition_probability heal_probability pause_probability
    cfg_image_pull_failure_rate cfg_container_crash_rate cfg_gpu_failure_rate cfg_drop_rate cfg_replay_rate];
  try lia; try (rewrite !Forall_cons in *; tauto).

Lemma mutate_param_wf param c p :
  0 ≤ param < PARAM_COUNT → config_wf c →
  ∃ c', mutate_param param c p = Done c' ∧ config_wf (raise_liveness c') ∧
    pause_probability c' = pause_probability c ∧ cfg_seed c' = cfg_seed c.
Proof.
  unfold PARAM_COUNT. intros Hp []. unfold mutate_param.
  repeat match goal with |- context [param =? ?k] => destruct (Z.eqb_spec param k) as [_|]; cbn iota end;
    lazymatch goal with
    | |- context [mutate_number ?set ?low ?width c p] =>
      destruct (mutate_number_done set low width c p) as (drawn & E & Hd); [lia|rewrite E]
    | |- context [mutate_ratio ?set ?m c p] =>
      destruct (mutate_ratio_done set m c p) as (drawn & E & Hd); [lia|rewrite E]
    | |- _ => lia
    end; (eexists; split; [reflexivity|]; split; [config_solve|done]).
Qed.

(** Mutation keeps configurations well-formed.  For every seed [mutate_config]
    returns (its [unreachable!] is not reached), and the result is again a configuration
    with 1 to 8 agents, 5 to 49 pods, 100 to 999 safety ticks, at least
    [LIVENESS_RETRY_GRACE_TICKS] liveness ticks and probabilities between 0 and 1. *)
Theorem mutate_config_wf (base : SimConfig) (seed : Z) :
  config_wf base → ∃ config, mutate_config base seed = Done config ∧ config_wf config ∧
    pause_probability config = pause_probability base ∧ cfg_seed config = cfg_seed base.
Proof.
  intros Hb. unfold mutate_config. cbv zeta.
  destruct (prng_bounded_done PARAM_COUNT (prng_init (Z.lxor seed 12586774))) as (param & p & -> & Hp); [done|].
  cbn [outcome_bind]. destruct (mutate_param_wf param base p Hp Hb) as (c & -> & Hc & Hsame).
  eexists. split; [reflexivity|]. split; [exact Hc|exact Hsame].
Qed.

(** ** The verdict *)

Section verdict.
  Context {H : Type} `{!Host H} (debug_str : string → string).
  Context (w : @FuzzWorld H) (mode : FuzzMode) (seeds : list Z) (mutate : bool) (seed_count : Z).
  Implicit Types r : ThreadResult.

(** The seed and the simulation at an index. *)
Definition seed_at (i : Z) : Z :=
  match mode with Sequential => i | Random => default 0 (seeds !! Z.to_nat i) end.
Definition run_index (i : Z) : outcome SimResult :=
  let! config := seed_config mutate (seed_at i) in simulate debug_str w i config.
Definition failed (i : Z) : bool :=
  match run_index i with Done r => negb (bool_decide (sr_outcome r = Passed)) | Panic _ => false end.
Definition count_failed (l : list Z) : Z := sum_with (count_of failed) l.

Definition index_ok (i : Z) : Prop := 0 ≤ i < seed_count ∧ (mode = Random → is_Some (seeds !! Z.to_nat i)).
(** A panic of one of the simulations. *)
Definition simulation_panics (e : string) : Prop := ∃ i, 0 ≤ i < seed_count ∧ run_index i = Panic e.

Lemma count_failed_bounds l : 0 ≤ count_failed l ≤ Z.of_nat (length l).
Proof.
  unfold count_failed. induction l as [|i l IH]; simpl; [lia|]. unfold count_of at 1 3. destruct (failed i); lia.
Qed.

Lemma wp_lift {A} P (o : outcome A) Q (c : option (list string)) :
  match o with Done a => Q a c | Panic e => P e end → wp P (lift o) Q c.
Proof. unfold wp, lift. by destruct o. Qed.

Lemma wp_seed_at P i (Q : Z → option (list string) → Prop) c :
  index_ok i → Q (seed_at i) c →
  wp P (match mode with Sequential => ret i | Random => index seeds (Z.to_nat i) end) Q c.
Proof.
  intros [_ Hi] HQ. unfold seed_at in *. destruct mode; [by apply wp_ret|]. destruct (Hi eq_refl) as [s Hs].
  unfold index, expect. rewrite Hs in *. by apply wp_ret.
Qed.

Lemma fuzz_loop_ok l r c :
  Forall index_ok l → 0 ≤ failures_found r ≤ seeds_tested r → seeds_tested r + Z.of_nat (length l) ≤ U64_MAX →
  wp simulation_panics (fuzz_loop debug_str w mode seeds 0 mutate l r)
    (λ r' _, seeds_tested r' = seeds_tested r + Z.of_nat (length l) ∧
             failures_found r' = failures_found r + count_failed l) c.
Proof.
  intros Hl. revert r c. induction Hl as [|i l Hi _ IH]; intros r c Hr Hu; cbn [fuzz_loop length] in *.
  { apply wp_ret. unfold count_failed. simpl. lia. }
  cbn [Z.ltb Z.compare andb]. wp_step. apply wp_seed_at; [done|]. wp_step. apply wp_lift.
  unfold count_failed. cbn [sum_with foldr]. fold (sum_with (count_of failed) l). unfold count_of at 1, failed at 1.
  destruct (seed_config mutate (seed_at i)) as [config|e] eqn:Ec.
  2: { exists i. split; [apply Hi|]. unfold run_index. by rewrite Ec. }
  assert (Ei : run_index i = simulate debug_str w i config) by (unfold run_index; by rewrite Ec).
  rewrite Ei. wp_step. apply wp_lift. destruct (simulate debug_str w i config) as [result|e].
  2: { exists i. split; [apply Hi|done]. }
  wp_step. apply wp_add_overflow; [lia|].
  destruct (negb _).
  - wp_step. apply wp_add_overflow; [lia|]. unfold record_failure. wp_step. apply wp_modify.
    eapply wp_mono; [apply IH; cbn [seeds_tested failures_found]; lia|]. intros r' ? [-> ->].
    cbn [seeds_tested failures_found]. unfold count_failed. lia.
  - eapply wp_mono; [apply IH; cbn [seeds_tested failures_found]; lia|]. intros r' ? [-> ->].
    cbn [seeds_tested failures_found]. unfold count_failed. lia.
Qed.

Lemma count_failed_app l k : count_failed (l ++ k) = count_failed l + count_failed k.
Proof. apply sum_with_app. Qed.

(** The indices of the threads in [ts]. *)
Definition indices_of (thread_count : Z) (ts : list nat) : list Z :=
  concat (thread_indices seed_count thread_count <$> ts).

Lemma join_workers_ok thread_count ts total c :
  (∀ t, t ∈ ts → Z.of_nat t < thread_count) → Forall index_ok (indices_of thread_count ts) →
  0 ≤ failures_found total ≤ seeds_tested total →
  seeds_tested total + Z.of_nat (length (indices_of thread_count ts)) ≤ U64_MAX →
  wp simulation_panics (join_workers debug_str w mode seeds 0 mutate seed_count thread_count ts total)
    (λ r' _, seeds_tested r' = seeds_tested total + Z.of_nat (length (indices_of thread_count ts)) ∧
             failures_found r' = failures_found total + count_failed (indices_of thread_count ts)) c.
Proof.
  revert total c. induction ts as [|t ts IH]; intros total c Ht Hall Hf Hu; cbn [join_workers].
  { apply wp_ret. unfold count_failed, indices_of. simpl. lia. }
  assert (Hr : thread_range seed_count thread_count (Z.of_nat t) = Done
    (range_start seed_count thread_count (Z.of_nat t), range_start seed_count thread_count (Z.of_nat t + 1))).
  { apply thread_range_done. split; [lia|]. apply Ht. by left. }
  assert (El : indices_of thread_count (t :: ts) = thread_indices seed_count thread_count t ++ indices_of thread_count ts)
    by done.
  rewrite El in *. apply Forall_app in Hall as [Hall1 Hall2]. rewrite length_app in *. rewrite count_failed_app.
  unfold thread_indices in *. rewrite Hr in *. wp_step. apply wp_lift. unfold fuzz_worker. set (l := seqZ _ _) in *.
  pose proof (count_failed_bounds l).
  wp_step. eapply wp_mono; [apply fuzz_loop_ok; [done|simpl; lia|simpl; lia]|]. cbn [thread_result_default seeds_tested failures_found].
  intros r' c' [E1 E2]. wp_step. apply wp_add_overflow; [lia|]. wp_step. apply wp_add_overflow; [lia|].
  eapply wp_mono; [apply IH; cbn [seeds_tested failures_found]; [|done|lia|lia]|].
  - intros u Hu'. apply Ht. by right.
  - cbn [seeds_tested failures_found]. intros r'' ? [-> ->]. lia.
Qed.

End verdict.

Lemma length_prng_stream n p : length (prng_stream n p) = n.
Proof. revert p. induction n as [|n IH]; intros p; [done|]. cbn [prng_stream]. destruct (prng_next p). simpl. by rewrite IH. Qed.

Lemma resolve_thread_count_done seed_count threads available :
  0 ≤ seed_count → 0 ≤ threads → 0 < available →
  ∃ n, resolve_thread_count seed_count threads available = Done n ∧ 0 < n.
Proof.
  intros Hs Ht Ha. unfold resolve_thread_count, assert_or. destruct (Z.eqb_spec seed_count 0); [by exists 1|].
  rewrite (proj2 (Z.ltb_lt 0 _)) by (destruct (Z.eqb_spec threads 0); lia). eexists. split; [done|]. lia.
Qed.

Lemma filter_length_pos {A} (p : A → bool) l :
  0 < Z.of_nat (length (filter (λ x, p x = true) l)) ↔ ∃ x, x ∈ l ∧ p x = true.
Proof.
  induction l as [|x l IH]; [split; [simpl; lia|by intros (x & Hx%elem_of_nil & _)]|].
  rewrite filter_cons. case_decide as Hx.
  - split; [|simpl; lia]. intros _. exists x. split; [by left|done].
  - rewrite IH. split; intros (y & Hy & Hp); exists y; [split; [by right|done]|].
    apply elem_of_cons in Hy as [->|Hy]; done.
Qed.

Lemma run_fuzzer_ok {H : Type} `{!Host H} (debug_str : string → string) (w : @FuzzWorld H) (mode : string)
    (seed_count threads : Z) (mutate : bool) (corpus : option (list string)) :
  0 ≤ seed_count ≤ U64_MAX → 0 ≤ threads → 0 < fw_parallelism w →
  let seeds := random_seeds_of w (fuzz_mode mode) seed_count in
  wp (simulation_panics debug_str w (fuzz_mode mode) seeds mutate seed_count)
    (run_fuzzer debug_str w mode seed_count 0 threads mutate)
    (λ ct _, seeds_tested ct.2 = seed_count ∧
       failures_found ct.2 = count_failed debug_str w (fuzz_mode mode) seeds mutate (seqZ 0 seed_count) ∧
       ct.1 = if 0 <? failures_found ct.2 then 1 else 0) corpus.
Proof.
  intros Hs Ht Hp seeds. destruct (resolve_thread_count_done seed_count threads (fw_parallelism w)) as (n & En & Hn);
    [lia|done|done|].
  assert (Hidx : indices_of seed_count n (seq 0 (Z.to_nat n)) = seqZ 0 seed_count).
  { unfold indices_of. rewrite thread_indices_upto by lia. rewrite Z2Nat.id by lia.
    by destruct (range_start_end seed_count n) as [_ ->]; [lia|lia|]. }
  unfold run_fuzzer. cbv zeta. wp_step. apply wp_lift. rewrite En. wp_step.
  eapply wp_mono; [apply join_workers_ok; rewrite ?Hidx; cbn [thread_result_default seeds_tested failures_found]|].
  - intros t [_ ?]%elem_of_seq. lia.
  - apply Forall_forall. intros i Hi%elem_of_seqZ. split; [lia|]. intros Em. subst seeds. rewrite Em.
    apply lookup_lt_is_Some. unfold random_seeds_of. rewrite length_prng_stream. lia.
  - lia.
  - rewrite length_seqZ. lia.
  - intros total c. rewrite Hidx, length_seqZ. cbn [thread_result_default seeds_tested failures_found].
    intros [E1 E2]. apply wp_ret. cbn [fst snd]. split; [lia|]. split; [exact E2|done].
Qed.

(** The fuzzer tests every seed and its exit status is the verdict.  Without a time
    budget, for any number of threads, in either mode, [run_fuzzer] tests each of the
    [seed_count] seeds, counts exactly the failing ones, and exits with 1 if there is a
    failing seed and with 0 otherwise; it panics only if one of the simulations panics.
    A failing seed fails again under [replay], with the same configuration. *)
Theorem fuzzer_verdict {H : Type} `{!Host H} (debug_str : string → string) (w : @FuzzWorld H) (mode : string)
    (seed_count threads : Z) (mutate : bool) (corpus : option (list string)) :
  0 ≤ seed_count ≤ U64_MAX → 0 ≤ threads → 0 < fw_parallelism w →
  let seeds := random_seeds_of w (fuzz_mode mode) seed_count in
  let fails := failed debug_str w (fuzz_mode mode) seeds mutate in
  match run_fuzzer debug_str w mode seed_count 0 threads mutate corpus with
  | Done ((code, total), _) =>
    seeds_tested total = seed_count ∧ failures_found total = Z.of_nat (length (filter (λ i, fails i = true) (seqZ 0 seed_count))) ∧
    (code = 1 ↔ ∃ i, 0 ≤ i < seed_count ∧ fails i = true) ∧ (code = 0 ∨ code = 1)
  | Panic e => ∃ i, 0 ≤ i < seed_count ∧ run_index debug_str w (fuzz_mode mode) seeds mutate i = Panic e
  end ∧
  (∀ i, fails i = true → run_replay debug_str w i (seed_at (fuzz_mode mode) seeds i) mutate = Done 1).
Proof.
  intros Hs Ht Hp seeds fails. split.
  - pose proof (run_fuzzer_ok debug_str w mode seed_count threads mutate corpus Hs Ht Hp) as Hwp. cbv zeta in Hwp.
    fold seeds in Hwp. unfold wp in Hwp.
    destruct (run_fuzzer debug_str w mode seed_count 0 threads mutate corpus) as [[[code total] c]|e]; [|exact Hwp].
    destruct Hwp as (E1 & E2 & E3). cbn [fst snd] in E1, E2, E3. unfold count_failed in E2. rewrite sum_with_count in E2.
    fold fails in E2. split; [done|]. split; [exact E2|].
    assert (Hiff : 0 < failures_found total ↔ ∃ i, 0 ≤ i < seed_count ∧ fails i = true).
    { rewrite E2, filter_length_pos. f_equiv. intros i. by rewrite elem_of_seqZ. }
    rewrite E3, <-Hiff. destruct (Z.ltb_spec 0 (failures_found total)); split; [done|by right|lia|by left].
  - intros i Hi. unfold fails, failed, run_index in Hi. unfold run_replay.
    destruct (seed_config mutate _) as [config|]; [|done]. cbn [outcome_bind] in *.
    destruct (simulate debug_str w i config) as [result|]; [|done]. cbn [outcome_bind].
    by destruct (bool_decide _).
Qed.
