(* ===== verification/WorkerExamples.v ===== *)
(** * Concrete workers

    A concrete host, a boolean version of the invariant, and workers over the
    simulated [Io] and runtime: the instances at which the worker's theorems are
    witnessed, and the states that show where the code departs from its intent. *)

From S2P Require Import Prelude Types Prng RustStr Protocol Traits Volumes Secrets Worker WorkerInv.
From S2P Require Import WorkerThreads WorkerSafety WorkerSpec WorkerShutdown SimIo SimRuntime SimChecker.
From S2P Require Import SimNetwork SimControlPlane Simulator SimulatorSafety SimRunner Crypto Frame RealIo.

(** ** A host *)

(** Nothing is mounted; [th_stuck]: pod directories cannot be removed. *)
Record TestHost := mkTestHost { th_clock : Z; th_stuck : bool }.

#[export] Instance test_host : Host TestHost := {
  instant_now h := (th_clock h, mkTestHost (th_clock h + NANOS_PER_MILLI) (th_stuck h));
  env_var _ _ := None;
  create_dir_all _ h := (Ok tt, h);
  command_output _ h := (Ok (mkCommandOutput (Some 0) [] []), h);
  read_to_string _ h := (Ok ""%string, h);
  remove_dir_all _ h := (Err (if th_stuck h then FsOther "Device or resource busy" else FsNotFound), h);
  path_exists _ h := (th_stuck h, h);
  http_get _ _ h := (Err "offline"%string, h);
  json_value_raw _ := None
}.

Abbreviation SimCtx := (@Ctx SimulatedIo SimulatedRuntime TestHost).

Definition sim_ctx (w : Worker) (i : SimulatedIo) (r : SimulatedRuntime) (stuck : bool) : SimCtx :=
  mkCtx w i r (mkTestHost 0 stuck) [].

(** ** Deciding the invariant *)

Definition handle_fits_b (s : TrackedPodState) (h : option PodHandle) : bool :=
  match s with
  | Starting | Running => bool_decide (is_Some h)
  | Stopping => true
  | _ => bool_decide (h = None)
  end.

Definition scrubbed_b (p : TrackedPod) : bool :=
  str_is_empty (entrypoint p) && bool_decide (env_vars p = []) && str_is_empty (juicefs_path p)
  && match image_pull_auth p with None => true | Some _ => false end.

Definition range_b (lo hi x : Z) : bool := (lo <=? x) && (x <=? hi).

Definition pod_wf_b (k : Z) (p : TrackedPod) : bool :=
  (pod_id p =? k) && handle_fits_b (state p) (handle p)
  && (negb (is_terminal (state p)) || scrubbed_b p)
  && range_b 0 U8_MAX (gpu_count p) && range_b 0 U32_MAX (cpu_millicores p)
  && range_b 0 U32_MAX (memory_megabytes p) && range_b 0 STOP_ATTEMPT_MAX (lifecycle_failures p)
  && range_b 0 MAX_STOP_GRACE_MS (grace_period_ms p) && range_b 0 TICK_MAX (last_probe_tick p)
  && (probe_interval_ms p =? 10000) && range_b 0 U8_MAX (consecutive_failures p).

Definition winv_b (w : Worker) : bool :=
  forallb (λ kp, pod_wf_b kp.1 kp.2) (map_to_list (pods w))
  && forallb (λ kr, bool_decide (state <$> pods w !! kr.1 = Some Stopping))
       (map_to_list (pending_failure_reasons w))
  && (gpu_allocated w =? map_sum (live gpu_count) (pods w))
  && (cpu_allocated_millicores w =? map_sum (live cpu_millicores) (pods w))
  && (memory_allocated_megabytes w =? map_sum (live memory_megabytes) (pods w))
  && (gpu_allocated w <=? gpu_total w) && (gpu_total w <? U8_MAX)
  && (cpu_allocated_millicores w <=? cpu_total w) && (cpu_total w <? U32_MAX)
  && (memory_allocated_megabytes w <=? memory_total w) && (memory_total w <? U32_MAX)
  && (Z.of_nat (size (pods w)) <=? 4096) && (terminal_count w <=? 1024)
  && range_b 1 32 (lifecycle_concurrency w) && range_b 0 TICK_MAX (last_heartbeat_tick w).

Lemma range_b_true lo hi x : range_b lo hi x = true → lo ≤ x ≤ hi.
Proof. unfold range_b. rewrite andb_true_iff, !Z.leb_le. done. Qed.

Lemma scrubbed_b_true p : scrubbed_b p = true → scrub p = p.
Proof.
  unfold scrubbed_b. rewrite !andb_true_iff, bool_decide_eq_true. destruct p; simpl.
  intros [[[He ->] Hj] Ha]. unfold scrub. simpl.
  destruct entrypoint; [|done]. destruct juicefs_path; [|done]. by destruct image_pull_auth.
Qed.

Lemma pod_wf_b_true k p : pod_wf_b k p = true → pod_wf k p.
Proof.
  unfold pod_wf_b. rewrite !andb_true_iff, !Z.eqb_eq, orb_true_iff, negb_true_iff.
  intros [[[[[[[[[[Hid Hh] Hs] Hg]  Hc] Hm] Hf] Hgr] Hpr] Hi] Hcf].
  constructor; try done; try by apply range_b_true.
  - unfold handle_fits_b, handle_fits in *.
    destruct (state p); try done; by apply bool_decide_eq_true in Hh.
  - intros Ht. apply scrubbed_b_true. destruct Hs as [Hs|]; [congruence|done].
Qed.

Lemma winv_b_true w : winv_b w = true → winv w.
Proof.
  unfold winv_b. rewrite !andb_true_iff, !Z.eqb_eq, !Z.leb_le, !Z.ltb_lt, !forallb_forall.
  intros [[[[[[[[[[[[[[Hp Hpend] Hg] Hc] Hm] ?] ?] ?] ?] ?] ?] Hsz] Ht] Hcc] Hhb].
  constructor; try done; try by apply range_b_true.
  - intros k p Hk. apply pod_wf_b_true. apply (Hp (k, p)).
    by apply list_elem_of_In, elem_of_map_to_list.
  - intros k r Hk. specialize (Hpend (k, r)). simpl in Hpend. rewrite bool_decide_eq_true in Hpend.
    destruct (pods w !! k) as [p|].
    + exists p. split; [done|]. apply Some_inj. apply Hpend.
      by apply list_elem_of_In, elem_of_map_to_list.
    + discriminate Hpend. by apply list_elem_of_In, elem_of_map_to_list.
  - unfold MAX_TRACKED_PODS. lia.
Qed.

(** ** Sample workers *)

Definition sample_worker : Worker :=
  new_with_lifecycle_concurrency (mkTestHost 0 false) "node-1" A10g 4 8000 16000 4.

Definition sample_cmd (id gpus : Z) : StartPodCmd :=
  mkStartPodCmd id 7 "img" "" 8080 gpus A10g 100 100 "" "/live" "" [] "" "" "" false.

Definition sample_io (now : Z) (msgs : list ControlMessage) : SimulatedIo :=
  mkSimulatedIo now msgs [] (prng_init 1).

Definition sample_rt : SimulatedRuntime := simulated_runtime_new 1 fault_config_default.

(** A fresh worker with two starts and a run request in its queue. *)
Definition sample_ctx : SimCtx :=
  sim_ctx sample_worker
    (sample_io 5 [StartPod (sample_cmd 1 1); StartPod (sample_cmd 2 2);
                  RunRequest (mkRunRequestCmd 9 7 [])]) sample_rt false.

Definition ctx_of {A} (o : outcome (A * SimCtx)) (d : SimCtx) : SimCtx :=
  match o with Done (_, c) => c | Panic _ => d end.

Lemma sample_io_wf now msgs : Forall control_wf msgs → sim_io_wf (sample_io now msgs).
Proof. intros Hm. split; [done|]. split; [by constructor|]. simpl. lia. Qed.

Lemma sample_cmd_wf id gpus : is_u64 id → is_u8 gpus → start_cmd_wf (sample_cmd id gpus).
Proof. intros. constructor; simpl; try done; split; vm_compute; congruence. Qed.

Lemma sample_msgs_wf :
  Forall control_wf [StartPod (sample_cmd 1 1); StartPod (sample_cmd 2 2); RunRequest (mkRunRequestCmd 9 7 [])].
Proof.
  repeat constructor; try (apply sample_cmd_wf; split; vm_compute; congruence);
    simpl; vm_compute; congruence.
Qed.

Lemma tick_safe_witness :
  winv (worker sample_ctx) ∧
  ((∃ c', tick 4 sample_ctx = Done (tt, c') ∧ winv (worker c') ∧ io_wf (io c')) ∨
   (∃ e, tick 4 sample_ctx = Panic e ∧
      (io_panics e ∨ e = NO_ENTRY ∧ Z.of_nat MAX_TERMINAL_TOMBSTONES < drive_load (worker sample_ctx)))).
Proof.
  split; [apply winv_b_true; vm_compute; reflexivity|].
  apply (tick_safe 4 sample_ctx).
  - apply winv_b_true. vm_compute. reflexivity.
  - apply sample_io_wf, sample_msgs_wf.
  - simpl. unfold TICK_MAX, U64_MAX. lia.
  - simpl. lia.
Defined.

Lemma tick_follows_lifecycle_witness :
  let c' := ctx_of (tick 4 sample_ctx) sample_ctx in
  pstate (worker c') 2 = Some Creating ∧
  ∀ k, one_life (pstate (worker sample_ctx) k) (pstate (worker c') k).
Proof.
  split; [vm_compute; reflexivity|].
  apply (tick_follows_lifecycle 4 sample_ctx).
  - apply winv_b_true. vm_compute. reflexivity.
  - apply sample_io_wf, sample_msgs_wf.
  - simpl. unfold TICK_MAX, U64_MAX. lia.
  - simpl. lia.
  - vm_compute. reflexivity.
Defined.

Lemma sample_reachable : reachable sample_ctx.
Proof.
  eapply (reach_new _ (mkTestHost 0 false) "node-1" A10g 4 8000 16000 4); try reflexivity.
  - unfold U8_MAX. lia.
  - unfold U32_MAX. lia.
  - unfold U32_MAX. lia.
  - apply sample_io_wf, sample_msgs_wf.
Qed.

Lemma sample_tick_reachable : reachable (ctx_of (tick 4 sample_ctx) sample_ctx).
Proof.
  eapply (reach_tick 4 sample_ctx).
  - apply sample_reachable.
  - simpl. unfold TICK_MAX, U64_MAX. lia.
  - simpl. lia.
  - vm_compute. reflexivity.
Qed.

Lemma reachable_accounting_witness :
  let w := worker (ctx_of (tick 4 sample_ctx) sample_ctx) in
  gpu_allocated w = 3 ∧ map_sum (live gpu_count) (pods w) = 3 ∧ gpu_allocated w ≤ gpu_total w.
Proof.
  destruct (reachable_accounting _ sample_tick_reachable) as [[Hg Hle] _].
  split; [vm_compute; reflexivity|]. split; [|exact Hle]. rewrite <-Hg. vm_compute. reflexivity.
Defined.

Lemma lifecycle_ops_complete_witness :
  let ops := [OpStart 1 7 (mkPodHandle 1 "a"); OpStop 2 (Some (mkPodHandle 2 "b")) 10 true] in
  ∃ cs c', run_chunks 2 ops sample_ctx = Done (cs, c') ∧ lc_op <$> cs = ops.
Proof.
  destruct (lifecycle_ops_complete
    [OpStart 1 7 (mkPodHandle 1 "a"); OpStop 2 (Some (mkPodHandle 2 "b")) 10 true] sample_ctx)
    as [_ (cs & c' & E & Ho & _)]; [vm_compute; congruence|].
  exists cs, c'. split; [exact E|exact Ho].
Defined.

(** ** Witnesses of the functional theorems *)

(** A tombstone and a stopping pod. *)
Definition tombstone (id died : Z) : TrackedPod :=
  mkTrackedPod id 7 "img" "" (Failed "gone") None died 1 100 100 0 8080 "/live" "" 10000 0 0 [] "" None 0 0.

Definition live_pod (id : Z) (s : TrackedPodState) (h : option PodHandle) : TrackedPod :=
  mkTrackedPod id 7 "img" "" s h 0 1 100 100 0 8080 "/live" "" 10000 0 0 [] "" None 0 0.

(** A worker that tracks these pods, its accounts from the live ones. *)
Definition worker_of (l : list TrackedPod) : Worker :=
  let m : gmap Z TrackedPod := list_to_map ((λ p, (pod_id p, p)) <$> l) in
  mkWorker "node-1" A10g 8 8000 16000 m ∅ 0 true (map_sum (live gpu_count) m)
    (map_sum (live cpu_millicores) m) (map_sum (live memory_megabytes) m) 4
    (secret_resolver_new (mkTestHost 0 false)).

Definition handle_1 : PodHandle := mkPodHandle 1 "sim-pod-1".

Definition stopping_ctx (stuck : bool) : SimCtx :=
  sim_ctx (worker_of [live_pod 1 Stopping (Some handle_1); tombstone 2 5; tombstone 3 4])
    (sample_io 5 []) sample_rt stuck.

Lemma prune_forgets_oldest_witness :
  ∃ c', prune_terminal_pods_to 1 (stopping_ctx false) = Done (tt, c') ∧
    terminal_count (worker c') = 1 ∧ pods (worker c') !! 3 = None.
Proof.
  destruct (prune_forgets_oldest 1024 1 (stopping_ctx false)) as (c' & E & Ht & _).
  - apply winv_b_true. vm_compute. reflexivity.
  - unfold MAX_TERMINAL_TOMBSTONES. lia.
  - exists c'. split; [exact E|]. split; [exact Ht|].
    vm_compute in E. injection E as <-. vm_compute. reflexivity.
Defined.

Lemma start_pod_admission_witness :
  (∃ c', handle_start_pod (sample_cmd 9 1) 5 (stopping_ctx false) = send_status 9 RImagePulling c' ∧
     gpu_allocated (worker c') = 2 ∧ pstate (worker c') 9 = Some ImagePulling) ∧
  handle_start_pod (sample_cmd 9 8) 5 (stopping_ctx false) =
    send_status 9 (RFailed "insufficient GPU capacity") (stopping_ctx false).
Proof.
  assert (Hw : winv (worker (stopping_ctx false))) by (apply winv_b_true; vm_compute; reflexivity).
  split.
  - destruct (start_pod_admission (sample_cmd 9 1) 5 (stopping_ctx false) Hw) as [Hs _];
      [apply sample_cmd_wf; split; vm_compute; congruence|].
    destruct Hs as (p & c' & E & [[Hid _] [Hst _] [Hg _] _ _ _] & Hw' & _).
    + unfold fits_node. split_and!; try (vm_compute; congruence); [apply Nat.ltb_lt; vm_compute; reflexivity|right; reflexivity].
    + exists c'. split; [exact E|]. rewrite Hw'. unfold admitted, pstate. simpl. rewrite Hg, Hid. split; [reflexivity|].
      rewrite lookup_insert_eq. simpl. by rewrite Hst.
  - destruct (start_pod_admission (sample_cmd 9 8) 5 (stopping_ctx false) Hw) as [_ Hr];
      [apply sample_cmd_wf; split; vm_compute; congruence|].
    assert (Hno : ¬ has_gpus (worker (stopping_ctx false)) (sample_cmd 9 8)) by (vm_compute; congruence).
    destruct Hr as (reason & Hf & E); [intros (_ & _ & Hg & _); exact (Hno Hg)|].
    destruct Hf as [Hs|_ Ht|_ _ _|_ _ Hg|_ _ Hg]; [|destruct Ht; right; reflexivity|exact E|destruct (Hno Hg)..].
    destruct Hs. apply Nat.ltb_lt. vm_compute. reflexivity.
Defined.

Definition starting_ctx : SimCtx :=
  sim_ctx (worker_of [live_pod 1 Starting (Some handle_1)]) (sample_io 5 []) sample_rt false.

Lemma start_retry_backoff_witness :
  ∃ c', recover_start 1 10 handle_1 (EContainerStart "no") starting_ctx = Done (tt, c') ∧
    pstate (worker c') 1 = Some Creating ∧ lifecycle_retry_after_tick <$> pods (worker c') !! 1 = Some 60.
Proof.
  destruct (start_retry_backoff 1 10 handle_1 (EContainerStart "no") (live_pod 1 Starting (Some handle_1)) starting_ctx)
    as [(c' & E & _ & Hw) _].
  - apply winv_b_true. vm_compute. reflexivity.
  - vm_compute. reflexivity.
  - reflexivity.
  - unfold TICK_MAX, U64_MAX. lia.
  - exists c'. split; [exact E|].
    assert (Hw' : worker c' = set_pods (<[1 := set_state_changed_at 10 (set_state Creating (set_handle None
      (set_lifecycle_retry_after_tick 60 (set_lifecycle_failures 1 (live_pod 1 Starting (Some handle_1))))))]>
      (pods (worker starting_ctx))) (worker starting_ctx)) by exact Hw.
    rewrite Hw'. split; vm_compute; reflexivity.
Defined.

Lemma stop_completion_witness :
  (∃ c1, complete_pod_stop 1 0 5 (stopping_ctx false) = send_status 1 (RStopped 0) c1 ∧
     gpu_allocated (worker c1) = 0) ∧
  (∃ c', complete_pod_stop 1 0 5 (stopping_ctx true) = Done (tt, c') ∧
     gpu_allocated (worker c') = 1 ∧ pstate (worker c') 1 = Some Stopping).
Proof.
  split.
  - destruct (stop_completion 1 0 5 (live_pod 1 Stopping (Some handle_1)) (stopping_ctx false))
      as (c1 & E & Ew & _); [apply winv_b_true; vm_compute; reflexivity|vm_compute; reflexivity|reflexivity|].
    exists c1. split; [exact E|]. rewrite Ew. vm_compute. reflexivity.
  - destruct (stop_completion 1 0 5 (live_pod 1 Stopping (Some handle_1)) (stopping_ctx true))
      as (c1 & E & Ew & _); [apply winv_b_true; vm_compute; reflexivity|vm_compute; reflexivity|reflexivity|].
    exists c1. split; [exact E|]. rewrite Ew. split; vm_compute; reflexivity.
Defined.

Lemma shutdown_answer_witness :
  let c := sim_ctx (worker_of [live_pod 1 Stopping (Some handle_1)]) (sample_io 5 [])
    (set_srt_pods {[ "sim-pod-1"%string := PRunning ]} sample_rt) false in
  (∃ b c', shutdown_with_deadline (from_secs 20) c = Done (b, c') ∧ (b = true ↔ pods (worker c') = ∅)) ∨
  (∃ e, shutdown_with_deadline (from_secs 20) c = Panic e ∧ io_panics e).
Proof.
  destruct (shutdown_answer (from_secs 20)
    (sim_ctx (worker_of [live_pod 1 Stopping (Some handle_1)]) (sample_io 5 [])
      (set_srt_pods {[ "sim-pod-1"%string := PRunning ]} sample_rt) false))
    as [(b & c' & E & Hb & _)|He].
  - apply winv_b_true. vm_compute. reflexivity.
  - apply sample_io_wf. constructor.
  - vm_compute. reflexivity.
  - left. exists b, c'. split; [exact E|exact Hb].
  - right. exact He.
Defined.

(** ** Where the code departs from its intent *)

(** A full set of tombstones, ids 2 to 1025, and one running pod whose container
    has exited. *)
Definition full_tombstones : list TrackedPod :=
  (λ n, tombstone (Z.of_nat n + 2) 0) <$> seq 0 1024.

Definition exited_rt : SimulatedRuntime :=
  set_srt_pods {[ "sim-pod-1"%string := PStopped 0 ]} sample_rt.

Definition crowded_ctx : SimCtx :=
  sim_ctx (worker_of (live_pod 1 Running (Some handle_1) :: full_tombstones))
    (sample_io 5 []) exited_rt false.

(** The whole tick panics, although the worker satisfies the invariant. *)
Lemma crowded_tick_panics :
  winv (worker crowded_ctx) ∧ drive_load (worker crowded_ctx) = 1025 ∧
  tick 1 crowded_ctx = Panic "no entry found for key".
Proof.
  split; [apply winv_b_true; vm_compute; reflexivity|].
  split; vm_compute; reflexivity.
Qed.

(** Driving pod 1 makes it a tombstone. *)
Lemma crowded_step :
  ∃ ops c1 q, drive_pod 5 1 crowded_ctx = Done (ops, c1) ∧ pods (worker c1) !! 1 = Some q ∧ is_terminal (state q) = true.
Proof.
  assert (E : match drive_pod 5 1 crowded_ctx with
              | Done (_, c1) => match pods (worker c1) !! 1 with Some q => is_terminal (state q) | None => false end
              | Panic _ => false end = true) by (vm_compute; reflexivity).
  destruct (drive_pod 5 1 crowded_ctx) as [[ops c1]|]; [|discriminate E]. exists ops, c1.
  destruct (pods (worker c1) !! 1) as [q|] eqn:Eq; [|discriminate E]. by exists q.
Qed.

Abbreviation crowded_rest := ((λ n, Z.of_nat n + 2) <$> seq 0 1024).

Lemma crowded_ids : sorted_pod_ids (worker crowded_ctx) = 1 :: crowded_rest.
Proof. vm_compute. reflexivity. Qed.

Lemma crowded_tombstones k : k ∈ terminal_ids (worker crowded_ctx) → k ∈ crowded_rest.
Proof.
  intros (p & Hp & Ht)%elem_of_terminal_ids.
  assert (Hk : k ∈ sorted_pod_ids (worker crowded_ctx)).
  { unfold sorted_pod_ids. rewrite elem_of_sort_by, elem_of_keys. by exists p. }
  rewrite crowded_ids in Hk. apply elem_of_cons in Hk as [->|Hk]; [|done].
  assert (E : pods (worker crowded_ctx) !! 1 = Some (live_pod 1 Running (Some handle_1))) by (vm_compute; reflexivity).
  rewrite E in Hp. injection Hp as <-. discriminate Ht.
Qed.

Lemma drive_panics_without_room_witness :
  winv (worker crowded_ctx) ∧ ∃ e, drive_pods 5 crowded_ctx = Panic e ∧ (e = NO_ENTRY ∨ io_panics e).
Proof.
  assert (Hw : winv (worker crowded_ctx)) by (apply winv_b_true; vm_compute; reflexivity).
  split; [exact Hw|]. destruct crowded_step as (ops & c1 & q & E & Hq & Ht).
  apply (drive_panics_without_room 5 1 [] crowded_rest [] ops (live_pod 1 Running (Some handle_1)) q
           crowded_ctx crowded_ctx c1 Hw).
  - apply sample_io_wf. constructor.
  - unfold TICK_MAX, U64_MAX. lia.
  - exact crowded_ids.
  - reflexivity.
  - vm_compute. reflexivity.
  - exact crowded_tombstones.
  - vm_compute. reflexivity.
  - reflexivity.
  - exact E.
  - exact Hq.
  - exact Ht.
Defined.

(** A node whose GPU count is the type's maximum. *)
Definition maximal_ctx (gpus : Z) : SimCtx :=
  sim_ctx (new (mkTestHost 0 false) "node-1" A10g gpus 8000 16000) (sample_io 5 []) sample_rt false.

Definition start_twice (gpus : Z) : outcome (unit * SimCtx) :=
  (handle_start_pod (sample_cmd 1 200) 5 ;;; handle_start_pod (sample_cmd 2 100) 5) (maximal_ctx gpus).

(** The admission test compares saturating sums, so on a node with 255 GPUs it
    never refuses: a second pod asking for more than what is left is admitted and the
    unchecked addition overflows; with 254 GPUs the same pod is refused. *)
Theorem admission_overflows_at_type_maximum :
  start_twice 255 = Panic "attempt to add with overflow" ∧
  (∃ c, start_twice 254 = Done (tt, c) ∧ gpu_allocated (worker c) = 200 ∧
     pods (worker c) !! 2 = None).
Proof.
  split; [vm_compute; reflexivity|].
  exists (ctx_of (start_twice 254) (maximal_ctx 254)). split_and!; vm_compute; reflexivity.
Qed.

(** A worker with one tombstone, on a host where its directory cannot be removed. *)
Definition tombstone_ctx : SimCtx :=
  sim_ctx (worker_of [tombstone 2 0]) (sample_io 5 []) sample_rt true.

(** Shutdown revives a tombstone whose volume cannot be cleaned up: it goes back
    to [Stopping] although its resources were released when it died, so the accounts no
    longer match the live pods. *)
Theorem shutdown_revives_tombstone :
  winv (worker tombstone_ctx) ∧
  ∃ c', shutdown tombstone_ctx = Done (false, c') ∧ pstate (worker c') 2 = Some Stopping ∧
    gpu_allocated (worker c') = 0 ∧ map_sum (live gpu_count) (pods (worker c')) = 1.
Proof.
  split; [apply winv_b_true; vm_compute; reflexivity|].
  exists (ctx_of (shutdown tombstone_ctx) tombstone_ctx). split_and!; vm_compute; reflexivity.
Qed.

(** ** Volumes and secrets on the sample host *)


Definition cached_resolver : SecretResolver :=
  mkSecretResolver (Some "token"%string) (Some "hivemind"%string) (Some "prd"%string) {["API_KEY" := mkCachedSecret "v1" 0]}.

Lemma secret_resolution_witness :
  resolve_secret "API_KEY" cached_resolver (mkTestHost (from_secs 299) false) =
    (Some "v1"%string, cached_resolver, mkTestHost (from_secs 299 + NANOS_PER_MILLI) false).
Proof.
  destruct (proj1 (secret_resolution "API_KEY" cached_resolver (mkTestHost 0 false)) "v1"%string cached_resolver
    (mkTestHost NANOS_PER_MILLI false)) as [_ (t & Ht & Hl)]; [vm_compute; reflexivity|].
  vm_compute in Ht. injection Ht as <-. apply (Hl (mkTestHost (from_secs 299) false)). vm_compute. split; congruence.
Defined.

(** ** The checker *)

(** Quotes, without escapes: enough for the strings below. *)
Definition quote (s : string) : string := "'" +:+ s +:+ "'".

(** A checker that has seen the worker [w]. *)
Definition checker_after (w : Worker) : WorkerChecker :=
  mkWorkerChecker 0 [] [0] [state <$> pods w].

(** A pod that is starting receives a stop, and the first stop attempt fails. *)
Definition stop_while_starting : SimCtx :=
  sim_ctx (worker_of [live_pod 1 Starting (Some handle_1)])
    (sample_io 5 [StopPod (mkStopPodCmd 1 0)])
    (simulated_runtime_new 1
       (mkFaultConfig ratio_zero ratio_zero ratio_zero ratio_zero (ratio_from_percent 100))) false.

(** A false alarm of the checker.  A starting pod is asked to stop and the first
    attempt fails, so the worker keeps it stopping and will retry, as it should: the
    invariant holds and the tick followed the lifecycle.  The checker counts a safety
    violation. *)
Theorem checker_false_alarm :
  winv (worker stop_while_starting) ∧
  ∃ c' k', tick 2 stop_while_starting = Done (tt, c') ∧ winv (worker c') ∧
    one_life (pstate (worker stop_while_starting) 1) (pstate (worker c') 1) ∧
    check quote 5 0 (worker c') false (checker_after (worker stop_while_starting)) = Done (tt, k') ∧
    violations k' = ["tick 5: worker 0: pod 1: illegal transition Starting -> Stopping"%string].
Proof.
  split; [apply winv_b_true; vm_compute; reflexivity|].
  exists (ctx_of (tick 2 stop_while_starting) stop_while_starting). eexists.
  split; [vm_compute; reflexivity|]. split; [apply winv_b_true; vm_compute; reflexivity|].
  split; [|split; [vm_compute; reflexivity|vm_compute; reflexivity]].
  replace (pstate (worker stop_while_starting) 1) with (Some Starting) by (vm_compute; reflexivity).
  replace (pstate (worker _) 1) with (Some Stopping) by (vm_compute; reflexivity).
  by apply rtc_once, edge_stop.
Qed.

Lemma checker_verdict_witness :
  let w := worker (ctx_of (tick 2 stop_while_starting) stop_while_starting) in
  ∃ k' bad (alarms : list string), check quote 5 0 w false (checker_after (worker stop_while_starting)) = Done (tt, k') ∧
    (1, Starting, Stopping) ∈ bad ∧
    safety_violations k' = 0 + Z.of_nat (length bad + length alarms).
Proof.
  intros w. destruct (checker_verdict quote 5 (Z.of_nat MAX_TERMINAL_TOMBSTONES) 0 w false
    (checker_after (worker stop_while_starting)) {[1 := Starting]} 0)
    as (k' & bad & alarms & E & Hb & _ & _ & Hn & _).
  - apply winv_b_true. vm_compute. reflexivity.
  - vm_compute. reflexivity.
  - reflexivity.
  - lia.
  - vm_compute. reflexivity.
  - exists k', bad, alarms. split; [exact E|]. split; [|exact Hn]. apply Hb. vm_compute. split_and!; congruence.
Defined.

(** ** The simulator *)



(** A whole simulation: one agent, two pods, faults in the first ten ticks. *)
Definition small_config : SimConfig :=
  mkSimConfig 3 1 10 60 2 (mkRatio 2 100) (mkRatio 5 100) (mkRatio 1 100)
    (mkRatio 5 100) (mkRatio 1 100) (mkRatio 1 100) 15 10 10 ratio_zero ratio_zero 0.

Definition is_passed (r : SimResult) : bool := match sr_outcome r with Passed => true | _ => false end.

Lemma outcome_returns {A} (o : outcome A) (f : A → bool) :
  (match o with Done a => f a | Panic _ => false end) = true → ∃ a, o = Done a ∧ f a = true.
Proof. destruct o as [a|e]; [eauto|done]. Qed.

Lemma small_run_passes :
  ∃ rs : SimResult * @RunState TestHost,
    run quote (mkTestHost 0 false) [] small_config = Done rs ∧ is_passed rs.1 = true.
Proof. apply (outcome_returns _ (λ rs, is_passed rs.1)). vm_compute. reflexivity. Qed.

Lemma run_verdict_witness :
  ∃ (r : SimResult) (st : @RunState TestHost),
    run quote (mkTestHost 0 false) [] small_config = Done (r, st) ∧ is_passed r = true ∧
    verdict_ok small_config r st.
Proof.
  destruct small_run_passes as ([r st] & E & Ho). exists r, st. split; [exact E|]. split; [exact Ho|].
  refine (run_verdict quote (mkTestHost 0 false) [] small_config r st _ E). vm_compute. congruence.
Defined.

(** ** A worker on a TCP connection *)

Definition tcp_ctx : @Ctx RealIo SimulatedRuntime TestHost :=
  mkCtx sample_worker split_io sample_rt (mkTestHost 0 false) [].

Lemma tcp_tick_returns_witness :
  ∃ c', tick (Io0 := real_io (H := toy_aead)) 100 tcp_ctx = Done (tt, c') ∧
    winv (worker c') ∧ real_io_wf (io c').
Proof.
  destruct (tcp_tick_returns (H := toy_aead) 100 tcp_ctx) as [Hdone|[_ Hload]].
  - apply winv_b_true. vm_compute. reflexivity.
  - apply split_io_wf.
  - cbn. unfold TICK_MAX, U64_MAX. lia.
  - apply Nat.ltb_lt. vm_compute. reflexivity.
  - exact Hdone.
  - vm_compute in Hload. discriminate Hload.
Defined.
