(* ===== verification/LivenessExamples.v ===== *)
(** * A pod that gets to run

    A runtime that counts its calls and refuses none, and a worker that has just accepted
    two pods: the instance at which the liveness of the worker is witnessed. *)

From S2P Require Import Prelude Types Prng RustStr Protocol Traits Volumes Secrets Worker WorkerInv.
From S2P Require Import WorkerThreads WorkerSafety WorkerLiveness SimIo WorkerExamples.

Record CalmRuntime := mkCalmRuntime { cr_calls : nat }.

Definition calm {A} (a : A) (r : CalmRuntime) : result A RuntimeError * CalmRuntime :=
  (Ok a, mkCalmRuntime (S (cr_calls r))).

Definition calm_until {A} (a : A) (s : CalmRuntime * TestHost)
    : result A RuntimeError * (CalmRuntime * TestHost) :=
  let '(r, h) := s in let '(x, r) := calm a r in (x, (r, h)).

(** Nothing it runs ever keeps running: [pod_status] reports an exit. *)
#[export] Instance calm_runtime : Runtime CalmRuntime TestHost := {
  pull_image _ _ := calm tt;
  create_pod spec := calm (mkPodHandle (ps_pod_id spec) "calm");
  start_pod _ := calm tt;
  forward_run _ _ payload := calm payload;
  probe_pod _ _ _ := calm true;
  stop_pod _ _ := calm tt;
  pod_status _ := calm (PStopped 0);
  remove_pod _ := calm tt;
  stop_pod_until _ _ _ := calm_until tt;
  pod_status_until _ _ := calm_until (PStopped 0);
  remove_pod_until _ _ := calm_until tt
}.

Abbreviation CalmCtx := (@Ctx SimulatedIo CalmRuntime TestHost).

(** Two accepted pods; the threads take turns from the back. *)
Definition calm_start : outcome (unit * CalmCtx) :=
  (handle_message (StartPod (sample_cmd 1 1)) 5 ;;; handle_message (StartPod (sample_cmd 2 2)) 5)
    (mkCtx sample_worker (sample_io 5 []) (mkCalmRuntime 0) (mkTestHost 0 false) [1; 0; 1]%nat).

Definition calm_ctx : CalmCtx :=
  match calm_start with
  | Done (_, c) => c
  | Panic _ => mkCtx sample_worker (sample_io 5 []) (mkCalmRuntime 0) (mkTestHost 0 false) []
  end.

Definition calm_pod : TrackedPod := tracked_pod_of (sample_cmd 2 2) 5 [] None.

Lemma calm_served : served (RT := CalmRuntime) (H := TestHost) calm_pod.
Proof. split; [intros r|intros spec r _|intros h r|by intros h []]; unfold pull_image, create_pod, start_pod; simpl; by repeat eexists. Qed.

Lemma accepted_pod_runs_witness :
  winv (worker calm_ctx) ∧ pods (worker calm_ctx) !! 2 = Some calm_pod ∧
  after_ticks 0 3 (runs 2) calm_ctx.
Proof.
  assert (Hw : winv (worker calm_ctx)) by (apply winv_b_true; vm_compute; reflexivity).
  assert (Hp : pods (worker calm_ctx) !! 2 = Some calm_pod) by (vm_compute; reflexivity).
  split; [exact Hw|]. split; [exact Hp|].
  apply (accepted_pod_runs 0 2 calm_pod calm_ctx Hw); [|exact Hp|reflexivity|exact calm_served|lia|simpl; lia].
  apply Nat.leb_le. vm_compute. reflexivity.
Defined.
