(* ===== verification/AgentExamples.v ===== *)
(** * A worker process, run *)

From S2P Require Import Prelude Types RustStr RustParse Config Crypto Protocol Frame Traits Fingerprint.
From S2P Require Import Volumes Secrets Worker WorkerInv Metrics WorkerThreads WorkerSafety WorkerShutdown RealIo.
From S2P Require Import SimRuntime WorkerExamples Agent AgentSafety AgentRetry.

(** A node without GPUs whose [/proc] is empty, so that the defaults are used. *)
#[export] Instance test_node : Node TestHost := {
  gethostname h := (Ok (as_bytes "node-7" ++ replicate 58 Init.Byte.x00), h);
  nvml_device_count _ := None;
  nvml_device_by_index _ _ := None;
  unicode_uppercase s := s
}.

Definition quiet (ms : Z) (scrape : option (bytes * Z)) : Moment := mkMoment [] [] ms [] [] scrape.

(** The first two attempts fail, the third connects; a health check arrives with the
    second tick; the signal is seen by the thirty-second load. *)
Definition test_world : World SimulatedRuntime TestHost :=
  mkWorld 31
    (λ n _ _, if (n <? 2)%nat then Err (mkIoError InvalidInput "Connection refused")
              else Ok (mkTcpStream [] [] [] false))
    (λ n, (0, 1000, []))
    (λ n, quiet (Z.min (1000 + Z.of_nat n) 1000000) (if (n =? 1)%nat then Some (as_bytes "GET /healthz HTTP/1.1", 1) else None))
    (λ d h, mkTestHost (th_clock h + d) (th_stuck h))
    (λ k, match k with KSimulated => Some (simulated_runtime_new 0 fault_config_default) | _ => None end)
    (λ _, true).

Definition test_args : list string :=
  ["10.0.0.1:9000,10.0.0.2:9000"; "--runtime"; "simulated"; "--metrics-port"; "8081"]%string.

Definition no_env (_ : string) : option string := None.

Abbreviation test_run := (cmd_run (H := toy_aead) test_world 40 test_args no_env (mkTestHost 0 false)).

Lemma test_run_result :
  match test_run with
  | Done (code, Some a) =>
    code = 0 ∧ omap connects_to (ag_calls a) = ["10.0.0.1:9000"; "10.0.0.2:9000"; "10.0.0.1:9000"]%string ∧
    ag_scrapes a = [as_bytes HEALTHZ]
  | _ => False
  end.
Proof. vm_compute. split_and!; reflexivity. Qed.

Lemma test_clock n : 0 ≤ mo_ms (world_moment test_world n) ≤ TICK_MAX.
Proof. cbn. unfold TICK_MAX, U64_MAX. lia. Qed.

Lemma test_node_fits : node_fits (mkTestHost 0 false).
Proof.
  intros fp os'.
  assert (E : node_fingerprint (mkTestHost 0 false) =
    Done (mkNodeFingerprint "node-7" 1000 1024 GpuNone 0 0, mkTestHost 0 false)) by (vm_compute; reflexivity).
  rewrite E. intros [= <- _]. done.
Qed.

Lemma test_run_done : ∃ a, test_run = Done (0, Some a).
Proof.
  pose proof test_run_result as Hrun. destruct test_run as [[code [a|]]|e]; [|done..].
  destruct Hrun as (-> & _). eauto.
Qed.

Lemma process_ends_clean_witness : ∃ a, test_run = Done (0, Some a) ∧ clean (ag_worker a).
Proof.
  destruct test_run_done as [a E]. exists a. split; [exact E|].
  pose proof (process_ends_clean (H := toy_aead) test_world test_clock 40 test_args no_env
                (mkTestHost 0 false)) as Hend.
  rewrite E in Hend. destruct Hend as (_ & _ & Hclean); [cbn; lia|apply test_node_fits|].
  destruct (Hclean eq_refl) as (b & [= ->] & Hb). exact Hb.
Defined.

Definition test_addrs : list string := ["10.0.0.1:9000"; "10.0.0.2:9000"]%string.

Definition test_agent : Agent SimulatedRuntime TestHost :=
  mkAgent (new (mkTestHost 0 false) "node-7" GpuNone 0 1000 1024)
    (simulated_runtime_new 0 fault_config_default) (mkTestHost 0 false) 0 0 0 [] [].

Abbreviation test_loop :=
  (connect_loop (H := toy_aead) test_world 40 40 true test_addrs None INITIAL_BACKOFF_MS 0 test_agent).

(** Two failed attempts, the waits of 100 ms and 200 ms after them, and the beginning of a
    session; every reading of this host's clock takes a millisecond. *)
Definition first_calls : list SysCall :=
  let ms n := n * NANOS_PER_MILLI in
  [Connects "10.0.0.1:9000"; ReadsClock 0; ReadsClock (ms 1); Sleeps (ms 50); ReadsClock (ms 52); Sleeps (ms 48);
   ReadsClock (ms 101);
   Connects "10.0.0.2:9000"; ReadsClock (ms 102); ReadsClock (ms 103); Sleeps (ms 50); ReadsClock (ms 154);
   Sleeps (ms 50); ReadsClock (ms 205); Sleeps (ms 50); ReadsClock (ms 256); Sleeps (ms 46); ReadsClock (ms 303);
   Connects "10.0.0.1:9000"; Sleeps (ms 1)].

#[local] Instance sys_call_eq : EqDecision SysCall.
Proof. solve_decision. Defined.

Lemma test_loop_calls :
  ∃ ca, test_loop = Done ca ∧ bool_decide (take 20 (ag_calls ca.2) = first_calls) = true.
Proof.
  apply (outcome_returns _ (λ ca : Z * Agent SimulatedRuntime TestHost,
    bool_decide (take 20 (ag_calls ca.2) = first_calls))).
  vm_compute. reflexivity.
Qed.

Lemma replicas_tried_in_turn_witness :
  ∃ code a, test_loop = Done (code, a) ∧ take 20 (ag_calls a) = first_calls ∧
    tried_in_turn test_world test_addrs None (ag_calls a) ∧
    wait_after test_world test_addrs None 1 = 200.
Proof.
  destruct test_loop_calls as ([code a] & E & Hl). apply bool_decide_eq_true in Hl. cbn [snd] in Hl.
  exists code, a. split; [exact E|]. split; [exact Hl|].
  destruct (replicas_tried_in_turn (H := toy_aead) test_world test_addrs None 40 40 true test_agent a code)
    as [Ht Hw]; [done|done|done|exact E|]. split; [exact Ht|].
  destruct (Hw 1%nat) as (_ & _ & Hf). rewrite Hf; [reflexivity|].
  intros [|[|j]] Hj; [reflexivity|reflexivity|lia].
Defined.
