(* ===== verification/FuzzExamples.v ===== *)
(** * The fuzzer, run *)

From S2P Require Import Prelude Types Prng RustStr RustParse Traits Volumes Secrets Worker SimNetwork SimRuntime SimRunner.
From S2P Require Import WorkerExamples Fuzz FuzzSafety.

(** Ten seeds on four threads: 3 + 3 + 2 + 2. *)
Lemma thread_ranges_partition_witness :
  thread_indices 10 4 <$> seq 0 4 = [[0; 1; 2]; [3; 4; 5]; [6; 7]; [8; 9]] ∧
  concat (thread_indices 10 4 <$> seq 0 4) = seqZ 0 10.
Proof.
  split; [vm_compute; reflexivity|]. apply (thread_ranges_partition 10 4); lia.
Defined.

Lemma base_config_wf : config_wf base_config.
Proof.
  constructor; cbn -[LIVENESS_RETRY_GRACE_TICKS]; try lia.
  repeat constructor; simpl; unfold U32_MAX; lia.
Qed.

Lemma mutate_config_wf_witness :
  ∃ config, mutate_config base_config 7 = Done config ∧ config_wf config ∧
    pause_probability config = mkRatio 1 100 ∧ cfg_seed config = 0.
Proof. exact (mutate_config_wf base_config 7 base_config_wf). Defined.

Definition bench : @FuzzWorld TestHost :=
  mkFuzzWorld (λ _, 0) (λ _, mkTestHost 0 false) (λ _, []) (λ _, true) (λ _, true) 12345 4.

Lemma fuzzer_verdict_witness :
  match run_fuzzer quote bench "sequential" 2 0 2 true None with
  | Done ((code, total), _) =>
    seeds_tested total = 2 ∧
    (code = 1 ↔ ∃ i, 0 ≤ i < 2 ∧ failed quote bench Sequential [] true i = true) ∧ (code = 0 ∨ code = 1)
  | Panic e => ∃ i, 0 ≤ i < 2 ∧ run_index quote bench Sequential [] true i = Panic e
  end.
Proof.
  destruct (fuzzer_verdict quote bench "sequential" 2 2 true None) as [Hv _];
    [unfold U64_MAX; lia|lia|simpl; lia|]. cbv zeta in Hv.
  destruct (run_fuzzer quote bench "sequential" 2 0 2 true None) as [[[code total] c]|e].
  - destruct Hv as (H1 & _ & H3). split; [exact H1|exact H3].
  - exact Hv.
Defined.

(** The command line. *)
Lemma fuzz_args_example :
  parse_fuzz_args ["random"; "--seeds"; "50"; "--threads"; "x"; "--mutate"; "--budget"]%string default_fuzz_args =
  mkFuzzArgs "random" 50 0 1 true None false.
Proof. vm_compute. reflexivity. Qed.
