(* ===== verification/RuntimeExamples.v ===== *)
(** * The real runtimes, run on a small system

    A machine with a clock, children that end when they are signalled, directories and a
    containerd that lists, starts, kills and deletes: it keeps [SystemLaws] and [CtrLaws],
    and on it the theorems about the process and the containerd runtime are applied. *)

From S2P Require Import Prelude Types RustStr RustParse Protocol Traits System Http.
From S2P Require Import Process ProcessSafety ProcessThreads ProcessSteps ProcessReturn.
From S2P Require Import Containerd ContainerdText ContainerdSafety.
From S2P Require Import ContainerdLaws.

Record Machine := mkMachine {
  mc_clock : Z;
  mc_children : gmap Z (option ExitStatus);  (* [Some st]: exited *)
  mc_dirs : list string;
  mc_tasks : list (string * string);         (* id, status *)
  mc_containers : list (string * string)     (* id, identity *)
}.

Definition set_children c (x : Machine) := mkMachine (mc_clock x) c (mc_dirs x) (mc_tasks x) (mc_containers x).
Definition set_dirs d (x : Machine) := mkMachine (mc_clock x) (mc_children x) d (mc_tasks x) (mc_containers x).
Definition set_tasks t (x : Machine) := mkMachine (mc_clock x) (mc_children x) (mc_dirs x) t (mc_containers x).
Definition set_containers c (x : Machine) := mkMachine (mc_clock x) (mc_children x) (mc_dirs x) (mc_tasks x) c.
Definition pass_time d (x : Machine) :=
  mkMachine (mc_clock x + Z.max 0 d) (mc_children x) (mc_dirs x) (mc_tasks x) (mc_containers x).

Definition printed (s : string) : result CommandOutput string := Ok (mkCommandOutput (Some 0) (as_bytes s) []).
Definition refused : result CommandOutput string := Ok (mkCommandOutput (Some 1) [] (as_bytes "not found")).

Definition task_table (ts : list (string * string)) : string :=
  "TASK PID STATUS" +:+ newline +:+ foldr (λ t acc, t.1 +:+ " 7 " +:+ t.2 +:+ newline +:+ acc) "" ts.
Definition container_table (cs : list (string * string)) : string :=
  "CONTAINER IMAGE RUNTIME" +:+ newline +:+ foldr (λ c acc, c.1 +:+ " img runc" +:+ newline +:+ acc) "" cs.

(** Is [id] the name of this row? *)
Definition named (id : string) (row : string * string) : bool := String.eqb row.1 id.

(** The listing of tasks; it is refused if a name in it could not be read back. *)
Definition print_tasks (ts : list (string * string)) : result CommandOutput string :=
  if forallb (λ t, bool_decide (t.1 ∈ first_columns (from_utf8_lossy (as_bytes (task_table ts))))) ts
  then printed (task_table ts) else refused.

(** The commands of [ctr], after [timeout .. ctr -n .. -a ..]. *)
Definition ctr (args : list string) (x : Machine) : result CommandOutput string * Machine :=
  match args with
  | [a; b] => if String.eqb a "tasks" then (print_tasks (mc_tasks x), x)
              else if String.eqb a "containers" then (printed (container_table (mc_containers x)), x)
              else (printed ("REF" +:+ newline), x)
  | [a; b; id] =>
    if String.eqb b "info" then
      (match filter (λ c, named id c = true) (mc_containers x) with
       | c :: _ => printed c.2 | [] => refused end, x)
    else (printed "", set_containers (filter (λ c, named id c = false) (mc_containers x)) x)
  | [a; b; c; id] =>
    if String.eqb b "start" then (printed "", set_tasks ((id, "RUNNING"%string) :: mc_tasks x) x)
    else (printed "", set_tasks (filter (λ t, named id t = false) (mc_tasks x)) x)
  | [a; b; c; sig; id] =>
    if String.eqb b "kill" then
      (printed "", set_tasks ((λ t, if named id t then (t.1, "STOPPED"%string) else t) <$> mc_tasks x) x)
    else (printed "", x)
  | _ => (printed "", x)
  end.

#[export] Instance machine_host : Host Machine := {
  instant_now x := (mc_clock x, x);
  env_var _ _ := None;
  create_dir_all _ x := (Ok tt, x);
  command_output args x := ctr (drop 7 args) x;
  read_to_string _ x := (Err "not found"%string, x);
  remove_dir_all d x := (Ok tt, set_dirs (filter (λ e, starts_with d e = false) (mc_dirs x)) x);
  path_exists d x := (bool_decide (d ∈ mc_dirs x), x);
  http_get _ _ x := (Err "offline"%string, x);
  json_value_raw _ := None
}.

Definition end_child (p : Z) (x : Machine) : result unit string * Machine :=
  match mc_children x !! p with
  | Some None => (Ok tt, set_children (<[p := Some None]> (mc_children x)) x)
  | _ => (Ok tt, x)
  end.

(** A number in 64 digits. *)
Definition digest (b : bytes) : string :=
  let s := fmt_int (foldr (λ c acc, (acc * 31 + b2z c) mod 1000003) 7 b) in
  Nat.iter (64 - String.length s) (String "0") s.

Definition make_dir (d : string) (x : Machine) : result unit string * Machine :=
  if bool_decide (d ∈ mc_dirs x) then (Err "exists"%string, x) else (Ok tt, set_dirs (d :: mc_dirs x) x).

#[export] Instance machine_system : System Machine := {
  thread_sleep := pass_time;
  spawn _ x := let p := Z.of_nat (size (mc_children x)) + 100 in (Ok p, set_children (<[p := None]> (mc_children x)) x);
  try_wait p x := (match mc_children x !! p with Some st => Ok st | None => Err "no child"%string end, x);
  kill_term := end_child;
  child_kill := end_child;
  tcp_connect _ _ x := (Err "refused"%string, x);
  set_timeout _ _ x := (Ok tt, x);
  tcp_write_all _ _ x := (Ok tt, x);
  tcp_read _ _ x := (Ok [], x);
  http_post _ _ _ _ x := (PostTransport "refused", x);
  process_id _ := 42;
  temp_dir _ := "/tmp"%string;
  create_dir := make_dir;
  set_permissions _ _ x := (Ok tt, x);
  open_new path _ x := (Ok 3, set_dirs (path :: mc_dirs x) x);
  file_write_all _ _ x := (Ok tt, x);
  file_sync _ x := (Ok tt, x);
  fs_write _ _ x := (Err "read-only"%string, x);
  open_netns _ x := (Err "permission denied"%string, x);
  setns _ x := (Err "permission denied"%string, x);
  sha256_hex := digest;
  json_label info _ := Ok (Some info);
  arch := "x86_64"%string
}.

Lemma ctr_keeps args x : mc_clock (ctr args x).2 = mc_clock x ∧ mc_children (ctr args x).2 = mc_children x.
Proof.
  destruct args as [|a [|b [|c [|d [|e [|]]]]]]; simpl; try done;
    repeat match goal with |- context [if ?b then _ else _] => destruct b end; done.
Qed.

Definition machine_exit (p : Z) (x : Machine) : option ExitStatus := mjoin (mc_children x !! p).

Lemma end_child_advances p x : advances mc_clock machine_exit x (end_child p x).2.
Proof.
  unfold end_child. destruct (mc_children x !! p) as [[st|]|] eqn:Ep; simpl; [by split..| |by split].
  split; [done|]. intros q st. unfold machine_exit. simpl. destruct (decide (q = p)) as [->|].
  - by rewrite Ep.
  - by rewrite lookup_insert_ne.
Qed.

Lemma unchanged x y : mc_clock x ≤ mc_clock y → mc_children y = mc_children x → advances mc_clock machine_exit x y.
Proof. intros Hc Hch. split; [done|]. intros p st. unfold machine_exit. by rewrite Hch. Qed.

Lemma machine_try_wait p x st :
  (try_wait p x).1 = Ok (Some st) ↔ machine_exit p x = Some st.
Proof. unfold machine_exit. simpl. destruct (mc_children x !! p) as [[]|]; simpl; split; congruence. Qed.

#[export] Instance machine_laws : SystemLaws Machine.
Proof.
  refine {| clock := mc_clock; exit_of := machine_exit |}.
  - done.
  - intros d x. simpl. lia.
  - intros p x st. apply machine_try_wait.
  - intros p x st. apply machine_try_wait.
  - intros sock n x b. simpl. intros [= <-]. simpl. lia.
  - intros x. by apply unchanged.
  - intros d x. apply unchanged; [simpl; lia|done].
  - intros p x. by apply unchanged.
  - apply end_child_advances.
  - apply end_child_advances.
  - intros args x. simpl. destruct (ctr_keeps (drop 7 args) x). apply unchanged; [lia|done].
Defined.

Lemma filter_names (P : string * string → Prop) `{!∀ t, Decision (P t)} ts x : x ∈ (filter P ts).*1 → x ∈ ts.*1.
Proof. rewrite !list_elem_of_fmap. intros (t & -> & [_ Ht]%list_elem_of_filter). by exists t. Qed.

Lemma kill_names (f : string * string → bool) ts :
  ((λ t, if f t then (t.1, "STOPPED"%string) else t) <$> ts).*1 = ts.*1.
Proof. induction ts as [|t ts IH]; [done|]. rewrite !fmap_cons, IH. by destruct (f t). Qed.

(** Only a start makes a task. *)
Lemma ctr_tasks args m x :
  x ∈ (mc_tasks (ctr args m).2).*1 →
  x ∈ (mc_tasks m).*1 ∨ ∃ a c, args = [a; "start"%string; c; x].
Proof.
  destruct args as [|a [|b [|c [|d [|e [|]]]]]]; simpl; try by left.
  - destruct (String.eqb a "tasks"); [by left|]. destruct (String.eqb a "containers"); by left.
  - destruct (String.eqb b "info"); by left.
  - destruct (String.eqb_spec b "start") as [->|]; simpl; [|intros ?%filter_names; by left].
    intros [->|Hx]%elem_of_cons; [right; by eexists _, _|by left].
  - destruct (String.eqb b "kill"); simpl; [rewrite kill_names|]; by left.
Qed.

#[export] Instance machine_ctr_laws : CtrLaws Machine.
Proof.
  refine {| has_task _ m x := x ∈ (mc_tasks m).*1 |}.
  - intros r ms m out x. simpl. unfold print_tasks. destruct (forallb _ _) eqn:Ef; [|by intros [= <-]].
    intros [= <-] _. simpl. rewrite list_elem_of_fmap. intros (t & -> & Ht). rewrite forallb_forall in Ef.
    specialize (Ef t). rewrite bool_decide_eq_true in Ef. by apply Ef, list_elem_of_In.
  - intros r ms args m x Hv. simpl. rewrite drop_0. intros [?|(a & c & ->)]%ctr_tasks; [done|].
    unfold idle_verbs in Hv. repeat (apply elem_of_cons in Hv as [Hv|Hv]; [discriminate Hv|]).
    by apply elem_of_nil in Hv.
  - intros r ms id m x. simpl. intros [->|Hx]%elem_of_cons; auto.
  - intros A f a m x Hf. destruct Hf; simpl; try done. unfold make_dir. by case_bool_decide.
Defined.

(** ** The process runtime *)

Definition machine0 : Machine := mkMachine 0 ∅ [] [] [].

Definition web (pod : Z) : PodSpec :=
  mkPodSpec pod 9 "img" "serve --fast" 8080 0 GpuNone 500 256 [("MODE", "prod")]%string [].

Abbreviation after_create := (match proc_create_pod (web 1) (process_runtime_new, machine0) with
                              | Done (_, s) => s | Panic _ => (process_runtime_new, machine0) end).

Definition web_handle : PodHandle := mkPodHandle 1 "proc-pod-1:15000".

(** A child that obeys TERM is stopped and removed. *)
Lemma process_stop_and_remove_witness :
  ∃ r' os', proc_remove_pod_until web_handle (from_secs 60) after_create = Done (Ok tt, (r', os')) ∧
    processes r' = ∅ ∧ ∃ p, processes after_create.1 !! "proc-pod-1:15000"%string = Some p ∧ is_Some (exit_of (rp_child p) os').
Proof.
  destruct (process_stop_and_remove web_handle 1000 (from_secs 60) after_create.1 after_create.2)
    as [_ (res & r' & os' & E & H)].
  assert (Hres : bool_decide (match proc_remove_pod_until web_handle (from_secs 60) after_create with
                 | Done (Ok _, (r, _)) => processes r = ∅ | _ => False end) = true) by (vm_compute; reflexivity).
  apply bool_decide_eq_true in Hres. exists r', os'. rewrite <-surjective_pairing in E. rewrite E in Hres |- *.
  destruct res as [[]|]; [|done]. split; [done|]. split; [done|]. apply H.
Defined.

Lemma process_ports_unique_witness :
  proc_reachable after_create ∧ next_port after_create.1 = 15001 ∧
  ∃ res s', proc_create_pod (web 2) after_create = Done (res, s') ∧
    match res with
    | Ok h => get_port s'.1 (ph_container_id h) = Some 15001
    | Err _ => processes s'.1 = processes after_create.1
    end.
Proof.
  assert (Hr : proc_reachable after_create).
  { eapply (pr_create (web 1) (process_runtime_new, machine0)); [by apply pr_new|]. vm_compute. reflexivity. }
  split; [exact Hr|]. split; [vm_compute; reflexivity|].
  destruct (process_ports_unique _ (web 2) Hr) as [_ (res & s' & E & H)]. exists res, s'.
  split; [exact E|]. destruct res; [|exact H]. destruct H as [H _]. rewrite H. vm_compute. reflexivity.
Defined.

(** Two threads: one removes pod 1, one creates pod 2. *)
Definition two_threads : Shared * list ProcThread :=
  (mkShared {[ "proc-pod-1:15000"%string := mkRunningProcess 100 15000 ]} 15001 false,
   [Calling (OpRemovePod "proc-pod-1:15000"); Calling (OpCreatePod 2)]).

Definition taken_out : Shared * list ProcThread :=
  (mkShared ∅ 15001 false,
   [Waiting true "proc-pod-1:15000" (mkRunningProcess 100 15000); Calling (OpCreatePod 2)]).

Lemma two_threads_wf : conf_wf two_threads.
Proof.
  constructor; simpl.
  - lia.
  - intros id p [<- <-]%lookup_singleton_Some. split; [unfold ceiling; simpl; lia|]. exists 1. split; [lia|reflexivity].
  - intros [|[|i]] t; simpl; [intros [= <-]; done|intros [= <-]; simpl; lia|done].
  - intros [|[|i]] [|[|j]] t u id; simpl; naive_solver.
  - intros [|[|i]] [|[|j]] t u; simpl; naive_solver.
Qed.

Lemma process_threads_safe_witness :
  rtc threads_move two_threads taken_out ∧
  (∀ i msg, taken_out.2 !! i ≠ Some (AssertFailed msg)).
Proof.
  assert (Hs : rtc threads_move two_threads taken_out).
  { apply rtc_once. refine (threads_move_at 0 two_threads.1 two_threads.2 (Calling (OpRemovePod "proc-pod-1:15000"))
      taken_out.1 (Waiting true "proc-pod-1:15000" (mkRunningProcess 100 15000)) _ _); [done|]. cbn [fst two_threads taken_out].
    rewrite <-(delete_singleton_eq (M := gmap string) "proc-pod-1:15000"%string (mkRunningProcess 100 15000)).
    by apply (mv_take _ _ _ _ _ true). }
  split; [exact Hs|]. apply (process_threads_safe two_threads taken_out two_threads_wf Hs).
Defined.

(** ** The containerd runtime *)

Definition node_runtime : ContainerdRuntime := containerd_new None None None None.

(** Pods 1 and 12 have tasks, pod 1 a stale container too. *)
Definition machine1 : Machine :=
  mkMachine 0 ∅ []
    [("hivemind-pod-1-1", "RUNNING"); ("hivemind-pod-12-1", "RUNNING")]%string
    [("hivemind-pod-1-1", workload_identity node_runtime (web 1)); ("hivemind-pod-12-1", workload_identity node_runtime (web 12))]%string.

(** Everything of other pods is as before. *)
Definition foreign (pod : Z) (row : string * string) : bool := negb (in_family (container_id_prefix pod) row.1).
Definition foreign_kept (pod : Z) (x y : Machine) : Prop :=
  filter (λ t, foreign pod t = true) (mc_tasks x) = filter (λ t, foreign pod t = true) (mc_tasks y) ∧
  filter (λ c, foreign pod c = true) (mc_containers x) = filter (λ c, foreign pod c = true) (mc_containers y).

Lemma named_foreign pod id row :
  in_family (container_id_prefix pod) id = true → named id row = true → foreign pod row = false.
Proof. unfold named, foreign. intros Hid ->%String.eqb_eq. by rewrite Hid. Qed.

Lemma delete_foreign pod id (rows : list (string * string)) :
  in_family (container_id_prefix pod) id = true →
  filter (λ t, foreign pod t = true) (filter (λ t, named id t = false) rows) = filter (λ t, foreign pod t = true) rows.
Proof.
  intros Hid. induction rows as [|row rows IH]; [done|]. rewrite (filter_cons _ row). case_decide as Hn.
  - rewrite !filter_cons. by case_decide; rewrite IH.
  - rewrite IH, filter_cons, decide_False; [done|]. apply not_false_iff_true in Hn.
    by rewrite (named_foreign pod id row).
Qed.

Lemma kill_foreign pod id (rows : list (string * string)) :
  in_family (container_id_prefix pod) id = true →
  filter (λ t, foreign pod t = true) ((λ t, if named id t then (t.1, "STOPPED"%string) else t) <$> rows) =
  filter (λ t, foreign pod t = true) rows.
Proof.
  intros Hid. induction rows as [|row rows IH]; [done|]. rewrite fmap_cons, !filter_cons, IH.
  destruct (named id row) eqn:En; [|done]. assert (foreign pod row = false) by by eapply named_foreign.
  rewrite !decide_False; [done|congruence|]. unfold foreign in *. simpl. congruence.
Qed.

Lemma machine_untouched pod r :
  untouched r (λ id, in_family (container_id_prefix pod) id = true) (foreign_kept pod).
Proof.
  assert (PO : PreOrder (foreign_kept pod)).
  { split; [by split|]. intros x y z [? ?] [? ?]. split; by etrans. }
  constructor; [done|..].
  - intros x. reflexivity.
  - intros args ms x [| |sig id Hid|id Hid|id Hid]; simpl; [reflexivity..| | |].
    + split; simpl; [by rewrite kill_foreign|done].
    + split; simpl; [by rewrite delete_foreign|done].
    + split; simpl; [done|by rewrite delete_foreign].
  - intros id x Hid. by split.
  - intros id x Hid. by split.
Qed.

(** Cleaning up after pod 1 removes its containers and leaves pod 12's. *)
Lemma cleanup_confined_to_pod_witness :
  ∃ res os', cleanup_container_family 1 (node_runtime, machine1) = Done (res, (node_runtime, os')) ∧
    foreign_kept 1 machine1 os' ∧ res = Ok tt ∧ mc_tasks os' = [("hivemind-pod-12-1", "RUNNING")]%string.
Proof.
  destruct (cleanup_confined_to_pod 1 node_runtime (foreign_kept 1) machine1) as [(res & os' & E & HR) _];
    [lia|apply machine_untouched|].
  exists res, os'. split; [exact E|]. split; [exact HR|].
  assert (Hres : match cleanup_container_family 1 (node_runtime, machine1) with
                 | Done (Ok _, (_, os)) => mc_tasks os = [("hivemind-pod-12-1", "RUNNING")]%string | _ => False end)
    by (vm_compute; reflexivity).
  rewrite E in Hres. destruct res as [[]|]; [|destruct Hres]. split; [reflexivity|exact Hres].
Defined.

(** Pod 1's container is adopted for the workload it was made for. *)
Lemma create_pod_adopts_or_creates_witness :
  ∃ res r' os', cd_create_pod (web 1) (node_runtime, machine1) = Done (res, (r', os')) ∧
    res = Ok (mkPodHandle 1 "hivemind-pod-1-1") ∧
    (r' = node_runtime ∧ adopted node_runtime (web 1) "hivemind-pod-1-1" machine1 os' ∨
     created node_runtime r' (web 1) "hivemind-pod-1-1" os').
Proof.
  destruct (create_pod_adopts_or_creates (web 1) node_runtime machine1) as (res & r' & os' & E & H);
    [unfold U64_MAX; simpl; lia|].
  assert (Hres : match cd_create_pod (web 1) (node_runtime, machine1) with
                 | Done (Ok h, _) => h = mkPodHandle 1 "hivemind-pod-1-1" | _ => False end) by (vm_compute; reflexivity).
  exists res, r', os'. split; [exact E|]. rewrite E in Hres. destruct res as [h|]; [|destruct Hres]. subst h.
  split; [reflexivity|]. destruct H as (_ & _ & _ & H). exact H.
Defined.

Definition c1_handle : PodHandle := mkPodHandle 1 "hivemind-pod-1-1".

(** It is stopped and removed, on evidence. *)
Lemma containerd_stop_and_remove_witness :
  ∃ os', cd_stop_pod_until c1_handle 1000 (from_secs 60) (node_runtime, machine1) = Done (Ok tt, (node_runtime, os')) ∧
    seen_stopped node_runtime "hivemind-pod-1-1" (from_secs 60) os'.
Proof.
  destruct (containerd_stop_and_remove c1_handle 1000 (from_secs 60) node_runtime machine1) as [(res & os' & E & H) _].
  assert (Hres : match cd_stop_pod_until c1_handle 1000 (from_secs 60) (node_runtime, machine1) with
                 | Done (Ok _, _) => True | _ => False end) by (vm_compute; exact I).
  exists os'. rewrite E in Hres |- *. destruct res as [[]|]; [|destruct Hres]. split; [reflexivity|exact H].
Defined.

Definition no_dirs (x : Machine) : Prop := mc_dirs x = [].
Definition only_in (d : string) (x : Machine) : Prop := Forall (λ e, starts_with d e = true) (mc_dirs x).

Lemma starts_with_join d name : starts_with d (path_join d name) = true.
Proof. apply starts_with_split. unfold path_join. destruct (_ || _); by eexists. Qed.

Lemma starts_with_refl d : starts_with d d = true.
Proof. induction d as [|c d IH]; [done|]. cbn [starts_with]. by rewrite Ascii.eqb_refl, IH. Qed.

Lemma starts_with_trans a b c : starts_with a b = true → starts_with b c = true → starts_with a c = true.
Proof. rewrite !starts_with_split. intros [t ->] [u ->]. exists (t +:+ u). apply app_string_assoc. Qed.

Lemma make_dir_only d path x : starts_with d path = true → only_in d x → only_in d (make_dir path x).2.
Proof. intros Hp Ho. unfold make_dir, only_in. case_bool_decide; [done|]. by constructor. Qed.

Lemma machine_credentials : credential_store no_dirs only_in.
Proof.
  assert (Hctr : ∀ args x, mc_dirs (ctr args x).2 = mc_dirs x).
  { intros args x. destruct args as [|a [|b [|c [|d [|e [|]]]]]]; simpl; try done;
      repeat match goal with |- context [if ?b then _ else _] => destruct b end; done. }
  constructor; unfold no_dirs, only_in; simpl.
  - intros args x. by rewrite Hctr.
  - intros d x Hd. apply make_dir_only; [apply starts_with_refl|].
    unfold only_in. by rewrite Hd.
  - intros d x e Hd. unfold make_dir. rewrite Hd. by case_bool_decide as He; [apply elem_of_nil in He|].
  - done.
  - intros d name x Ho. apply make_dir_only; [apply starts_with_join|done].
  - intros d name file mode x Ho. constructor; [|done].
    eapply starts_with_trans; [apply starts_with_join|apply starts_with_join].
  - done.
  - done.
  - intros d args x. by rewrite Hctr.
  - intros d x Ho _. induction Ho as [|e l He _ IH]; [done|]. rewrite filter_cons, decide_False; [done|]. congruence.
  - intros d x Ho. rewrite Forall_forall in *. intros e [_ He]%list_elem_of_filter. by apply Ho.
Qed.

Definition robot : ImagePullAuth := mkImagePullAuth "registry.example:5000" "bot" "hunter2".

Lemma pull_image_leaves_no_credentials_witness :
  ∃ res r' os', cd_pull_image "registry.example:5000/app:1" (Some robot) (node_runtime, machine1) = Done (res, (r', os')) ∧
    cd_auth_sequence r' = 1 ∧ mc_dirs os' = [].
Proof.
  destruct (pull_image_leaves_no_credentials no_dirs only_in machine_credentials
              "registry.example:5000/app:1" (Some robot) node_runtime machine1 eq_refl) as (res & r' & os' & E & H).
  exists res, r', os'. split; [exact E|].
  split; [|destruct H as [H|(dir & before & e & _ & H & _)]; [exact H|discriminate H]].
  assert (Hseq : match cd_pull_image "registry.example:5000/app:1" (Some robot) (node_runtime, machine1) with
                 | Done (_, (r, _)) => cd_auth_sequence r = 1 | Panic _ => False end) by (vm_compute; reflexivity).
  rewrite E in Hseq. exact Hseq.
Defined.

Lemma web_fits : spec_fits (web 1).
Proof. constructor; simpl; try int_lia; unfold str_fits; simpl; try int_lia; repeat constructor; simpl; int_lia. Qed.

Lemma workload_identity_separates_witness :
  workload_identity node_runtime (web 1) = workload_identity (containerd_new None None None None) (web 1) ∧
  ((web 1 = web 1 ∧ cd_runtime_name node_runtime = "io.containerd.runc.v2"%string ∧
    cd_snapshotter node_runtime = "overlayfs"%string) ∨
   (∃ a b : bytes, a ≠ b ∧ sha256_hex a = sha256_hex b)).
Proof.
  split; [reflexivity|].
  exact (workload_identity_separates node_runtime (containerd_new None None None None) (web 1) (web 1)
           web_fits web_fits ltac:(done) ltac:(done) ltac:(done) ltac:(done) eq_refl).
Defined.

(** ** Threads of the process runtime *)

#[export] Instance machine_clock_laws : ClockLaws Machine.
Proof. constructor; intros; simpl; lia. Qed.

(** The runtime and the machine after pod 1 was created. *)
Definition one_pod : ProcessRuntime := after_create.1.
Definition machine_with_pod : Machine := after_create.2.

(** Pod 1 is being removed while its status is asked and pod 2 is created. *)
Definition three_calls : list Call := [RemovePod web_handle; CreatePod (web 2); StatusOf web_handle].
Definition start_three : RuntimeWorld Machine * list (prog (RuntimeWorld Machine) Answer) :=
  (mkRuntimeWorld one_pod false machine_with_pod, steps_of one_pod <$> three_calls).
(** The threads take turns. *)
Definition turns : list nat := concat (replicate 12 [1; 0; 2]%nat).

Definition answer_of (t : prog (RuntimeWorld Machine) Answer) : option Answer :=
  match t with Halt a => Some a | _ => None end.

Lemma three_calls_ready : calls_ok one_pod three_calls.
Proof.
  constructor.
  - vm_compute. discriminate.
  - intros id p Hp. change (processes one_pod) with ({[ "proc-pod-1:15000" := mkRunningProcess 100 15000 ]} : gmap string RunningProcess) in Hp.
    apply lookup_singleton_Some in Hp as [<- <-]. split; [vm_compute; split; [discriminate|reflexivity]|].
    exists 1. split; [lia|reflexivity].
  - vm_compute. discriminate.
  - intros [|[|[|i]]] spec; simpl; try done. intros [= <-]. simpl. lia.
  - intros [|[|[|i]]] [|[|[|j]]] c d id; simpl; naive_solver.
Qed.

Lemma process_threads_return_witness :
  calls_ok one_pod three_calls ∧ sn threads_step start_three ∧
  (∀ i msg, (schedule turns start_three).2 !! i ≠ Some (Crash msg)) ∧
  answer_of <$> (schedule turns start_three).2 =
    [Some (AUnit (Ok tt)); Some (AHandle (Ok (mkPodHandle 2 "proc-pod-2:15001"))); Some (AStatus (Ok PRunning))].
Proof.
  destruct (process_threads_return one_pod three_calls machine_with_pod three_calls_ready) as (_ & Hsn & Hrun).
  split; [exact three_calls_ready|]. split; [exact Hsn|]. split; [|vm_compute; reflexivity].
  apply Hrun, schedule_steps.
Defined.
