(* ===== verification/OwnershipExamples.v ===== *)
(** * Supervision, run on the real runtimes

    A worker over the process runtime and a worker process over the containerd runtime of a
    small machine: the instances at which the theorems about forgotten containers are
    witnessed. *)

From S2P Require Import Prelude Types Prng RustStr RustParse Config Crypto Protocol Frame Traits Fingerprint.
From S2P Require Import System Http Process ProcessSafety ProcessLaws Containerd Volumes Secrets Worker WorkerInv Keeps ContainerdLaws.
From S2P Require Import Metrics WorkerThreads WorkerSafety WorkerLiveness Ownership WorkerShutdown RealIo.
From S2P Require Import Agent AgentSafety AgentOwnership SimIo SimRuntime WorkerExamples AgentExamples RuntimeExamples.

Abbreviation ProcCtx := (@Ctx SimulatedIo (ProcessRuntime * Machine) TestHost).

(** A fresh worker over an empty table of processes, with two starts in its queue. *)
Definition proc_ctx : ProcCtx :=
  mkCtx sample_worker (sample_io 5 [StartPod (sample_cmd 1 0); StartPod (sample_cmd 2 0)])
    (process_runtime_new, machine0) (mkTestHost 0 false) [1; 0; 1]%nat.

Definition proc_after {A} (o : outcome (A * ProcCtx)) : ProcCtx :=
  match o with Done (_, c) => c | Panic _ => proc_ctx end.

(** Two ticks later both pods have a container and wait to be started. *)
Definition proc_tick (c : ProcCtx) : ProcCtx := proc_after (tick 4 c).
Definition proc_started : ProcCtx := proc_tick (proc_tick proc_ctx).

Lemma proc_queue_wf : Forall control_wf [StartPod (sample_cmd 1 0); StartPod (sample_cmd 2 0)].
Proof. repeat constructor; apply sample_cmd_wf; split; vm_compute; congruence. Qed.

Lemma proc_supervised : supervised proc_started.
Proof.
  assert (H0 : supervised proc_ctx).
  { eapply (sup_new _ (mkTestHost 0 false) "node-1" A10g 4 8000 16000 4); try reflexivity.
    - unfold U8_MAX. lia.
    - unfold U32_MAX. lia.
    - unfold U32_MAX. lia.
    - apply sample_io_wf, proc_queue_wf.
    - intros x [p Hp]. discriminate Hp. }
  assert (H1 : supervised (proc_tick proc_ctx)).
  { eapply (sup_tick 4 proc_ctx); [exact H0|simpl; unfold TICK_MAX, U64_MAX; lia|simpl; lia|].
    vm_compute. reflexivity. }
  eapply (sup_tick 4 (proc_tick proc_ctx)); [exact H1| |apply Nat.ltb_lt; vm_compute; reflexivity|vm_compute; reflexivity].
  split; apply Z.leb_le; vm_compute; reflexivity.
Qed.

(** The shutdown of this worker succeeds. *)
Lemma proc_shutdown : ∃ c', shutdown_with_deadline (from_secs 20) proc_started = Done (true, c').
Proof.
  destruct (outcome_returns (shutdown_with_deadline (from_secs 20) proc_started) fst) as ([b c'] & E & Hb).
  - vm_compute. reflexivity.
  - exists c'. rewrite E. cbn in Hb. by rewrite Hb.
Qed.

(** Two containers exist and both are held; the shutdown leaves none. *)
Lemma no_container_forgotten_witness :
  size (processes (rt proc_started).1) = 2%nat ∧
  (∃ id p h, pods (worker proc_started) !! id = Some p ∧ handle p = Some h ∧
     ph_container_id h = "proc-pod-2:15000"%string) ∧
  ∃ c', shutdown_with_deadline (from_secs 20) proc_started = Done (true, c') ∧
    ∀ x, processes (rt c').1 !! x = None.
Proof.
  destruct (no_container_forgotten proc_started proc_supervised) as [Hheld Hdown].
  split; [vm_compute; reflexivity|]. split.
  - apply Hheld. apply (bool_decide_eq_true (is_Some _)). vm_compute. reflexivity.
  - destruct proc_shutdown as [c' E]. exists c'. split; [exact E|]. intros x.
    apply eq_None_not_Some. exact (Hdown _ _ E x).
Defined.

(** ** The worker process, over containerd *)

Abbreviation CtrRT := (ContainerdRuntime * Machine)%type.

(** A freshly booted node: no task is inherited. *)
#[local] Instance fresh_node : RuntimeLaws CtrRT TestHost := containerd_runtime_laws (λ _, False).

(** The first connection succeeds and a [StartPod] frame is there at the first tick; the
    signal is seen by the fifth load, when the pod runs. *)
Definition start_frame : bytes :=
  frame_bytes (H := toy_aead) (zeros NONCE_LEN) MSG_START_POD (start_pod_wire false (sample_cmd 1 0)) None.

Definition ctr_world : World CtrRT TestHost :=
  mkWorld 4
    (λ n _ _, Ok (mkTcpStream [] [] [] false))
    (λ n, (0, 1000, []))
    (λ n, mkMoment (if (n =? 0)%nat then [GotBytes start_frame] else []) [] (Z.min (1000 + Z.of_nat n) 1000000) [] [] None)
    (λ d h, mkTestHost (th_clock h + d) (th_stuck h))
    (λ k, match k with KContainerd sn => Some (containerd_new None None None sn, machine0) | _ => None end)
    (λ _, true).

Definition ctr_args : list string := ["10.0.0.1:9000"; "--runtime"; "containerd"]%string.

Abbreviation ctr_run := (cmd_run (H := toy_aead) ctr_world 10 ctr_args no_env (mkTestHost 0 false)).

(** It exits with 0, and it had created a container. *)
Definition one_container (r : Z * option (Agent CtrRT TestHost)) : bool :=
  (r.1 =? 0) && match r.2 with Some a => cd_container_sequence (ag_rt a).1 =? 1 | None => false end.

Lemma ctr_run_result : ∃ r, ctr_run = Done r ∧ one_container r = true.
Proof. apply (outcome_returns ctr_run one_container). vm_compute. reflexivity. Qed.

Lemma ctr_clock n : 0 ≤ mo_ms (world_moment ctr_world n) ≤ TICK_MAX.
Proof. cbn. unfold TICK_MAX, U64_MAX. lia. Qed.

Lemma clean_exit_leaves_nothing_running_witness :
  ∃ a, ctr_run = Done (0, Some a) ∧ cd_container_sequence (ag_rt a).1 = 1 ∧ mc_tasks (ag_rt a).2 = [].
Proof.
  destruct ctr_run_result as ([code final] & E & [H0 H1]%andb_true_iff). cbn in H0, H1.
  apply Z.eqb_eq in H0. rewrite H0 in E.
  destruct (clean_exit_leaves_nothing_running (H := toy_aead) ctr_world ctr_clock 10 ctr_args no_env
              (mkTestHost 0 false) final) as (a & Hf & Ha).
  - cbn. lia.
  - apply test_node_fits.
  - intros kind r Hr x. destruct kind; [discriminate Hr..|].
    apply Some_inj in Hr. rewrite <-Hr. intros [Hx _]. by apply elem_of_nil in Hx.
  - exact E.
  - rewrite Hf in E, H1. exists a. split; [exact E|]. apply Z.eqb_eq in H1. split; [exact H1|].
    destruct (mc_tasks (ag_rt a).2) as [|t ts] eqn:Et; [done|]. destruct (Ha t.1).
    split; [|by intros []]. unfold runs_task, has_task. cbn. rewrite Et. by left.
Defined.
