(* ===== verification/ReportsExamples.v ===== *)
(** * A pod's reports, on a concrete worker

    The history of a worker over the simulated runtime and a recording [Io]: a pod is
    admitted, pulled, created, started and stopped while a second one is refused, and the
    log tells it.  Then the first tick again over an encrypted TCP connection. *)

From S2P Require Import Prelude Types Prng RustStr Protocol Traits Volumes Secrets Worker WorkerInv.
From S2P Require Import WorkerThreads WorkerSafety SimIo SimRuntime WorkerExamples Crypto Frame RealIo Reports Connection.

Abbreviation RecCtx := (@Ctx (Recorded SimulatedIo) SimulatedRuntime TestHost).

(** The world between two ticks: the outbound queue is drained, messages and time arrive. *)
Definition deliver (now : Z) (msgs : list ControlMessage) (c : RecCtx) : RecCtx :=
  mkCtx (worker c) (mkRecorded (sample_io now msgs) (rec_log (io c))) (rt c) (host c) (sched c).

Definition ticked (c : RecCtx) : RecCtx := match tick 4 c with Done (_, c') => c' | Panic _ => c end.

Definition life0 : RecCtx :=
  mkCtx sample_worker (mkRecorded (sample_io 5 [StartPod (sample_cmd 1 1); StartPod (sample_cmd 2 9)]) [])
    sample_rt (mkTestHost 0 false) [].

Definition life1 : RecCtx := ticked life0.
Definition life2 : RecCtx := ticked (deliver 10 [] life1).
Definition life3 : RecCtx := ticked (deliver 20 [] life2).
Definition life4 : RecCtx := ticked (deliver 30 [StopPod (mkStopPodCmd 1 100)] life3).

(** One step of the life: the world moves, then a tick returns. *)
Lemma history_deliver now msgs c :
  history c → Forall control_wf msgs → history (deliver now msgs c).
Proof. intros Hc Hm. eapply hist_world; [exact Hc|reflexivity| |reflexivity]. by apply sample_io_wf. Qed.

Lemma history_ticked c :
  history c → 0 ≤ io_now (io c) ≤ TICK_MAX → (io_pending (io c) < 4)%nat →
  match tick 4 c with Done _ => true | Panic _ => false end = true → history (ticked c).
Proof.
  intros Hc Hn Hp. unfold ticked. destruct (tick 4 c) as [[[] c']|] eqn:E; [|done]. intros _.
  by eapply hist_tick.
Qed.

Lemma history_life0 : history life0.
Proof.
  eapply (hist_new _ (mkTestHost 0 false) "node-1" A10g 4 8000 16000 4); try reflexivity; try (unfold U8_MAX, U32_MAX; lia).
  apply sample_io_wf. repeat constructor; apply sample_cmd_wf; split; vm_compute; congruence.
Qed.

Ltac next_tick := apply history_ticked;
  [|unfold TICK_MAX, U64_MAX; simpl; lia|simpl; lia|vm_compute; reflexivity].

Lemma history_life4 : history life4.
Proof.
  unfold life4. next_tick. apply history_deliver.
  2: { repeat constructor; simpl; vm_compute; congruence. }
  unfold life3. next_tick. apply history_deliver; [|constructor].
  unfold life2. next_tick. apply history_deliver; [|constructor].
  unfold life1. next_tick. apply history_life0.
Qed.

Lemma reports_tell_the_life_witness :
  reports 1 (io_log (io life4)) = [RImagePulling; RCreating; RRunning; RStopped 0] ∧
  trace None (reports 1 (io_log (io life4))) (pstate (worker life4) 1) ∧
  fits (last (reports 1 (io_log (io life4)))) (pstate (worker life4) 1).
Proof. split; [vm_compute; reflexivity|]. exact (reports_tell_the_life life4 history_life4 1). Defined.

(** ** The same over a TCP connection *)

Abbreviation TcpCtx := (@Ctx Session SimulatedRuntime TestHost).

(** A StartPod frame in two pieces; a pod that asks for more GPUs than the node has follows. *)
Definition start_frame (cmd : StartPodCmd) : bytes :=
  frame_bytes (H := toy_aead) (zeros NONCE_LEN) MSG_START_POD (start_pod_wire false cmd) (Some (zeros KEY_LEN)).

Definition start_stream : TcpStream :=
  let f := start_frame (sample_cmd 1 1) ++ start_frame (sample_cmd 2 9) in
  mkTcpStream [GotBytes (take 100 f); GotError (mkIoError Interrupted "EINTR"); GotBytes (drop 100 f)] [] [] false.

Definition start_io : RealIo :=
  mkRealIo start_stream (zeros MAX_FRAME_PAYLOAD) (zeros READ_BUFFER_SIZE) 0 (zeros MAX_FRAME_PAYLOAD)
    (prng_init 1) true (Some (zeros KEY_LEN)) 5 [].

Definition tcp0 : TcpCtx :=
  mkCtx sample_worker (mkSession (mkRecorded start_io []) 0) sample_rt (mkTestHost 0 false) [].

Definition tcp_ticked (c : TcpCtx) : TcpCtx :=
  match tick (Io0 := session_io (H := toy_aead)) 1700 c with Done (_, c') => c' | Panic _ => c end.

#[local] Existing Instance toy_aead.

Lemma history_tcp_ticked (c : TcpCtx) :
  history c → 0 ≤ io_now (io c) ≤ TICK_MAX → (io_pending (io c) < 1700)%nat →
  match tick 1700 c with Done _ => true | Panic _ => false end = true → history (tcp_ticked c).
Proof.
  intros Hc Hn Hp. unfold tcp_ticked. destruct (tick 1700 c) as [[[] c']|] eqn:E; [|done]. intros _.
  by eapply hist_tick.
Qed.

Definition tcp1 : TcpCtx := tcp_ticked tcp0.

Lemma history_tcp1 : history tcp1.
Proof.
  apply history_tcp_ticked.
  - eapply (hist_new _ (mkTestHost 0 false) "node-1" A10g 4 8000 16000 4); try reflexivity; try (unfold U8_MAX, U32_MAX; lia).
    apply (session_open start_io []); [|reflexivity|constructor].
    constructor; cbn [read_buf frame_buf frame_pos write_buf start_io]; [apply length_zeros|apply length_zeros|lia|apply length_zeros].
  - cbn. unfold TICK_MAX, U64_MAX. lia.
  - apply Nat.ltb_lt. vm_compute. reflexivity.
  - vm_compute. reflexivity.
Qed.

Lemma control_plane_hears_witness :
  let s := io tcp1 in
  let heard := wire_views (encryption_key (ses_io s)) (outgoing (stream (ses_io s))) in
  heard = [Some (VRegister "node-1" 8000 16000 7 4); Some (VPodStatus 1 0 0 "pulling");
           Some (VPodStatus 2 4 1 "insufficient GPU capacity"); Some (VPodStatus 1 1 0 "creating")] ∧
  last (omap (status_on 1) heard) = Some (wire_status (tracked_pod_status Creating)).
Proof.
  split; [vm_compute; reflexivity|].
  destruct (control_plane_hears (H0 := toy_aead_laws) tcp1 history_tcp1) as [_ Hlast].
  - assert (Hlog : ∃ l, ses_log (io tcp1) = l ∧ Forall agent_wf l); [|by destruct Hlog as (l & -> & Hl)].
    eexists. split; [vm_compute; reflexivity|]. repeat constructor; simpl; vm_compute; try congruence; auto.
  - destruct (Hlast ltac:(vm_compute; reflexivity) 1 Creating ltac:(vm_compute; reflexivity) ltac:(congruence))
      as [E|[E _]]; [exact E|]. exfalso. revert E. vm_compute. intros E. by apply Nat.nle_succ_0 in E.
Defined.
