(* ===== verification/WorkerTests.v ===== *)
(** * The tests of [worker.rs], run on the model

    The unit tests the repository keeps beside the worker, with their test doubles, as
    programs over the definitions of [Worker]: a failed assertion is a panic, and a test
    passes if it returns.  Each passes by computation, so that the model agrees with the
    code on what its authors chose to pin down.  One test is left out:
    [drive_pods_runs_lifecycle_ops_with_bounded_parallelism] measures how many calls
    overlap in time, and a call is one step here. *)

From S2P Require Import Prelude Types RustStr Protocol Traits Volumes Secrets Worker.

(** ** The doubles *)

Record TestIo := mkTestIo { sent : list WorkerMessage; inbox : list ControlMessage; tio_tick : Z }.

#[export] Instance test_io_io : Io TestIo := {
  io_now i := tio_tick i;
  io_send msg i := Done (mkTestIo (sent i ++ [msg]) (inbox i) (tio_tick i));
  io_recv i := Done (head (inbox i), mkTestIo (sent i) (tail (inbox i)) (tio_tick i));
  io_random_u64 i := (0, i)
}.

Definition empty_io : TestIo := mkTestIo [] [] 0.

(** The machine the tests run on: a clock and the paths below [/tmp]. *)
Record Disk := mkDisk { dk_clock : Z; dk_paths : list string }.

#[export] Instance disk_host : Host Disk := {
  instant_now h := (dk_clock h, mkDisk (dk_clock h + 1000) (dk_paths h));
  env_var _ _ := None;
  create_dir_all d h := (Ok tt, mkDisk (dk_clock h) (d :: dk_paths h));
  command_output _ h := (Ok (mkCommandOutput (Some 0) [] []), h);
  read_to_string _ h := (Ok ""%string, h);
  remove_dir_all d h :=
    (if existsb (starts_with d) (dk_paths h) then Ok tt else Err FsNotFound,
     mkDisk (dk_clock h) (filter (λ p, starts_with d p = false) (dk_paths h)));
  path_exists d h := (existsb (starts_with d) (dk_paths h), h);
  http_get _ _ h := (Err "offline"%string, h);
  json_value_raw _ := None
}.

Definition disk0 : Disk := mkDisk 0 [].

(** A double that keeps the trait's default bodies.  A body that is [unreachable!] in the
    tests is an error here. *)
Definition double {RT} (create : PodSpec → RT → result PodHandle RuntimeError * RT)
    (start : PodHandle → RT → result unit RuntimeError * RT)
    (forward : PodHandle → Z → bytes → RT → result bytes RuntimeError * RT)
    (stop : PodHandle → Z → RT → result unit RuntimeError * RT)
    (status : PodHandle → RT → result PodStatus RuntimeError * RT)
    (remove : PodHandle → RT → result unit RuntimeError * RT) : Runtime RT Disk := {|
  pull_image _ _ r := (Ok tt, r);
  create_pod := create;
  start_pod := start;
  forward_run := forward;
  probe_pod := default_probe_pod;
  stop_pod := stop;
  pod_status := status;
  remove_pod := remove;
  stop_pod_until := default_stop_pod_until stop;
  pod_status_until := default_pod_status_until status;
  remove_pod_until := default_remove_pod_until remove
|}.

Definition ok {RT A} (a : A) (r : RT) : result A RuntimeError * RT := (Ok a, r).
Definition unreachable {RT A} (r : RT) : result A RuntimeError * RT := (Err (EInternal "unreachable"), r).
Definition echo {RT} (_ : PodHandle) (_ : Z) (payload : bytes) (r : RT) := ok payload r.

Record CapturedSpec := mkCapturedSpec { cap_pod_id : Z; cap_cpu : Z; cap_memory : Z }.
Record CapturingRuntime := mkCapturing { specs : list CapturedSpec }.

#[export] Instance capturing : Runtime CapturingRuntime Disk := double
  (λ spec r, (Ok (mkPodHandle (ps_pod_id spec) ("cap-" +:+ fmt_int (ps_pod_id spec) +:+ ":0")),
     mkCapturing (specs r ++ [mkCapturedSpec (ps_pod_id spec) (ps_cpu_millicores spec) (ps_memory_megabytes spec)])))
  (λ _, ok tt) echo (λ _ _, ok tt) (λ _, ok PRunning) (λ _, ok tt).

Record ForwardingRuntime := mkForwarding { seen : list (string * Z * bytes); fail_status : option Z }.

#[export] Instance forwarding : Runtime ForwardingRuntime Disk := double
  (λ _, unreachable) (λ _, ok tt)
  (λ h port payload r,
    (match fail_status r with
     | Some status =>
       if status =? RUN_STATUS_RESPONSE_TOO_LARGE then Err (EResponseTooLarge "overflow")
       else Err (EInternal "forward exploded")
     | None => Ok (as_bytes ("{" +:+ quoted "status" +:+ ":" +:+ quoted "ok" +:+ "}"))
     end, mkForwarding (seen r ++ [(ph_container_id h, port, payload)]) (fail_status r)))
  (λ _ _, ok tt) (λ _, ok PRunning) (λ _, ok tt).

Record StopRecordingRuntime := mkStopRecording { stop_log : list (string * Z); sr_status : PodStatus }.

#[export] Instance stop_recording : Runtime StopRecordingRuntime Disk := double
  (λ _, unreachable) (λ _, ok tt) (λ _ _ _, ok [])
  (λ h grace r, (Ok tt, mkStopRecording (stop_log r ++ [(ph_container_id h, grace)]) (sr_status r)))
  (λ _ r, (Ok (sr_status r), r)) (λ _, ok tt).

Record StopFailingRuntime := mkStopFailing { stop_calls : Z; sf_status : PodStatus }.

#[export] Instance stop_failing : Runtime StopFailingRuntime Disk := double
  (λ _, unreachable) (λ _, ok tt) (λ _ _ _, ok [])
  (λ _ _ r, (Err (EContainerStop "runtime stop failed"), mkStopFailing (stop_calls r + 1) (sf_status r)))
  (λ _ r, (Ok (sf_status r), r)) (λ _, ok tt).

Record CleanupFailingRuntime := mkCleanupFailing { start_fails : bool; remove_calls : Z }.

#[export] Instance cleanup_failing : Runtime CleanupFailingRuntime Disk := double
  (λ spec, ok (mkPodHandle (ps_pod_id spec) ("cleanup-" +:+ fmt_int (ps_pod_id spec))))
  (λ _ r, (if start_fails r then Err (EContainerStart "start failed") else Ok tt, r))
  (λ _ _ _, ok []) (λ _ _, ok tt) (λ _, ok (PStopped 137))
  (λ _ r, (Err (EContainerStop "cleanup failed"), mkCleanupFailing (start_fails r) (remove_calls r + 1))).

Record CreateFailingRuntime := mkCreateFailing {}.

#[export] Instance create_failing : Runtime CreateFailingRuntime Disk := double
  (λ spec r, (Err (EContainerCreate (fmt_int (ps_pod_id spec) +:+ ": create exploded")), r))
  (λ _, ok tt) (λ _ _ _, ok []) (λ _ _, ok tt) (λ _, ok PUnknown) (λ _, ok tt).

Record FlakyStartRuntime := mkFlakyStart { start_calls : Z; fs_status : PodStatus }.

#[export] Instance flaky_start : Runtime FlakyStartRuntime Disk := double
  (λ spec r, (Ok (mkPodHandle (ps_pod_id spec) ("flaky-" +:+ fmt_int (ps_pod_id spec))),
              mkFlakyStart (start_calls r) PCreated))
  (λ _ r, if start_calls r + 1 =? 1
          then (Err (EContainerStart "transient start failure"), mkFlakyStart (start_calls r + 1) (fs_status r))
          else (Ok tt, mkFlakyStart (start_calls r + 1) PRunning))
  echo (λ _ _ r, (Ok tt, mkFlakyStart (start_calls r) (PStopped 1))) (λ _ r, (Ok (fs_status r), r)) (λ _, ok tt).

(** [stop_pod_until] sleeps until the deadline; [remove_pod_until] is a panic, kept as a
    flag the test looks at. *)
Record DeadlineBlockingRuntime := mkDeadlineBlocking { deadline_calls : Z; removed_unverified : bool }.

#[export] Instance deadline_blocking : Runtime DeadlineBlockingRuntime Disk := {
  pull_image _ _ := ok tt;
  create_pod _ := unreachable;
  start_pod _ := ok tt;
  forward_run _ _ _ := ok [];
  probe_pod := default_probe_pod;
  stop_pod _ _ r := (Err (EContainerStop "unbounded stop called"), r);
  pod_status _ := ok PRunning;
  remove_pod _ := ok tt;
  stop_pod_until _ _ deadline s :=
    (Err (EContainerStop "shutdown deadline reached"),
     (mkDeadlineBlocking (deadline_calls s.1 + 1) (removed_unverified s.1),
      mkDisk (Z.max (dk_clock s.2) deadline) (dk_paths s.2)));
  pod_status_until _ _ s := (Err (EContainerNotFound "shutdown deadline reached"), s);
  remove_pod_until _ _ s :=
    (Err (EInternal "unverified runtime must not be removed"), (mkDeadlineBlocking (deadline_calls s.1) true, s.2))
}.

(** ** Running a test *)

Section harness.
  Context {RT : Type} `{!Runtime RT Disk}.
  Abbreviation T := (M (@Ctx TestIo RT Disk)).

Definition passes (w : Worker) (r : RT) (t : T unit) : bool :=
  match t (mkCtx w empty_io r disk0 []) with Done _ => true | Panic _ => false end.

Definition check_that (b : bool) : T unit := assert b "assertion failed".
Definition messages : T (list WorkerMessage) := λ c, Done (sent (io c), c).
Definition clear_messages : T unit := λ c,
  Done (tt, mkCtx (worker c) (mkTestIo [] (inbox (io c)) (tio_tick (io c))) (rt c) (host c) (sched c)).
Definition the_runtime : T RT := λ c, Done (rt c, c).
Definition set_runtime (f : RT → RT) : T unit := λ c,
  Done (tt, mkCtx (worker c) (io c) (f (rt c)) (host c) (sched c)).
Definition the_clock : T Z := λ c, Done (dk_clock (host c), c).

(** [worker.tracked_pods()[&id]]. *)
Definition tracked_pod (id : Z) : T TrackedPod := index_pod id.
Definition check_state (id : Z) (s : TrackedPodState) : T unit :=
  let* p := tracked_pod id in check_that (bool_decide (state p = s)).
Definition check_allocated (gpu cpu memory : Z) : T unit :=
  let* w := worker_get (λ w, w) in
  check_that ((gpu_allocated w =? gpu) && (cpu_allocated_millicores w =? cpu)
         && (memory_allocated_megabytes w =? memory)).

(** [io.sent.iter().any(|m| matches!(m, PodStatusEvent { pod_id: id, status } if ..))]. *)
Definition has_reported (id : Z) (p : PodStatusReport → bool) : T bool :=
  let* ms := messages in
  ret (existsb (λ m, match m with PodStatusEvent e => (pe_pod_id e =? id) && p (pe_status e) | _ => false end) ms).
Definition check_reported (id : Z) (p : PodStatusReport → bool) : T unit :=
  let* b := has_reported id p in check_that b.
Definition check_not_reported (id : Z) (p : PodStatusReport → bool) : T unit :=
  let* b := has_reported id p in check_that (negb b).

(** [match &io.sent[0] { RunResponse(resp) => .., other => panic!(..) }]. *)
Definition first_response : T RunResponseMsg :=
  let* ms := messages in
  match head ms with Some (RunResponse r) => ret r | _ => panic "unexpected worker message" end.

End harness.

Definition is_failed_report (s : PodStatusReport) : bool := match s with RFailed _ => true | _ => false end.
Definition is_stopped_report (s : PodStatusReport) : bool := match s with RStopped _ => true | _ => false end.
Definition has_failed (s : TrackedPodState) : bool := match s with Failed _ => true | _ => false end.
Definition failed_with (ps : list string) (reason : string) : bool := forallb (λ p, contains p reason) ps.

Definition worker_on (name : string) (gpu : GpuType) (gpus cpu memory : Z) : Worker :=
  new disk0 name gpu gpus cpu memory.

(** A pod as the tests insert it. *)
Definition test_pod (id deployment : Z) (s : TrackedPodState) (h : option PodHandle) (gpus cpu memory grace : Z)
    (juicefs : string) : TrackedPod :=
  mkTrackedPod id deployment "demo" "" s h 0 gpus cpu memory grace 8080 "" "" 10000 0 0 [] juicefs None 0 0.

Definition insert_pod (p : TrackedPod) (w : Worker) : Worker := set_pods (<[pod_id p := p]> (pods w)) w.

(** [worker.gpu_allocated = ..; worker.cpu_allocated_millicores = ..; ..]. *)
Definition allocate (gpus cpu memory : Z) (w : Worker) : Worker :=
  set_memory_allocated_megabytes memory (set_cpu_allocated_millicores cpu (set_gpu_allocated gpus w)).

Definition terminal_pod (id changed : Z) : TrackedPod :=
  mkTrackedPod id 1 "demo" "" (Stopped 0) None changed 0 0 0 0 0 "" "" 10000 0 0 [] "" None 0 0.

Definition test_start_cmd (id cpu memory : Z) : StartPodCmd :=
  mkStartPodCmd id 1 "demo:v1" "" 8080 0 GpuNone cpu memory "" "" "" [] "" "" "" false.

Definition gpu_start_cmd (id deployment : Z) (image : string) (gpus : Z) (gpu : GpuType) (cpu memory : Z) : StartPodCmd :=
  mkStartPodCmd id deployment image "" 8080 gpus gpu cpu memory "" "" "" [] "" "" "" false.

(** ** The tests *)

Definition connection_loss_forces_reregister : bool :=
  negb (is_registered (on_connection_lost (set_registered true (worker_on "node-a" GpuNone 0 1000 512)))).

Definition pod_spec_uses_per_pod_cpu_and_memory_limits : bool :=
  passes (worker_on "big-node" GpuNone 0 64000 262144) (mkCapturing []) (
    handle_start_pod (test_start_cmd 7 1500 2048) 0 ;;;
    drive_pods 1 ;;; drive_pods 2 ;;;
    let* r := the_runtime in
    match specs r with
    | [s] => check_that ((cap_pod_id s =? 7) && (cap_cpu s =? 1500) && (cap_memory s =? 2048))
    | _ => panic "runtime.create_pod called exactly once"
    end).

Definition requested_juicefs_mount_failure_never_creates_runtime_pod : bool :=
  passes (worker_on "mount-node" GpuNone 0 1000 1024) (mkCapturing []) (
    handle_start_pod (mkStartPodCmd 8 1 "demo:v1" "" 8080 0 GpuNone 100 128 "relative/path" "" ""
      [mkEnvEntry "TOKEN" "secret-value" false] "registry.example" "user" "" false) 0 ;;;
    drive_pods 1 ;;; drive_pods 2 ;;;
    let* r := the_runtime in
    check_that (bool_decide (specs r = [])) ;;;
    let* p := tracked_pod 8 in
    check_that (has_failed (state p)) ;;;
    check_that (bool_decide (env_vars p = [])) ;;;
    check_that (bool_decide (image_pull_auth p = None)) ;;;
    check_that (str_is_empty (juicefs_path p)) ;;;
    check_reported 8 is_failed_report).

Definition terminal_tombstones_are_bounded_and_oldest_first : bool :=
  passes (insert_pod (terminal_pod 2 20) (insert_pod (terminal_pod 1 10) (insert_pod (terminal_pod 3 30)
            (worker_on "bounded-node" GpuNone 0 1000 1024)))) mkCreateFailing (
    prune_terminal_pods_to 1 ;;;
    let* w := worker_get (λ w, w) in
    check_that (bool_decide (size (pods w) = 1%nat) && bool_decide (is_Some (pods w !! 3)))).

Definition test_legal_transition (from to : TrackedPodState) : bool :=
  match from, to with
  | ImagePulling, Creating | ImagePulling, Failed _ | Creating, Starting | Creating, Failed _
  | Starting, Creating | Starting, Running | Starting, Failed _ | Running, Stopping | Running, Stopped _
  | Running, Failed _ | Stopping, Stopped _ | Stopping, Failed _ => true
  | _, _ => false
  end.

Definition valid_transitions : bool :=
  test_legal_transition ImagePulling Creating && test_legal_transition Starting Creating
  && test_legal_transition Running Stopping && test_legal_transition Running (Stopped 137).

Definition invalid_transitions : bool :=
  negb (test_legal_transition Running ImagePulling) && negb (test_legal_transition (Stopped 0) Running).

Definition running_pod_keeps_declared_service_port : bool :=
  passes (worker_on "node-port" GpuNone 0 4000 8192) (mkCapturing []) (
    handle_start_pod (gpu_start_cmd 11 2 "demo:v1" 0 GpuNone 500 512) 0 ;;;
    drive_pods 1 ;;; drive_pods 2 ;;; drive_pods 3 ;;;
    let* p := tracked_pod 11 in
    check_that (bool_decide (state p = Running)) ;;; check_that (port p =? 8080)).

Definition run_request_without_running_pod_returns_error : bool :=
  passes (worker_on "node-run-missing" GpuNone 0 4000 8192) (mkForwarding [] None) (
    handle_run_request (mkRunRequestCmd 8 56 (as_bytes "payload")) ;;;
    let* r := the_runtime in
    check_that (bool_decide (seen r = [])) ;;;
    let* resp := first_response in
    check_that (rs_request_id resp =? 8) ;;;
    check_that (rs_status resp =? RUN_STATUS_NO_RUNNING_POD) ;;;
    check_that (bool_decide (rs_payload resp = as_bytes "no running pod for deployment 56"))).

Definition run_request_selects_lowest_running_pod_id : bool :=
  passes (foldl (λ w id, insert_pod (test_pod id 55 Running (Some (mkPodHandle id ("cap-" +:+ fmt_int id))) 0 1 1 0 "") w)
            (worker_on "node-run-order" GpuNone 0 4000 8192) (reverse (Z.of_nat <$> seq 1 32)))
    (mkForwarding [] None) (
    handle_run_request (mkRunRequestCmd 6 55 (as_bytes "ordered")) ;;;
    let* r := the_runtime in
    check_that (bool_decide ((λ x, x.1.1) <$> seen r = ["cap-1"%string]))).

Definition run_request_uses_runtime_forwarder_for_running_pod : bool :=
  passes (insert_pod (test_pod 99 55 Running (Some (mkPodHandle 99 "cap-99")) 0 500 512 0 "")
            (worker_on "node-run" GpuNone 0 4000 8192)) (mkForwarding [] None) (
    handle_run_request (mkRunRequestCmd 7 55 (as_bytes "smoke-body")) ;;;
    let* r := the_runtime in
    check_that (bool_decide (seen r = [("cap-99"%string, 8080, as_bytes "smoke-body")])) ;;;
    let* resp := first_response in
    check_that (rs_request_id resp =? 7) ;;;
    check_that (rs_status resp =? 0) ;;;
    check_that (bool_decide (rs_payload resp = as_bytes ("{" +:+ quoted "status" +:+ ":" +:+ quoted "ok" +:+ "}")))).

Definition run_forwarding_failure_has_distinct_status : bool :=
  passes (insert_pod (test_pod 100 60 Running (Some (mkPodHandle 100 "cap-100")) 0 500 512 0 "")
            (worker_on "node-run-fail" GpuNone 0 4000 8192)) (mkForwarding [] (Some RUN_STATUS_FORWARDING_FAILED)) (
    handle_run_request (mkRunRequestCmd 10 60 (as_bytes "request")) ;;;
    let* resp := first_response in
    check_that (rs_status resp =? RUN_STATUS_FORWARDING_FAILED) ;;;
    check_that (negb (rs_status resp =? RUN_STATUS_NO_RUNNING_POD)) ;;;
    clear_messages ;;;
    set_runtime (λ _, mkForwarding [] (Some RUN_STATUS_RESPONSE_TOO_LARGE)) ;;;
    handle_run_request (mkRunRequestCmd 11 60 (as_bytes "request")) ;;;
    let* resp := first_response in
    check_that (rs_status resp =? RUN_STATUS_RESPONSE_TOO_LARGE)).

Definition successful_stop_requires_terminal_runtime_status : bool :=
  passes (allocate 1 500 512 (insert_pod (test_pod 40 9 Running (Some (mkPodHandle 40 "cap-40")) 1 500 512 0 "")
            (worker_on "node-stop-unverified" T4 1 4000 8192))) (mkStopRecording [] PRunning) (
    handle_stop_pod (mkStopPodCmd 40 10) 100 ;;;
    drive_pods 100 ;;;
    check_state 40 Stopping ;;;
    check_allocated 1 500 512 ;;;
    check_not_reported 40 is_stopped_report).

Definition stop_pod_cancels_before_runtime_handle_exists : bool :=
  forallb (λ s,
    passes (insert_pod (test_pod 41 9 s None 0 500 512 0 "") (worker_on "node-cancel" GpuNone 0 4000 8192))
      (mkStopRecording [] (PStopped 0)) (
      handle_stop_pod (mkStopPodCmd 41 10) 100 ;;;
      drive_pods 100 ;;;
      let* r := the_runtime in
      check_that (bool_decide (stop_log r = [])) ;;;
      check_state 41 (Stopped 0) ;;;
      let* w := worker_get (λ w, w) in
      check_that ((cpu_allocated_millicores w =? 0) && (memory_allocated_megabytes w =? 0)) ;;;
      check_reported 41 (λ s, bool_decide (s = RStopped 0)))) [ImagePulling; Creating].

Definition spontaneous_crash_retains_ownership_until_cleanup_succeeds : bool :=
  passes (allocate 1 500 512 (insert_pod (test_pod 47 9 Running (Some (mkPodHandle 47 "cleanup-47")) 1 500 512 0 "")
            (worker_on "node-crash-cleanup" T4 1 4000 8192))) (mkCleanupFailing false 0) (
    drive_pods 100 ;;;
    check_state 47 Stopping ;;;
    let* r := the_runtime in
    check_that (remove_calls r =? 1) ;;;
    check_allocated 1 500 512 ;;;
    check_not_reported 47 is_stopped_report).

Definition failed_start_cleanup_retains_handle_and_enters_fail_closed_stop : bool :=
  passes (worker_on "node-start-cleanup" GpuNone 0 4000 8192) (mkCleanupFailing true 0) (
    handle_start_pod (test_start_cmd 48 100 128) 0 ;;;
    drive_pods 1 ;;; drive_pods 2 ;;; drive_pods 3 ;;;
    check_state 48 Stopping ;;;
    let* p := tracked_pod 48 in
    check_that (bool_decide (is_Some (handle p))) ;;;
    let* r := the_runtime in
    check_that (remove_calls r =? 1) ;;;
    let* w := worker_get (λ w, w) in
    check_that ((cpu_allocated_millicores w =? 100) && (memory_allocated_megabytes w =? 128))).

Definition failed_stop_retains_running_runtime_ownership_and_capacity : bool :=
  let marker := "/tmp/hivemind/mounts/42/juicefs/ownership-marker"%string in
  passes (allocate 1 500 512 (insert_pod (test_pod 42 9 Running (Some (mkPodHandle 42 "cap-42")) 1 500 512 0 "/owned/mount")
            (worker_on "node-stop-fail" T4 1 4000 8192))) (mkStopFailing 0 PRunning) (
    let* _ := on_host (create_dir_all "/tmp/hivemind/mounts/42/juicefs") in
    let* _ := on_host (create_dir_all marker) in
    handle_stop_pod (mkStopPodCmd 42 10) 100 ;;;
    drive_pods 100 ;;;
    check_state 42 Stopping ;;;
    check_allocated 1 500 512 ;;;
    let* p := tracked_pod 42 in
    check_that (String.eqb (juicefs_path p) "/owned/mount") ;;;
    check_not_reported 42 is_stopped_report ;;;
    handle_start_pod (gpu_start_cmd 43 10 "replacement" 1 T4 500 512) 101 ;;;
    let* w := worker_get (λ w, w) in
    check_that (bool_decide (pods w !! 43 = None)) ;;;
    check_that (gpu_allocated w =? 1) ;;;
    drive_pods 125 ;;; drive_pods 150 ;;; drive_pods 1000 ;;;
    let* r := the_runtime in
    check_that (stop_calls r =? STOP_ATTEMPT_MAX) ;;;
    check_state 42 Stopping ;;;
    check_allocated 1 500 512 ;;;
    let* exists_ := on_host (path_exists marker) in
    check_that exists_ ;;;
    set_runtime (λ r, mkStopFailing (stop_calls r) (PStopped 137)) ;;;
    drive_pods 1025 ;;;
    let* r := the_runtime in
    check_that (stop_calls r =? STOP_ATTEMPT_MAX) ;;;
    check_state 42 (Stopped 137) ;;;
    check_allocated 0 0 0 ;;;
    let* exists_ := on_host (path_exists marker) in
    check_that (negb exists_)).

Definition shutdown_propagates_one_deadline_to_blocking_runtime_calls : bool :=
  passes (allocate 0 1 1 (insert_pod (test_pod 45 9 Running (Some (mkPodHandle 45 "blocking-45")) 0 1 1 1000 "")
            (worker_on "node-shutdown-deadline" GpuNone 0 1000 512))) (mkDeadlineBlocking 0 false) (
    let* started := the_clock in
    let* done := shutdown_with_deadline (25 * NANOS_PER_MILLI) in
    check_that (negb done) ;;;
    let* now := the_clock in
    check_that (now - started <? 150 * NANOS_PER_MILLI) ;;;
    let* r := the_runtime in
    check_that (deadline_calls r =? 1) ;;;
    check_that (negb (removed_unverified r)) ;;;
    let* w := worker_get (λ w, w) in
    check_that (bool_decide (is_Some (pods w !! 45)))).

Definition shutdown_retains_unverified_runtime_until_terminal_status_proof : bool :=
  passes (allocate 1 500 512 (insert_pod (test_pod 45 9 Running (Some (mkPodHandle 45 "cap-45")) 1 500 512 1 "")
            (worker_on "node-shutdown" T4 1 4000 8192))) (mkStopFailing 0 PRunning) (
    let* done := shutdown in
    check_that (negb done) ;;;
    let* r := the_runtime in
    check_that (stop_calls r =? STOP_ATTEMPT_MAX) ;;;
    check_state 45 Stopping ;;;
    check_allocated 1 500 512 ;;;
    check_not_reported 45 is_stopped_report ;;;
    set_runtime (λ r, mkStopFailing (stop_calls r) (PStopped 143)) ;;;
    let* done := shutdown in
    check_that done ;;;
    let* r := the_runtime in
    check_that (stop_calls r =? STOP_ATTEMPT_MAX) ;;;
    let* w := worker_get (λ w, w) in
    check_that (bool_decide (pods w = ∅)) ;;;
    check_allocated 0 0 0 ;;;
    check_reported 45 (λ s, bool_decide (s = RStopped 143))).

Definition failed_stop_accepts_runtime_status_proof_of_terminal_state : bool :=
  passes (allocate 1 500 512 (insert_pod (test_pod 44 9 Stopping (Some (mkPodHandle 44 "cap-44")) 1 500 512 0 "")
            (worker_on "node-stop-terminal" T4 1 4000 8192))) (mkStopFailing 0 (PStopped 137)) (
    drive_pods 10 ;;;
    check_state 44 (Stopped 137) ;;;
    check_allocated 0 0 0 ;;;
    check_reported 44 (λ s, bool_decide (s = RStopped 137))).

Definition stop_grace_is_capped_before_runtime_dispatch : bool :=
  passes (insert_pod (test_pod 49 9 Running (Some (mkPodHandle 49 "cap-49")) 0 500 512 0 "")
            (worker_on "node-stop-cap" GpuNone 0 4000 8192)) (mkStopRecording [] (PStopped 0)) (
    handle_stop_pod (mkStopPodCmd 49 U64_MAX) 100 ;;;
    drive_pods 100 ;;;
    let* r := the_runtime in
    check_that (bool_decide (stop_log r = [("cap-49"%string, MAX_STOP_GRACE_MS)]))).

Definition stopping_pod_uses_requested_runtime_grace : bool :=
  passes (insert_pod (test_pod 46 9 Running (Some (mkPodHandle 46 "cap-46")) 0 500 512 0 "")
            (worker_on "node-stop" GpuNone 0 4000 8192)) (mkStopRecording [] (PStopped 0)) (
    handle_stop_pod (mkStopPodCmd 46 10) 100 ;;;
    drive_pods 100 ;;;
    let* r := the_runtime in
    check_that (bool_decide (stop_log r = [("cap-46"%string, 10)])) ;;;
    check_state 46 (Stopped 0)).

(** [io.sent.iter().rev().find_map(..).expect(..)]. *)
Definition last_report (p : PodStatusEventMsg → bool) (ms : list WorkerMessage) : option PodStatusReport :=
  pe_status <$> last (filter (λ e, p e = true) (omap (λ m, match m with PodStatusEvent e => Some e | _ => None end) ms)).

Definition create_failure_is_reported_and_releases_gpu_allocation : bool :=
  let why := failed_with ["container create failed"; "create exploded"]%string in
  passes (worker_on "node-gpu" T4 1 4000 8192) mkCreateFailing (
    handle_start_pod (gpu_start_cmd 21 9 "demo:v1" 1 T4 1000 1024) 0 ;;;
    drive_pods 1 ;;; drive_pods 2 ;;;
    let* p := tracked_pod 21 in
    check_that (match state p with Failed reason => why reason | _ => false end) ;;;
    let* w := worker_get (λ w, w) in
    check_that (gpu_allocated w =? 0) ;;;
    let* ms := messages in
    check_that (match last_report (λ _, true) ms with Some (RFailed reason) => why reason | _ => false end)).

Definition transient_start_failure_retries_without_failed_status : bool :=
  passes (new_with_lifecycle_concurrency disk0 "node-retry" GpuNone 0 4000 8192 2) (mkFlakyStart 0 PCreated) (
    handle_start_pod (test_start_cmd 7 100 128) 0 ;;;
    drive_pods 1 ;;; drive_pods 2 ;;; drive_pods 3 ;;;
    let* p := tracked_pod 7 in
    check_that (lifecycle_failures p =? 1) ;;;
    check_that (bool_decide (state p = Creating)) ;;;
    check_that (bool_decide (handle p = None)) ;;;
    let retry_at := lifecycle_retry_after_tick p in
    drive_pods retry_at ;;;
    check_state 7 Starting ;;;
    drive_pods (retry_at + 1) ;;;
    check_state 7 Running ;;;
    let* r := the_runtime in
    check_that (start_calls r =? 2) ;;;
    check_not_reported 7 is_failed_report).

Definition repeated_start_failures_eventually_report_failed_status : bool :=
  passes (new_with_lifecycle_concurrency disk0 "node-retry-cap" GpuNone 0 4000 8192 2) (mkFlakyStart 0 PCreated) (
    handle_start_pod (test_start_cmd 8 100 128) 0 ;;;
    drive_pods 1 ;;; drive_pods 2 ;;;
    for_each (seq 0 (Z.to_nat LIFECYCLE_RETRY_MAX)) (λ _,
      set_runtime (λ r, mkFlakyStart 0 (fs_status r)) ;;;
      let* p := tracked_pod 8 in
      let now := Z.max (lifecycle_retry_after_tick p) 3 in
      when (bool_decide (state p = Creating)) (drive_pods now) ;;;
      drive_pods (now + 1)) ;;;
    check_state 8 Stopping ;;;
    drive_pods 1000 ;;;
    let* p := tracked_pod 8 in
    check_that (match state p with Failed reason => contains "transient start failure" reason | _ => false end) ;;;
    check_reported 8 is_failed_report).

Definition start_pod_rejects_nonzero_gpu_request_with_mismatched_type : bool :=
  forallb (λ gpus,
    passes (worker_on "node-gpu-type" gpus.1 8 4000 8192) mkCreateFailing (
      handle_start_pod (mkStartPodCmd 1 1 "demo:v1" "" 8080 1 gpus.2 500 512 "" "" "" [] "" "" "" false) 0 ;;;
      let* w := worker_get (λ w, w) in
      check_that (bool_decide (pods w = ∅)) ;;;
      check_allocated 0 0 0 ;;;
      check_reported 1 (λ s, bool_decide (s = RFailed "requested GPU type does not match worker GPU type"))))
    [(H100Sxm, T4); (T4, H100Sxm)].

Definition start_pod_rejects_cpu_memory_overcommit_before_insert : bool :=
  passes (worker_on "node-small" GpuNone 0 100 100) mkCreateFailing (
    handle_start_pod (test_start_cmd 1 80 80) 0 ;;;
    handle_start_pod (test_start_cmd 2 30 30) 0 ;;;
    let* w := worker_get (λ w, w) in
    check_that (bool_decide (is_Some (pods w !! 1))) ;;;
    check_that (bool_decide (pods w !! 2 = None)) ;;;
    check_that ((cpu_allocated_millicores w =? 80) && (memory_allocated_megabytes w =? 80)) ;;;
    let* ms := messages in
    check_that (match last_report (λ e, pe_pod_id e =? 2) ms with Some s => is_failed_report s | None => false end)).

Definition worker_tests : list (string * bool) :=
  [("connection_loss_forces_reregister", connection_loss_forces_reregister);
   ("pod_spec_uses_per_pod_cpu_and_memory_limits", pod_spec_uses_per_pod_cpu_and_memory_limits);
   ("requested_juicefs_mount_failure_never_creates_runtime_pod", requested_juicefs_mount_failure_never_creates_runtime_pod);
   ("terminal_tombstones_are_bounded_and_oldest_first", terminal_tombstones_are_bounded_and_oldest_first);
   ("valid_transitions", valid_transitions); ("invalid_transitions", invalid_transitions);
   ("running_pod_keeps_declared_service_port", running_pod_keeps_declared_service_port);
   ("run_request_without_running_pod_returns_error", run_request_without_running_pod_returns_error);
   ("run_request_selects_lowest_running_pod_id", run_request_selects_lowest_running_pod_id);
   ("run_request_uses_runtime_forwarder_for_running_pod", run_request_uses_runtime_forwarder_for_running_pod);
   ("run_forwarding_failure_has_distinct_status", run_forwarding_failure_has_distinct_status);
   ("successful_stop_requires_terminal_runtime_status", successful_stop_requires_terminal_runtime_status);
   ("stop_pod_cancels_before_runtime_handle_exists", stop_pod_cancels_before_runtime_handle_exists);
   ("spontaneous_crash_retains_ownership_until_cleanup_succeeds", spontaneous_crash_retains_ownership_until_cleanup_succeeds);
   ("failed_start_cleanup_retains_handle_and_enters_fail_closed_stop", failed_start_cleanup_retains_handle_and_enters_fail_closed_stop);
   ("failed_stop_retains_running_runtime_ownership_and_capacity", failed_stop_retains_running_runtime_ownership_and_capacity);
   ("shutdown_propagates_one_deadline_to_blocking_runtime_calls", shutdown_propagates_one_deadline_to_blocking_runtime_calls);
   ("shutdown_retains_unverified_runtime_until_terminal_status_proof", shutdown_retains_unverified_runtime_until_terminal_status_proof);
   ("failed_stop_accepts_runtime_status_proof_of_terminal_state", failed_stop_accepts_runtime_status_proof_of_terminal_state);
   ("stop_grace_is_capped_before_runtime_dispatch", stop_grace_is_capped_before_runtime_dispatch);
   ("stopping_pod_uses_requested_runtime_grace", stopping_pod_uses_requested_runtime_grace);
   ("create_failure_is_reported_and_releases_gpu_allocation", create_failure_is_reported_and_releases_gpu_allocation);
   ("transient_start_failure_retries_without_failed_status", transient_start_failure_retries_without_failed_status);
   ("repeated_start_failures_eventually_report_failed_status", repeated_start_failures_eventually_report_failed_status);
   ("start_pod_rejects_nonzero_gpu_request_with_mismatched_type", start_pod_rejects_nonzero_gpu_request_with_mismatched_type);
   ("start_pod_rejects_cpu_memory_overcommit_before_insert", start_pod_rejects_cpu_memory_overcommit_before_insert)]%string.

(** The model passes them all. *)
Lemma worker_tests_pass : filter (λ t, t.2 = false) worker_tests = [].
Proof. vm_compute. reflexivity. Qed.
