(* ===== verification/ProtocolTests.v ===== *)
(** * The tests of [protocol.rs], run on the model

    The unit tests of the codecs and frames as programs over the definitions of [Protocol]
    and [Frame], and the vectors of the wire contract shared with the control plane
    ([tests/wire/contract-v6.json]): the model encodes and decodes them byte for byte.
    Encrypted cases run with the stand-in AEAD [toy_aead]; the encrypted vector of the
    contract needs the real one and is left out. *)

From S2P Require Import Prelude Types RustStr Protocol Crypto Frame.

#[local] Existing Instance toy_aead.

#[local] Instance start_cmd_eq_dec : EqDecision StartPodCmd.
Proof. solve_decision. Defined.
#[local] Instance stop_cmd_eq_dec : EqDecision StopPodCmd.
Proof. solve_decision. Defined.
#[local] Instance probe_cmd_eq_dec : EqDecision ProbePodCmd.
Proof. solve_decision. Defined.
#[local] Instance run_cmd_eq_dec : EqDecision RunRequestCmd.
Proof. solve_decision. Defined.
#[local] Instance control_message_eq_dec : EqDecision ControlMessage.
Proof. solve_decision. Defined.

Definition MSG_REGISTER_ACK : Z := 1.

(** ** Helpers *)

Definition decoded (tag : Z) (payload : bytes) : option ControlMessage :=
  match decode_control_message tag payload with Done (Ok m) => Some m | _ => None end.
(** [decode_control_message(..).is_err()]. *)
Definition rejected (tag : Z) (payload : bytes) : bool :=
  match decode_control_message tag payload with Done (Err _) => true | _ => false end.
Definition rejected_as_invalid (tag : Z) (payload : bytes) : bool :=
  match decode_control_message tag payload with
  | Done (Err e) => match err_kind e with InvalidData => true | _ => false end
  | _ => false
  end.
(** [encode_agent_message(..).unwrap()] with the buffer after it. *)
Definition encoded (m : WorkerMessage) (buf : bytes) : option (Z * nat * bytes) :=
  match encode_agent_message m buf with (Ok (t, n), buf') => Some (t, n, buf') | _ => None end.
Definition written (tag : Z) (payload : bytes) (key : option bytes) : option bytes :=
  match write_frame_encrypted (zeros NONCE_LEN) ([] : bytes) tag payload key with
  | (Ok _, out) => Some out
  | _ => None
  end.
Definition read_back (frame buf : bytes) (key : option bytes) : option (Z * nat * bytes) :=
  match read_frame_encrypted frame buf key with Done (Ok (t, n), buf', _) => Some (t, n, buf') | _ => None end.
Definition buffered_back (frame buf : bytes) (key : option bytes) : option (Z * nat * nat * bytes) :=
  match try_decode_frame frame buf key with Done (Ok (Some (t, n, c)), buf') => Some (t, n, c, buf') | _ => None end.

Definition same (a b : bytes) : bool := bool_decide (a = b).
Definition byte_at (i : nat) (b : bytes) : Z := default (-1) (b2z <$> b !! i).
Definition le_at (i n : nat) (b : bytes) : Z := from_le (slice i (i + n) b).
Definition bs (l : list Z) : bytes := z2b <$> l.
Definition set_at (i : nat) (z : Z) (b : bytes) : bytes := splice i [z2b z] b.
Definition from_opt (o : option bool) : bool := default false o.

(** ** The tests *)

Definition fixed_payload_sizes_match_wire_layout : bool :=
  (STOP_POD_PAYLOAD_LEN =? 16)%nat && (PROBE_POD_PAYLOAD_LEN =? 8)%nat && (NODE_REGISTER_PAYLOAD_LEN =? 138)%nat
  && (NODE_HEARTBEAT_PAYLOAD_LEN =? 23)%nat && (POD_STATUS_EVENT_PAYLOAD_LEN =? 150)%nat.

Definition frame_round_trip : bool := from_opt (
  buf ← written 66 (as_bytes "hello") None;
  '(t, n, read_buf) ← read_back buf (zeros 256) None;
  Some ((t =? 66) && (n =? 5)%nat && same (take 5 read_buf) (as_bytes "hello"))).

Definition frame_empty_payload : bool := from_opt (
  buf ← written MSG_REGISTER_ACK [] None;
  '(t, n, _) ← read_back buf (zeros 256) None;
  Some ((t =? MSG_REGISTER_ACK) && (n =? 0)%nat)).

Definition frame_writer_rejects_oversize_before_writing : bool :=
  match write_frame (zeros NONCE_LEN) ([] : bytes) 66 (replicate (MAX_FRAME_PAYLOAD + 1) (z2b 90)) with
  | (Err e, output) => match err_kind e with InvalidInput => same output [] | _ => false end
  | _ => false
  end.

Definition run_status_wire_golden : bool :=
  forallb (λ sw, run_status_as_u8 sw.1 =? sw.2)
    [(RunOk, 0); (DeploymentNotFound, 1); (QueueFull, 2); (InvalidPayload, 3); (ResponseTooLarge, 4);
     (OutcomeAmbiguous, 5); (ForwardingFailed, 6); (NoRunningPod, 7); (Unavailable, 8); (NotLeader, 9)].

Definition worker_rejects_core_only_and_unknown_run_statuses : bool :=
  forallb (λ status,
    match encode_agent_message (RunResponse (mkRunResponseMsg 7 status [])) (zeros MAX_FRAME_PAYLOAD) with
    | (Err e, _) => match err_kind e with InvalidData => true | _ => false end
    | _ => false
    end) [run_status_as_u8 NotLeader; 10; 255].

Definition run_response_exact_bound_and_overflow_status : bool := from_opt (
  let body := replicate MAX_RUN_RESPONSE_BODY (z2b 90) in
  '(t, n, buf) ← encoded (RunResponse (mkRunResponseMsg 7 0 body)) (zeros MAX_FRAME_PAYLOAD);
  '(_, n2, buf2) ← encoded (RunResponse (mkRunResponseMsg 8 0 (replicate (MAX_RUN_RESPONSE_BODY + 1) (z2b 107)))) buf;
  Some ((t =? MSG_RUN_RESPONSE) && (n =? MAX_FRAME_PAYLOAD)%nat && (byte_at 8 buf =? 0) && same (drop 9 buf) body
        && (n2 =? 9)%nat && (le_at 0 8 buf2 =? 8) && (byte_at 8 buf2 =? RUN_STATUS_RESPONSE_TOO_LARGE))).

Definition test_frame (flags version tag : Z) (key : option bytes) : bytes :=
  let inner := to_le 2 version ++ [z2b tag] in
  if flags =? 1 then
    let key := default [] key in
    let total_len := (1 + NONCE_LEN + length inner + TAG_LEN)%nat in
    let header := to_le 4 (Z.of_nat total_len) ++ [z2b flags] in
    header ++ encrypt_frame (zeros NONCE_LEN) key inner header
  else to_le 4 (1 + Z.of_nat (length inner)) ++ [z2b flags] ++ inner.

Definition streaming_frame_contract_table : bool :=
  match from_hex "000102030405060708090a0b0c0d0e0f101112131415161718191a1b1c1d1e1f" with
  | Done (Ok state) =>
    let key := Some (worker_key state) in
    let oversize := to_le 4 (Z.of_nat MAX_FRAME_PAYLOAD + 45) ++ [z2b 1] in
    forallb (λ '(frame, key, valid),
      Bool.eqb (bool_decide (is_Some (read_back frame (zeros MAX_FRAME_PAYLOAD) key))) valid
      && Bool.eqb (bool_decide (is_Some (buffered_back frame (zeros MAX_FRAME_PAYLOAD) key))) valid)
      [(test_frame 2 PROTOCOL_VERSION 66 None, None, false);
       (test_frame 0 (PROTOCOL_VERSION + 1) 66 None, None, false);
       (test_frame 1 (PROTOCOL_VERSION + 1) 66 key, key, false);
       (test_frame 0 PROTOCOL_VERSION 66 None, key, false);
       (test_frame 1 PROTOCOL_VERSION 66 key, None, false);
       (bs [1; 0; 0; 0; 0], None, false);
       (bs [1; 0; 0; 0; 1], key, false);
       (oversize, key, false);
       (test_frame 0 PROTOCOL_VERSION 66 None, None, true);
       (test_frame 1 PROTOCOL_VERSION 66 key, key, true)]
  | _ => false
  end.

Definition streaming_frame_accepts_exact_payload_boundary : bool := from_opt (
  let payload := replicate MAX_FRAME_PAYLOAD (z2b 90) in
  frame ← written 66 payload None;
  '(t, n, decoded) ← read_back frame (zeros MAX_FRAME_PAYLOAD) None;
  Some ((t =? 66) && (n =? MAX_FRAME_PAYLOAD)%nat && same decoded payload)).

Definition buffered_frame_contract_rejects_oversize_before_full_frame_arrives : bool :=
  match try_decode_frame (to_le 4 (Z.of_nat MAX_FRAME_PAYLOAD + 5) ++ [z2b 0]) (zeros MAX_FRAME_PAYLOAD) None with
  | Done (Err _, _) => true
  | _ => false
  end.

Definition buffered_frame_leaves_trailing_frame_for_next_decode : bool := from_opt (
  let first := test_frame 0 PROTOCOL_VERSION 65 None in
  let second := test_frame 0 PROTOCOL_VERSION 66 None in
  let stream := first ++ second in
  '(_, _, consumed, payload) ← buffered_back stream (zeros MAX_FRAME_PAYLOAD) None;
  '(t, _, consumed2, _) ← buffered_back (drop consumed stream) payload None;
  Some ((consumed =? length first)%nat && (t =? 66) && (consumed2 =? length second)%nat)).

Definition control_message_tags_match_zig_worker_tags : bool :=
  (MSG_REGISTER_ACK =? 1) && (MSG_START_POD =? 2) && (MSG_STOP_POD =? 3) && (MSG_RUN_REQUEST =? 4).

Definition encode_decode_node_register : bool := from_opt (
  '(t, n, buf) ← encoded (NodeRegister (mkNodeRegisterMsg "gpu-worker-01" 64000 512000 H100Sxm 8)) (zeros 256);
  Some ((t =? MSG_NODE_REGISTER) && (n =? 138)%nat && same (take 13 buf) (as_bytes "gpu-worker-01")
        && (byte_at 13 buf =? 0))).

Definition build_start_pod_payload (pod_id deployment_id : Z) (image entrypoint : string)
    (port gpu_count gpu_type cpu_millicores memory_megabytes : Z) (juicefs_path liveness_path readiness_path : string)
    (env_vars : list (string * string * bool)) : bytes :=
  to_le 8 pod_id ++ to_le 8 deployment_id ++ str_to_fixed 256 image ++ str_to_fixed 256 entrypoint
  ++ to_le 2 port ++ [z2b gpu_count] ++ [z2b gpu_type] ++ to_le 4 cpu_millicores ++ to_le 4 memory_megabytes
  ++ str_to_fixed 128 juicefs_path ++ str_to_fixed 64 liveness_path ++ str_to_fixed 64 readiness_path
  ++ [z2b (Z.of_nat (length env_vars))]
  ++ concat ((λ '(name, value, is_secret),
       str_to_fixed 64 name ++ str_to_fixed 256 value ++ [z2b (if is_secret : bool then 1 else 0)]) <$> env_vars).

Definition append_start_pod_registry_trailer (buf : bytes) (registry username password : string)
    (password_is_secret : bool) : bytes :=
  buf ++ [z2b 1] ++ str_to_fixed 128 registry ++ str_to_fixed 64 username ++ str_to_fixed 256 password
  ++ [z2b (if password_is_secret then 1 else 0)].

Definition minimal_start_pod : bytes := build_start_pod_payload 1 2 "img" "" 0 0 0 1 1 "" "" "" [].

Definition start_pod_of (m : ControlMessage) : option StartPodCmd :=
  match m with StartPod cmd => Some cmd | _ => None end.

Definition test_decode_start_pod : bool := from_opt (
  msg ← decoded MSG_START_POD (build_start_pod_payload 42 100 "nginx:latest" "serve" 8080 2 (gpu_type_as_u8 H100Sxm)
          4000 8192 "/data" "/health" "/ready" []);
  Some (bool_decide (msg = StartPod (mkStartPodCmd 42 100 "nginx:latest" "serve" 8080 2 H100Sxm 4000 8192 "/data"
          "/health" "/ready" [] "" "" "" false)))).

Definition decode_start_pod_registry_auth_trailer : bool := from_opt (
  let payload := append_start_pod_registry_trailer
    (build_start_pod_payload 7 200 "registry.io/app:1" "" 9090 1 (gpu_type_as_u8 GpuNone) 1000 512 "" "" ""
       [("TOKEN", "doppler-token", true)]%string) "registry.io" "alice" "s3cr3t" true in
  msg ← decoded MSG_START_POD payload;
  cmd ← start_pod_of msg;
  Some ((length payload =? 797 + 321 + 450)%nat && (sp_pod_id cmd =? 7) && (sp_deployment_id cmd =? 200)
        && bool_decide (ee_is_secret_ref <$> sp_env_vars cmd = [true])
        && String.eqb (sp_image_pull_registry cmd) "registry.io" && String.eqb (sp_image_pull_username cmd) "alice"
        && String.eqb (sp_image_pull_password cmd) "s3cr3t" && sp_image_pull_password_is_secret cmd)).

Definition decode_start_pod_rejects_missing_env_secret_trailer_and_trailing_bytes : bool :=
  let missing_env := set_at 796 1 minimal_start_pod in
  let missing_secret_flag :=
    removelast (append_start_pod_registry_trailer minimal_start_pod "registry" "user" "secret" true) in
  rejected MSG_START_POD missing_env && rejected MSG_START_POD missing_secret_flag
  && rejected MSG_START_POD (minimal_start_pod ++ [z2b 255]).

Definition fixed_control_payloads_decode_little_endian_integers : bool :=
  bool_decide (decoded MSG_STOP_POD (bs [8; 7; 6; 5; 4; 3; 2; 1; 24; 23; 22; 21; 20; 19; 18; 17])
    = Some (StopPod (mkStopPodCmd 0x0102030405060708 0x1112131415161718)))
  && bool_decide (decoded MSG_PROBE_POD (bs [0x88; 0x77; 0x66; 0x55; 0x44; 0x33; 0x22; 0x11])
    = Some (ProbePod (mkProbePodCmd 0x1122334455667788))).

Definition fixed_control_payloads_require_exact_lengths : bool :=
  forallb (λ '(tag, exact),
    rejected tag (removelast exact) && rejected tag (exact ++ [z2b 255]) && bool_decide (is_Some (decoded tag exact)))
    [(MSG_STOP_POD, zeros STOP_POD_PAYLOAD_LEN); (MSG_PROBE_POD, zeros PROBE_POD_PAYLOAD_LEN)].

Definition zig_start_pod_tag_decodes_as_start_pod : bool := from_opt (
  msg ← decoded 2 (build_start_pod_payload 42 100 "nginx:latest" "serve" 8080 0 (gpu_type_as_u8 GpuNone) 1000 512
          "" "" "" []);
  cmd ← start_pod_of msg;
  Some ((sp_pod_id cmd =? 42) && (sp_deployment_id cmd =? 100))).

Definition zig_stop_pod_tag_decodes_as_stop_pod : bool :=
  bool_decide (decoded 3 (splice 8 (to_le 8 1234) (splice 0 (to_le 8 77) (zeros STOP_POD_PAYLOAD_LEN)))
    = Some (StopPod (mkStopPodCmd 77 1234))).

Definition test_encode_pod_status_event : bool := from_opt (
  '(t, n, buf) ← encoded (PodStatusEvent (mkPodStatusEventMsg 7 RRunning)) (zeros 256);
  Some ((t =? MSG_POD_STATUS_EVENT) && (n =? 150)%nat && (le_at 0 8 buf =? 7) && (byte_at 9 buf =? 2))).

Definition encode_heartbeat : bool := from_opt (
  '(t, n, buf) ← encoded (NodeHeartbeat (mkNodeHeartbeatMsg 12345 3 5)) (zeros 64);
  Some ((t =? MSG_NODE_HEARTBEAT) && (n =? 23)%nat && (le_at 0 8 buf =? 12345))).

Definition fixed_agent_payloads_encode_little_endian_integers : bool :=
  let expect (m : WorkerMessage) (tag : Z) (len : nat) (expected : bytes) :=
    bool_decide (encoded m (replicate len (z2b 0xa5)) = Some (tag, len, expected)) in
  expect (NodeRegister (mkNodeRegisterMsg "node" 0x01020304 0x05060708 T4 9)) MSG_NODE_REGISTER NODE_REGISTER_PAYLOAD_LEN
    (set_at 73 9 (set_at 72 8 (splice 68 (bs [8; 7; 6; 5]) (splice 64 (bs [4; 3; 2; 1])
      (splice 0 (as_bytes "node") (zeros NODE_REGISTER_PAYLOAD_LEN))))))
  && expect (NodeHeartbeat (mkNodeHeartbeatMsg 0x0102030405060708 0x1122 0)) MSG_NODE_HEARTBEAT NODE_HEARTBEAT_PAYLOAD_LEN
    (splice 21 (bs [0x22; 0x11]) (splice 0 (bs [8; 7; 6; 5; 4; 3; 2; 1]) (zeros NODE_HEARTBEAT_PAYLOAD_LEN)))
  && expect (PodStatusEvent (mkPodStatusEventMsg 0x1112131415161718 (RStopped 0x01020304)))
    MSG_POD_STATUS_EVENT POD_STATUS_EVENT_PAYLOAD_LEN
    (splice 22 (as_bytes "stopped") (splice 18 (bs [4; 3; 2; 1]) (set_at 9 3
      (splice 0 (bs [0x18; 0x17; 0x16; 0x15; 0x14; 0x13; 0x12; 0x11]) (zeros POD_STATUS_EVENT_PAYLOAD_LEN))))).

Definition fixed_agent_payloads_reject_short_and_accept_exact_output_capacity : bool :=
  forallb (λ '(m, len),
    match encode_agent_message m (zeros (len - 1)) with
    | (Err e, _) => match err_kind e with WriteZero => true | _ => false end
    | _ => false
    end && match encoded m (zeros len) with Some (_, n, _) => (n =? len)%nat | None => false end)
    [(NodeRegister (mkNodeRegisterMsg "node" 1 2 GpuNone 0), NODE_REGISTER_PAYLOAD_LEN);
     (NodeHeartbeat (mkNodeHeartbeatMsg 1 2 0), NODE_HEARTBEAT_PAYLOAD_LEN);
     (PodStatusEvent (mkPodStatusEventMsg 1 RRunning), POD_STATUS_EVENT_PAYLOAD_LEN)].

Definition str_to_fixed_truncates : bool :=
  same (str_to_fixed 64 (Nat.iter 300 (String "a") "")) (replicate 64 Init.Byte.x61).

Definition fixed_to_string_strips_nulls : bool :=
  String.eqb (fixed_to_string (splice 0 (as_bytes "hello") (zeros 64))) "hello".

Definition gpu_type_round_trip : bool :=
  forallb (λ v, match u8_to_gpu_type v with Ok gt => gpu_type_as_u8 gt =? v | Err _ => false end)
    [0; 1; 2; 3; 4; 5; 6; 7; 8]
  && match u8_to_gpu_type 99 with
     | Err e => match err_kind e with InvalidData => true | _ => false end
     | Ok _ => false
     end.

Definition decode_start_pod_rejects_noncanonical_scalars : bool :=
  let invalid_gpu := build_start_pod_payload 1 2 "img" "" 0 0 9 1 1 "" "" "" [] in
  let invalid_env_flag := set_at (797 + 64 + 256) 2
    (build_start_pod_payload 1 2 "img" "" 0 0 0 1 1 "" "" "" [("TOKEN", "value", false)]%string) in
  let trailer := append_start_pod_registry_trailer (set_at 531 0 invalid_gpu) "registry" "user" "secret" false in
  rejected_as_invalid MSG_START_POD invalid_gpu && rejected_as_invalid MSG_START_POD invalid_env_flag
  && rejected_as_invalid MSG_START_POD (set_at (length trailer - 1) 2 trailer).

Definition full_write_read_round_trip : bool := from_opt (
  '(t, n, payload_buf) ← encoded (NodeRegister (mkNodeRegisterMsg "test-node" 8000 16384 T4 1)) (zeros 256);
  frame_buf ← written t (take n payload_buf) None;
  '(t2, n2, _) ← read_back frame_buf (zeros 256) None;
  Some ((t2 =? MSG_NODE_REGISTER) && (n2 =? 138)%nat)).

Definition encrypted_frame_round_trip_large_payload : bool :=
  match from_hex "00112233445566778899aabbccddeeff00112233445566778899aabbccddeeff" with
  | Done (Ok state) => from_opt (
      let key := Some (worker_key state) in
      let payload := replicate (8 * 1024) (z2b 90) in
      frame_buf ← written MSG_RUN_REQUEST payload key;
      '(t, n, read_buf) ← read_back frame_buf (zeros MAX_FRAME_PAYLOAD) key;
      Some ((t =? MSG_RUN_REQUEST) && (n =? length payload)%nat && same (take n read_buf) payload))
  | _ => false
  end.

Definition fixture_register_msg : WorkerMessage := NodeRegister (mkNodeRegisterMsg "test-agent-01" 32000 65536 H100Sxm 8).
Definition fixture_heartbeat_msg : WorkerMessage := NodeHeartbeat (mkNodeHeartbeatMsg 1234567890 4 0).

Definition local_start_pod_payload : bytes :=
  build_start_pod_payload 42 100 "registry.io/model:v1" "" 8080 2 (gpu_type_as_u8 H100Sxm) 4000 8192 "" "" "" [].

Definition local_register_payload_layout : bool := from_opt (
  '(t, n, buf) ← encoded fixture_register_msg (zeros 256);
  Some ((t =? MSG_NODE_REGISTER) && (n =? 138)%nat && same (take 13 buf) (as_bytes "test-agent-01")
        && (byte_at 13 buf =? 0) && same (slice 64 68 buf) (bs [0; 0x7d; 0; 0])
        && (byte_at 72 buf =? 3) && (byte_at 73 buf =? 8))).

Definition local_heartbeat_payload_layout : bool := from_opt (
  '(t, n, buf) ← encoded fixture_heartbeat_msg (zeros 64);
  Some ((t =? MSG_NODE_HEARTBEAT) && (n =? 23)%nat && (le_at 0 8 buf =? 1234567890) && (byte_at 8 buf =? 0)
        && (le_at 21 2 buf =? 4))).

Definition local_start_pod_decode : bool := from_opt (
  msg ← decoded MSG_START_POD local_start_pod_payload;
  cmd ← start_pod_of msg;
  Some ((sp_pod_id cmd =? 42) && (sp_deployment_id cmd =? 100) && String.eqb (sp_image cmd) "registry.io/model:v1"
        && (sp_gpu_count cmd =? 2) && bool_decide (sp_gpu_type cmd = H100Sxm) && (sp_cpu_millicores cmd =? 4000)
        && (sp_memory_megabytes cmd =? 8192) && str_is_empty (sp_image_pull_registry cmd)
        && str_is_empty (sp_image_pull_username cmd) && str_is_empty (sp_image_pull_password cmd)
        && negb (sp_image_pull_password_is_secret cmd))).

Definition local_start_pod_byte_layout : bool :=
  let b := local_start_pod_payload in
  (length b =? 797)%nat && (le_at 0 8 b =? 42) && (le_at 8 8 b =? 100)
  && same (slice 16 36 b) (as_bytes "registry.io/model:v1") && (byte_at 36 b =? 0) && (byte_at 272 b =? 0)
  && (le_at 528 2 b =? 8080) && (byte_at 530 b =? 2) && (byte_at 531 b =? 3) && (le_at 532 4 b =? 4000).

Definition build_run_request_payload (request_id deployment_id declared_len : Z) (body : bytes) : bytes :=
  to_le 8 request_id ++ to_le 8 deployment_id ++ to_le 4 declared_len ++ body.

Definition run_request_requires_exact_declared_payload_length : bool :=
  forallb (λ '(declared, body_len, expect_ok),
    let payload := build_run_request_payload 9 3 declared (replicate body_len (z2b 0x22)) in
    if expect_ok : bool then
      match decoded MSG_RUN_REQUEST payload with
      | Some (RunRequest cmd) =>
        (rr_request_id cmd =? 9) && (rr_deployment_id cmd =? 3) && (length (rr_payload cmd) =? body_len)%nat
      | _ => false
      end
    else rejected MSG_RUN_REQUEST payload)
    [(0, 0%nat, true); (Z.of_nat MAX_RUN_PAYLOAD, MAX_RUN_PAYLOAD, true); (8, 4%nat, false); (2, 4%nat, false);
     (Z.of_nat MAX_RUN_PAYLOAD + 1, (MAX_RUN_PAYLOAD + 1)%nat, false); (U32_MAX, 4%nat, false)].

(** ** The shared wire contract *)

Record Vector := mkVector {
  v_message : string;
  v_tag : Z;
  v_flags : Z;
  v_frame : bytes;
  v_plaintext : bytes;
  v_payload : bytes
}.

(** What the test asks of a vector, the key derived from the contract's PSK and its nonce
    at hand. *)
Definition vector_holds `{!Aead} (worker_key nonce : bytes) (v : Vector) : bool :=
  let key := if v_flags v =? 1 then Some worker_key else None in
  match try_decode_frame (v_frame v) (zeros MAX_FRAME_PAYLOAD) key with
  | Done (Ok (Some (tag, decoded_len, consumed)), decoded_payload) =>
    (consumed =? length (v_frame v))%nat && (tag =? v_tag v)
    && same (take decoded_len decoded_payload) (v_payload v) && same (drop 3 (v_plaintext v)) (v_payload v)
    && (if v_flags v =? 0 then
          match write_frame nonce ([] : bytes) tag (v_payload v) with
          | (Ok _, reencoded) => same reencoded (v_frame v)
          | _ => false
          end
        else
          let aad := take 5 (v_frame v) in
          same (aad ++ nonce ++ aead_encrypt worker_key nonce (v_plaintext v) aad) (v_frame v))
    && (let encodes m size :=
          match encoded m (zeros size) with
          | Some (t, n, buf) => (t =? tag) && same (take n buf) (v_payload v)
          | None => false
          end in
        if String.eqb (v_message v) "register" then encodes fixture_register_msg 256%nat
        else if String.eqb (v_message v) "heartbeat" then encodes fixture_heartbeat_msg 64%nat
        else if String.eqb (v_message v) "pod-status" then
          encodes (PodStatusEvent (mkPodStatusEventMsg 42 RRunning)) 256%nat
        else if String.eqb (v_message v) "start-pod" then
          match decoded tag (v_payload v) with
          | Some (StartPod c) =>
            (sp_pod_id c =? 42) && (sp_deployment_id c =? 100) && String.eqb (sp_image c) "registry.io/model:v1"
          | _ => false
          end
        else if String.eqb (v_message v) "run-request" then
          match decoded tag (v_payload v) with
          | Some (RunRequest c) => (rr_request_id c =? 0x0102030405060708) && same (rr_payload c) (as_bytes "ping")
          | _ => false
          end
        else if String.eqb (v_message v) "run-response" then
          (9 <=? length (v_payload v))%nat
          && encodes (RunResponse (mkRunResponseMsg (le_at 0 8 (v_payload v)) (byte_at 8 (v_payload v))
                        (drop 9 (v_payload v)))) 256%nat
        else false)
  | _ => false
  end.

(** [fixture_hex]. *)
Definition hex (value : string) : bytes :=
  match hex_decode (as_bytes value) (String.length value / 2)%nat with Done (Ok b) => b | _ => [] end.

(** The unencrypted vectors the contract gives to Rust. *)
Definition contract_vectors : list Vector :=
  [
   mkVector "register" 16 0 (hex "8e00000000060010746573742d6167656e742d3031" ++ zeros 52 ++ hex "7d0000000001000308" ++ zeros 64)
     (hex "060010746573742d6167656e742d3031" ++ zeros 52 ++ hex "7d0000000001000308" ++ zeros 64)
     (hex "746573742d6167656e742d3031" ++ zeros 52 ++ hex "7d0000000001000308" ++ zeros 64);
   mkVector "heartbeat" 17 0 (hex "1b00000000060011d2029649" ++ zeros 17 ++ hex "0400")
     (hex "060011d2029649" ++ zeros 17 ++ hex "0400")
     (hex "d2029649" ++ zeros 17 ++ hex "0400");
   mkVector "pod-status" 18 0 (hex "9a000000000600122a000000000000000002" ++ zeros 12 ++ hex "72756e6e696e67" ++ zeros 121)
     (hex "0600122a000000000000000002" ++ zeros 12 ++ hex "72756e6e696e67" ++ zeros 121)
     (hex "2a000000000000000002" ++ zeros 12 ++ hex "72756e6e696e67" ++ zeros 121);
   mkVector "start-pod" 2 0 (hex "21030000000600022a00000000000000640000000000000072656769737472792e696f2f6d6f64656c3a7631" ++ zeros 236 ++ hex "2f7365727665" ++ zeros 250 ++ hex "901f0203a00f0000002000002f6d6e742f6d6f64656c73" ++ zeros 117 ++ hex "2f6c697665" ++ zeros 59 ++ hex "2f7265616479" ++ zeros 59)
     (hex "0600022a00000000000000640000000000000072656769737472792e696f2f6d6f64656c3a7631" ++ zeros 236 ++ hex "2f7365727665" ++ zeros 250 ++ hex "901f0203a00f0000002000002f6d6e742f6d6f64656c73" ++ zeros 117 ++ hex "2f6c697665" ++ zeros 59 ++ hex "2f7265616479" ++ zeros 59)
     (hex "2a00000000000000640000000000000072656769737472792e696f2f6d6f64656c3a7631" ++ zeros 236 ++ hex "2f7365727665" ++ zeros 250 ++ hex "901f0203a00f0000002000002f6d6e742f6d6f64656c73" ++ zeros 117 ++ hex "2f6c697665" ++ zeros 59 ++ hex "2f7265616479" ++ zeros 59);
   mkVector "run-request" 4 0 (hex "1c00000000060004080706050403020164000000000000000400000070696e67")
     (hex "060004080706050403020164000000000000000400000070696e67")
     (hex "080706050403020164000000000000000400000070696e67");
   mkVector "run-response" 19 0 (hex "18000000000600130807060504030201066469616c206661696c6564")
     (hex "0600130807060504030201066469616c206661696c6564")
     (hex "0807060504030201066469616c206661696c6564");
   mkVector "run-response" 19 0 (hex "15000000000600130807060504030201007374617475732d30")
     (hex "0600130807060504030201007374617475732d30")
     (hex "0807060504030201007374617475732d30");
   mkVector "run-response" 19 0 (hex "15000000000600130807060504030201017374617475732d31")
     (hex "0600130807060504030201017374617475732d31")
     (hex "0807060504030201017374617475732d31");
   mkVector "run-response" 19 0 (hex "15000000000600130807060504030201027374617475732d32")
     (hex "0600130807060504030201027374617475732d32")
     (hex "0807060504030201027374617475732d32");
   mkVector "run-response" 19 0 (hex "15000000000600130807060504030201037374617475732d33")
     (hex "0600130807060504030201037374617475732d33")
     (hex "0807060504030201037374617475732d33");
   mkVector "run-response" 19 0 (hex "15000000000600130807060504030201047374617475732d34")
     (hex "0600130807060504030201047374617475732d34")
     (hex "0807060504030201047374617475732d34");
   mkVector "run-response" 19 0 (hex "15000000000600130807060504030201057374617475732d35")
     (hex "0600130807060504030201057374617475732d35")
     (hex "0807060504030201057374617475732d35");
   mkVector "run-response" 19 0 (hex "15000000000600130807060504030201077374617475732d37")
     (hex "0600130807060504030201077374617475732d37")
     (hex "0807060504030201077374617475732d37");
   mkVector "run-response" 19 0 (hex "15000000000600130807060504030201087374617475732d38")
     (hex "0600130807060504030201087374617475732d38")
     (hex "0807060504030201087374617475732d38")
  ]%string.

Definition wire_contract_corpus_is_canonical_and_byte_identical : bool :=
  forallb (vector_holds (zeros KEY_LEN) (hex "000102030405060708090a0b0c0d0e0f1011121314151617")) contract_vectors.

(** ** Verdict *)

Definition protocol_tests : list (string * bool) :=
  [("fixed_payload_sizes_match_wire_layout", fixed_payload_sizes_match_wire_layout);
   ("frame_round_trip", frame_round_trip);
   ("frame_empty_payload", frame_empty_payload);
   ("frame_writer_rejects_oversize_before_writing", frame_writer_rejects_oversize_before_writing);
   ("run_status_wire_golden", run_status_wire_golden);
   ("worker_rejects_core_only_and_unknown_run_statuses", worker_rejects_core_only_and_unknown_run_statuses);
   ("run_response_exact_bound_and_overflow_status", run_response_exact_bound_and_overflow_status);
   ("streaming_frame_contract_table", streaming_frame_contract_table);
   ("streaming_frame_accepts_exact_payload_boundary", streaming_frame_accepts_exact_payload_boundary);
   ("buffered_frame_contract_rejects_oversize_before_full_frame_arrives", buffered_frame_contract_rejects_oversize_before_full_frame_arrives);
   ("buffered_frame_leaves_trailing_frame_for_next_decode", buffered_frame_leaves_trailing_frame_for_next_decode);
   ("control_message_tags_match_zig_worker_tags", control_message_tags_match_zig_worker_tags);
   ("encode_decode_node_register", encode_decode_node_register);
   ("test_decode_start_pod", test_decode_start_pod);
   ("decode_start_pod_registry_auth_trailer", decode_start_pod_registry_auth_trailer);
   ("decode_start_pod_rejects_missing_env_secret_trailer_and_trailing_bytes", decode_start_pod_rejects_missing_env_secret_trailer_and_trailing_bytes);
   ("fixed_control_payloads_decode_little_endian_integers", fixed_control_payloads_decode_little_endian_integers);
   ("fixed_control_payloads_require_exact_lengths", fixed_control_payloads_require_exact_lengths);
   ("zig_start_pod_tag_decodes_as_start_pod", zig_start_pod_tag_decodes_as_start_pod);
   ("zig_stop_pod_tag_decodes_as_stop_pod", zig_stop_pod_tag_decodes_as_stop_pod);
   ("test_encode_pod_status_event", test_encode_pod_status_event);
   ("encode_heartbeat", encode_heartbeat);
   ("fixed_agent_payloads_encode_little_endian_integers", fixed_agent_payloads_encode_little_endian_integers);
   ("fixed_agent_payloads_reject_short_and_accept_exact_output_capacity", fixed_agent_payloads_reject_short_and_accept_exact_output_capacity);
   ("str_to_fixed_truncates", str_to_fixed_truncates);
   ("fixed_to_string_strips_nulls", fixed_to_string_strips_nulls);
   ("gpu_type_round_trip", gpu_type_round_trip);
   ("decode_start_pod_rejects_noncanonical_scalars", decode_start_pod_rejects_noncanonical_scalars);
   ("full_write_read_round_trip", full_write_read_round_trip);
   ("encrypted_frame_round_trip_large_payload", encrypted_frame_round_trip_large_payload);
   ("local_register_payload_layout", local_register_payload_layout);
   ("local_heartbeat_payload_layout", local_heartbeat_payload_layout);
   ("local_start_pod_decode", local_start_pod_decode);
   ("local_start_pod_byte_layout", local_start_pod_byte_layout);
   ("run_request_requires_exact_declared_payload_length", run_request_requires_exact_declared_payload_length);
   ("wire_contract_corpus_is_canonical_and_byte_identical", wire_contract_corpus_is_canonical_and_byte_identical)]%string.

(** The model passes them all. *)
Lemma protocol_tests_pass : filter (λ t, t.2 = false) protocol_tests = [].
Proof. vm_compute. reflexivity. Qed.
