(* ===== verification/SimulatorTests.v ===== *)
(** * The tests of [sim/simulator.rs], run on the model

    The repository's tests of the simulator drive a worker through the simulated network,
    runtime and control plane for up to thirty thousand ticks of simulated time; here they
    run over the definitions of [Simulator] and everything below it, with the same seeds. *)

From S2P Require Import Prelude Types Prng RustStr Protocol Traits Volumes Secrets Worker WorkerTests.
From S2P Require Import SimIo SimRuntime SimNetwork SimChecker SimControlPlane Simulator.

Abbreviation Sim := (@WorkerSimulator Disk).
Abbreviation ST := (M Sim).

(** ** Helpers *)

(** [ControlPlaneStub::schedule_command]. *)
Definition schedule_command (tick : Z) (agent_id : nat) (command : ControlMessage) : M ControlPlaneStub unit :=
  let* c := get in
  assert (length (scheduled c) <? SCHEDULE_CAPACITY)%nat "assertion failed: self.scheduled.len() < SCHEDULE_CAPACITY" ;;;
  assert (schedule_index c =? 0)%nat "commands must be scheduled before simulation starts" ;;;
  match command with
  | StartPod start =>
    assert (length (expected_starts c) <? SCHEDULE_CAPACITY / 2)%nat
      "assertion failed: self.expected_starts.len() < SCHEDULE_CAPACITY / 2" ;;;
    modify (λ c, set_expected_starts (expected_starts c ++ [(agent_id, sp_pod_id start)]) c)
  | _ => ret tt
  end ;;;
  modify (λ c, set_scheduled (sort_by by_tick (scheduled c ++ [(tick, agent_id, command)])) c).

Definition sim_check (b : bool) : ST unit := assert b "assertion failed".
Definition sim_of (agents : nat) (seed : Z) : Sim := simulator_new disk0 [] agents seed.
Definition sim_passes (s : Sim) (t : ST unit) : bool := match t s with Done _ => true | Panic _ => false end.
(** Strings are printed as they are; only the checker's messages depend on it. *)
Definition one_tick : ST unit := simulator_tick (λ s, s).
Definition run_ticks (n : nat) : ST unit := simulator_run (λ s, s) n.

(** [sim.network.min_delay = 1; sim.network.max_delay = 1]. *)
Definition unit_delay : ST unit := modify (λ s, let n := network s in
  set_network (mkSimulatedNetwork (nw_inbound n) (nw_outbound n) (partitioned n) (session_epochs n) (nw_prng n) 1 1
    (drop_rate n) (replay_rate n) (path_max_capacity n) (partition_stable_until n) (heal_stable_until n)
    (partition_stability n) (heal_stability n) (stats n)) s).

Definition worker0 : ST Worker := let* s := get in index (workers s) 0.
Definition pod0 (id : Z) : ST TrackedPod :=
  let* w := worker0 in expect (pods w !! id) "no entry found for key".
Definition state_is (id : Z) (st : TrackedPodState) : ST unit :=
  let* p := pod0 id in sim_check (bool_decide (state p = st)).
Definition allocated_is (gpu cpu memory : Z) : ST unit :=
  let* w := worker0 in
  sim_check ((gpu_allocated w =? gpu) && (cpu_allocated_millicores w =? cpu)
             && (memory_allocated_megabytes w =? memory)).
Definition no_violations : ST unit := let* s := get in sim_check (safety_violations (checker s) =? 0).

Definition received_messages : ST (list (Z * nat * WorkerMessage)) := let* s := get in ret (received (control_plane s)).
Definition from_agent0 {A} (f : WorkerMessage → option A) (l : list (Z * nat * WorkerMessage)) : list A :=
  omap (λ '(_, agent, m), if (agent =? 0)%nat then f m else None) l.
Definition received_count (p : WorkerMessage → bool) : ST nat :=
  let* l := received_messages in ret (length (from_agent0 (λ m, if p m then Some m else None) l)).
Definition received_pod_statuses (id : Z) : ST (list PodStatusReport) :=
  let* l := received_messages in
  ret (from_agent0 (λ m, match m with
                         | PodStatusEvent e => if pe_pod_id e =? id then Some (pe_status e) else None
                         | _ => None end) l).
Definition responses_to (request : Z) : ST (list RunResponseMsg) :=
  let* l := received_messages in
  ret (from_agent0 (λ m, match m with
                         | RunResponse r => if rs_request_id r =? request then Some r else None
                         | _ => None end) l).

Definition is_register (m : WorkerMessage) : bool := match m with NodeRegister _ => true | _ => false end.
Definition is_heartbeat (m : WorkerMessage) : bool := match m with NodeHeartbeat _ => true | _ => false end.
Definition is_status (m : WorkerMessage) : bool := match m with PodStatusEvent _ => true | _ => false end.
Definition is_response (m : WorkerMessage) : bool := match m with RunResponse _ => true | _ => false end.

(** [sim.sim_ios[0].push_inbound(..)], [sim.network.send_to_agent(0, .., sim.current_tick)]
    and [sim.network.send_from_agent(0, .., sim.current_tick)]. *)
Definition push0 (m : ControlMessage) : ST unit :=
  let* s := get in let* x := index (sim_ios s) 0 in let* x := lift_outcome (push_inbound m x) in put_io 0 x.
Definition send0 (m : ControlMessage) : ST unit :=
  let* s := get in on_network (send_to_agent 0 m (ws_current_tick s)).
Definition reply0 (m : WorkerMessage) : ST unit :=
  let* s := get in on_network (send_from_agent 0 m (ws_current_tick s)).
Definition on_runtime0 (f : SimulatedRuntime → outcome SimulatedRuntime) : ST unit :=
  let* s := get in let* r := index (sim_runtimes s) 0 in
  let* r := lift_outcome (f r) in modify (λ s, set_sim_runtimes (<[0%nat := r]> (sim_runtimes s)) s).
Definition runtime_status (h : PodHandle) : ST (result PodStatus RuntimeError) :=
  let* s := get in let* r := index (sim_runtimes s) 0 in ret (sim_pod_status h r).1.
Definition advance (ticks : Z) : ST unit :=
  modify (λ s, set_ws_current_tick (sat_add U64_MAX (ws_current_tick s) ticks) s).

Definition gpu_start (id deployment : Z) (image : string) (gpus : Z) (gpu : GpuType) (cpu memory : Z) (liveness : string)
    : ControlMessage :=
  StartPod (mkStartPodCmd id deployment image "" 8080 gpus gpu cpu memory "" liveness "" [] "" "" "" false).
Definition start_cmd (id deployment : Z) : ControlMessage :=
  gpu_start id deployment "docker.io/library/nginx:1.27-alpine" 0 GpuNone 10 16 "".
Definition stop_cmd (id : Z) : ControlMessage := StopPod (mkStopPodCmd id 0).
Definition run_request (request deployment : Z) (payload : string) : ControlMessage :=
  RunRequest (mkRunRequestCmd request deployment (as_bytes payload)).
Definition stop_fails : FaultConfig :=
  mkFaultConfig ratio_zero ratio_zero ratio_zero ratio_zero (mkRatio 1 1).

(** ** Liveness probes *)

Definition liveness_probe_sim (outcomes : list ProbeOutcome) : ST unit :=
  unit_delay ;;;
  on_control_plane (schedule_command 1 0 (gpu_start 1 100 "sim-probe:1" 8 H100Sxm 500 512 "/health")) ;;;
  on_control_plane (schedule_command 30023 0 (gpu_start 2 200 "sim-replacement:1" 1 H100Sxm 500 512 "")) ;;;
  on_runtime0 (script_probe_outcomes 1 outcomes) ;;;
  run_ticks 20 ;;;
  state_is 1 Running.

Definition advance_to_next_probe : ST unit := advance 10000 ;;; one_tick.
Definition failures_are (id n : Z) : ST unit := let* p := pod0 id in sim_check (consecutive_failures p =? n).

Definition liveness_probe_two_failures_then_success_resets_counter : bool :=
  sim_passes (sim_of 1 0xB301) (
    liveness_probe_sim [ProbeUnhealthy; ProbeError; ProbeHealthy] ;;;
    advance_to_next_probe ;;; failures_are 1 1 ;;;
    advance_to_next_probe ;;; failures_are 1 2 ;;;
    advance_to_next_probe ;;; failures_are 1 0 ;;;
    state_is 1 Running).

Definition liveness_probe_three_failures_transition_pod_to_failed : bool :=
  sim_passes (sim_of 1 0xB301) (
    liveness_probe_sim [ProbeUnhealthy; ProbeError; ProbeUnhealthy] ;;;
    advance_to_next_probe ;;;
    advance_to_next_probe ;;;
    set_runtime_faults 0 stop_fails ;;;
    advance_to_next_probe ;;;
    state_is 1 Stopping ;;;
    allocated_is 8 500 512 ;;;
    let* p := pod0 1 in
    let* h := expect (handle p) "called `Option::unwrap()` on a `None` value" in
    let* st := runtime_status h in
    sim_check (match st with Ok PRunning => true | _ => false end) ;;;
    one_tick ;;;
    state_is 1 Stopping ;;;
    let* st := runtime_status h in
    sim_check (match st with Ok PRunning => true | _ => false end) ;;;
    let* w := worker0 in
    sim_check (gpu_allocated w =? 8) ;;;
    one_tick ;;;
    let* sts := received_pod_statuses 2 in
    sim_check (bool_decide (RFailed "insufficient GPU capacity" ∈ sts)) ;;;
    advance STOP_RETRY_DELAY_TICKS ;;;
    one_tick ;;;
    state_is 1 (Failed "liveness probe failed") ;;;
    allocated_is 0 0 0 ;;;
    let* st := runtime_status h in
    sim_check (match st with Err _ => true | Ok _ => false end)).

(** ** Registration, heartbeats and partitions *)

Definition lost_registration_requires_retry_after_healing : bool :=
  sim_passes (sim_of 1 0xB101) (
    unit_delay ;;;
    partition_agent 0 ;;;
    one_tick ;;;
    let* n := received_count is_register in
    sim_check (n =? 0)%nat ;;;
    heal_all ;;;
    let* s := get in
    sim_check (worker_failed_partition (stats (network s)) =? 1) ;;;
    retry_agent_registration 0 ;;;
    run_ticks 2 ;;;
    let* l := received_messages in
    sim_check (bool_decide (from_agent0 (λ m, match m with NodeRegister r => Some (nr_node_name r) | _ => None end) l
                            = ["sim-node-0"%string]))).

Definition outbound_partition_before_heartbeat_delays_delivery_until_healing : bool :=
  sim_passes (sim_of 1 0xB102) (
    unit_delay ;;;
    run_ticks 101 ;;;
    let* before := received_count is_heartbeat in
    partition_agent 0 ;;;
    let* w := worker0 in
    sim_check (is_registered w) ;;;
    one_tick ;;;
    let* n := received_count is_heartbeat in
    sim_check (n =? before)%nat ;;;
    heal_all ;;;
    run_ticks 2 ;;;
    let* l := received_messages in
    let ticks := from_agent0 (λ m, match m with NodeHeartbeat h => Some (nh_tick h) | _ => None end) l in
    sim_check (length ticks =? before + 1)%nat ;;;
    sim_check (bool_decide (last ticks = Some 101))).

Definition outbound_partition_before_pod_status_delays_delivery_until_healing : bool :=
  sim_passes (sim_of 1 0xB103) (
    unit_delay ;;;
    run_ticks 2 ;;;
    let* before := received_count is_status in
    push0 (start_cmd 700 7000) ;;;
    partition_agent 0 ;;;
    one_tick ;;;
    let* n := received_count is_status in
    sim_check (n =? before)%nat ;;;
    heal_all ;;;
    run_ticks 3 ;;;
    let* sts := received_pod_statuses 700 in
    sim_check (bool_decide (sts = [RRunning])) ;;;
    let* n := received_count is_status in
    sim_check (n =? before + 1)%nat ;;;
    let* s := get in
    sim_check (2 <=? worker_failed_partition (stats (network s)))).

Definition terminal_status_lost_with_session_is_replayed_by_duplicate_start : bool :=
  sim_passes (sim_of 1 0xB106) (
    push0 (start_cmd 701 7001) ;;;
    run_ticks 8 ;;;
    state_is 701 Running ;;;
    partition_agent 0 ;;;
    on_runtime0 (crash_pod 701 17) ;;;
    run_ticks 4 ;;;
    state_is 701 (Stopped 17) ;;;
    let* sts := received_pod_statuses 701 in
    sim_check (negb (bool_decide (RStopped 17 ∈ sts))) ;;;
    lose_agent_session 0 ;;;
    heal_all ;;;
    run_ticks 4 ;;;
    send0 (start_cmd 701 7001) ;;;
    run_ticks 20 ;;;
    let* sts := received_pod_statuses 701 in
    sim_check (bool_decide (RStopped 17 ∈ sts))).

Definition session_loss_discards_old_epoch_and_reregisters_before_new_traffic : bool :=
  sim_passes (sim_of 1 0xB105) (
    run_ticks 6 ;;;
    let* l := received_messages in
    let before := length l in
    reply0 (NodeHeartbeat (mkNodeHeartbeatMsg 20 1 7)) ;;;
    reply0 (PodStatusEvent (mkPodStatusEventMsg 70 RRunning)) ;;;
    reply0 (RunResponse (mkRunResponseMsg 80 0 (as_bytes "old-session"))) ;;;
    lose_agent_session 0 ;;;
    let* w := worker0 in
    sim_check (negb (is_registered w)) ;;;
    run_ticks 6 ;;;
    reply0 (NodeHeartbeat (mkNodeHeartbeatMsg 40 0 8)) ;;;
    reply0 (PodStatusEvent (mkPodStatusEventMsg 71 (RStopped 0))) ;;;
    reply0 (RunResponse (mkRunResponseMsg 81 0 (as_bytes "new-session"))) ;;;
    run_ticks 6 ;;;
    let* l := received_messages in
    sim_check (match drop before l with
               | [(_, agent, NodeRegister _); (_, _, NodeHeartbeat h); (_, _, PodStatusEvent e); (_, _, RunResponse r)] =>
                 (agent =? 0)%nat && (nh_tick h =? 40) && (pe_pod_id e =? 71) && bool_decide (pe_status e = RStopped 0)
                 && (rs_request_id r =? 81) && bool_decide (rs_payload r = as_bytes "new-session")
               | _ => false
               end)).

Definition run_response_written_after_partition_is_lost : bool :=
  sim_passes (sim_of 1 0xB104) (
    unit_delay ;;;
    push0 (start_cmd 800 8000) ;;;
    run_ticks 3 ;;;
    state_is 800 Running ;;;
    let* before := received_count is_response in
    push0 (run_request 81 8000 "partitioned-response") ;;;
    partition_agent 0 ;;;
    one_tick ;;;
    let* n := received_count is_response in
    sim_check (n =? before)%nat ;;;
    heal_all ;;;
    run_ticks 2 ;;;
    let* n := received_count is_response in
    sim_check (n =? before)%nat ;;;
    let* s := get in
    sim_check (worker_failed_partition (stats (network s)) =? 1)).

(** ** Admission and run requests *)

Definition mismatched_nonzero_gpu_type_is_rejected_without_accounting_change : bool :=
  sim_passes (sim_of 1 0xB401) (
    unit_delay ;;;
    send0 (gpu_start 810 8100 "docker.io/library/nginx:1.27-alpine" 1 T4 10 16 "") ;;;
    run_ticks 3 ;;;
    let* w := worker0 in
    sim_check (bool_decide (pods w !! 810 = None)) ;;;
    allocated_is 0 0 0 ;;;
    let* sts := received_pod_statuses 810 in
    sim_check (bool_decide (RFailed "requested GPU type does not match worker GPU type" ∈ sts)) ;;;
    no_violations).

(** One request, answered once with this status and a body of this length. *)
Definition expect_response (request status : Z) (len : nat) : ST RunResponseMsg :=
  let* rs := responses_to request in
  match rs with
  | [r] =>
    sim_check ((rs_status r =? status) && (length (rs_payload r) =? len)%nat
               && (length (rs_payload r) <=? MAX_RUN_RESPONSE_BODY)%nat) ;;;
    ret r
  | _ => panic "request must produce exactly one response"
  end.

Definition deterministic_run_outcomes_preserve_identity_bounds_and_accounting : bool :=
  sim_passes (sim_of 1 0xB402) (
    unit_delay ;;;
    send0 (gpu_start 820 8200 "docker.io/library/nginx:1.27-alpine" 1 H100Sxm 10 16 "") ;;;
    run_ticks 5 ;;;
    state_is 820 Running ;;;
    on_runtime0 (script_run_outcomes 820 [RunEcho; ExactResponseBoundary; ResponseBoundaryOverflow; ForwardingFailure;
                                          RunTimeout; RunEcho; RunEcho]) ;;;
    allocated_is 1 10 16 ;;;
    for_each [(821, 0, "success"%string, 7%nat); (822, 0, "exact-boundary"%string, MAX_RUN_RESPONSE_BODY);
              (823, RUN_STATUS_RESPONSE_TOO_LARGE, "overflow"%string, 0%nat);
              (824, RUN_STATUS_FORWARDING_FAILED, "failure"%string,
               String.length "internal error: simulated forwarding failure");
              (825, RUN_STATUS_FORWARDING_FAILED, "timeout"%string,
               String.length "internal error: simulated forwarding timeout")]
      (λ '(request, status, payload, len),
        send0 (run_request request 8200 payload) ;;;
        run_ticks 3 ;;;
        let* r := expect_response request status len in
        when (request =? 821) (sim_check (bool_decide (rs_payload r = as_bytes payload))) ;;;
        allocated_is 1 10 16) ;;;
    push0 (run_request 826 8200 "buffered-before-partition") ;;;
    one_tick ;;;
    partition_agent 0 ;;;
    run_ticks 3 ;;;
    let* rs := responses_to 826 in
    sim_check (length rs =? 0)%nat ;;;
    heal_all ;;;
    run_ticks 1 ;;;
    let* r := expect_response 826 0 (String.length "buffered-before-partition") in
    sim_check (bool_decide (rs_payload r = as_bytes "buffered-before-partition")) ;;;
    allocated_is 1 10 16 ;;;
    let* s := get in
    let* rt0 := index (sim_runtimes s) 0 in
    let attempts := run_attempt_count 820 rt0 in
    push0 (run_request 829 8200 "executed-but-response-lost") ;;;
    partition_agent 0 ;;;
    one_tick ;;;
    let* s := get in
    let* rt0 := index (sim_runtimes s) 0 in
    sim_check (run_attempt_count 820 rt0 =? attempts + 1) ;;;
    sim_check (worker_failed_partition (stats (network s)) =? 1) ;;;
    heal_all ;;;
    run_ticks 3 ;;;
    let* rs := responses_to 829 in
    sim_check (length rs =? 0)%nat ;;;
    allocated_is 1 10 16 ;;;
    on_runtime0 (crash_pod 820 137) ;;;
    push0 (run_request 827 8200 "crash-tick") ;;;
    one_tick ;;;
    allocated_is 0 0 0 ;;;
    one_tick ;;;
    let* rs := responses_to 827 in
    sim_check (bool_decide (rs_status <$> rs = [RUN_STATUS_FORWARDING_FAILED])) ;;;
    allocated_is 0 0 0 ;;;
    send0 (run_request 828 8200 "after-crash") ;;;
    run_ticks 3 ;;;
    let* rs := responses_to 828 in
    sim_check (bool_decide (rs_status <$> rs = [RUN_STATUS_NO_RUNNING_POD])) ;;;
    sim_check (forallb (λ r, (length (rs_payload r) <=? MAX_RUN_RESPONSE_BODY)%nat) rs) ;;;
    allocated_is 0 0 0 ;;;
    no_violations).

Definition single_agent_registers_and_heartbeats : bool :=
  sim_passes (sim_of 1 42) (
    run_ticks 200 ;;;
    no_violations ;;;
    let* w := worker0 in
    sim_check (is_registered w) ;;;
    let* l := received_messages in
    sim_check (existsb (λ e, is_register e.2) l) ;;;
    sim_check (1 <=? length (filter (λ e, is_heartbeat e.2 = true) l))%nat).

Definition start_pod_flows_through : bool :=
  sim_passes (sim_of 1 42) (
    unit_delay ;;;
    run_ticks 5 ;;;
    send0 (gpu_start 99 100 "nginx:latest" 1 H100Sxm 2000 4096 "") ;;;
    run_ticks 10 ;;;
    no_violations ;;;
    state_is 99 Running).

(** ** Faults *)

Definition running_status_count (lo hi : Z) : ST nat :=
  received_count (λ m, match m with
                       | PodStatusEvent e => (lo <=? pe_pod_id e) && (pe_pod_id e <=? hi) && bool_decide (pe_status e = RRunning)
                       | _ => false
                       end).

Definition stop_fault_retains_runtime_resources_and_denies_replacement_gpu : bool :=
  let big id deployment := gpu_start id deployment "gpu:latest" 8 H100Sxm 32000 65536 "" in
  sim_passes (sim_of 1 0xB202) (
    unit_delay ;;;
    set_runtime_faults 0 stop_fails ;;;
    push0 (big 900 9000) ;;;
    run_ticks 3 ;;;
    state_is 900 Running ;;;
    let* w := worker0 in
    sim_check (gpu_allocated w =? 8) ;;;
    push0 (stop_cmd 900) ;;;
    one_tick ;;;
    let* p := pod0 900 in
    let* h := expect (handle p) "running pod has runtime handle" in
    let* st := runtime_status h in
    sim_check (match st with Ok PRunning => true | _ => false end) ;;;
    state_is 900 Stopping ;;;
    allocated_is 8 32000 65536 ;;;
    push0 (big 901 9001) ;;;
    one_tick ;;;
    let* w := worker0 in
    sim_check (bool_decide (pods w !! 901 = None)) ;;;
    sim_check (gpu_allocated w =? 8) ;;;
    let* sts := received_pod_statuses 900 in
    sim_check (negb (existsb is_stopped_report sts)) ;;;
    run_ticks (Z.to_nat STOP_RETRY_DELAY_TICKS) ;;;
    state_is 900 (Stopped 0) ;;;
    allocated_is 0 0 0 ;;;
    no_violations).

(** The pod is being stopped and still has its handle. *)
Definition stopping_with_handle (id : Z) : ST unit :=
  state_is id Stopping ;;;
  let* p := pod0 id in
  sim_check (bool_decide (is_Some (handle p))) ;;;
  no_violations.

Definition missing_runtime_pod_fails_closed_and_retains_cleanup_ownership : bool :=
  sim_passes (sim_of 1 0x5101) (
    unit_delay ;;;
    push0 (start_cmd 910 9100) ;;;
    run_ticks 3 ;;;
    state_is 910 Running ;;;
    on_runtime0 (lose_pod 910) ;;;
    one_tick ;;;
    stopping_with_handle 910).

Definition unknown_runtime_status_fails_closed : bool :=
  sim_passes (sim_of 1 0x5102) (
    unit_delay ;;;
    push0 (start_cmd 911 9110) ;;;
    run_ticks 3 ;;;
    on_runtime0 (make_pod_status_unknown 911) ;;;
    one_tick ;;;
    stopping_with_handle 911).

(** ** Many pods *)

Definition post_churn_burst_50x1_reaches_running_with_stopped_pods_retained : bool :=
  let fifty := Z.of_nat <$> seq 0 50 in
  sim_passes (sim_of 1 0x5050) (
    unit_delay ;;;
    run_ticks 5 ;;;
    for_each fifty (λ i, send0 (start_cmd (1 + i) 10000)) ;;;
    run_ticks 10 ;;;
    for_each fifty (λ i, state_is (1 + i) Running) ;;;
    let* n := running_status_count 1 50 in
    sim_check (n =? 50)%nat ;;;
    for_each fifty (λ i, send0 (stop_cmd (1 + i))) ;;;
    run_ticks 10 ;;;
    for_each fifty (λ i, state_is (1 + i) (Stopped 0)) ;;;
    for_each fifty (λ i, send0 (start_cmd (1001 + i) (20000 + i))) ;;;
    run_ticks 10 ;;;
    for_each fifty (λ i, state_is (1001 + i) Running) ;;;
    let* n := running_status_count 1001 1050 in
    sim_check (n =? 50)%nat ;;;
    let* w := worker0 in
    sim_check (size (pods w) =? 100)%nat ;;;
    no_violations).

Definition connection_loss_reregisters_and_running_pod_still_serves_run : bool :=
  sim_passes (sim_of 1 42) (
    unit_delay ;;;
    run_ticks 5 ;;;
    send0 (gpu_start 77 700 "echo:latest" 0 GpuNone 500 512 "") ;;;
    run_ticks 10 ;;;
    state_is 77 Running ;;;
    disconnect_worker 0 ;;;
    run_ticks 2 ;;;
    let* n := received_count is_register in
    sim_check (2 <=? n)%nat ;;;
    send0 (run_request 99 700 "after-reconnect") ;;;
    run_ticks 3 ;;;
    let* rs := responses_to 99 in
    sim_check (match last rs with
               | Some r => (rs_status r =? 0) && bool_decide (rs_payload r = as_bytes "after-reconnect")
               | None => false
               end)).

Definition bounded_lifecycle_concurrency_preserves_resource_invariants : bool :=
  let eight := Z.of_nat <$> seq 0 8 in
  let start id deployment cpu memory :=
    gpu_start id deployment "docker.io/library/nginx:1.27-alpine" 0 GpuNone cpu memory "" in
  sim_passes (simulator_new_with_lifecycle_concurrency disk0 [] 1 0xC0DE 4) (
    unit_delay ;;;
    run_ticks 5 ;;;
    for_each eight (λ i, send0 (start (10000 + i) (30000 + i) 4000 4096)) ;;;
    run_ticks 6 ;;;
    no_violations ;;;
    let* w := worker0 in
    sim_check ((cpu_allocated_millicores w =? 32000) && (memory_allocated_megabytes w =? 32768)) ;;;
    for_each eight (λ i, state_is (10000 + i) Running) ;;;
    send0 (start 20000 40000 1 1) ;;;
    run_ticks 3 ;;;
    no_violations ;;;
    let* w := worker0 in
    sim_check (bool_decide (pods w !! 20000 = None)) ;;;
    sim_check (cpu_allocated_millicores w =? 32000)).

Definition deterministic_across_runs : bool :=
  let go := on_control_plane (generate_workload 2 5 100) ;;; run_ticks 200 in
  match go (sim_of 2 777), go (sim_of 2 777) with
  | Done (_, s1), Done (_, s2) =>
    (safety_violations (checker s1) =? safety_violations (checker s2))
    && (length (received (control_plane s1)) =? length (received (control_plane s2)))%nat
  | _, _ => false
  end.

(** ** Verdict *)

Definition simulator_tests : list (string * bool) :=
  [("liveness_probe_two_failures_then_success_resets_counter", liveness_probe_two_failures_then_success_resets_counter);
   ("liveness_probe_three_failures_transition_pod_to_failed", liveness_probe_three_failures_transition_pod_to_failed);
   ("lost_registration_requires_retry_after_healing", lost_registration_requires_retry_after_healing);
   ("outbound_partition_before_heartbeat_delays_delivery_until_healing", outbound_partition_before_heartbeat_delays_delivery_until_healing);
   ("outbound_partition_before_pod_status_delays_delivery_until_healing", outbound_partition_before_pod_status_delays_delivery_until_healing);
   ("terminal_status_lost_with_session_is_replayed_by_duplicate_start", terminal_status_lost_with_session_is_replayed_by_duplicate_start);
   ("session_loss_discards_old_epoch_and_reregisters_before_new_traffic", session_loss_discards_old_epoch_and_reregisters_before_new_traffic);
   ("run_response_written_after_partition_is_lost", run_response_written_after_partition_is_lost);
   ("mismatched_nonzero_gpu_type_is_rejected_without_accounting_change", mismatched_nonzero_gpu_type_is_rejected_without_accounting_change);
   ("deterministic_run_outcomes_preserve_identity_bounds_and_accounting", deterministic_run_outcomes_preserve_identity_bounds_and_accounting);
   ("single_agent_registers_and_heartbeats", single_agent_registers_and_heartbeats);
   ("start_pod_flows_through", start_pod_flows_through);
   ("stop_fault_retains_runtime_resources_and_denies_replacement_gpu", stop_fault_retains_runtime_resources_and_denies_replacement_gpu);
   ("missing_runtime_pod_fails_closed_and_retains_cleanup_ownership", missing_runtime_pod_fails_closed_and_retains_cleanup_ownership);
   ("unknown_runtime_status_fails_closed", unknown_runtime_status_fails_closed);
   ("post_churn_burst_50x1_reaches_running_with_stopped_pods_retained", post_churn_burst_50x1_reaches_running_with_stopped_pods_retained);
   ("connection_loss_reregisters_and_running_pod_still_serves_run", connection_loss_reregisters_and_running_pod_still_serves_run);
   ("bounded_lifecycle_concurrency_preserves_resource_invariants", bounded_lifecycle_concurrency_preserves_resource_invariants);
   ("deterministic_across_runs", deterministic_across_runs)]%string.

(** The model passes them all. *)
Lemma simulator_tests_pass : filter (λ t, t.2 = false) simulator_tests = [].
Proof. vm_compute. reflexivity. Qed.
