(* ===== verification/RunnerTests.v ===== *)
(** * The tests of [sim/runner.rs], run on the model

    Whole simulations with injected faults: the verdicts the repository's tests expect for
    their seeds are computed from the model.  The tests of a
    minute or more are kept as definitions to be evaluated by hand ([long_runner_tests]); the
    two that repeat a run and compare it with itself are left out. *)

From S2P Require Import Prelude Types Prng RustStr Protocol Traits Volumes Secrets Worker WorkerTests.
From S2P Require Import SimIo SimRuntime SimNetwork SimChecker SimControlPlane Simulator SimRunner SimulatorTests.

Definition run_config (c : SimConfig) : option SimResult :=
  match run (λ s, s) disk0 [] c with Done (r, _) => Some r | Panic _ => None end.
Definition passed (o : option SimResult) : bool :=
  match o with Some r => match sr_outcome r with Passed => true | _ => false end | None => false end.
Definition safe (o : option SimResult) : bool :=
  match o with Some r => sr_safety_violations r =? 0 | None => false end.

(** [SimConfig { seed, partition.., heal.., pull.., crash.., gpu.., ..Default::default() }]. *)
Definition config_of (seed safety liveness pods : Z) (partition heal pull crash gpu : Ratio) : SimConfig :=
  let d := sim_config_default in
  mkSimConfig seed (cfg_agent_count d) safety liveness pods partition heal (pause_probability d) pull crash gpu
    (cfg_partition_stability d) (cfg_heal_stability d) (pause_stability d) (cfg_drop_rate d) (cfg_replay_rate d)
    (cfg_path_max_capacity d).
Definition per_cent (n : Z) : Ratio := mkRatio n 100.
Definition short_config (seed : Z) : SimConfig :=
  config_of seed 200 LIVENESS_RETRY_GRACE_TICKS 10 (per_cent 2) (per_cent 5) (per_cent 5) (per_cent 1) (per_cent 1).

Definition convergence_requires_registration_after_session_loss : bool :=
  let until_received : ST unit :=
    let* l := received_messages in when (length l =? 0)%nat one_tick in
  sim_passes (sim_of 1 0xB121) (
    one_tick ;;; until_received ;;; until_received ;;; until_received ;;;
    let* l := received_messages in
    let start := length l in
    sim_check (0 <? start)%nat ;;;
    lose_agent_session 0 ;;;
    let* registered := registered_since 0 start in
    sim_check (negb registered) ;;;
    let* converged := check_convergence start in
    sim_check (negb converged)).

Definition sim_default_seed_passes : bool := passed (run_config sim_config_default).

Definition sim_no_faults_passes : bool :=
  let r := run_config (config_of 123 500 LIVENESS_RETRY_GRACE_TICKS 20 ratio_zero ratio_zero ratio_zero ratio_zero ratio_zero) in
  passed r && safe r.

Definition sim_total_message_loss_fails_liveness : bool :=
  let d := sim_config_default in
  match run_config (mkSimConfig 0xB120 1 10 1 1 ratio_zero ratio_zero ratio_zero ratio_zero ratio_zero ratio_zero
    (cfg_partition_stability d) (cfg_heal_stability d) (pause_stability d) (mkRatio 1 1) (cfg_replay_rate d)
    (cfg_path_max_capacity d)) with
  | Some r => match sr_outcome r with LivenessFailure => messages_sent r =? 0 | _ => false end
  | None => false
  end.

Definition sim_heavy_faults_no_safety_violations : bool :=
  safe (run_config (config_of 456 500 LIVENESS_RETRY_GRACE_TICKS 20 (per_cent 10) (per_cent 15) (per_cent 20)
    (per_cent 5) (per_cent 5))).

Definition liveness_phase_force_heals_recent_stable_partition : bool :=
  passed (run_config (config_of 901 500 LIVENESS_RETRY_GRACE_TICKS 20 (per_cent 10) (per_cent 5) (per_cent 5)
    (per_cent 1) (per_cent 1))).

Definition fuzz_regression_seeds_78_and_81_converge_with_retry_grace : bool :=
  forallb (λ c, let r := run_config c in
    passed r && match r with Some r => convergence_ticks r <=? LIVENESS_RETRY_GRACE_TICKS | None => false end)
    [config_of 78 500 LIVENESS_RETRY_GRACE_TICKS 20 (per_cent 2) (per_cent 5) (per_cent 5) (per_cent 1) (per_cent 1);
     config_of 81 500 LIVENESS_RETRY_GRACE_TICKS 20 (per_cent 2) (per_cent 4) (per_cent 5) (per_cent 1) (per_cent 1)].

Definition sim_multi_seed_sweep : bool :=
  forallb (λ n, safe (run_config (short_config (Z.of_nat n)))) (seq 0 50).

(** ** Verdict *)

Definition runner_tests : list (string * bool) :=
  [("convergence_requires_registration_after_session_loss", convergence_requires_registration_after_session_loss);
   ("sim_no_faults_passes", sim_no_faults_passes);
   ("sim_total_message_loss_fails_liveness", sim_total_message_loss_fails_liveness);
   ("sim_heavy_faults_no_safety_violations", sim_heavy_faults_no_safety_violations)]%string.

(** Tens of thousands of ticks each; a function of [unit], so that nothing is run unasked. *)
Definition long_runner_tests (_ : unit) : list (string * bool) :=
  [("sim_default_seed_passes", sim_default_seed_passes);
   ("liveness_phase_force_heals_recent_stable_partition", liveness_phase_force_heals_recent_stable_partition);
   ("fuzz_regression_seeds_78_and_81_converge_with_retry_grace", fuzz_regression_seeds_78_and_81_converge_with_retry_grace);
   ("sim_multi_seed_sweep", sim_multi_seed_sweep)]%string.

(** The model passes the short ones. *)
Lemma runner_tests_pass : filter (λ t, t.2 = false) runner_tests = [].
Proof. vm_compute. reflexivity. Qed.
