(* ===== verification/SimTests.v ===== *)
(** * The tests of the simulated parts, run on the model

    [sim/network.rs], [sim/runtime.rs], [sim/io.rs], [sim/checker.rs] and [prng.rs]. *)

From S2P Require Import Prelude Types Prng RustStr Protocol Traits Volumes Secrets Worker WorkerTests.
From S2P Require Import SimIo SimRuntime SimNetwork SimChecker SimControlPlane Simulator SimulatorTests.

(** ** The network *)

Abbreviation NT := (M SimulatedNetwork).
Definition net_passes (n : SimulatedNetwork) (t : NT unit) : bool := match t n with Done _ => true | Panic _ => false end.
Definition net_check (b : bool) : NT unit := assert b "assertion failed".

(** [net.min_delay = lo; net.max_delay = hi], with the other fields the tests assign. *)
Definition delayed (lo hi : Z) (n : SimulatedNetwork) : SimulatedNetwork :=
  mkSimulatedNetwork (nw_inbound n) (nw_outbound n) (partitioned n) (session_epochs n) (nw_prng n) lo hi
    (drop_rate n) (replay_rate n) (path_max_capacity n) (partition_stable_until n) (heal_stable_until n)
    (partition_stability n) (heal_stability n) (stats n).
Definition net_of (seed : Z) : SimulatedNetwork := simulated_network_new 1 seed.

Definition net_start_cmd (id : Z) : ControlMessage := gpu_start id 100 "test:latest" 1 H100Sxm 2000 4096 "".
Definition test_heartbeat (tick : Z) : WorkerMessage := NodeHeartbeat (mkNodeHeartbeatMsg tick 0 1).

Definition inbound_is (now : Z) (some : bool) : NT unit :=
  let* m := pop_inbound 0 now in net_check (Bool.eqb (bool_decide (is_Some (const tt <$> m))) some).
Definition outbound_is (now : Z) (some : bool) : NT unit :=
  let* m := pop_outbound 0 now in net_check (Bool.eqb (bool_decide (is_Some (const tt <$> m))) some).
Definition stat_is (f : MessageStats → Z) (x : Z) : NT unit := let* n := get in net_check (f (stats n) =? x).

Definition message_delayed_delivery : bool :=
  net_passes (delayed 3 3 (net_of 42)) (
    send_to_agent 0 (net_start_cmd 1) 10 ;;;
    inbound_is 10 false ;;; inbound_is 12 false ;;; inbound_is 13 true).

Definition partitioned_blocks_delivery : bool :=
  net_passes (net_of 42) (
    nw_partition_agent 0 0 ;;; send_to_agent 0 (net_start_cmd 1) 10 ;;; inbound_is 100 false).

Definition heal_allows_messages : bool :=
  net_passes (delayed 1 1 (net_of 42)) (
    nw_partition_agent 0 0 ;;; nw_heal_all 1 ;;; send_to_agent 0 (net_start_cmd 1) 10 ;;; inbound_is 11 true).

Definition partition_holds_inbound_and_loses_new_outbound_send : bool :=
  net_passes (delayed 1 1 (net_of 0xB110)) (
    nw_partition_agent 0 0 ;;;
    send_to_agent 0 (net_start_cmd 1) 0 ;;;
    send_from_agent 0 (test_heartbeat 0) 0 ;;;
    inbound_is 10 false ;;; outbound_is 10 false ;;;
    nw_heal_all 10 ;;;
    inbound_is 10 true ;;; outbound_is 10 false ;;;
    stat_is control_sent 1 ;;; stat_is worker_sent 0 ;;; stat_is worker_bytes 0 ;;; stat_is worker_failed_partition 1).

(** [(from..=to).find_map(|tick| net.pop_outbound(0, tick))]. *)
Fixpoint first_outbound (ticks : list Z) : NT (option WorkerMessage) :=
  match ticks with
  | [] => ret None
  | t :: ts => let* m := pop_outbound 0 t in match m with Some m => ret (Some m) | None => first_outbound ts end
  end.

Definition outbound_preserves_registration_first_with_variable_delay : bool :=
  forallb (λ seed,
    net_passes (net_of (Z.of_nat seed)) (
      send_from_agent 0 (NodeRegister (mkNodeRegisterMsg "worker" 1 1 GpuNone 0)) 0 ;;;
      send_from_agent 0 (test_heartbeat 0) 0 ;;;
      let* first := first_outbound [1; 2; 3; 4; 5] in
      net_check (match first with Some m => is_register m | None => false end) ;;;
      let* second := pop_outbound 0 5 in
      net_check (match second with Some m => is_heartbeat m | None => false end))) (seq 0 128).

Definition outbound_run_response_matches_wire_overflow_semantics : bool :=
  net_passes (delayed 1 1 (net_of 0xB410)) (
    send_from_agent 0 (RunResponse (mkRunResponseMsg 44 0 (replicate (MAX_RUN_RESPONSE_BODY + 1) (z2b 90)))) 0 ;;;
    let* m := pop_outbound 0 1 in
    net_check (match m with
               | Some (RunResponse r) =>
                 (rs_request_id r =? 44) && (rs_status r =? RUN_STATUS_RESPONSE_TOO_LARGE) && (length (rs_payload r) =? 0)%nat
               | _ => false
               end)).

Definition partition_buffers_accepted_outbound_and_fails_new_sends : bool :=
  net_passes (delayed 2 2 (net_of 0xB411)) (
    send_from_agent 0 (RunResponse (mkRunResponseMsg 51 0 (as_bytes "accepted"))) 0 ;;;
    stat_is worker_sent 1 ;;;
    nw_partition_agent 0 1 ;;;
    send_from_agent 0 (RunResponse (mkRunResponseMsg 52 0 (as_bytes "lost"))) 1 ;;;
    stat_is worker_failed_partition 1 ;;;
    outbound_is 3 false ;;;
    nw_heal_all 3 ;;;
    let* m := pop_outbound 0 3 in
    net_check (match m with
               | Some (RunResponse r) => (rs_request_id r =? 51) && bool_decide (rs_payload r = as_bytes "accepted")
               | _ => false
               end) ;;;
    outbound_is U64_MAX false).

Definition drop_replay_and_capacity_apply_to_both_directions : bool :=
  net_passes (set_drop_rate (mkRatio 1 1) (net_of 0xB111)) (
    send_to_agent 0 (net_start_cmd 1) 0 ;;; send_from_agent 0 (test_heartbeat 0) 0 ;;;
    inbound_is 100 false ;;; outbound_is 100 false ;;;
    let* n := total_messages in net_check (n =? 0))
  && net_passes (set_replay_rate (mkRatio 1 1) (delayed 1 1 (net_of 0xB112))) (
    send_to_agent 0 (net_start_cmd 1) 0 ;;; send_from_agent 0 (test_heartbeat 0) 0 ;;;
    inbound_is 1 true ;;; outbound_is 1 true ;;; inbound_is 2 true ;;; outbound_is 2 true ;;;
    inbound_is 3 false ;;; outbound_is 3 false)
  && net_passes (set_path_max_capacity 1 (delayed 1 1 (net_of 0xB113))) (
    send_to_agent 0 (net_start_cmd 1) 0 ;;; send_to_agent 0 (net_start_cmd 2) 0 ;;;
    send_from_agent 0 (test_heartbeat 1) 0 ;;; send_from_agent 0 (test_heartbeat 2) 0 ;;;
    stat_is control_sent 1 ;;; stat_is worker_sent 1 ;;;
    inbound_is 1 true ;;; outbound_is 1 true ;;; inbound_is 1 false ;;; outbound_is 1 false).

(** ** The runtime *)

Abbreviation RTT := (M SimulatedRuntime).
Definition rt_passes (seed : Z) (f : FaultConfig) (t : RTT unit) : bool :=
  match t (simulated_runtime_new seed f) with Done _ => true | Panic _ => false end.
Definition rt_check (b : bool) : RTT unit := assert b "assertion failed".
(** A call and its [unwrap], [is_ok]. *)
Definition rt_call {A} (f : SimulatedRuntime → A * SimulatedRuntime) : RTT A := λ r, Done (f r).
Definition rt_unwrap {A} (f : SimulatedRuntime → result A RuntimeError * SimulatedRuntime) : RTT A :=
  let* r := rt_call f in
  match r with Ok a => ret a | Err _ => panic "called `Result::unwrap()` on an `Err` value" end.
Definition rt_is_ok {A} (f : SimulatedRuntime → result A RuntimeError * SimulatedRuntime) : RTT bool :=
  let* r := rt_call f in ret (result_is_ok r).
Definition status_becomes (h : PodHandle) (s : PodStatus) : RTT unit :=
  let* x := rt_unwrap (sim_pod_status h) in rt_check (bool_decide (x = s)).

Definition test_spec (id : Z) : PodSpec := mkPodSpec id 100 "test:latest" "" 0 1 H100Sxm 2000 4096 [] [].
Definition always : Ratio := mkRatio 1 1.

Definition pull_image_accepts_optional_registry_credentials : bool :=
  rt_passes 9 fault_config_default (
    let* b := rt_is_ok (sim_pull_image "test:latest" (Some (mkImagePullAuth "registry.example" "user" "pw"))) in rt_check b).

Definition happy_path : bool :=
  rt_passes 42 fault_config_default (
    let* _ := rt_unwrap (sim_pull_image "test:latest" None) in
    let* h := rt_unwrap (sim_create_pod (test_spec 1)) in
    let* _ := rt_unwrap (sim_start_pod h) in
    status_becomes h PRunning ;;;
    let* _ := rt_unwrap (sim_stop_pod h 5000) in
    status_becomes h (PStopped 0)).

Definition create_start_adopts_existing_running_pod : bool :=
  rt_passes 42 fault_config_default (
    let* h := rt_unwrap (sim_create_pod (test_spec 1)) in
    let* _ := rt_unwrap (sim_start_pod h) in
    let* adopted := rt_unwrap (sim_create_pod (test_spec 1)) in
    rt_check (String.eqb (ph_container_id adopted) (ph_container_id h)) ;;;
    status_becomes adopted PRunning ;;;
    let* _ := rt_unwrap (sim_start_pod adopted) in
    status_becomes adopted PRunning).

Definition image_pull_failure_injection : bool :=
  rt_passes 42 (mkFaultConfig always ratio_zero ratio_zero ratio_zero ratio_zero) (
    let* b := rt_is_ok (sim_pull_image "test:latest" None) in rt_check (negb b)).

Definition deterministic_stop_failure_keeps_runtime_running_until_retry : bool :=
  rt_passes 0xB201 stop_fails (
    let* h := rt_unwrap (sim_create_pod (test_spec 1)) in
    let* _ := rt_unwrap (sim_start_pod h) in
    let* stopped := rt_call (sim_stop_pod h 0) in
    rt_check (match stopped with Err (EContainerStop _) => true | _ => false end) ;;;
    status_becomes h PRunning ;;;
    let* _ := rt_unwrap (sim_stop_pod h 0) in
    status_becomes h (PStopped 0)).

Definition spontaneous_crash : bool :=
  rt_passes 42 (mkFaultConfig ratio_zero always ratio_zero ratio_zero ratio_zero) (
    let* h := rt_unwrap (sim_create_pod (test_spec 1)) in
    let* _ := rt_unwrap (sim_start_pod h) in
    status_becomes h PRunning ;;;
    modify maybe_crash_pods ;;;
    status_becomes h (PStopped 137)).

(** The outcomes of six calls, made in one order and in another. *)
Definition fault_outcomes_do_not_depend_on_call_order : bool :=
  let f := mkFaultConfig (mkRatio 25 100) ratio_zero (mkRatio 25 100) (mkRatio 25 100) ratio_zero in
  let pull n := rt_is_ok (sim_pull_image ("image:" +:+ n) None) in
  let create n := rt_is_ok (sim_create_pod (test_spec n)) in
  let start n := rt_is_ok (sim_start_pod (mkPodHandle n ("sim-pod-" +:+ fmt_int n))) in
  let a := (let* p1 := pull "1"%string in let* p2 := pull "2"%string in
            let* c1 := create 1 in let* c2 := create 2 in
            let* s1 := start 1 in let* s2 := start 2 in ret [p1; p2; c1; c2; s1; s2]) in
  let b := (let* s2 := start 2 in let* c2 := create 2 in let* p2 := pull "2"%string in
            let* s1 := start 1 in let* c1 := create 1 in let* p1 := pull "1"%string in
            ret [p1; p2; c1; c2; s1; s2]) in
  match a (simulated_runtime_new 99 f), b (simulated_runtime_new 99 f) with
  | Done (x, _), Done (y, _) => bool_decide (x = y)
  | _, _ => false
  end.

Definition forward_run_echoes_payload_for_running_pod : bool :=
  rt_passes 42 fault_config_default (
    let* h := rt_unwrap (sim_create_pod (test_spec 9)) in
    let* _ := rt_unwrap (sim_start_pod h) in
    let* response := rt_unwrap (sim_forward_run h 8080 (as_bytes "poc-run")) in
    rt_check (bool_decide (response = as_bytes "poc-run"))).

(** ** Staging queues *)

(** [#[should_panic(expected = ..)]] of a loop. *)
Definition fills_with {A} (step : A → SimulatedIo → outcome SimulatedIo) (l : list A) (message : string) : bool :=
  match foldl (λ o a, let! s := o in step a s) (Done (simulated_io_new 0xB130)) l with
  | Panic e => String.eqb e message
  | Done _ => false
  end.

Definition inbound_staging_is_fail_loud_bounded : bool :=
  fills_with (λ n, push_inbound (StopPod (mkStopPodCmd (Z.of_nat n) 0))) (seq 0 257) INBOUND_FULL.

Definition outbound_staging_is_fail_loud_bounded : bool :=
  fills_with (λ n, io_send (NodeHeartbeat (mkNodeHeartbeatMsg (Z.of_nat n) 0 0))) (seq 0 257) OUTBOUND_FULL.

(** ** The checker's table *)

Definition all_valid_transitions : bool :=
  forallb (λ p, is_legal_transition p.1 p.2)
    [(ImagePulling, Creating); (ImagePulling, Stopped 0); (ImagePulling, Failed "x"); (Creating, Starting);
     (Creating, Stopped 0); (Starting, Creating); (Starting, Running); (Starting, Stopped 0); (Running, Stopping);
     (Running, Stopped 137); (Stopping, Stopped 0)].

Definition illegal_transitions : bool :=
  forallb (λ p, negb (is_legal_transition p.1 p.2))
    [(Running, ImagePulling); (Stopped 0, Running); (Creating, Running)].

(** ** Random numbers *)

Definition deterministic_sequence : bool :=
  bool_decide (prng_stream 1000 (prng_init 42) = prng_stream 1000 (prng_init 42)).

Definition zero_seed_becomes_one : bool := negb ((prng_next (prng_init 0)).1 =? 0).

(** [n] draws in a row, all of which satisfy [p]. *)
Fixpoint all_draws {A} (n : nat) (draw : Prng → outcome (A * Prng)) (p : A → bool) (g : Prng) : bool :=
  match n with
  | O => true
  | S n => match draw g with Done (a, g) => p a && all_draws n draw p g | Panic _ => false end
  end.

Definition bounded_within_range : bool := all_draws 1000 (prng_bounded 10) (λ x, x <? 10) (prng_init 123).

Definition chance_boundary : bool :=
  all_draws 100 (prng_chance 0) negb (prng_init 99) && all_draws 100 (prng_chance 100) (λ b, b) (prng_init 99).

(** ** Verdict *)

Definition sim_tests : list (string * bool) :=
  [("message_delayed_delivery", message_delayed_delivery);
   ("partitioned_blocks_delivery", partitioned_blocks_delivery);
   ("heal_allows_messages", heal_allows_messages);
   ("partition_holds_inbound_and_loses_new_outbound_send", partition_holds_inbound_and_loses_new_outbound_send);
   ("outbound_preserves_registration_first_with_variable_delay", outbound_preserves_registration_first_with_variable_delay);
   ("outbound_run_response_matches_wire_overflow_semantics", outbound_run_response_matches_wire_overflow_semantics);
   ("partition_buffers_accepted_outbound_and_fails_new_sends", partition_buffers_accepted_outbound_and_fails_new_sends);
   ("drop_replay_and_capacity_apply_to_both_directions", drop_replay_and_capacity_apply_to_both_directions);
   ("pull_image_accepts_optional_registry_credentials", pull_image_accepts_optional_registry_credentials);
   ("happy_path", happy_path);
   ("create_start_adopts_existing_running_pod", create_start_adopts_existing_running_pod);
   ("image_pull_failure_injection", image_pull_failure_injection);
   ("deterministic_stop_failure_keeps_runtime_running_until_retry", deterministic_stop_failure_keeps_runtime_running_until_retry);
   ("spontaneous_crash", spontaneous_crash);
   ("fault_outcomes_do_not_depend_on_call_order", fault_outcomes_do_not_depend_on_call_order);
   ("forward_run_echoes_payload_for_running_pod", forward_run_echoes_payload_for_running_pod);
   ("inbound_staging_is_fail_loud_bounded", inbound_staging_is_fail_loud_bounded);
   ("outbound_staging_is_fail_loud_bounded", outbound_staging_is_fail_loud_bounded);
   ("all_valid_transitions", all_valid_transitions);
   ("illegal_transitions", illegal_transitions);
   ("deterministic_sequence", deterministic_sequence);
   ("zero_seed_becomes_one", zero_seed_becomes_one);
   ("bounded_within_range", bounded_within_range);
   ("chance_boundary", chance_boundary)]%string.

(** The model passes them all. *)
Lemma sim_tests_pass : filter (λ t, t.2 = false) sim_tests = [].
Proof. vm_compute. reflexivity. Qed.
