(* ===== verification/ProcessTests.v ===== *)
(** * The tests of [runtime/process.rs], run on the model

    The tests fork Python servers and open sockets; here a [Lab] plays the machine: its
    children serve, obey or ignore TERM, and a socket yields scripted pieces of a response
    after scripted delays.  Left out are the tests of the embedded Python script and of
    [ureq]'s own reading of bodies ([default_process_response_omits_test_execution_count],
    [forward_run_reads_content_length_without_waiting_for_eof],
    [forward_run_total_deadline_stops_trickle_body]) and the one that overlaps two calls
    ([stop_wait_does_not_hold_global_process_map_lock]; [ProcessThreads] has its subject). *)

From S2P Require Import Prelude Types RustStr RustParse Protocol Traits System Http Process.

(** ** The machine *)

(** What a child does when it is sent TERM. *)
Inductive Manners := Obeys (exit_code : Z) | Ignores.

Record LabChild := mkLabChild { lc_port : Z; lc_manners : Manners; lc_exit : option ExitStatus }.

Record Lab := mkLab {
  lab_clock : Z;
  lab_children : gmap Z LabChild;
  lab_timeout : Z;                  (* of the socket *)
  lab_pieces : list (Z * bytes);    (* what the peer writes next, and after how long *)
  lab_post : option PostResult      (* the answer to a POST; [None]: an echo *)
}.

Definition lab0 : Lab := mkLab 1000 ∅ 0 [] None.
Definition lab_advance (d : Z) (x : Lab) : Lab :=
  mkLab (lab_clock x + Z.max 0 d) (lab_children x) (lab_timeout x) (lab_pieces x) (lab_post x).
Definition set_lab_children c (x : Lab) : Lab := mkLab (lab_clock x) c (lab_timeout x) (lab_pieces x) (lab_post x).
Definition set_pieces p (x : Lab) : Lab := mkLab (lab_clock x) (lab_children x) (lab_timeout x) p (lab_post x).
Definition set_lab_timeout t (x : Lab) : Lab := mkLab (lab_clock x) (lab_children x) t (lab_pieces x) (lab_post x).
Definition set_post p (x : Lab) : Lab := mkLab (lab_clock x) (lab_children x) (lab_timeout x) (lab_pieces x) p.

#[export] Instance lab_host : Host Lab := {
  instant_now x := (lab_clock x, lab_advance 1000 x);
  env_var _ _ := None;
  create_dir_all _ x := (Ok tt, x);
  command_output _ x := (Err "not installed"%string, x);
  read_to_string _ x := (Err "not found"%string, x);
  remove_dir_all _ x := (Ok tt, x);
  path_exists _ x := (false, x);
  http_get _ _ x := (Err "offline"%string, x);
  json_value_raw _ := None
}.

Definition signal_child (p : Z) (f : LabChild → option ExitStatus) (x : Lab) : result unit string * Lab :=
  match lab_children x !! p with
  | Some c =>
    let exit := match lc_exit c with Some st => Some st | None => f c end in
    (Ok tt, set_lab_children (<[p := mkLabChild (lc_port c) (lc_manners c) exit]> (lab_children x)) x)
  | None => (Err "no such process"%string, x)
  end.

Definition HEALTHY : bytes := as_bytes ("HTTP/1.0 200 OK" +:+ CRLF).

(** A live child that listens on [port]? *)
Definition listens (port : Z) (x : Lab) : bool :=
  bool_decide (map_Exists (λ _ c, lc_port c = port ∧ lc_exit c = None) (lab_children x)).

(** The label [serde_json] would find in the flat documents of the tests. *)
Fixpoint after_key (key : string) (s : string) : option string :=
  if starts_with key s then Some (String.substring (String.length key) (String.length s) s)
  else match s with EmptyString => None | String _ s => after_key key s end.
Fixpoint until_quote (s : string) : string :=
  match s with
  | EmptyString => EmptyString
  | String c s => if String.eqb (String c EmptyString) quote_char then EmptyString else String c (until_quote s)
  end.

#[export] Instance lab_system : System Lab := {
  thread_sleep := lab_advance;
  spawn cmd x :=
    let p := Z.of_nat (size (lab_children x)) + 100 in
    (Ok p, set_lab_children (<[p := mkLabChild (sc_port cmd) (Obeys 0) None]> (lab_children x)) x);
  try_wait p x := (match lab_children x !! p with Some c => Ok (lc_exit c) | None => Err "no child"%string end, x);
  kill_term p := signal_child p (λ c, match lc_manners c with Obeys code => Some (Some code) | Ignores => None end);
  child_kill p := signal_child p (λ _, Some None);
  tcp_connect port _ x :=
    if listens port x then (Ok 3, set_pieces [(0, HEALTHY)] x)
    else match lab_pieces x with [] => (Err "refused"%string, x) | _ => (Ok 3, x) end;
  set_timeout _ t x := (Ok tt, set_lab_timeout t x);
  tcp_write_all _ _ x := (Ok tt, x);
  tcp_read _ n x :=
    match lab_pieces x with
    | [] => (Ok [], x)
    | (d, b) :: rest =>
      if lab_timeout x <? d then (Err "timed out"%string, lab_advance (lab_timeout x) x)
      else (Ok (take n b), lab_advance d (set_pieces (if (n <? length b)%nat then (0, drop n b) :: rest else rest) x))
    end;
  http_post _ _ _ payload x :=
    (default (PostOk (mkHttpResponse None (as_bytes "{echo: " ++ payload ++ as_bytes "}") None)) (lab_post x), x);
  process_id _ := 42;
  temp_dir _ := "/tmp"%string;
  create_dir _ x := (Ok tt, x);
  set_permissions _ _ x := (Ok tt, x);
  open_new _ _ x := (Ok 3, x);
  file_write_all _ _ x := (Ok tt, x);
  file_sync _ x := (Ok tt, x);
  fs_write _ _ x := (Ok tt, x);
  open_netns _ x := (Err "permission denied"%string, x);
  setns _ x := (Err "permission denied"%string, x);
  sha256_hex b :=
    let s := fmt_int (foldr (λ c acc, (acc * 257 + b2z c) mod (2 ^ 61 - 1)) 7 b) in
    Nat.iter (64 - String.length s) (String "0") s;
  json_label info label := Ok (until_quote <$> after_key (quoted label +:+ ":" +:+ quote_char) info);
  arch := "x86_64"%string
}.

Abbreviation PT := (M (ProcessRuntime * Lab)).
Definition pt_check (b : bool) : PT unit := assert b "assertion failed".
Definition pt_unwrap {A E} (m : PT (result A E)) : PT A :=
  let* r := m in match r with Ok a => ret a | Err _ => panic "called `Result::unwrap()` on an `Err` value" end.
Definition pt_passes (r : ProcessRuntime) (t : PT unit) : bool :=
  match t (r, lab0) with Done _ => true | Panic _ => false end.

(** The specification most tests create. *)
Definition process_spec (pod_id port : Z) : PodSpec :=
  mkPodSpec pod_id 1 "process" "" port 0 GpuNone 100 128 [] [].

(** ** Creating and removing *)

Definition process_runtime_rejects_gpu_without_device_isolation : bool :=
  pt_passes (with_base_port 24400) (
    let* r := proc_create_pod (mkPodSpec 77 1 "process" "" 0 1 T4 1 1 [] []) in
    match r with
    | Ok _ => panic "GPU process workload must fail closed"
    | Err error => pt_check (contains "cannot isolate physical devices" (runtime_error_to_string error))
    end).

Definition process_runtime_probe_uses_owned_process_port : bool :=
  pt_passes (with_base_port 24500) (
    let* handle := pt_unwrap (proc_create_pod (process_spec 78 8080)) in
    pt_unwrap (proc_start_pod handle) ;;;
    let* healthy := pt_unwrap (proc_probe_pod handle 1 "/health") in
    pt_check healthy ;;;
    pt_unwrap (proc_remove_pod handle)).

Definition test_process_runtime_has_a_bounded_four_port_range : bool :=
  match with_test_controls 24300 with
  | Panic _ => false
  | Done runtime =>
    pt_passes runtime (
      let* handles := for_collect [0; 1; 2; 3] (λ pod_id,
        let* handle := pt_unwrap (proc_create_pod (process_spec pod_id 8080)) in ret [handle]) in
      let* overflow := proc_create_pod (process_spec 4 8080) in
      pt_check (match overflow with Err (EContainerCreate _) => true | _ => false end) ;;;
      for_each handles (λ handle, pt_unwrap (proc_remove_pod handle)))
  end.

Definition process_runtime_retains_owned_pod_across_control_plane_reconnect : bool :=
  pt_passes (with_base_port 24600) (
    let* handle := pt_unwrap (proc_create_pod (process_spec 80 8080)) in
    pt_unwrap (proc_start_pod handle) ;;;
    let* body := pt_unwrap (proc_forward_run handle 8080 (as_bytes "after-reconnect")) in
    pt_check (contains "after-reconnect" (of_bytes body)) ;;;
    pt_unwrap (proc_remove_pod handle)).

(** ** Stopping *)

(** [wait_for_child_exit_until] on a child that shows no exit. *)
Definition post_kill_wait_is_bounded_when_exit_remains_unobservable : bool :=
  pt_passes (with_base_port 24000) (
    let* started := on_sys (sys instant_now) in
    let* pid := pt_unwrap (on_sys (sys (spawn (mkSpawnCommand false 0 1 24000 [])))) in
    let* status := pt_unwrap (on_sys (wait_for_child_exit_until KILL_FUEL pid (started + 20 * NANOS_PER_MILLI))) in
    pt_check (bool_decide (status = None)) ;;;
    let* now := on_sys (sys instant_now) in
    pt_check (now - started <? 100 * NANOS_PER_MILLI)).

Definition stop_honors_graceful_sigterm_before_sigkill : bool :=
  pt_passes (with_base_port 24250) (
    let* child := pt_unwrap (on_sys (sys (spawn (mkSpawnCommand false 0 79 24250 [])))) in
    rt_set (λ r, set_processes (<["proc-grace"%string := mkRunningProcess child 24250]> (processes r)) r) ;;;
    on_sys (sleep_for (50 * NANOS_PER_MILLI)) ;;;
    let handle := mkPodHandle 79 "proc-grace" in
    pt_unwrap (proc_stop_pod handle 500) ;;;
    let* status := pt_unwrap (proc_pod_status handle) in
    pt_check (bool_decide (status = PStopped 0)) ;;;
    pt_unwrap (proc_remove_pod handle)).

Definition stopped_process_remains_queryable_until_remove : bool :=
  pt_passes (with_base_port 24000) (
    let* handle := pt_unwrap (proc_create_pod (process_spec 77 0)) in
    pt_unwrap (proc_stop_pod handle 0) ;;;
    let* status := proc_pod_status handle in
    pt_check (match status with Ok (PStopped _) => true | _ => false end) ;;;
    pt_unwrap (proc_remove_pod handle) ;;;
    let* status := proc_pod_status handle in
    pt_check (match status with Err (EContainerNotFound _) => true | _ => false end)).

(** ** Probes *)

(** [probe_http(serve_response(response), path)]. *)
Definition probe_served (response : bytes) (path : string) : result bool string :=
  match probe_http 80 path (set_pieces [(0, response)] lab0) with Done (r, _) => r | Panic e => Err e end.

Definition probe_accepts_only_exact_200_status : bool :=
  bool_decide (probe_served (as_bytes ("HTTP/1.1 200 OK" +:+ CRLF +:+ "Content-Length: 0" +:+ CRLF +:+ CRLF))
                 "/health?full=1" = Ok true)
  && bool_decide (probe_served (as_bytes ("HTTP/1.0 204 No Content" +:+ CRLF +:+ CRLF)) "/health" = Ok false).

Definition probe_rejects_500_response_with_200_in_body : bool :=
  bool_decide (probe_served (as_bytes ("HTTP/1.1 500 Internal Server Error" +:+ CRLF +:+ "Content-Length: 3"
                                       +:+ CRLF +:+ CRLF +:+ "200")) "/health" = Ok false).

Definition probe_rejects_malformed_oversized_and_unsafe_status_lines : bool :=
  forallb (λ response, negb (result_is_ok (probe_served response "/health")))
    [as_bytes ("not-http 200" +:+ CRLF +:+ CRLF);
     as_bytes ("HTTP/1.1 200" +:+ CRLF);
     as_bytes "HTTP/1.1 200 " ++ replicate 1024 Init.Byte.x78 ++ as_bytes (CRLF +:+ CRLF);
     as_bytes "HTTP/1.1 200 OK" ++ [Init.Byte.x00] ++ as_bytes ("unsafe" +:+ CRLF +:+ CRLF)].

Definition probe_total_deadline_stops_trickle_status_line : bool :=
  let pieces := (λ b, (350 * NANOS_PER_MILLI, [b])) <$> as_bytes ("HTTP/1.1 200 OK" +:+ CRLF) in
  match probe_http 80 "/health" (set_pieces pieces lab0) with
  | Done (r, x) => negb (result_is_ok r) && (lab_clock x - lab_clock lab0 <? 5750 * NANOS_PER_MILLI)
  | Panic _ => false
  end.

Definition probe_rejects_request_target_header_injection : bool :=
  match probe_http 1 ("/health" +:+ CRLF +:+ "X-Injected: yes") lab0 with
  | Done (Err error, _) => contains "unsafe request-target bytes" error
  | _ => false
  end.

(** ** Run requests *)

(** [forward_run(serve_response(response), b"x")]. *)
Definition forward_served (response : HttpResponse) : result bytes RuntimeError :=
  match post_run 80 (as_bytes "x") (set_post (Some (PostOk response)) lab0) with
  | Done (r, _) => r
  | Panic e => Err (EInternal e)
  end.

Definition forward_run_accepts_exact_maximum_body : bool :=
  let body := replicate MAX_RUN_RESPONSE_BODY Init.Byte.x78 in
  match forward_served (mkHttpResponse (Some (fmt_int (Z.of_nat (length body)))) body None) with
  | Ok b => (length b =? MAX_RUN_RESPONSE_BODY)%nat
  | Err _ => false
  end.

Definition too_large (r : result bytes RuntimeError) : bool :=
  match r with Err (EResponseTooLarge _) => true | _ => false end.

Definition forward_run_rejects_oversized_declared_and_chunked_bodies : bool :=
  too_large (forward_served (mkHttpResponse (Some (fmt_int (Z.of_nat (MAX_RUN_RESPONSE_BODY + 1)))) [] None))
  && too_large (forward_served (mkHttpResponse None (replicate (MAX_RUN_RESPONSE_BODY + 1) Init.Byte.x79) None)).

(** ** Verdict *)

Definition process_tests : list (string * bool) :=
  [("process_runtime_rejects_gpu_without_device_isolation", process_runtime_rejects_gpu_without_device_isolation);
   ("process_runtime_probe_uses_owned_process_port", process_runtime_probe_uses_owned_process_port);
   ("test_process_runtime_has_a_bounded_four_port_range", test_process_runtime_has_a_bounded_four_port_range);
   ("process_runtime_retains_owned_pod_across_control_plane_reconnect", process_runtime_retains_owned_pod_across_control_plane_reconnect);
   ("post_kill_wait_is_bounded_when_exit_remains_unobservable", post_kill_wait_is_bounded_when_exit_remains_unobservable);
   ("stop_honors_graceful_sigterm_before_sigkill", stop_honors_graceful_sigterm_before_sigkill);
   ("stopped_process_remains_queryable_until_remove", stopped_process_remains_queryable_until_remove);
   ("probe_accepts_only_exact_200_status", probe_accepts_only_exact_200_status);
   ("probe_rejects_500_response_with_200_in_body", probe_rejects_500_response_with_200_in_body);
   ("probe_rejects_malformed_oversized_and_unsafe_status_lines", probe_rejects_malformed_oversized_and_unsafe_status_lines);
   ("probe_total_deadline_stops_trickle_status_line", probe_total_deadline_stops_trickle_status_line);
   ("probe_rejects_request_target_header_injection", probe_rejects_request_target_header_injection);
   ("forward_run_accepts_exact_maximum_body", forward_run_accepts_exact_maximum_body);
   ("forward_run_rejects_oversized_declared_and_chunked_bodies", forward_run_rejects_oversized_declared_and_chunked_bodies)]%string.

(** The model passes them all. *)
Lemma process_tests_pass : filter (λ t, t.2 = false) process_tests = [].
Proof. vm_compute. reflexivity. Qed.
