(* ===== verification/ContainerdTests.v ===== *)
(** * The tests of [runtime/containerd.rs], run on the model

    All of them; the digest and the JSON reader are those of the [Lab]. *)

From S2P Require Import Prelude Types RustStr RustParse Protocol Traits System Http Containerd ProcessTests.

Definition cd_default : ContainerdRuntime := containerd_new None None None (Some "overlayfs"%string).
Definition text (ls : list string) : string := foldr (λ l acc, l +:+ newline +:+ acc) EmptyString ls.

(** ** Pulling *)

Definition pull_image_args_include_snapshotter_and_image : bool :=
  bool_decide (pull_image_args cd_default "docker.io/library/alpine:latest" None None =
    ["images"; "pull"; "--snapshotter"; "overlayfs"; "docker.io/library/alpine:latest"]%string).

Definition mentions_credentials (s : string) : bool := contains "private-user" s || contains "private-password" s.

Definition pull_image_credentials_are_not_exposed_in_argv_or_config_errors : bool :=
  let auth := mkImagePullAuth "docker.io" "private-user" "private-password" in
  let command := join " " (pull_image_args cd_default "docker.io/library/alpine:latest"
                             (Some "/tmp/protected-hosts"%string) (Some "linux/amd64"%string)) in
  let error := format_ctr_error ["images"; "pull"; "--hosts-dir"; "/tmp/protected-hosts"]%string 1 30000
                 "authentication failed for private-user" "bad password private-password"
                 ["private-user"; "private-password"]%string in
  contains "--hosts-dir /tmp/protected-hosts" command && negb (mentions_credentials command)
  && match registry_hosts_toml auth with Ok config => negb (mentions_credentials config) | Err _ => false end
  && negb (mentions_credentials error).

Definition default_platform_maps_common_architectures : bool :=
  bool_decide (default_platform (OS := Lab) ∈ ["linux/amd64"; "linux/arm64"; "linux/arm/v7"]%string).

(** ** Listings *)

Definition image_present_in_listing_matches_exact_reference : bool :=
  let listing := text
    ["REF TYPE DIGEST SIZE PLATFORMS LABELS";
     "docker.io/mendhak/http-https-echo:31 application/vnd.oci.image.index.v1+json sha256:abc 42.7 MiB linux/amd64 -";
     "docker.io/library/busybox:1.36 application/vnd.oci.image.index.v1+json sha256:def 2.1 MiB linux/amd64 -"]%string in
  image_present_in_listing listing "docker.io/mendhak/http-https-echo:31"
  && image_present_in_listing listing "docker.io/library/busybox:1.36"
  && negb (image_present_in_listing listing "docker.io/library/alpine:3.20").

Definition exact_id_listing_verification_rejects_prefix_matches : bool :=
  let listing := text ["TASK PID STATUS"; "hivemind-pod-7-1 123 RUNNING"; "hivemind-pod-70-1 456 RUNNING"]%string in
  listing_contains_exact_id listing "hivemind-pod-7-1" && negb (listing_contains_exact_id listing "hivemind-pod-7").

Definition task_status_from_listing_parses_container_status : bool :=
  let listing := text ["TASK PID STATUS"; "hivemind-pod-7 123 RUNNING"; "hivemind-pod-8 0 CREATED";
                       "hivemind-pod-9 0 STOPPED"]%string in
  bool_decide (task_status_from_listing listing "hivemind-pod-7" = Some PRunning)
  && bool_decide (task_status_from_listing listing "hivemind-pod-8" = Some PCreated)
  && bool_decide (task_status_from_listing listing "hivemind-pod-9" = Some (PStopped 0))
  && bool_decide (task_status_from_listing listing "hivemind-pod-10" = None).

Definition task_adoption_requires_proven_live_or_created_state : bool :=
  task_adoptable PRunning && task_adoptable PCreated && negb (task_adoptable PUnknown)
  && negb (task_adoptable (PStopped 0)).

Definition task_shim_dir_uses_configured_namespace : bool :=
  bool_decide (task_shim_dir (containerd_new None (Some "custom"%string) None None) "hivemind-pod-7" =
    "/run/containerd/io.containerd.runtime.v2.task/custom/hivemind-pod-7"%string).

Definition container_id_adds_bounded_unique_attempt_suffix : bool :=
  let two := (let* first := next_container_id 42 in let* second := next_container_id 42 in ret (first, second)) in
  match two (containerd_new None None None None, lab0) with
  | Done (p, _) => bool_decide (p = ("hivemind-pod-42-1"%string, "hivemind-pod-42-2"%string))
  | Panic _ => false
  end && bool_decide (container_id_prefix 42 = "hivemind-pod-42"%string).

Definition ids_with_prefix_matches_legacy_and_attempt_ids_only : bool :=
  let listing := text
    ["CONTAINER IMAGE RUNTIME";
     "hivemind-pod-42 docker.io/library/nginx io.containerd.runc.v2";
     "hivemind-pod-42-1 docker.io/library/nginx io.containerd.runc.v2";
     "hivemind-pod-420-1 docker.io/library/nginx io.containerd.runc.v2";
     "other docker.io/library/nginx io.containerd.runc.v2"]%string in
  bool_decide (ids_with_prefix listing "hivemind-pod-42" 64 = ["hivemind-pod-42"; "hivemind-pod-42-1"]%string).

(** ** Adoption *)

Definition adoption_spec : PodSpec :=
  mkPodSpec 42 9 "docker.io/library/alpine:3.20" "sleep 300" 8080 0 GpuNone 500 256 [("MODE"%string, "test"%string)]
    [mkBindMount "/tmp/source" "/data"].

(** [adoption_spec] with one field changed, for each field but the ids. *)
Definition spec_variants : list PodSpec :=
  let 'mkPodSpec pod deployment image entrypoint port gpus gpu cpu memory env mounts := adoption_spec in
  [mkPodSpec pod deployment (image +:+ "-other") entrypoint port gpus gpu cpu memory env mounts;
   mkPodSpec pod deployment image (entrypoint +:+ " --verbose") port gpus gpu cpu memory env mounts;
   mkPodSpec pod deployment image entrypoint (port + 1) gpus gpu cpu memory env mounts;
   mkPodSpec pod deployment image entrypoint port 1 gpu cpu memory env mounts;
   mkPodSpec pod deployment image entrypoint port gpus T4 cpu memory env mounts;
   mkPodSpec pod deployment image entrypoint port gpus gpu (cpu + 1) memory env mounts;
   mkPodSpec pod deployment image entrypoint port gpus gpu cpu (memory + 1) env mounts;
   mkPodSpec pod deployment image entrypoint port gpus gpu cpu memory [("MODE"%string, "test-other"%string)] mounts;
   mkPodSpec pod deployment image entrypoint port gpus gpu cpu memory env [mkBindMount "/tmp/source" "/data-other"]].

Definition identity_of (spec : PodSpec) : string :=
  workload_identity (OS := Lab) (containerd_new None None None None) spec.

Definition workload_identity_changes_for_every_adoption_relevant_field : bool :=
  (String.length (identity_of adoption_spec) =? 64)%nat
  && forallb (λ changed, negb (String.eqb (identity_of changed) (identity_of adoption_spec))) spec_variants.

(** [{"labels":{"hivemind.workload.identity":"..."}}]. *)
Definition labelled (identity : string) : string :=
  "{" +:+ quoted "labels" +:+ ":{" +:+ quoted "hivemind.workload.identity" +:+ ":" +:+ quoted identity +:+ "}}".
Definition identity_in (info : string) : option string :=
  match workload_identity_from_container_info (OS := Lab) info with Ok identity => Some identity | Err _ => None end.

Definition adoption_identity_parser_fails_closed_on_missing_malformed_or_mismatched_labels : bool :=
  let expected := identity_of adoption_spec in
  let other := identity_of (mkPodSpec 42 9 "docker.io/library/busybox:1.36" "sleep 300" 8080 0 GpuNone 500 256
                              (ps_env_vars adoption_spec) (ps_mounts adoption_spec)) in
  bool_decide (identity_in (labelled expected) = Some expected)
  && bool_decide (identity_in ("{" +:+ quoted "labels" +:+ ":{}}") = None)
  && bool_decide (identity_in (labelled "not-a-digest") = None)
  && negb (bool_decide (identity_in (labelled expected) = Some other)).

Definition containers_of_42 : string :=
  text ["CONTAINER IMAGE RUNTIME"; "hivemind-pod-42-1 image runtime"; "hivemind-pod-42-2 image runtime"]%string.

Definition adoption_selects_one_live_task_before_stale_cleanup : bool :=
  match adoptable_container_id_from_listings 42
    (text ["TASK PID STATUS"; "hivemind-pod-42-1 123 RUNNING"; "hivemind-pod-42-2 0 STOPPED"]%string)
    containers_of_42 with
  | Ok r => bool_decide (r = Some "hivemind-pod-42-1"%string)
  | Err _ => false
  end.

Definition adoption_rejects_unknown_task_state : bool :=
  match adoptable_container_id_from_listings 42
    (text ["TASK PID STATUS"; "hivemind-pod-42-1 123 PAUSED"]%string)
    (text ["CONTAINER IMAGE RUNTIME"; "hivemind-pod-42-1 image runtime"]%string) with
  | Ok r => bool_decide (r = None)
  | Err _ => false
  end.

Definition adoption_rejects_ambiguous_live_task_family : bool :=
  negb (result_is_ok (adoptable_container_id_from_listings 42
    (text ["TASK PID STATUS"; "hivemind-pod-42-1 123 RUNNING"; "hivemind-pod-42-2 456 RUNNING"]%string)
    containers_of_42)).

(** ** Errors *)

Definition task_already_exists_error_matches_ctr_output : bool :=
  task_already_exists_error "ctr: task hivemind-pod-1: already exists"
  && negb (task_already_exists_error "ctr: task hivemind-pod-1: not found").

Definition format_ctr_error_includes_command_exit_stdout_and_stderr : bool :=
  let error := format_ctr_error ["tasks"; "start"; "--detach"; "hivemind-pod-1"]%string 1 30000 "actual stdout"
                 "warning plus failure" [] in
  contains "ctr tasks start --detach hivemind-pod-1" error && contains "exit code 1" error
  && contains "stdout: actual stdout" error && contains "stderr: warning plus failure" error.

Definition format_ctr_error_identifies_timeout : bool :=
  bool_decide (format_ctr_error ["tasks"; "start"]%string 124 30000 "" "" [] =
    "ctr tasks start: timed out after 30000ms"%string).

Definition gpu_workload_is_rejected_without_physical_device_reservation : bool :=
  let spec := mkPodSpec 7 1 "docker.io/mendhak/http-https-echo:31" "" 8080 2 T4 500 512 [] [] in
  match cd_create_pod spec (cd_default, lab0) with
  | Done (Err error, _) => contains "physical device reservation" (runtime_error_to_string error)
  | _ => false
  end.

(** ** Verdict *)

Definition containerd_tests : list (string * bool) :=
  [("pull_image_args_include_snapshotter_and_image", pull_image_args_include_snapshotter_and_image);
   ("pull_image_credentials_are_not_exposed_in_argv_or_config_errors", pull_image_credentials_are_not_exposed_in_argv_or_config_errors);
   ("default_platform_maps_common_architectures", default_platform_maps_common_architectures);
   ("image_present_in_listing_matches_exact_reference", image_present_in_listing_matches_exact_reference);
   ("exact_id_listing_verification_rejects_prefix_matches", exact_id_listing_verification_rejects_prefix_matches);
   ("task_status_from_listing_parses_container_status", task_status_from_listing_parses_container_status);
   ("task_adoption_requires_proven_live_or_created_state", task_adoption_requires_proven_live_or_created_state);
   ("task_shim_dir_uses_configured_namespace", task_shim_dir_uses_configured_namespace);
   ("container_id_adds_bounded_unique_attempt_suffix", container_id_adds_bounded_unique_attempt_suffix);
   ("ids_with_prefix_matches_legacy_and_attempt_ids_only", ids_with_prefix_matches_legacy_and_attempt_ids_only);
   ("workload_identity_changes_for_every_adoption_relevant_field", workload_identity_changes_for_every_adoption_relevant_field);
   ("adoption_identity_parser_fails_closed_on_missing_malformed_or_mismatched_labels", adoption_identity_parser_fails_closed_on_missing_malformed_or_mismatched_labels);
   ("adoption_selects_one_live_task_before_stale_cleanup", adoption_selects_one_live_task_before_stale_cleanup);
   ("adoption_rejects_unknown_task_state", adoption_rejects_unknown_task_state);
   ("adoption_rejects_ambiguous_live_task_family", adoption_rejects_ambiguous_live_task_family);
   ("task_already_exists_error_matches_ctr_output", task_already_exists_error_matches_ctr_output);
   ("format_ctr_error_includes_command_exit_stdout_and_stderr", format_ctr_error_includes_command_exit_stdout_and_stderr);
   ("format_ctr_error_identifies_timeout", format_ctr_error_identifies_timeout);
   ("gpu_workload_is_rejected_without_physical_device_reservation", gpu_workload_is_rejected_without_physical_device_reservation)]%string.

(** The model passes them all. *)
Lemma containerd_tests_pass : filter (λ t, t.2 = false) containerd_tests = [].
Proof. vm_compute. reflexivity. Qed.
