(* ===== verification/AgentTests.v ===== *)
(** * The tests of [main.rs], [real_io.rs] and [crypto.rs], run on the model

    Sockets are scripted, the AEAD is a keyed checksum.  Left out is
    [runtime_owner_is_constructed_once_across_connection_loss], which compares addresses. *)

From S2P Require Import Prelude Types Prng RustStr RustParse Config Crypto Protocol Frame Traits Fingerprint.
From S2P Require Import Volumes Secrets Worker Metrics RealIo System Http Process Agent.
From S2P Require Import SimIo SimRuntime SimNetwork SimChecker SimControlPlane Simulator WorkerTests SimulatorTests.

(** ** The command line *)

Definition parse (args : list string) (env : list (string * string)) : RunConfig :=
  parse_run_config args (λ key, (list_to_map (reverse env) : gmap string string) !! key).

Definition replica_addr_list_splits_trims_and_bounds : bool :=
  bool_decide (parse_replica_addrs " 10.0.0.1:9000,10.0.0.2:9000,, 10.0.0.3:9000 " =
    ["10.0.0.1:9000"; "10.0.0.2:9000"; "10.0.0.3:9000"]%string)
  && let many := foldr (λ i acc, "10.0.0." +:+ fmt_int (Z.of_nat i) +:+ ":9000," +:+ acc) EmptyString
                   (seq 0 (MAX_REPLICA_ADDRS + 8)) in
     (length (parse_replica_addrs many) =? MAX_REPLICA_ADDRS)%nat.

Definition replica_addresses_require_ip_socket_addresses : bool :=
  bool_decide (validate_replica_addrs ["127.0.0.1:9000"; "[::1]:9001"]%string = Ok tt)
  && bool_decide (validate_replica_addrs ["localhost:9000"]%string =
       Err "replica address must be an IP socket address: localhost:9000"%string).

Definition snapshotter_flag_beats_env_var : bool :=
  let cfg := parse ["127.0.0.1:9000"; "--snapshotter"; "nydus"]%string [("HIVEMIND_SNAPSHOTTER", "overlayfs")]%string in
  String.eqb (snapshotter cfg) "nydus".

Definition snapshotter_env_fills_default : bool :=
  let cfg := parse ["127.0.0.1:9000"]%string [("HIVEMIND_SNAPSHOTTER", "nydus")]%string in
  String.eqb (snapshotter cfg) "nydus".

Definition metrics_port_still_uses_env_when_flag_missing : bool :=
  let cfg := parse ["127.0.0.1:9000"]%string [("HIVEMIND_AGENT_METRICS_PORT", "8081")]%string in
  bool_decide (metrics_port cfg = Some 8081).

Definition process_test_controls_are_disabled_by_default_and_require_explicit_flag : bool :=
  let default_cfg := parse ["127.0.0.1:9000"]%string [] in
  let enabled_cfg := parse ["127.0.0.1:9000"; "--test-process-controls"]%string [] in
  let isolated_cfg := parse ["127.0.0.1:9000"; "--test-process-controls"; "--test-process-base-port"; "24500"]%string [] in
  let explicit_default_cfg := parse ["127.0.0.1:9000"; "--test-process-base-port"; "15000"]%string [] in
  negb (test_process_controls default_cfg) && negb (test_process_base_port_explicit default_cfg)
  && test_process_controls enabled_cfg && (test_process_base_port default_cfg =? 15000)
  && (test_process_base_port isolated_cfg =? 24500) && test_process_base_port_explicit isolated_cfg
  && test_process_base_port_explicit explicit_default_cfg.

(** ** Shutdown *)

(** The state counts attempts and waits. *)
Definition shutdown_reconciliation_is_bounded : bool :=
  match reconcile_shutdown (λ s : nat * nat, Done (false, (S s.1, s.2))) (λ s, Done (tt, (s.1, S s.2))) (0%nat, 0%nat) with
  | Done (ok, (attempts, waits)) =>
    negb ok && (attempts =? MAX_SHUTDOWN_RECONCILIATION_ATTEMPTS)%nat
    && (waits =? MAX_SHUTDOWN_RECONCILIATION_ATTEMPTS - 1)%nat
  | Panic _ => false
  end.

Definition running_pod_sim (pod_id : Z) : ST unit :=
  unit_delay ;;;
  run_ticks 5 ;;;
  send0 (gpu_start pod_id (pod_id + 1000) "shutdown-test:latest" 1 H100Sxm 500 512 "") ;;;
  run_ticks 10 ;;;
  state_is pod_id Running.

(** A world in which nothing happens; the signal is seen by load number [signal]. *)
Definition still_world (signal : nat) : World SimulatedRuntime Disk :=
  mkWorld signal (λ _ _ _, Err (mkIoError InvalidInput "refused")) (λ _, (0, 0, []))
    (λ _, mkMoment [] [] 0 [] [] None) (λ d h, mkDisk (dk_clock h + d) (dk_paths h)) (λ _, None) (λ _, false).

(** [shutdown_disconnected_worker(&mut sim.workers[0], &sim.sim_runtimes[0], || {})]. *)
Definition shutdown_disconnected0 : ST bool :=
  let* s := get in
  let* w := index (workers s) 0 in
  let* r := index (sim_runtimes s) 0 in
  match shutdown_disconnected_worker (still_world 0) (mkAgent w r (ws_host s) 0 0 0 [] []) with
  | Panic e => panic e
  | Done (ok, a) =>
    modify (λ s, set_workers (<[0%nat := ag_worker a]> (workers s))
                   (set_sim_runtimes (<[0%nat := ag_rt a]> (sim_runtimes s)) s)) ;;;
    ret ok
  end.

Definition counts0 (pod_id : Z) : ST RuntimeOperationCounts :=
  let* s := get in let* r := index (sim_runtimes s) 0 in ret (operation_counts pod_id r).

Definition disconnected_shutdown_verifies_cleanup_during_reconnect_backoff : bool :=
  sim_passes (sim_of 1 0xD15C0A) (
    running_pod_sim 60006 ;;;
    lose_agent_session 0 ;;;
    let* before := counts0 60006 in
    let* ok := shutdown_disconnected0 in
    sim_check ok ;;;
    let* w := worker0 in
    sim_check (bool_decide (pods w = ∅)) ;;;
    let* after := counts0 60006 in
    sim_check ((oc_stop after - oc_stop before =? 1) && (oc_status after - oc_status before =? 1)
               && (oc_remove after - oc_remove before =? 1)) ;;;
    let* ok := shutdown_disconnected0 in
    sim_check ok ;;;
    let* again := counts0 60006 in
    sim_check ((oc_stop again =? oc_stop after) && (oc_status again =? oc_status after)
               && (oc_remove again =? oc_remove after))).

Definition disconnected_shutdown_retains_ownership_when_runtime_is_unavailable : bool :=
  sim_passes (sim_of 1 0xD15C0A) (
    running_pod_sim 60007 ;;;
    lose_agent_session 0 ;;;
    on_runtime0 (lose_pod 60007) ;;;
    let* before := counts0 60007 in
    let* ok := shutdown_disconnected0 in
    sim_check (negb ok) ;;;
    state_is 60007 Stopping ;;;
    allocated_is 1 500 512 ;;;
    let* after := counts0 60007 in
    sim_check ((oc_stop before <? oc_stop after)
               && (oc_status after - oc_status before =? oc_stop after - oc_stop before)
               && (oc_remove after - oc_remove before =? 0))).

(** The third poll sees the request; each earlier one is followed by a sleep of one
    interval. *)
Definition reconnect_backoff_observes_shutdown_without_waiting_for_full_delay : bool :=
  let w := new disk0 "backoff" GpuNone 0 1000 1024 in
  match wait_for_reconnect_or_shutdown (still_world 2) 300 (from_secs 10)
          (mkAgent w (simulated_runtime_new 0 fault_config_default) disk0 0 0 0 [] []) with
  | Done (observed, a) =>
    observed && (ag_loads a =? 3)%nat && (dk_clock (ag_host a) / SHUTDOWN_POLL_INTERVAL =? 2)
  | Panic _ => false
  end.

(** ** The AEAD of the tests *)

Definition checksum (n : nat) (parts : list bytes) : bytes :=
  to_le n (foldr (λ c acc, (acc * 1000003 + b2z c + 1) mod (2 ^ 127 - 1)) 7 (concat parts)).

Definition keyed_aead : Aead := {|
  aead_encrypt key nonce m aad := m ++ checksum TAG_LEN [key; nonce; m; aad];
  aead_decrypt key nonce c aad :=
    let m := take (length c - TAG_LEN) c in
    if bool_decide (drop (length c - TAG_LEN) c = checksum TAG_LEN [key; nonce; m; aad]) then Some m else None;
  hkdf_sha256 salt ikm info := checksum 16 [salt; ikm; info] ++ checksum 16 [info; salt; ikm]
|}.
#[local] Existing Instance keyed_aead.

Definition TEST_PSK : string := "000102030405060708090a0b0c0d0e0f101112131415161718191a1b1c1d1e1f".
Definition with_state (f : EncryptionState → bool) : bool :=
  match from_hex TEST_PSK with Done (Ok state) => f state | _ => false end.

Definition encrypt_decrypt_round_trip : bool :=
  with_state (λ state,
    let plaintext := as_bytes "hello hivemind frame data" in
    let aad := z2b <$> [32; 0; 0; 0; 1] in
    let encrypted := encrypt_frame (zeros NONCE_LEN) (worker_key state) plaintext aad in
    (length plaintext <? length encrypted)%nat
    && bool_decide (decrypt_frame (worker_key state) encrypted aad = Ok plaintext)).

Definition wrong_key_fails : bool :=
  with_state (λ state,
    let encrypted := encrypt_frame (zeros NONCE_LEN) (worker_key state) (as_bytes "secret") [Init.Byte.x01] in
    negb (result_is_ok (decrypt_frame (Init.Byte.xff :: zeros 31) encrypted [Init.Byte.x01]))).

Definition wrong_aad_fails : bool :=
  with_state (λ state,
    let encrypted := encrypt_frame (zeros NONCE_LEN) (worker_key state) (as_bytes "data") [Init.Byte.x01] in
    negb (result_is_ok (decrypt_frame (worker_key state) encrypted [Init.Byte.x02]))).

Definition hkdf_worker_key_is_deterministic : bool :=
  with_state (λ state, with_state (λ state2,
    bool_decide (worker_key state = worker_key state2)
    && negb (bool_decide (worker_key state = zeros KEY_LEN))
    && negb (bool_decide (take 16 (worker_key state) = z2b ∘ Z.of_nat <$> seq 0 16)))).

Definition key_rejected (o : outcome (result EncryptionState string)) : bool :=
  match o with Done (Err _) => true | _ => false end.
Definition invalid_hex_rejected : bool :=
  key_rejected (from_hex "tooshort")
  && key_rejected (from_hex "gggggggggggggggggggggggggggggggggggggggggggggggggggggggggggggggg").

(** ** The TCP transport *)

Definition run_request_frame (request_id deployment_id : Z) (body : bytes) : bytes :=
  (write_frame [] ([] : bytes) 0x04
     (to_le 8 request_id ++ to_le 8 deployment_id ++ to_le 4 (Z.of_nat (length body)) ++ body)).2.

(** [RealIo::connect] to a peer that writes these pieces. *)
Definition connected_to (pieces : list bytes) : result RealIo io_error :=
  connect parse_socket_addr
    (λ _ _, Ok (mkTcpStream (concat ((λ b, [GotBytes b; GotError (mkIoError WouldBlock "EAGAIN")]) <$> pieces)) [] [] false))
    0 0 [] "127.0.0.1:9000" None.

Abbreviation IT := (M RealIo).
Definition it_check (b : bool) : IT unit := assert b "assertion failed".
Definition it_passes (pieces : list bytes) (t : IT unit) : bool :=
  match connected_to pieces with
  | Ok r => match t r with Done _ => true | Panic _ => false end
  | Err _ => false
  end.

Fixpoint recv_within (n : nat) : IT ControlMessage :=
  match n with
  | O => panic "timed out waiting for message"
  | S n => let* m := real_recv in match m with Some m => ret m | None => recv_within n end
  end.
Definition recv_until : IT ControlMessage := recv_within 32.

Definition run_request_is (m : ControlMessage) (request_id deployment_id : Z) (body : bytes) : IT unit :=
  it_check (match m with
            | RunRequest cmd =>
              (rr_request_id cmd =? request_id) && (rr_deployment_id cmd =? deployment_id)
              && bool_decide (rr_payload cmd = body)
            | _ => false
            end).
Definition is_connected_now (b : bool) : IT unit := let* r := get in it_check (Bool.eqb (connected r) b).
Definition recv_none : IT unit := let* m := real_recv in it_check (match m with None => true | Some _ => false end).

Definition kind_is_invalid_input (r : result RealIo io_error) : bool :=
  match r with Err e => bool_decide (err_kind e = InvalidInput) | Ok _ => false end.

Definition bounded_connect_rejects_unbounded_hostname_resolution_and_zero_timeout : bool :=
  let dial addr timeout := connect_timeout parse_socket_addr (λ _ _, Ok (mkTcpStream [] [] [] false)) 0 0 [] addr None timeout in
  kind_is_invalid_input (dial "replica.example:9000"%string (from_secs 1))
  && kind_is_invalid_input (dial "127.0.0.1:9000"%string 0).

Definition recv_preserves_partial_frame_and_decodes_following_frames : bool :=
  let frame_one := run_request_frame 7 11 (as_bytes "first") in
  let frame_two := run_request_frame 8 12 (as_bytes "second") in
  it_passes [take 4 frame_one; drop 4 frame_one; frame_two] (
    recv_none ;;; is_connected_now true ;;;
    let* m := recv_until in run_request_is m 7 11 (as_bytes "first") ;;;
    let* m := recv_until in run_request_is m 8 12 (as_bytes "second")).

(** [assert_malformed_session_terminates]. *)
Definition malformed_session_terminates (tag : Z) (payload : bytes) : bool :=
  let frame := (write_frame [] ([] : bytes) tag payload).2 in
  it_passes [frame ++ run_request_frame 9 10 (as_bytes "must-not-decode")] (
    recv_none ;;; is_connected_now false ;;; recv_none).

Definition malformed_control_message_disconnects_session : bool :=
  malformed_session_terminates 0x02 (<[531%nat := Init.Byte.xff]> (zeros 797)).
Definition trailing_stop_pod_payload_disconnects_session : bool := malformed_session_terminates 0x03 (zeros 17).
Definition trailing_probe_pod_payload_disconnects_session : bool := malformed_session_terminates 0x05 (zeros 9).

Definition recv_decodes_burst_larger_than_read_buffer_without_disconnect : bool :=
  let body := replicate MAX_RUN_PAYLOAD Init.Byte.x5a in
  let burst := concat ((λ id, run_request_frame (Z.of_nat id) 99 body) <$> seq 0 80) in
  (READ_BUFFER_SIZE <? length burst)%nat
  && it_passes [burst]
       (for_each (seq 0 80) (λ id,
          let* m := recv_until in run_request_is m (Z.of_nat id) 99 body ;;; is_connected_now true)).

(** ** Verdict *)

Definition agent_tests : list (string * bool) :=
  [("replica_addr_list_splits_trims_and_bounds", replica_addr_list_splits_trims_and_bounds);
   ("replica_addresses_require_ip_socket_addresses", replica_addresses_require_ip_socket_addresses);
   ("snapshotter_flag_beats_env_var", snapshotter_flag_beats_env_var);
   ("snapshotter_env_fills_default", snapshotter_env_fills_default);
   ("metrics_port_still_uses_env_when_flag_missing", metrics_port_still_uses_env_when_flag_missing);
   ("process_test_controls_are_disabled_by_default_and_require_explicit_flag", process_test_controls_are_disabled_by_default_and_require_explicit_flag);
   ("shutdown_reconciliation_is_bounded", shutdown_reconciliation_is_bounded);
   ("disconnected_shutdown_verifies_cleanup_during_reconnect_backoff", disconnected_shutdown_verifies_cleanup_during_reconnect_backoff);
   ("disconnected_shutdown_retains_ownership_when_runtime_is_unavailable", disconnected_shutdown_retains_ownership_when_runtime_is_unavailable);
   ("reconnect_backoff_observes_shutdown_without_waiting_for_full_delay", reconnect_backoff_observes_shutdown_without_waiting_for_full_delay);
   ("encrypt_decrypt_round_trip", encrypt_decrypt_round_trip);
   ("wrong_key_fails", wrong_key_fails);
   ("wrong_aad_fails", wrong_aad_fails);
   ("hkdf_worker_key_is_deterministic", hkdf_worker_key_is_deterministic);
   ("invalid_hex_rejected", invalid_hex_rejected);
   ("bounded_connect_rejects_unbounded_hostname_resolution_and_zero_timeout", bounded_connect_rejects_unbounded_hostname_resolution_and_zero_timeout);
   ("recv_preserves_partial_frame_and_decodes_following_frames", recv_preserves_partial_frame_and_decodes_following_frames);
   ("malformed_control_message_disconnects_session", malformed_control_message_disconnects_session);
   ("trailing_stop_pod_payload_disconnects_session", trailing_stop_pod_payload_disconnects_session);
   ("trailing_probe_pod_payload_disconnects_session", trailing_probe_pod_payload_disconnects_session);
   ("recv_decodes_burst_larger_than_read_buffer_without_disconnect", recv_decodes_burst_larger_than_read_buffer_without_disconnect)]%string.

(** The model passes them all. *)
Lemma agent_tests_pass : filter (λ t, t.2 = false) agent_tests = [].
Proof. vm_compute. reflexivity. Qed.
