(* ===== verification/UnitTests.v ===== *)
(** * The tests of the small modules, run on the model

    [fingerprint.rs], [metrics.rs], [volumes.rs], [secrets.rs], [runtime.rs] and
    [bin/fuzz.rs]. *)

From S2P Require Import Prelude Types Prng RustStr RustParse Traits Fingerprint Volumes Secrets Worker Metrics.
From S2P Require Import SimNetwork SimChecker SimControlPlane SimRunner Fuzz WorkerTests.

Definition unit_lines (ls : list string) : string := foldr (λ l acc, l +:+ newline +:+ acc) EmptyString ls.
Definition tab : string := String "009" EmptyString.

(** ** fingerprint.rs *)

#[export] Instance disk_node : Node Disk := {
  gethostname h := (Ok (as_bytes "worker-1" ++ replicate 56 Init.Byte.x00), h);
  nvml_device_count _ := None;
  nvml_device_by_index _ _ := None;
  unicode_uppercase s := s
}.

Definition gpu_type_enum_values_match_zig : bool :=
  bool_decide (gpu_type_as_u8 <$> [GpuNone; A100_40; A100_80; H100Sxm; H100Pcie; H200; L40s; A10g; T4] =
    [0; 1; 2; 3; 4; 5; 6; 7; 8]).

Definition cpu_is (content : string) (millicores : Z) : bool :=
  match parse_cpuinfo content with Done (Ok n) => n =? millicores | _ => false end.

Definition xeon (i : string) : list string :=
  ["processor" +:+ tab +:+ ": " +:+ i; "model name" +:+ tab +:+ ": Intel(R) Xeon(R)";
   "cpu MHz" +:+ tab +:+ tab +:+ ": 2400.000"]%string.

Definition parse_cpuinfo_four_cores : bool :=
  cpu_is (unit_lines (xeon "0" ++ [EmptyString] ++ xeon "1" ++ [EmptyString] ++ xeon "2" ++ [EmptyString] ++ xeon "3")) 4000.

Definition parse_cpuinfo_single_core : bool :=
  cpu_is (unit_lines ["processor" +:+ tab +:+ ": 0"; "model name" +:+ tab +:+ ": ARM"]%string) 1000.

Definition parse_cpuinfo_empty_fails : bool :=
  match parse_cpuinfo EmptyString with Done (Err _) => true | _ => false end.

Definition memory_is (content : string) (megabytes : Z) : bool :=
  match parse_meminfo content with Ok n => n =? megabytes | Err _ => false end.

Definition parse_meminfo_16gb : bool :=
  memory_is (unit_lines ["MemTotal:       16384000 kB"; "MemFree:         8192000 kB";
                         "MemAvailable:   12000000 kB"]%string) 16000.

Definition parse_meminfo_512gb : bool := memory_is (unit_lines ["MemTotal:       536870912 kB"]%string) 524288.

Definition parse_meminfo_missing_fails : bool :=
  negb (result_is_ok (parse_meminfo (unit_lines ["Buffers: 1234 kB"]%string))).

Definition classified (name : string) (memory_mb : Z) (gpu : GpuType) : bool :=
  bool_decide (classify_gpu (OS := Disk) name memory_mb = gpu).

Definition classify_a100_40gb : bool := classified "NVIDIA A100-SXM4-40GB" 40960 A100_40.
Definition classify_a100_80gb : bool := classified "NVIDIA A100-SXM4-80GB" 81920 A100_80.
Definition classify_h100_sxm : bool := classified "NVIDIA H100 80GB HBM3 SXM" 81920 H100Sxm.
Definition classify_h100_pcie : bool := classified "NVIDIA H100 PCIe" 81920 H100Pcie.
Definition classify_h200 : bool := classified "NVIDIA H200" 143360 H200.
Definition classify_l40s : bool := classified "NVIDIA L40S" 49152 L40s.
Definition classify_a10g : bool := classified "NVIDIA A10G" 24576 A10g.
Definition classify_t4 : bool := classified "Tesla T4" 16384 T4.
Definition classify_unknown : bool := classified "NVIDIA RTX 4090" 24576 GpuNone.

Definition hostname_returns_something : bool :=
  match get_hostname disk0 with (Ok name, _) => negb (str_is_empty name) | (Err _, _) => false end.

(** ** metrics.rs *)

Definition metrics_format_valid : bool :=
  match format_metrics (new disk0 "test" GpuNone 0 4000 8192) 42 with
  | Done body =>
    forallb (λ line, contains line body)
      ["hivemind_worker_pods_running 0"; "hivemind_worker_gpu_total 0"; "hivemind_worker_gpu_allocated 0";
       "hivemind_worker_connected 0"; "hivemind_worker_pods{state=" +:+ quoted "running" +:+ "} 0";
       "hivemind_worker_pods{state=" +:+ quoted "failed" +:+ "} 0"; "hivemind_worker_uptime_seconds 42"]%string
  | Panic _ => false
  end.

(** ** volumes.rs *)

Definition mount_base_path_format : bool :=
  bool_decide (mount_dir_of 42 = (MOUNT_BASE +:+ "/42/juicefs")%string).

Definition unmount_nonexistent_is_safe : bool := result_is_ok (unmount_juicefs 999999 disk0).1.

Definition expired_shutdown_deadline_rejects_volume_cleanup : bool :=
  let '(now, h) := instant_now disk0 in
  match unmount_juicefs_until 999998 now h with
  | (Err error, _) => contains "shutdown deadline" error
  | (Ok _, _) => false
  end.

Definition mount_rejects_relative_subpath_before_host_side_effects : bool :=
  match mount_juicefs 999997 "relative/path" disk0 with
  | (Err error, h) => contains "absolute path" error && negb (path_exists (pod_dir_of 999997) h).1
  | (Ok _, _) => false
  end.

(** ** secrets.rs *)

Definition plain_env_vars_pass_through : bool :=
  let entries := [mkEnvEntry "FOO" "bar" false; mkEnvEntry "BAZ" "qux" false] in
  bool_decide ((resolve entries (secret_resolver_new disk0) disk0).1.1 = [("FOO", "bar"); ("BAZ", "qux")]%string).

Definition secret_ref_without_token_is_skipped : bool :=
  let resolver := mkSecretResolver None None None ∅ in
  bool_decide ((resolve [mkEnvEntry "SECRET" "my-secret" true] resolver disk0).1.1 = []).

(** ** runtime.rs *)

Definition pod_spec_construction : bool :=
  let spec := mkPodSpec 1 100 "nginx:latest" "/bin/sh" 8080 2 H100Sxm 4000 8192 [("FOO", "bar")]%string [] in
  (ps_pod_id spec =? 1) && bool_decide (ps_gpu_type spec = H100Sxm) && (length (ps_env_vars spec) =? 1)%nat.

Definition pod_status_eq : bool :=
  bool_decide (PRunning = PRunning) && bool_decide (PStopped 0 = PStopped 0) && negb (bool_decide (PRunning = PCreated)).

Definition runtime_error_display : bool :=
  String.eqb (runtime_error_to_string (EImagePull "timeout")) "image pull failed: timeout".

(** ** bin/fuzz.rs *)

Definition mutated_config_keeps_liveness_above_retry_grace : bool :=
  match mutate_config (with_liveness_ticks 1 sim_config_default) 8 with
  | Done config => LIVENESS_RETRY_GRACE_TICKS <=? liveness_ticks config
  | Panic _ => false
  end.

Definition range_of (i : nat) : Z * Z :=
  match thread_range 10 4 (Z.of_nat i) with Done r => r | Panic _ => (0, 0) end.

Definition thread_ranges_cover_each_seed_once : bool :=
  let ranges := range_of <$> seq 0 4 in
  bool_decide (ranges = [(0, 3); (3, 6); (6, 8); (8, 10)])
  && bool_decide (concat ((λ '(start, end_), seqZ start (end_ - start)) <$> ranges) = seqZ 0 10).

Definition count_is (o : outcome Z) (n : Z) : bool := match o with Done m => m =? n | Panic _ => false end.

(** The machine's parallelism is not asked for. *)
Definition thread_count_is_bounded_by_seed_count : bool :=
  count_is (resolve_thread_count 3 8 1) 3 && count_is (resolve_thread_count 0 8 1) 1.

(** ** Verdict *)

Definition unit_tests : list (string * bool) :=
  [("gpu_type_enum_values_match_zig", gpu_type_enum_values_match_zig);
   ("parse_cpuinfo_four_cores", parse_cpuinfo_four_cores);
   ("parse_cpuinfo_single_core", parse_cpuinfo_single_core);
   ("parse_cpuinfo_empty_fails", parse_cpuinfo_empty_fails);
   ("parse_meminfo_16gb", parse_meminfo_16gb);
   ("parse_meminfo_512gb", parse_meminfo_512gb);
   ("parse_meminfo_missing_fails", parse_meminfo_missing_fails);
   ("classify_a100_40gb", classify_a100_40gb);
   ("classify_a100_80gb", classify_a100_80gb);
   ("classify_h100_sxm", classify_h100_sxm);
   ("classify_h100_pcie", classify_h100_pcie);
   ("classify_h200", classify_h200);
   ("classify_l40s", classify_l40s);
   ("classify_a10g", classify_a10g);
   ("classify_t4", classify_t4);
   ("classify_unknown", classify_unknown);
   ("hostname_returns_something", hostname_returns_something);
   ("metrics_format_valid", metrics_format_valid);
   ("mount_base_path_format", mount_base_path_format);
   ("unmount_nonexistent_is_safe", unmount_nonexistent_is_safe);
   ("expired_shutdown_deadline_rejects_volume_cleanup", expired_shutdown_deadline_rejects_volume_cleanup);
   ("mount_rejects_relative_subpath_before_host_side_effects", mount_rejects_relative_subpath_before_host_side_effects);
   ("plain_env_vars_pass_through", plain_env_vars_pass_through);
   ("secret_ref_without_token_is_skipped", secret_ref_without_token_is_skipped);
   ("pod_spec_construction", pod_spec_construction);
   ("pod_status_eq", pod_status_eq);
   ("runtime_error_display", runtime_error_display);
   ("mutated_config_keeps_liveness_above_retry_grace", mutated_config_keeps_liveness_above_retry_grace);
   ("thread_ranges_cover_each_seed_once", thread_ranges_cover_each_seed_once);
   ("thread_count_is_bounded_by_seed_count", thread_count_is_bounded_by_seed_count)]%string.

(** The model passes them all. *)
Lemma unit_tests_pass : filter (λ t, t.2 = false) unit_tests = [].
Proof. vm_compute. reflexivity. Qed.
